(* ===== verification/_CoqProject ===== *)
-Q . S2P
Prelude.v
CString.v
StdMap.v
ErrorCode.v
ReadBuffer.v
Allocator.v
RedisProtocol.v
DoobsHash.v
Config.v
KeyDistributer.v
KeyLocator.v
QueryParser.v
BackendConn.v
ReplyParser.v
World.v
BackendPool.v
Lifetime.v
ConnIO.v
Commands.v
CommandQuery.v
CommandReply.v
Order.v
Worker.v
Logic.v
QueryLogic.v
ReplyLogic.v
Invariants.v
Scenario.v
PoolInvariant.v
Storage.v
OrderTheorems.v
Loops.v
Termination.v
ReplyTheorems.v
ReplyStream.v
Exchange.v
Forward.v
Stall.v
Request.v
Finish.v
MemcReply.v
Findings.v
QueryTheorems.v
Subqueries.v
Utils.v
Server.v
ServerTheorems.v
Startup.v
Stress.v
