(* ===== verification/Prelude.v ===== *)
(** * yarmproxy: a verification of the proxy

    yarmproxy is a proxy between redis and memcached clients and the servers
    ("backends") of one or more clusters.  This library models the proxy
    ([src/proxy], without the vendored logging library) and its stress client
    ([src/stress]) as executable functions and proves what makes them correct.

    ** The program

    A client connection reads queries into a buffer, turns them into commands,
    which are kept in a queue, and lets every command send its query, or a
    sub-query per backend, over connections taken from a pool.  Backends are chosen
    by a consistent-hash ring per namespace and protocol.  Replies are read into
    the buffer of the backend connection, parsed as far as is needed to find their
    end, and written to the client from there, in the order of the queries.  All
    of this runs in the handlers of one [io_service] per worker thread; the server
    accepts connections and hands them to the workers in turn.

    ** The model

    A C++ function is a Rocq function that returns [Ok] with its value and the
    state, or the [fault] for which the execution has no value: an access outside
    a buffer, a failed [assert] (the build does not define [NDEBUG]), a null or
    dangling pointer, an exception that leaves the handler.  [int] and [size_t] are
    integers with the wrap-around written out ([s32], [u32], [u64] below); pointers
    into a buffer are offsets into its storage.  The objects of a worker live in
    [World.World]: maps from identities to clients, commands and backend
    connections, the operations in flight, the timers, and the bytes handed to
    sockets.  A handler is a function of the monad [World.M].  [Worker.handle] is
    one turn of the event loop; the environment chooses which operation completes
    and how ([Worker.enabled]), so that a theorem about [Invariants.reachable]
    states holds for all clients, backends, failures and orders of events.
    An operation on a socket that was closed may end with an error, or with the result
    it already had; memory that is allocated holds arbitrary bytes, chosen anew for every
    allocation.  Object lifetimes are modelled: [Lifetime] knows which [std::shared_ptr]s exist
    and runs the destructors when the last one goes away.

    ** Files and sources

    - [Prelude], [CString], [StdMap]: faults and the error monad, machine
      integers, bytes, C strings ([memchr], [strncmp], [std::stoi]), [std::map].
    - [ErrorCode]: [error_code.*], [protocol_type.h], the error replies.
    - [ReadBuffer], [Allocator]: [read_buffer.*], [allocator.*].
    - [RedisProtocol]: [redis_protocol.h], the classes [Bulk] and [BulkArray].
    - [DoobsHash], [KeyDistributer], [KeyLocator]: [doobs_hash.*],
      [key_distributer.*], [key_locator.*].
    - [Config]: [config.*].
    - [QueryParser], [ReplyParser]: the parts of [command.cc] and of the
      [*_command.cc] that only read a query or a reply.
    - [BackendConn], [ConnIO]: [backend_conn.*], [client_conn.*], the members and
      the starting of asynchronous operations.
    - [World], [Lifetime], [BackendPool]: the state of a worker with the data of
      the command classes, destructors, [backend_pool.*].
    - [Commands], [CommandQuery], [CommandReply]: [command.*] and the classes
      derived from [Command] ([redis_basic], [redis_set], [redis_mget],
      [redis_mset], [redis_del], [memc_basic], [memc_set], [memc_get], [error],
      [stats]): construction, forwarding of queries, forwarding of replies.  One
      definition per method, named [<Class>_<method>], and one per virtual method
      that dispatches on the class; with the functions of [client_conn.cc] that
      call them ([ProcessUnparsedQuery], [RotateReplyingCommand]).
    - [Worker]: completion handlers, timers, steps.
    - [Utils], [Server]: [signal_watcher.*], [utils.cc], [logging.cc];
      [proxy_server.*], [worker_pool.*] with the threads as interleaved steps.  The
      calls of [io_context_.stop()], the end of a thread's loop and the return of a
      [join] are modelled, and so is a handler that never returns.
    - [Startup]: [main.cc], the parts of [utils.cc] and [logging.cc] that make
      system calls, as programs over the calls; the kernel answers them.  Whether the
      file system accepts what is done to a file ([os_writable]) is part of the
      state; where it does not, opening, writing and removing it may fail, and a write
      may be cut short.
    - [Stress]: the stress client [src/stress], which is a program of its own.

    ** Theorems

    - Buffers: [ReadBuffer] refines a queue of bytes, keeps the stream and does not
      move while locked; the slabs of [Allocator] never overlap.
    - Protocol: [RedisProtocol] inverts the encoding of requests, also when they
      arrive in pieces; [ReplyTheorems] finds the end of a reply exactly when its
      last byte has arrived, and so does [MemcReply] for the values of a memcached
      [get]; [QueryTheorems] describes the sub-queries of [mget] and the keys of a
      memcached [get], and [Subqueries] shows that the sub-queries of [mset], [del],
      [exists] and [touch] are requests, with the static tables of prefixes as any
      sequence of calls leaves them.
    - Routing: [KeyDistributer] finds the nearest point of the ring, and removing a
      backend moves its keys only; [KeyLocator] routes by namespace; [Config]
      reloads what was written.
    - A worker, in every reachable state: replies go out in the order of the
      queries and one at a time ([OrderTheorems]), at most sixteen commands are
      pipelined ([Invariants]), a backend connection is idle or in use by one
      command ([PoolInvariant]), no two buffers share storage ([Storage]), and
      every handler returns ([Termination]).
    - The way of a single-key request: when it has arrived it is handed to a
      connection to the backend of its key ([Request]); whatever the order in which
      operations complete, the backend is sent the query, and a reply whose first line
      takes less than two thirds of the buffer passes it whole, in order and without
      stalling ([ReplyStream], [Exchange], [Forward]); one with a longer first line does
      stall ([Stall]).  When the last byte is written the command is destroyed, its
      connection goes back to the pool and the client waits for its next request
      ([Finish]).
    - The server ([ServerTheorems]): one accept is outstanding at a time, a reload
      reaches every worker, and a server that was told to stop does so, unless a worker
      is in a handler that does not return.
    - The process ([Startup]): the pid file names the process that serves, which is
      detached where it is a daemon, and is removed at the end.
    - The stress client ([Stress]): its connections send whole queries, one at a
      time, and closed ones are replaced.
    - Errors: what the code does where it does not do what it means to
      ([Findings], [Stall], and theorems next to the components they concern).

    [Order], [Logic], [QueryLogic] and [ReplyLogic] carry the proofs about workers:
    functions are related to the state changes they are made of once
    ([Logic.respects]), and an invariant is proved by looking at the elementary
    changes only ([Logic.Stable], with the queue of commands [ReplyLogic.StableQueue],
    with the bytes on the wire [ReplyLogic.StableIO]).  [Exchange] executes
    handlers symbolically in the part of the state that concerns one client, one
    command and one connection.  [Scenario] and the witnesses run the model on
    concrete events.

    ** Bounds

    Recursion that is not structural carries a bound; running out of it is the
    fault [OutOfFuel], and [Loops] and [Termination] show that it does not occur:
    [RedisProtocol.parse_bulk_items] gets a turn per byte,
    [QueryParser.memc_get_keys] and [back_to_space] one per byte,
    [CommandQuery.set_parse_loop] and [ReplyParser.mget_loop] one per missing bulk,
    [CommandQuery.process_unparsed] sixteen (the pipeline limit),
    [CommandReply.rotate_command] and [memc_next] the length of the queue they take
    from, [Utils.search_limit] 65 (the bits of a limit, and one).  The exception is
    [ReplyParser.memc_get_loop], which gets one turn per received byte and one
    more, which is enough for every reply a server gives ([MemcReply]); with a
    negative value size the program itself does not return
    ([MemcReply.negative_value_size_spins]).

    ** Not modelled

    Logging ([loguru.*], [logging.h]); socket options and the length of timeouts
    (a timer may expire whenever it runs); data races between the threads
    (handlers are atomic and interleave); what follows an exception that leaves a
    handler; the statistics are kept per worker although [g_stats_] is global; a
    write that fails hands no bytes to the socket. The tests, their servers
    ([src/test]) and the benchmark scripts are not part of the programs. *)

From stdpp Require Export base list strings gmap fin_maps sorting.
From Stdlib Require Export ZArith Lia Ascii.
From Stdlib Require String.

#[global] Open Scope Z_scope.

(** ** Faults and the error monad

    The proxy is a C++ program: a definition that models one of its functions
    returns [Ok] with the value, or the reason for which the C++ execution has
    no value.  The release flags of [proxy/CMakeLists.txt] do not define
    [NDEBUG], so a failed [assert] is a fault too. *)
Inductive fault :=
| OutOfBounds        (** a read or write outside the storage of a buffer *)
| PointerOverflow    (** pointer arithmetic by more than half the address space *)
| AssertFailed       (** [assert(...)] with a false argument *)
| NullDeref          (** access through a null or dangling pointer, or an empty container *)
| StdException       (** an exception that leaves the handler *)
| OutOfFuel.         (** the bound of a modelled loop is used up *)

#[global] Instance fault_eq_dec : EqDecision fault.
Proof. solve_decision. Defined.

Inductive result (A : Type) :=
| Ok (a : A)
| Fault (f : fault).
Arguments Ok {A} a.
Arguments Fault {A} f.

#[global] Instance result_eq_dec `{EqDecision A} : EqDecision (result A).
Proof. solve_decision. Defined.

#[global] Instance result_ret : MRet result := fun A a => Ok a.
#[global] Instance result_bind : MBind result := fun A B k m =>
  match m with Ok a => k a | Fault f => Fault f end.

Definition res_assert (b : bool) : result unit :=
  if b then Ok tt else Fault AssertFailed.

Definition of_option {A} (f : fault) (o : option A) : result A :=
  match o with Some a => Ok a | None => Fault f end.

Definition is_Ok {A} (r : result A) : Prop := exists a, r = Ok a.

Lemma bind_Ok {A B} (m : result A) (k : A -> result B) b :
  (m ≫= k) = Ok b <-> exists a, m = Ok a /\ k a = Ok b.
Proof.
  destruct m as [a|f]; simpl; split; [eauto| |done|].
  - intros (a' & [= <-] & Hk). exact Hk.
  - intros (a' & [=] & _).
Qed.

Lemma bind_Ok_l {A B} (a : A) (k : A -> result B) : (Ok a ≫= k) = k a.
Proof. reflexivity. Qed.

Lemma of_option_Ok {A} f (o : option A) a : of_option f o = Ok a <-> o = Some a.
Proof. destruct o; simpl; split; congruence. Qed.

(** ** Machine integers

    [size_t] and [uint32_t] are unsigned: arithmetic on them is taken modulo
    the width.  [int] is 32 bits wide; a conversion to it keeps the low bits. *)
Definition u64 (x : Z) : Z := x mod 2 ^ 64.
Definition u32 (x : Z) : Z := x mod 2 ^ 32.
Definition s32 (x : Z) : Z := (x + 2 ^ 31) mod 2 ^ 32 - 2 ^ 31.

Definition INT_MAX : Z := 2 ^ 31 - 1.
Definition INT_MIN : Z := - 2 ^ 31.

Lemma u64_small x : 0 <= x < 2 ^ 64 -> u64 x = x.
Proof. apply Z.mod_small. Qed.
Lemma u32_small x : 0 <= x < 2 ^ 32 -> u32 x = x.
Proof. apply Z.mod_small. Qed.
Lemma s32_small x : - 2 ^ 31 <= x < 2 ^ 31 -> s32 x = x.
Proof. intros H. unfold s32. rewrite Z.mod_small; lia. Qed.
Lemma u64_range x : 0 <= u64 x < 2 ^ 64.
Proof. apply Z.mod_pos_bound. lia. Qed.
Lemma u32_range x : 0 <= u32 x < 2 ^ 32.
Proof. apply Z.mod_pos_bound. lia. Qed.
Lemma s32_range x : - 2 ^ 31 <= s32 x < 2 ^ 31.
Proof. unfold s32. pose proof (Z.mod_pos_bound (x + 2 ^ 31) (2 ^ 32)). lia. Qed.

(** ** Bytes

    A C++ [char] is an [ascii]; a byte string, and the storage of a buffer, is
    a list of them.  [char] is signed on the platforms the README lists. *)
Abbreviation bytes := (list ascii).

Definition str (s : string) : bytes := String.list_ascii_of_string s.

Definition CR : ascii := "013"%char.
Definition LF : ascii := "010"%char.
Definition NUL : ascii := "000"%char.
Definition SP : ascii := " "%char.
Definition crlf : bytes := [CR; LF].

Definition uchar (c : ascii) : Z := Z.of_N (N_of_ascii c).
Definition schar (c : ascii) : Z :=
  if uchar c <? 128 then uchar c else uchar c - 256.

Definition zlen {A} (l : list A) : Z := Z.of_nat (length l).

Lemma uchar_range c : 0 <= uchar c < 256.
Proof. unfold uchar. pose proof (N_ascii_bounded c). lia. Qed.
Lemma schar_range c : -128 <= schar c < 128.
Proof.
  unfold schar. pose proof (uchar_range c).
  destruct (Z.ltb_spec (uchar c) 128); lia.
Qed.

Lemma zlen_nonneg {A} (l : list A) : 0 <= zlen l.
Proof. unfold zlen. lia. Qed.
Lemma zlen_nil {A} : zlen ([] : list A) = 0.
Proof. reflexivity. Qed.
Lemma zlen_cons {A} (x : A) l : zlen (x :: l) = 1 + zlen l.
Proof. unfold zlen. simpl. lia. Qed.
Lemma zlen_app {A} (l k : list A) : zlen (l ++ k) = zlen l + zlen k.
Proof. unfold zlen. rewrite length_app. lia. Qed.
Lemma zlen_0 {A} (l : list A) : zlen l = 0 -> l = [].
Proof. destruct l; [done|]. rewrite zlen_cons. pose proof (zlen_nonneg l). lia. Qed.

(** ** Automation *)
Create HintDb yarm.
Create Rewrite HintDb yarm.
#[export] Hint Resolve zlen_nonneg u64_range u32_range s32_range uchar_range : yarm.
#[export] Hint Rewrite @zlen_nil @zlen_cons @zlen_app : yarm.

(** Takes apart an equation between a monadic computation and [Ok]. *)
Ltac inv_bind H :=
  let a := fresh "r" in let Ha := fresh "Hr" in
  apply bind_Ok in H; destruct H as (a & Ha & H).

Ltac ok_inv :=
  repeat match goal with
  | H : Ok _ = Ok _ |- _ => injection H as H; subst
  | H : mret _ = Ok _ |- _ => unfold mret, result_ret in H
  | H : Fault _ = Ok _ |- _ => discriminate H
  | H : Ok _ = Fault _ |- _ => discriminate H
  | H : res_assert ?b = Ok _ |- _ =>
      unfold res_assert in H; destruct b eqn:?
  end.

(** Length arithmetic over concatenated byte strings. *)
Ltac zlen_solve :=
  repeat rewrite ?@zlen_app, ?@zlen_cons, ?@zlen_nil in *;
  repeat match goal with
  | |- context [zlen ?l] => pose proof (zlen_nonneg l); generalize dependent (zlen l); intros
  | H : context [zlen ?l] |- _ => pose proof (zlen_nonneg l); generalize dependent (zlen l); intros
  end; lia.

(** Closed arithmetic side conditions. *)
Ltac by_compute := vm_compute; repeat split; congruence.

(** A closed decidable goal. *)
Ltac decide_goal := refine (bool_decide_unpack _ _); vm_compute; exact I.

(** ** Computations that need no bound *)
Definition fuel_free {A} (r : result A) : Prop := r <> Fault OutOfFuel.

Lemma fuel_free_Ok {A} (a : A) : fuel_free (Ok a).
Proof. done. Qed.
Lemma fuel_free_bind {A B} (m : result A) (k : A -> result B) :
  fuel_free m -> (forall a, m = Ok a -> fuel_free (k a)) -> fuel_free (m ≫= k).
Proof. unfold fuel_free. destruct m as [a|f]; simpl; [auto|]. intros H _ [= ->]. by apply H. Qed.
Lemma fuel_free_of_option {A} f (o : option A) : f <> OutOfFuel -> fuel_free (of_option f o).
Proof. intros Hf. destruct o; unfold fuel_free; simpl; congruence. Qed.
Lemma fuel_free_assert b : fuel_free (res_assert b).
Proof. by destruct b. Qed.

Create HintDb fuel.
#[export] Hint Resolve fuel_free_Ok fuel_free_assert : fuel.

(** Walks through a computation, leaving the loops to the [fuel] database. *)
Ltac fuel_free_tac :=
  repeat first
    [ progress cbv beta zeta
    | solve [eauto with fuel]
    | apply fuel_free_bind; [|intros ? ?]
    | apply fuel_free_of_option; done
    | case_match
    | done ].
