(* ===== verification/CString.v ===== *)
(** * C strings, pointers into a buffer and decimal numerals

    The parts of the C and C++ standard libraries the proxy's parsers use:
    reads through a pointer, [memchr], [strncmp], [std::string(p, n)],
    [std::stoi], [std::atoi], the [ctype.h] classifiers and the decimal output
    of [std::ostringstream].  A pointer into a buffer is the offset from the
    start of the buffer's storage; the storage is the list of its bytes. *)

From S2P Require Import Prelude.

(** ** Reading through a pointer *)

(** The storage from the pointer [p] on. *)
Definition at_ptr (m : bytes) (p : Z) : bytes :=
  if p <? 0 then [] else drop (Z.to_nat p) m.

(** [*p] *)
Definition rd (m : bytes) (p : Z) : result ascii :=
  if p <? 0 then Fault OutOfBounds
  else of_option OutOfBounds (m !! Z.to_nat p).

(** [p += n] for a [size_t n]: out of the address space when [n] is half of it
    or more. *)
Definition ptr_add (p n : Z) : result Z :=
  if n <? 2 ^ 63 then Ok (p + n) else Fault PointerOverflow.

(** [std::string(p, n)] *)
Definition read_bytes (m : bytes) (p n : Z) : result bytes :=
  if (p <? 0) || (n <? 0) || (zlen m <? p + n) then Fault OutOfBounds
  else Ok (take (Z.to_nat n) (drop (Z.to_nat p) m)).

Fixpoint memchr_from (l : bytes) (c : ascii) (n : nat) : result (option nat) :=
  match n with
  | O => Ok None
  | S n' =>
      match l with
      | [] => Fault OutOfBounds
      | x :: l' =>
          if bool_decide (x = c) then Ok (Some O)
          else r ← memchr_from l' c n'; Ok (fmap (M:=option) S r)
      end
  end.

(** [memchr(p, c, n)], the pointer it returns or [None] for a null pointer *)
Definition memchr (m : bytes) (p : Z) (c : ascii) (n : Z) : result (option Z) :=
  r ← memchr_from (at_ptr m p) c (Z.to_nat n);
  Ok (fmap (M:=option) (fun k : nat => p + Z.of_nat k) r).

(** The C string at the head of the storage: everything before the first NUL. *)
Fixpoint c_string (l : bytes) : result bytes :=
  match l with
  | [] => Fault OutOfBounds
  | c :: l' =>
      if bool_decide (c = NUL) then Ok [] else s ← c_string l'; Ok (c :: s)
  end.

(** [strncmp(l, s, n) == 0] for a literal [s] without NUL and [n] at most its
    length: reading stops at the first difference. *)
Fixpoint strncmp_eq (l s : bytes) (n : nat) : result bool :=
  match n, s with
  | S n', c :: s' =>
      match l with
      | [] => Fault OutOfBounds
      | x :: l' => if bool_decide (x = c) then strncmp_eq l' s' n' else Ok false
      end
  | _, _ => Ok true
  end.

(** ** [ctype.h] in the "C" locale *)
Definition isdigit (c : ascii) : bool := (48 <=? uchar c) && (uchar c <=? 57).
Definition isspace (c : ascii) : bool :=
  (uchar c =? 32) || ((9 <=? uchar c) && (uchar c <=? 13)).
Definition tolower (c : ascii) : ascii :=
  if (65 <=? uchar c) && (uchar c <=? 90)
  then ascii_of_N (Z.to_N (uchar c + 32)) else c.

(** ** [std::stoi] and [std::atoi] *)
Fixpoint digits_val (l : bytes) (acc : Z) : Z :=
  match l with
  | c :: l' => if isdigit c then digits_val l' (acc * 10 + (uchar c - 48)) else acc
  | [] => acc
  end.

Fixpoint skip_space (l : bytes) : bytes :=
  match l with
  | c :: l' => if isspace c then skip_space l' else l
  | [] => []
  end.

(** The subject sequence of [strtol(s, _, 10)]: its value, or [None] when there
    is no digit. *)
Definition strtol (s : bytes) : option Z :=
  let unsigned l :=
    match l with
    | c :: _ => if isdigit c then Some (digits_val l 0) else None
    | [] => None
    end in
  match skip_space s with
  | c :: l =>
      if bool_decide (c = "-"%char) then Z.opp <$> unsigned l
      else if bool_decide (c = "+"%char) then unsigned l
      else unsigned (c :: l)
  | [] => None
  end.

(** [std::stoi]: [None] is [invalid_argument] or [out_of_range]. *)
Definition stoi (s : bytes) : option Z :=
  match strtol s with
  | Some v => if (INT_MIN <=? v) && (v <=? INT_MAX) then Some v else None
  | None => None
  end.

(** [std::atoi], as [(int)strtol(s)]: [strtol] saturates at the limits of
    [long], the conversion keeps the low 32 bits. *)
Definition atoi (s : bytes) : Z :=
  match strtol s with
  | Some v => s32 (Z.max (- 2 ^ 63) (Z.min (2 ^ 63 - 1) v))
  | None => 0
  end.

(** ** Decimal output *)
Definition digit (d : Z) : ascii := ascii_of_N (Z.to_N (48 + d)).

Fixpoint dec_fuel (fuel : nat) (n : Z) : bytes :=
  match fuel with
  | O => []
  | S k => if n <? 10 then [digit n]
           else dec_fuel k (n / 10) ++ [digit (n mod 10)]
  end.

(** [oss << n] for an unsigned [n]; a number has at most one more digit than
    its binary logarithm. *)
Definition dec (n : Z) : bytes := dec_fuel (S (Z.to_nat (Z.log2 n))) n.

(** [oss << n] for a signed [n] *)
Definition dec_int (n : Z) : bytes :=
  if n <? 0 then "-"%char :: dec (- n) else dec n.

(** ** Lemmas *)

Lemma at_ptr_0 m : at_ptr m 0 = m.
Proof. reflexivity. Qed.

Lemma at_ptr_app m k : at_ptr (m ++ k) (zlen m) = k.
Proof.
  unfold at_ptr. rewrite (proj2 (Z.ltb_ge _ _) (zlen_nonneg m)).
  unfold zlen. rewrite Nat2Z.id. apply drop_app_length.
Qed.

Lemma at_ptr_at_ptr m p q : 0 <= p -> 0 <= q -> at_ptr (at_ptr m p) q = at_ptr m (p + q).
Proof.
  intros Hp Hq. unfold at_ptr.
  rewrite !(proj2 (Z.ltb_ge _ _)) by lia. rewrite drop_drop. f_equal. lia.
Qed.

Lemma at_ptr_app_split m k p :
  0 <= p <= zlen m -> at_ptr (m ++ k) p = at_ptr m p ++ k.
Proof.
  intros Hp. unfold at_ptr. rewrite !(proj2 (Z.ltb_ge _ _)) by lia.
  unfold zlen in Hp. rewrite drop_app_le; [done|lia].
Qed.

Lemma rd_at_ptr m p :
  0 <= p -> rd m p = match at_ptr m p with c :: _ => Ok c | [] => Fault OutOfBounds end.
Proof.
  intros Hp. unfold rd, at_ptr. rewrite !(proj2 (Z.ltb_ge _ _)) by lia.
  generalize (Z.to_nat p); clear Hp p. induction m as [|c m IH]; intros [|n]; simpl; auto.
Qed.

Lemma rd_Ok_range m p c : rd m p = Ok c -> 0 <= p < zlen m.
Proof.
  unfold rd. destruct (Z.ltb_spec p 0) as [|Hp]; [done|].
  intros Hm%of_option_Ok%lookup_lt_Some. unfold zlen. lia.
Qed.

Lemma rd_is_Ok m p : 0 <= p < zlen m -> is_Ok (rd m p).
Proof.
  intros Hp. unfold rd. rewrite (proj2 (Z.ltb_ge _ _)) by lia.
  destruct (lookup_lt_is_Some_2 m (Z.to_nat p)) as [c Hc]; [unfold zlen in Hp; lia|].
  exists c. by rewrite Hc.
Qed.

(** [memchr] finds the first occurrence within the first [n] bytes. *)
Lemma memchr_from_app_found l c l' n :
  c ∉ l -> (length l < n)%nat -> memchr_from (l ++ c :: l') c n = Ok (Some (length l)).
Proof.
  revert n. induction l as [|x l IH]; intros [|n] Hc Hn; simpl in *; try lia.
  - by rewrite bool_decide_true.
  - rewrite bool_decide_false by set_solver. rewrite IH by (set_solver || lia). done.
Qed.

Lemma memchr_from_absent l c n :
  (n <= length l)%nat -> c ∉ take n l -> memchr_from l c n = Ok None.
Proof.
  revert l. induction n as [|n IH]; intros [|x l] Hn Hc; simpl in *; try done; [lia|].
  rewrite bool_decide_false by set_solver. rewrite IH by (set_solver || lia). done.
Qed.

Lemma memchr_from_Some l c n k :
  memchr_from l c n = Ok (Some k) ->
  (k < n)%nat /\ l !! k = Some c /\ c ∉ take k l.
Proof.
  revert l k. induction n as [|n IH]; intros [|x l] k H; simpl in H; try done.
  case_bool_decide as Hx; [injection H as <-; split; [lia|set_solver]|].
  inv_bind H. destruct r as [j|]; simpl in H; [|done]. injection H as <-.
  apply IH in Hr as (? & ? & ?). simpl. split; [lia|]. split; [done|set_solver].
Qed.

(** *** Decimal numerals *)
Lemma uchar_digit d : 0 <= d < 10 -> uchar (digit d) = 48 + d.
Proof. intros H. unfold uchar, digit. rewrite N_ascii_embedding; lia. Qed.

Lemma isdigit_digit d : 0 <= d < 10 -> isdigit (digit d) = true.
Proof. intros H. unfold isdigit. rewrite uchar_digit by done. lia. Qed.

Lemma digits_val_app l k acc :
  Forall (fun c => isdigit c = true) l ->
  digits_val (l ++ k) acc = digits_val k (digits_val l acc).
Proof.
  intros H. revert acc. induction H as [|c l Hc Hl IH]; intros acc; simpl; [done|].
  by rewrite Hc, IH.
Qed.

Lemma log2_div10 n : 10 <= n -> Z.log2 (n / 10) <= Z.log2 n - 3.
Proof.
  intros Hn. apply Z.lt_succ_r. apply Z.log2_lt_pow2; [apply Z.div_str_pos; lia|].
  pose proof (Z.log2_spec n ltac:(lia)) as [_ Hlt].
  assert (3 <= Z.log2 n) by (apply (Z.log2_le_mono 8); lia).
  replace (Z.succ (Z.log2 n)) with (Z.succ (Z.log2 n - 3) + 3) in Hlt by lia.
  rewrite Z.pow_add_r in Hlt by lia.
  apply Z.div_lt_upper_bound; lia.
Qed.

Lemma dec_fuel_spec fuel n :
  0 <= n -> Z.log2 n < Z.of_nat fuel ->
  Forall (fun c => isdigit c = true) (dec_fuel fuel n) /\
  digits_val (dec_fuel fuel n) 0 = n /\ dec_fuel fuel n <> [].
Proof.
  revert n. induction fuel as [|k IH]; intros n Hn Hf;
    [pose proof (Z.log2_nonneg n); lia|].
  cbn [dec_fuel]. destruct (Z.ltb_spec n 10) as [Hlt|Hge].
  - split; [|split]; [|simpl; rewrite isdigit_digit, uchar_digit by lia; lia|done].
    constructor; [by apply isdigit_digit|constructor].
  - pose proof (log2_div10 n Hge). pose proof (Z.mod_pos_bound n 10).
    destruct (IH (n / 10)) as (Hd & Hv & _); [apply Z.div_pos; lia|lia|].
    split; [|split].
    + apply Forall_app. split; [done|].
      constructor; [apply isdigit_digit; lia|constructor].
    + rewrite digits_val_app by done. rewrite Hv. simpl.
      rewrite isdigit_digit, uchar_digit by lia. pose proof (Z_div_mod_eq_full n 10). lia.
    + destruct (dec_fuel k (n / 10)); done.
Qed.

Section dec.
Context (n : Z) (Hn : 0 <= n).

Lemma dec_spec :
  Forall (fun c => isdigit c = true) (dec n) /\ digits_val (dec n) 0 = n /\ dec n <> [].
Proof.
  apply dec_fuel_spec; [done|]. pose proof (Z.log2_nonneg n). lia.
Qed.

Lemma dec_digits : Forall (fun c => isdigit c = true) (dec n).
Proof. apply dec_spec. Qed.

Lemma dec_not_nil : dec n <> [].
Proof. apply dec_spec. Qed.

Lemma digits_val_dec_app c k : isdigit c = false -> digits_val (dec n ++ c :: k) 0 = n.
Proof.
  intros Hc. rewrite digits_val_app by apply dec_digits.
  destruct dec_spec as (_ & -> & _). simpl. by rewrite Hc.
Qed.
End dec.

Lemma isdigit_not_special c :
  isdigit c = true -> isspace c = false /\ c <> "-"%char /\ c <> "+"%char /\ c <> CR /\ c <> LF /\ c <> NUL.
Proof.
  intros H. unfold isdigit in H.
  split; [unfold isspace; lia|]. repeat split; intros ->; vm_compute in H; discriminate.
Qed.

(** Printing then reading a number gives the number back, whatever follows. *)
Lemma strtol_dec_app n c k :
  0 <= n -> isdigit c = false -> strtol (dec n ++ c :: k) = Some n.
Proof.
  intros Hn Hc. pose proof (dec_digits n Hn) as Hd. pose proof (dec_not_nil n Hn) as Hnil.
  pose proof (digits_val_dec_app n Hn c k Hc) as Hv.
  destruct (dec n) as [|d l]; [done|]. inversion_clear Hd as [|?? Hdig _].
  destruct (isdigit_not_special d Hdig) as (Hs & Hm & Hp & _).
  unfold strtol. simpl. rewrite Hs. rewrite !bool_decide_false by done.
  rewrite Hdig. f_equal. simpl in Hv. by rewrite Hdig in Hv.
Qed.

Lemma stoi_dec_app n c k :
  0 <= n <= INT_MAX -> isdigit c = false -> stoi (dec n ++ c :: k) = Some n.
Proof.
  intros Hn Hc. unfold stoi. rewrite strtol_dec_app by (lia || done).
  unfold INT_MIN, INT_MAX in *.
  by rewrite !(proj2 (Z.leb_le _ _)) by lia.
Qed.

Lemma c_string_app l k :
  NUL ∉ l -> c_string (l ++ k) = (s ← c_string k; Ok (l ++ s)).
Proof.
  induction l as [|c l IH]; intros Hl; simpl; [by destruct (c_string k)|].
  rewrite bool_decide_false by set_solver. rewrite IH by set_solver.
  by destruct (c_string k).
Qed.

Lemma c_string_Ok l : NUL ∈ l -> is_Ok (c_string l).
Proof.
  induction l as [|c l IH]; intros Hl; [set_solver|]. simpl.
  case_bool_decide; [by eexists|].
  destruct IH as [s Hs]; [set_solver|]. exists (c :: s). by rewrite Hs.
Qed.

(** Without a NUL the scan for the end of the string leaves the storage. *)
Lemma c_string_fault l : NUL ∉ l -> c_string l = Fault OutOfBounds.
Proof.
  induction l as [|c l IH]; intros Hl; [done|]. simpl.
  rewrite bool_decide_false by set_solver. rewrite IH by set_solver. done.
Qed.

(** ** Writing to a buffer *)

(** [memcpy(m + p, bs, n)] with [n] the length of [bs] *)
Definition mem_write (m : bytes) (p : Z) (bs : bytes) : result bytes :=
  if (p <? 0) || (zlen m <? p + zlen bs) then Fault OutOfBounds
  else Ok (take (Z.to_nat p) m ++ bs ++ drop (Z.to_nat (p + zlen bs)) m).

(** The bytes of the storage between two offsets. *)
Definition slice (m : bytes) (i j : Z) : bytes :=
  take (Z.to_nat (j - i)) (drop (Z.to_nat i) m).

Lemma mem_write_Ok m p bs :
  0 <= p -> p + zlen bs <= zlen m ->
  mem_write m p bs = Ok (take (Z.to_nat p) m ++ bs ++ drop (Z.to_nat (p + zlen bs)) m).
Proof.
  intros Hp Hb. unfold mem_write.
  by rewrite (proj2 (Z.ltb_ge p 0)), (proj2 (Z.ltb_ge _ _)) by lia.
Qed.

Lemma mem_write_inv m p bs m' :
  mem_write m p bs = Ok m' ->
  0 <= p /\ p + zlen bs <= zlen m /\
  m' = take (Z.to_nat p) m ++ bs ++ drop (Z.to_nat (p + zlen bs)) m.
Proof.
  unfold mem_write. destruct (Z.ltb_spec p 0), (Z.ltb_spec (zlen m) (p + zlen bs)); naive_solver.
Qed.

Lemma zlen_mem_write m p bs m' : mem_write m p bs = Ok m' -> zlen m' = zlen m.
Proof.
  intros (Hp & Hb & ->)%mem_write_inv. unfold zlen in *.
  rewrite !length_app, length_take, length_drop. lia.
Qed.

Lemma zlen_slice m i j : 0 <= i <= j -> j <= zlen m -> zlen (slice m i j) = j - i.
Proof.
  intros Hi Hj. unfold slice, zlen in *. rewrite length_take, length_drop. lia.
Qed.

Lemma slice_nil m i : slice m i i = [].
Proof. unfold slice. by rewrite Z.sub_diag. Qed.

Lemma lookup_slice m i j k :
  0 <= i -> slice m i j !! k =
  if decide (Z.of_nat k < j - i) then m !! (Z.to_nat i + k)%nat else None.
Proof.
  intros Hi. unfold slice. case_decide.
  - rewrite lookup_take_lt by lia. apply lookup_drop.
  - apply lookup_ge_None_2. rewrite length_take. lia.
Qed.

(** A write outside a window leaves the window's bytes as they were. *)
Lemma slice_mem_write_disjoint m p bs m' i j :
  mem_write m p bs = Ok m' -> 0 <= i <= j -> j <= zlen m ->
  j <= p \/ p + zlen bs <= i -> slice m' i j = slice m i j.
Proof.
  intros (Hp & Hb & ->)%mem_write_inv Hi Hj Hd. apply list_eq. intros k.
  rewrite !lookup_slice by lia. case_decide; [|done]. unfold zlen in *.
  destruct Hd.
  - rewrite lookup_app_l by (rewrite length_take; lia). by rewrite lookup_take_lt by lia.
  - rewrite lookup_app_r by (rewrite length_take; lia).
    rewrite lookup_app_r by (rewrite length_take; lia). rewrite lookup_drop, length_take.
    f_equal. lia.
Qed.

(** A write at the end of a window extends it by the bytes written. *)
Lemma slice_mem_write_extend m i p bs m' :
  mem_write m p bs = Ok m' -> 0 <= i <= p ->
  slice m' i (p + zlen bs) = slice m i p ++ bs.
Proof.
  intros (Hp & Hb & ->)%mem_write_inv Hi. apply list_eq. intros k. unfold zlen in *.
  assert (length (slice m i p) = Z.to_nat (p - i)) as Hl
    by (unfold slice; rewrite length_take, length_drop; lia).
  rewrite lookup_slice by lia. case_decide as Hk.
  - destruct (decide (Z.of_nat k < p - i)) as [Hlt|Hge].
    + rewrite lookup_app_l by (rewrite length_take; lia).
      rewrite lookup_take_lt by lia. rewrite (lookup_app_l (slice m i p)) by lia.
      rewrite lookup_slice by lia. by rewrite decide_True.
    + rewrite lookup_app_r by (rewrite length_take; lia). rewrite length_take.
      rewrite lookup_app_l by lia. rewrite lookup_app_r by lia. f_equal. lia.
  - symmetry. apply lookup_ge_None_2. rewrite length_app. lia.
Qed.

Lemma slice_split m i j k : 0 <= i <= j -> j <= k -> k <= zlen m ->
  slice m i k = slice m i j ++ slice m j k.
Proof.
  intros Hi Hj Hk. unfold slice, zlen in *.
  replace (Z.to_nat (k - i)) with (Z.to_nat (j - i) + Z.to_nat (k - j))%nat by lia.
  rewrite <- take_take_drop, drop_drop. do 3 f_equal. lia.
Qed.

Lemma read_bytes_slice m p n :
  0 <= p -> 0 <= n -> p + n <= zlen m -> read_bytes m p n = Ok (slice m p (p + n)).
Proof.
  intros Hp Hn Hm. unfold read_bytes, slice.
  rewrite !(proj2 (Z.ltb_ge _ _)) by lia. simpl. do 3 f_equal. lia.
Qed.
