(* ===== verification/StdMap.v ===== *)
(** * Ordered containers of the C++ standard library

    [std::map] and [std::set] iterate in the order of their keys, and the
    proxy's behaviour follows that order (the lowest free slab is allocated
    first, sub-queries are sent backend by backend in endpoint order).  A map is
    the list of its entries in key order. *)

From S2P Require Import Prelude.

(** [operator<] of a key type *)
Class KeyLt (K : Type) := key_ltb : K -> K -> bool.

Class KeyOrder (K : Type) `{KeyLt K} : Prop := {
  key_lt_irrefl k : key_ltb k k = false;
  key_lt_trans k1 k2 k3 : key_ltb k1 k2 = true -> key_ltb k2 k3 = true -> key_ltb k1 k3 = true;
  key_lt_total k1 k2 : key_ltb k1 k2 = false -> key_ltb k2 k1 = false -> k1 = k2
}.

#[global] Instance Z_key_lt : KeyLt Z := Z.ltb.
#[global] Instance Z_key_order : KeyOrder Z.
Proof. split; unfold key_ltb, Z_key_lt; intros; lia. Qed.

Lemma key_ltb_Z (a b : Z) : key_ltb a b = (a <? b).
Proof. reflexivity. Qed.

(** Pairs compare lexicographically. *)
#[global] Instance pair_key_lt `{KeyLt A, KeyLt B} : KeyLt (A * B) := fun p q =>
  key_ltb p.1 q.1 || (negb (key_ltb q.1 p.1) && key_ltb p.2 q.2).

#[global] Instance pair_key_order `{KeyOrder A, KeyOrder B} : KeyOrder (A * B).
Proof.
  split; unfold key_ltb, pair_key_lt.
  - intros [a b]. simpl. by rewrite !key_lt_irrefl.
  - intros [a1 b1] [a2 b2] [a3 b3]; simpl. rewrite !orb_true_iff, !andb_true_iff, !negb_true_iff.
    intros [H12|[H12 Hb12]] [H23|[H23 Hb23]].
    + left. by eapply key_lt_trans.
    + left. destruct (key_ltb a2 a3) eqn:E; [by eapply key_lt_trans|].
      by rewrite <- (key_lt_total _ _ E H23).
    + left. destruct (key_ltb a1 a2) eqn:E; [by eapply key_lt_trans|].
      by rewrite (key_lt_total _ _ E H12).
    + destruct (key_ltb a1 a2) eqn:E12, (key_ltb a2 a3) eqn:E23.
      * left. by eapply key_lt_trans.
      * left. by rewrite <- (key_lt_total _ _ E23 H23).
      * left. by rewrite (key_lt_total _ _ E12 H12).
      * rewrite (key_lt_total _ _ E12 H12), (key_lt_total _ _ E23 H23).
        right. split; [apply key_lt_irrefl|by eapply key_lt_trans].
  - intros [a1 b1] [a2 b2]; simpl. rewrite !orb_false_iff, !andb_false_iff, !negb_false_iff.
    intros [Ha Hb] [Ha' Hb']. pose proof (key_lt_total _ _ Ha Ha') as ->. f_equal.
    destruct Hb as [Hb|Hb]; [by rewrite key_lt_irrefl in Hb|].
    destruct Hb' as [Hb'|Hb']; [by rewrite key_lt_irrefl in Hb'|].
    by apply key_lt_total.
Qed.

Section smap.
Context {K : Type} `{KeyLt K} {V : Type}.

Definition smap := list (K * V).

(** [find]: the entry is the one that is neither below nor above the key. *)
Fixpoint sm_find (k : K) (m : smap) : option V :=
  match m with
  | [] => None
  | (k', v) :: m' =>
      if key_ltb k k' then None
      else if key_ltb k' k then sm_find k m' else Some v
  end.

(** [emplace] and [insert]: an entry with an equal key stays as it is. *)
Fixpoint sm_emplace (k : K) (v : V) (m : smap) : smap :=
  match m with
  | [] => [(k, v)]
  | (k', v') :: m' =>
      if key_ltb k k' then (k, v) :: m
      else if key_ltb k' k then (k', v') :: sm_emplace k v m' else m
  end.

(** [m[k] = v], and an update through the iterator [find] returned *)
Fixpoint sm_set (k : K) (v : V) (m : smap) : smap :=
  match m with
  | [] => [(k, v)]
  | (k', v') :: m' =>
      if key_ltb k k' then (k, v) :: m
      else if key_ltb k' k then (k', v') :: sm_set k v m' else (k, v) :: m'
  end.

Fixpoint sm_erase (k : K) (m : smap) : smap :=
  match m with
  | [] => []
  | (k', v') :: m' =>
      if key_ltb k k' then m
      else if key_ltb k' k then (k', v') :: sm_erase k m' else m'
  end.

(** Strictly increasing keys. *)
Definition sm_sorted (m : smap) : Prop :=
  StronglySorted (fun a b => key_ltb a b = true) (m.*1).
End smap.
Arguments smap K V : clear implicits.

Section smap_facts.
Context {K : Type} `{KeyOrder K} {V : Type}.
Implicit Types (k : K) (v : V) (m : smap K V).

Lemma key_lt_asym k1 k2 : key_ltb k1 k2 = true -> key_ltb k2 k1 = false.
Proof.
  intros H12. destruct (key_ltb k2 k1) eqn:H21; [|done].
  pose proof (key_lt_trans _ _ _ H12 H21) as Hx. by rewrite key_lt_irrefl in Hx.
Qed.

Lemma sm_sorted_cons k v m :
  sm_sorted ((k, v) :: m) <-> sm_sorted m /\ Forall (fun e => key_ltb k e.1 = true) m.
Proof.
  unfold sm_sorted. simpl. split.
  - intros Hs. apply StronglySorted_inv in Hs as [? Hf]. split; [done|].
    by apply Forall_fmap in Hf.
  - intros [? Hf]. constructor; [done|]. by apply Forall_fmap.
Qed.

Lemma sm_find_lt k m : Forall (fun e => key_ltb k e.1 = true) m -> sm_find k m = None.
Proof. intros Hf. destruct Hf as [|[k' v'] m Hk _]; simpl in *; [done|]. by rewrite Hk. Qed.

Lemma sm_find_elem k v m : sm_sorted m -> sm_find k m = Some v <-> (k, v) ∈ m.
Proof.
  induction m as [|[k' v'] m IH]; intros Hs; [set_solver|].
  apply sm_sorted_cons in Hs as [Hs Hf]. simpl. rewrite elem_of_cons, <- IH by done.
  destruct (key_ltb k k') eqn:Hlt.
  - split; [done|]. intros [[= -> ->]|Hin]; [by rewrite key_lt_irrefl in Hlt|].
    apply IH, (proj1 (Forall_forall _ _) Hf) in Hin; [|done]. simpl in Hin.
    pose proof (key_lt_trans _ _ _ Hlt Hin) as Hx. by rewrite key_lt_irrefl in Hx.
  - destruct (key_ltb k' k) eqn:Hgt.
    + split; [by right|]. intros [[= -> ->]|]; [by rewrite key_lt_irrefl in Hgt|done].
    + pose proof (key_lt_total _ _ Hlt Hgt) as ->. rewrite (sm_find_lt _ _ Hf).
      naive_solver.
Qed.

(** Entries of the map after [emplace]: the new one if the key was absent. *)
Lemma sm_emplace_elem k v m e :
  sm_sorted m ->
  e ∈ sm_emplace k v m <-> e ∈ m \/ (sm_find k m = None /\ e = (k, v)).
Proof.
  induction m as [|[k' v'] m IH]; intros Hs; simpl; [set_solver|].
  apply sm_sorted_cons in Hs as [Hs Hf].
  destruct (key_ltb k k') eqn:Hlt; [set_solver|].
  destruct (key_ltb k' k) eqn:Hgt; [|naive_solver].
  rewrite !elem_of_cons, IH by done. tauto.
Qed.

Lemma sm_emplace_Forall (P : K * V -> Prop) k v m :
  Forall P m -> P (k, v) -> Forall P (sm_emplace k v m).
Proof.
  intros Hf Hp. induction Hf as [|[k' v'] m Hk Hf IH]; simpl; [by constructor|].
  repeat case_match; repeat constructor; auto.
Qed.

Lemma sm_emplace_sorted k v m : sm_sorted m -> sm_sorted (sm_emplace k v m).
Proof.
  induction m as [|[k' v'] m IH]; intros Hs; simpl; [repeat constructor|].
  destruct (key_ltb k k') eqn:Hlt.
  - apply sm_sorted_cons. split; [done|]. constructor; [done|].
    apply sm_sorted_cons in Hs as [_ Hf]. eapply Forall_impl; [exact Hf|].
    intros e He. by eapply key_lt_trans.
  - destruct (key_ltb k' k) eqn:Hgt; [|done].
    apply sm_sorted_cons in Hs as [Hs Hf]. apply sm_sorted_cons. split; [by apply IH|].
    by apply sm_emplace_Forall.
Qed.

Lemma sm_find_emplace k v m :
  sm_sorted m -> sm_find k m = None -> sm_find k (sm_emplace k v m) = Some v.
Proof.
  intros Hs Hn. apply sm_find_elem; [by apply sm_emplace_sorted|].
  apply sm_emplace_elem; auto.
Qed.

Lemma sm_find_emplace_ne k k' v m :
  sm_sorted m -> k <> k' -> sm_find k' (sm_emplace k v m) = sm_find k' m.
Proof.
  intros Hs Hne. apply option_eq. intros x.
  rewrite !sm_find_elem by (done || by apply sm_emplace_sorted).
  rewrite sm_emplace_elem by done. naive_solver.
Qed.

Lemma sm_emplace_perm k v m : sm_find k m = None -> sm_emplace k v m ≡ₚ (k, v) :: m.
Proof.
  induction m as [|[k' v'] m IH]; simpl; intros Hn; [done|].
  destruct (key_ltb k k'); [done|]. destruct (key_ltb k' k); [|done].
  rewrite IH by done. apply Permutation_swap.
Qed.

Lemma sm_find_not_elem k m : k ∉ m.*1 -> sm_sorted m -> sm_find k m = None.
Proof.
  intros Hk Hs. apply eq_None_ne_Some_2. intros v Hf. apply sm_find_elem in Hf; [|done].
  apply Hk. apply list_elem_of_fmap. by exists (k, v).
Qed.

Lemma sm_sorted_tail e m : sm_sorted (e :: m) -> sm_sorted m.
Proof. destruct e. intros Hs. by apply sm_sorted_cons in Hs as [? _]. Qed.

Lemma sm_sorted_NoDup m : sm_sorted m -> NoDup (m.*1).
Proof.
  induction m as [|[k v] m IH]; intros Hs; simpl; [constructor|].
  apply sm_sorted_cons in Hs as [Hs Hf]. constructor; [|by apply IH].
  intros ([k' v'] & -> & Hin)%list_elem_of_fmap. simpl in *.
  apply (proj1 (Forall_forall _ _) Hf) in Hin. simpl in Hin. by rewrite key_lt_irrefl in Hin.
Qed.

Lemma sm_set_Forall (P : K * V -> Prop) k v m : Forall P m -> P (k, v) -> Forall P (sm_set k v m).
Proof.
  intros Hf Hp. induction Hf as [|[k' v'] m Hk Hf IH]; simpl; [by constructor|].
  repeat case_match; repeat constructor; auto.
Qed.

Lemma sm_set_sorted k v m : sm_sorted m -> sm_sorted (sm_set k v m).
Proof.
  induction m as [|[k' v'] m IH]; intros Hs; simpl; [repeat constructor|].
  apply sm_sorted_cons in Hs as [Hs Hf]. destruct (key_ltb k k') eqn:Hlt.
  - apply sm_sorted_cons. split; [by apply sm_sorted_cons|]. constructor; [done|].
    eapply Forall_impl; [exact Hf|]. intros e He. by eapply key_lt_trans.
  - destruct (key_ltb k' k) eqn:Hgt.
    + apply sm_sorted_cons. split; [by apply IH|]. by apply sm_set_Forall.
    + pose proof (key_lt_total _ _ Hlt Hgt) as ->. by apply sm_sorted_cons.
Qed.

(** A key below all others is not among them. *)
Lemma key_lt_Forall_ne k m e : Forall (fun e => key_ltb k e.1 = true) m -> e ∈ m -> e.1 <> k.
Proof.
  intros Hf He. apply (proj1 (Forall_forall _ _) Hf) in He. intros <-. by rewrite key_lt_irrefl in He.
Qed.

Lemma sm_set_elem k v m e :
  sm_sorted m -> e ∈ sm_set k v m <-> e = (k, v) \/ (e ∈ m /\ e.1 <> k).
Proof.
  induction m as [|[k' v'] m IH]; intros Hs; simpl; [set_solver|].
  apply sm_sorted_cons in Hs as [Hs Hf]. destruct (key_ltb k k') eqn:Hlt.
  - assert (forall e, e ∈ (k', v') :: m -> e.1 <> k) as Hne.
    { intros e' He'. apply (key_lt_Forall_ne k ((k', v') :: m)); [|done]. constructor; [done|].
      eapply Forall_impl; [exact Hf|]. intros x Hx. by eapply key_lt_trans. }
    rewrite elem_of_cons. naive_solver.
  - destruct (key_ltb k' k) eqn:Hgt.
    + assert (k' <> k) by (intros ->; by rewrite key_lt_irrefl in Hgt).
      rewrite !elem_of_cons, IH by done. naive_solver.
    + pose proof (key_lt_total _ _ Hlt Hgt) as ->.
      assert (forall e, e ∈ m -> e.1 <> k') by (intros; by eapply key_lt_Forall_ne).
      rewrite !elem_of_cons. naive_solver.
Qed.

Lemma sm_erase_elem k m e : sm_sorted m -> e ∈ sm_erase k m <-> e ∈ m /\ e.1 <> k.
Proof.
  induction m as [|[k' v'] m IH]; intros Hs; simpl; [set_solver|].
  apply sm_sorted_cons in Hs as [Hs Hf]. destruct (key_ltb k k') eqn:Hlt.
  - split; [|naive_solver]. intros He. split; [done|].
    apply (key_lt_Forall_ne k ((k', v') :: m)); [|done]. constructor; [done|].
    eapply Forall_impl; [exact Hf|]. intros x Hx. by eapply key_lt_trans.
  - destruct (key_ltb k' k) eqn:Hgt.
    + assert (k' <> k) by (intros ->; by rewrite key_lt_irrefl in Hgt).
      rewrite !elem_of_cons, IH by done. naive_solver.
    + pose proof (key_lt_total _ _ Hlt Hgt) as ->.
      assert (forall e, e ∈ m -> e.1 <> k') by (intros; by eapply key_lt_Forall_ne).
      rewrite !elem_of_cons. naive_solver.
Qed.

Lemma sm_erase_sorted k m : sm_sorted m -> sm_sorted (sm_erase k m).
Proof.
  induction m as [|[k' v'] m IH]; intros Hs; simpl; [done|].
  pose proof Hs as Hs0. apply sm_sorted_cons in Hs as [Hs Hf]. destruct (key_ltb k k'); [done|].
  destruct (key_ltb k' k); [|done]. apply sm_sorted_cons. split; [by apply IH|].
  apply Forall_forall. intros e He. apply sm_erase_elem in He as [He _]; [|done].
  by apply (proj1 (Forall_forall _ _) Hf).
Qed.

Lemma sm_find_set k v m : sm_sorted m -> sm_find k (sm_set k v m) = Some v.
Proof.
  intros Hs. apply sm_find_elem; [by apply sm_set_sorted|]. apply sm_set_elem; auto.
Qed.
Lemma sm_find_set_ne k k' v m : sm_sorted m -> k <> k' -> sm_find k' (sm_set k v m) = sm_find k' m.
Proof.
  intros Hs Hne. apply option_eq. intros x.
  rewrite !sm_find_elem by (done || by apply sm_set_sorted). rewrite sm_set_elem by done. naive_solver.
Qed.

(** [emplace], then [find], in any list *)
Lemma sm_find_emplace_any k v m :
  sm_find k (sm_emplace k v m) = Some (default v (sm_find k m)) /\
  (is_Some (sm_find k m) -> sm_emplace k v m = m).
Proof.
  induction m as [|[k' v'] m [IH1 IH2]]; simpl.
  - rewrite key_lt_irrefl. split; [done|]. by intros [].
  - destruct (key_ltb k k') eqn:Hlt; simpl.
    + rewrite key_lt_irrefl. split; [done|]. by intros [].
    + destruct (key_ltb k' k) eqn:Hgt; simpl; rewrite Hlt, Hgt; [|done].
      split; [done|]. intros Hx. by rewrite IH2.
Qed.
End smap_facts.

#[export] Hint Resolve sm_emplace_sorted sm_set_sorted sm_erase_sorted sm_sorted_tail : yarm.
