(* ===== verification/ErrorCode.v ===== *)
(** * Error codes, protocol types and the error replies

    [proxy/error_code.h], [proxy/error_code.cc], [proxy/protocol_type.h] and
    the reply texts of [Command::MemcErrorReply], [Command::RedisErrorReply]
    and [Command::ErrorReply] in [proxy/command.cc]. *)

From S2P Require Import Prelude.

Inductive ErrorCode :=
| E_SUCCESS
| E_CONNECT
| E_READ_QUERY
| E_WRITE_QUERY
| E_READ_REPLY
| E_WRITE_REPLY
| E_PROTOCOL
| E_BACKEND_CONNECT_TIMEOUT
| E_BACKEND_WRITE_TIMEOUT
| E_BACKEND_READ_TIMEOUT
| E_OTHERS.

#[global] Instance ErrorCode_eq_dec : EqDecision ErrorCode.
Proof. solve_decision. Defined.

Definition ErrorCode_value (ec : ErrorCode) : Z :=
  match ec with
  | E_SUCCESS => 0
  | E_CONNECT => 1
  | E_READ_QUERY => 2
  | E_WRITE_QUERY => 3
  | E_READ_REPLY => 4
  | E_WRITE_REPLY => 5
  | E_PROTOCOL => 6
  | E_BACKEND_CONNECT_TIMEOUT => 8
  | E_BACKEND_WRITE_TIMEOUT => 9
  | E_BACKEND_READ_TIMEOUT => 10
  | E_OTHERS => 100
  end.

Definition ErrorCodeString (ec : ErrorCode) : bytes :=
  match ec with
  | E_SUCCESS => str "E_SUCCESS"
  | E_CONNECT => str "E_CONNECT"
  | E_READ_QUERY => str "E_READ_QUERY"
  | E_WRITE_QUERY => str "E_WRITE_QUERY"
  | E_READ_REPLY => str "E_READ_REPLY"
  | E_WRITE_REPLY => str "E_WRITE_REPLY"
  | E_PROTOCOL => str "E_PROTOCOL"
  | E_BACKEND_CONNECT_TIMEOUT => str "E_BACKEND_CONNECT_TIMEOUT"
  | E_BACKEND_WRITE_TIMEOUT => str "E_BACKEND_WRITE_TIMEOUT"
  | E_BACKEND_READ_TIMEOUT => str "E_BACKEND_READ_TIMEOUT"
  | _ => str "E_UNKNOWN"
  end.

Inductive ProtocolType := NONE | REDIS | MEMCACHED.

#[global] Instance ProtocolType_eq_dec : EqDecision ProtocolType.
Proof. solve_decision. Defined.

Definition MemcErrorReply (ec : ErrorCode) : bytes :=
  (match ec with
   | E_CONNECT => str "ERROR Backend Connect Error"
   | E_WRITE_QUERY => str "ERROR Backend Write Error"
   | E_READ_REPLY => str "ERROR Backend Read Error"
   | E_PROTOCOL => str "ERROR Backend Protocol Error"
   | E_BACKEND_CONNECT_TIMEOUT => str "ERROR Backend Connect Timeout"
   | E_BACKEND_WRITE_TIMEOUT => str "ERROR Backend Write Timeout"
   | E_BACKEND_READ_TIMEOUT => str "ERROR Backend Read Timeout"
   | _ => str "ERROR Backend Unknown Error"
   end) ++ crlf.

Definition RedisErrorReply (ec : ErrorCode) : bytes :=
  (match ec with
   | E_CONNECT => str "-Backend Connect Error"
   | E_WRITE_QUERY => str "-Backend Write Error"
   | E_READ_REPLY => str "-Backend Read Error"
   | E_PROTOCOL => str "-Backend Protocol Error"
   | E_BACKEND_CONNECT_TIMEOUT => str "-Backend Connect Timeout"
   | E_BACKEND_WRITE_TIMEOUT => str "-Backend Write Timeout"
   | E_BACKEND_READ_TIMEOUT => str "-Backend Read Timeout"
   | _ => str "-Backend Unknown Error"
   end) ++ crlf.

(** [Command::ErrorReply], the choice by [protocol_] *)
Definition ErrorReply (protocol_ : ProtocolType) (ec : ErrorCode) : bytes :=
  match protocol_ with
  | REDIS => RedisErrorReply ec
  | _ => MemcErrorReply ec
  end.

(** A reply that is one line: CRLF at the end and no LF before it. *)
Definition one_line (r : bytes) : Prop := exists l, r = l ++ crlf /\ LF ∉ l.

(** The smallest [buffer_size] the configuration accepts is 1 KB. *)
Lemma ErrorReply_fits p ec : zlen (ErrorReply p ec) <= 31.
Proof. destruct p, ec; vm_compute; discriminate. Qed.

Lemma MemcErrorReply_one_line ec : one_line (MemcErrorReply ec).
Proof. destruct ec; (eexists; split; [reflexivity|]); decide_goal. Qed.

Lemma RedisErrorReply_one_line ec : one_line (RedisErrorReply ec).
Proof. destruct ec; (eexists; split; [reflexivity|]); decide_goal. Qed.
