(* ===== verification/ReadBuffer.v ===== *)
(** * The read buffer

    [proxy/read_buffer.h] and [proxy/read_buffer.cc]: the storage a socket is
    read into and written from without copying.  Three offsets delimit what was
    processed (handed on), received and parsed; [parsed_offset_] may run ahead
    of [received_offset_] when the head of a large item announced its size.
    While [recycle_lock_count_] is positive the bytes must not move, since an
    asynchronous operation holds a pointer to them. *)

From S2P Require Import Prelude CString.

Record ReadBuffer := mkReadBuffer {
  data_ : bytes;
  buffer_size_ : Z;
  processed_offset_ : Z;
  received_offset_ : Z;
  parsed_offset_ : Z;
  recycle_lock_count_ : Z
}.

(** ** Operations *)
Module RB.

Definition set_offsets (b : ReadBuffer) (processed received parsed : Z) : ReadBuffer :=
  mkReadBuffer (data_ b) (buffer_size_ b) processed received parsed (recycle_lock_count_ b).
Definition set_lock (b : ReadBuffer) (n : Z) : ReadBuffer :=
  mkReadBuffer (data_ b) (buffer_size_ b) (processed_offset_ b) (received_offset_ b)
    (parsed_offset_ b) n.
Definition set_data (b : ReadBuffer) (m : bytes) : ReadBuffer :=
  mkReadBuffer m (buffer_size_ b) (processed_offset_ b) (received_offset_ b)
    (parsed_offset_ b) (recycle_lock_count_ b).

(** The constructor, over a slab of the allocator *)
Definition ctor (buffer : bytes) (buffer_size : Z) : ReadBuffer :=
  mkReadBuffer buffer buffer_size 0 0 0 0.

Definition Reset (b : ReadBuffer) : ReadBuffer :=
  mkReadBuffer (data_ b) (buffer_size_ b) 0 0 0 0.

Definition has_much_free_space (b : ReadBuffer) : bool :=
  u64 (received_offset_ b * 3) <? u64 (buffer_size_ b * 2).

Definition free_space_begin (b : ReadBuffer) : Z := received_offset_ b.
Definition free_space_size (b : ReadBuffer) : Z :=
  u64 (buffer_size_ b - received_offset_ b).

Definition received_bytes (b : ReadBuffer) : Z :=
  u64 (received_offset_ b - processed_offset_ b).

Definition cut_received_tail (b : ReadBuffer) (n : Z) : ReadBuffer :=
  set_offsets b (processed_offset_ b) (u64 (received_offset_ b - n)) (parsed_offset_ b).
Definition recover_received_tail (b : ReadBuffer) (n : Z) : ReadBuffer :=
  set_offsets b (processed_offset_ b) (u64 (received_offset_ b + n)) (u64 (parsed_offset_ b + n)).

Definition unprocessed_data (b : ReadBuffer) : Z := processed_offset_ b.
Definition unprocessed_bytes (b : ReadBuffer) : Z :=
  u64 (Z.min (received_offset_ b) (parsed_offset_ b) - processed_offset_ b).

Definition update_parsed_bytes (b : ReadBuffer) (n : Z) : ReadBuffer :=
  set_offsets b (processed_offset_ b) (received_offset_ b) (u64 (parsed_offset_ b + n)).

Definition unparsed_data (b : ReadBuffer) : Z := parsed_offset_ b.
Definition unparsed_bytes (b : ReadBuffer) : Z :=
  if parsed_offset_ b <? received_offset_ b
  then received_offset_ b - parsed_offset_ b else 0.

Definition parsed_unprocessed_bytes (b : ReadBuffer) : result Z :=
  _ ← res_assert (processed_offset_ b <=? parsed_offset_ b);
  Ok (if processed_offset_ b <? parsed_offset_ b
      then parsed_offset_ b - processed_offset_ b else 0).
Definition parsed_unreceived_bytes (b : ReadBuffer) : Z :=
  if received_offset_ b <? parsed_offset_ b
  then parsed_offset_ b - received_offset_ b else 0.
Definition unparsed_received_bytes (b : ReadBuffer) : Z :=
  if parsed_offset_ b <? received_offset_ b
  then received_offset_ b - parsed_offset_ b else 0.

Definition update_received_bytes (b : ReadBuffer) (n : Z) : ReadBuffer :=
  set_offsets b (processed_offset_ b) (u64 (received_offset_ b + n)) (parsed_offset_ b).

Definition push_reply_data (b : ReadBuffer) (data : bytes) (parsed : bool) : result ReadBuffer :=
  m ← mem_write (data_ b) 0 data;
  let b := update_received_bytes (set_data b m) (zlen data) in
  Ok (if parsed then update_parsed_bytes b (zlen data) else b).

Definition recycle_locked (b : ReadBuffer) : bool := 0 <? recycle_lock_count_ b.
Definition inc_recycle_lock (b : ReadBuffer) : ReadBuffer :=
  set_lock b (u64 (recycle_lock_count_ b + 1)).

(** [memmove(data_, data_ + processed_offset_, received_offset_ - processed_offset_)] *)
Definition move_to_front (b : ReadBuffer) : result bytes :=
  bs ← read_bytes (data_ b) (processed_offset_ b)
         (u64 (received_offset_ b - processed_offset_ b));
  mem_write (data_ b) 0 bs.

Definition try_recycle_buffer (b : ReadBuffer) : result ReadBuffer :=
  if recycle_lock_count_ b =? 0 then
    if processed_offset_ b =? received_offset_ b then
      Ok (set_offsets b 0 0 (u64 (parsed_offset_ b - processed_offset_ b)))
    else if free_space_size b <? processed_offset_ b then
      m ← move_to_front b;
      _ ← res_assert (processed_offset_ b <=? parsed_offset_ b);
      Ok (set_offsets (set_data b m) 0
            (u64 (received_offset_ b - processed_offset_ b))
            (u64 (parsed_offset_ b - processed_offset_ b)))
    else Ok b
  else Ok b.

Definition update_processed_offset (b : ReadBuffer) (n : Z) : ReadBuffer :=
  set_offsets b (u64 (processed_offset_ b + n)) (received_offset_ b) (parsed_offset_ b).
Definition update_processed_bytes (b : ReadBuffer) (n : Z) : result ReadBuffer :=
  try_recycle_buffer (update_processed_offset b n).

Definition dec_recycle_lock (b : ReadBuffer) : result ReadBuffer :=
  _ ← res_assert (0 <? recycle_lock_count_ b);
  try_recycle_buffer
    (if 0 <? recycle_lock_count_ b then set_lock b (recycle_lock_count_ b - 1) else b).

(** What a completed [async_read_some] into the free space does: the socket
    wrote [bs] at [free_space_begin], the handler counts them. *)
Definition receive (b : ReadBuffer) (bs : bytes) : result ReadBuffer :=
  m ← mem_write (data_ b) (free_space_begin b) bs;
  Ok (update_received_bytes (set_data b m) (zlen bs)).

End RB.

(** ** The storage

    No operation replaces the block a buffer works on. *)
Definition same_block (b b' : ReadBuffer) : Prop :=
  zlen (data_ b') = zlen (data_ b) /\ buffer_size_ b' = buffer_size_ b.

#[global] Instance same_block_preorder : PreOrder same_block.
Proof. split; [done|]. intros b1 b2 b3 [H1 H1'] [H2 H2']. split; congruence. Qed.

Create HintDb block.
Lemma block_write b m p bs : mem_write (data_ b) p bs = Ok m -> same_block b (RB.set_data b m).
Proof. intros H. split; [by apply zlen_mem_write in H|done]. Qed.
Lemma block_try_recycle b b' : RB.try_recycle_buffer b = Ok b' -> same_block b b'.
Proof.
  unfold RB.try_recycle_buffer. repeat case_match; intros H'; ok_inv; try done.
  inv_bind H'. inv_bind H'. ok_inv. unfold RB.move_to_front in *. inv_bind Hr.
  by apply block_write in Hr.
Qed.
Lemma block_update_processed n b b' : RB.update_processed_bytes b n = Ok b' -> same_block b b'.
Proof. intros H%block_try_recycle. exact H. Qed.
Lemma block_dec_lock b b' : RB.dec_recycle_lock b = Ok b' -> same_block b b'.
Proof.
  unfold RB.dec_recycle_lock. intros H. inv_bind H. apply block_try_recycle in H. by case_match.
Qed.
Lemma block_write_in off bs b b' :
  (m ← mem_write (data_ b) off bs; Ok (RB.set_data b m)) = Ok b' -> same_block b b'.
Proof. intros H. inv_bind H. ok_inv. by eapply block_write. Qed.
Lemma block_push_reply_data b data p b' : RB.push_reply_data b data p = Ok b' -> same_block b b'.
Proof.
  unfold RB.push_reply_data. intros H. inv_bind H. ok_inv. apply block_write in Hr. by destruct p.
Qed.
#[export] Hint Resolve block_update_processed block_dec_lock block_write_in : block.

(** ** Well-formedness *)
Record rb_wf (b : ReadBuffer) : Prop := {
  wf_len : zlen (data_ b) = buffer_size_ b;
  wf_size : 0 < buffer_size_ b < 2 ^ 31;
  wf_processed : 0 <= processed_offset_ b;
  wf_received : processed_offset_ b <= received_offset_ b <= buffer_size_ b;
  wf_parsed : processed_offset_ b <= parsed_offset_ b < 2 ^ 63;
  wf_lock : 0 <= recycle_lock_count_ b < 2 ^ 63
}.

(** ** Specification: a queue of bytes

    What the rest of the proxy may rely on: the received and not yet processed
    bytes form a queue, of whose front [q_parsed] bytes are parsed (more than
    the queue holds when an announced item is incomplete). *)
Record byte_queue := mkQueue { q_bytes : bytes; q_parsed : Z }.

Definition abs (b : ReadBuffer) : byte_queue :=
  mkQueue (slice (data_ b) (processed_offset_ b) (received_offset_ b))
    (parsed_offset_ b - processed_offset_ b).

Inductive buffer_op :=
| OpReceive (bs : bytes)
| OpParse (n : Z)
| OpProcess (n : Z)
| OpLock
| OpUnlock.

Definition rb_exec (op : buffer_op) (b : ReadBuffer) : result ReadBuffer :=
  match op with
  | OpReceive bs => RB.receive b bs
  | OpParse n => Ok (RB.update_parsed_bytes b n)
  | OpProcess n => RB.update_processed_bytes b n
  | OpLock => Ok (RB.inc_recycle_lock b)
  | OpUnlock => RB.dec_recycle_lock b
  end.

(** What the callers guarantee: a socket delivers no more than the free space,
    no more is processed than is received and parsed, unlocks match locks, and
    the announced sizes do not exhaust the address space. *)
Definition op_allowed (op : buffer_op) (b : ReadBuffer) : Prop :=
  match op with
  | OpReceive bs => zlen bs <= RB.free_space_size b
  | OpParse n => 0 <= n /\ parsed_offset_ b + n < 2 ^ 63
  | OpProcess n => 0 <= n <= RB.unprocessed_bytes b
  | OpLock => recycle_lock_count_ b + 1 < 2 ^ 63
  | OpUnlock => 0 < recycle_lock_count_ b
  end.

Definition queue_exec (op : buffer_op) (q : byte_queue) : byte_queue :=
  match op with
  | OpReceive bs => mkQueue (q_bytes q ++ bs) (q_parsed q)
  | OpParse n => mkQueue (q_bytes q) (q_parsed q + n)
  | OpProcess n => mkQueue (drop (Z.to_nat n) (q_bytes q)) (q_parsed q - n)
  | OpLock | OpUnlock => q
  end.

(** All the operations the callers issue: besides the above, a redis MGET skips the
    header of its own reply ([update_processed_offset]), a memcached GET withholds the
    end line that a later connection will send again ([cut_received_tail]), a connection
    is reset between two uses, and an error reply is put into a reset buffer. *)
Inductive caller_op :=
| OpBase (op : buffer_op)
| OpSkip (n : Z)
| OpCutTail (n : Z)
| OpReset
| OpPushReply (data : bytes) (parsed : bool).

Definition caller_exec (op : caller_op) (b : ReadBuffer) : result ReadBuffer :=
  match op with
  | OpBase op => rb_exec op b
  | OpSkip n => Ok (RB.update_processed_offset b n)
  | OpCutTail n => Ok (RB.cut_received_tail b n)
  | OpReset => Ok (RB.Reset b)
  | OpPushReply data parsed => RB.push_reply_data b data parsed
  end.

(** What the callers guarantee of these: no more is skipped than is received and
    parsed, no more is cut than is received and not processed, and [push_reply_data],
    which writes at offset 0, finds nothing received and nothing announced and has
    room for the reply. *)
Definition caller_allowed (op : caller_op) (b : ReadBuffer) : Prop :=
  match op with
  | OpBase op => op_allowed op b
  | OpSkip n => 0 <= n <= RB.unprocessed_bytes b
  | OpCutTail n => 0 <= n <= RB.received_bytes b
  | OpReset => True
  | OpPushReply data _ => received_offset_ b = 0 /\ parsed_offset_ b = 0 /\ zlen data <= buffer_size_ b
  end.

Definition caller_queue (op : caller_op) (q : byte_queue) : byte_queue :=
  match op with
  | OpBase op => queue_exec op q
  | OpSkip n => queue_exec (OpProcess n) q
  | OpCutTail n => mkQueue (take (length (q_bytes q) - Z.to_nat n) (q_bytes q)) (q_parsed q)
  | OpReset => mkQueue [] 0
  | OpPushReply data parsed => mkQueue data (if parsed then zlen data else 0)
  end.

(** The bytes an operation takes in from the socket, and the bytes it hands on:
    those at [unprocessed_data] in the storage when they are processed. *)
Definition op_input (op : buffer_op) : bytes :=
  match op with OpReceive bs => bs | _ => [] end.
Definition op_output (op : buffer_op) (b : ReadBuffer) : bytes :=
  match op with
  | OpProcess n => slice (data_ b) (RB.unprocessed_data b) (RB.unprocessed_data b + n)
  | _ => []
  end.

(** A schedule of allowed operations, with the bytes handed on. *)
Inductive rb_steps : ReadBuffer -> list buffer_op -> bytes -> ReadBuffer -> Prop :=
| rb_steps_nil b : rb_steps b [] [] b
| rb_steps_cons b op b' ops out b'' :
    op_allowed op b -> rb_exec op b = Ok b' -> rb_steps b' ops out b'' ->
    rb_steps b (op :: ops) (op_output op b ++ out) b''.

(** The same, for a schedule during which the recycle lock is held. *)
Inductive rb_locked_steps : ReadBuffer -> list buffer_op -> ReadBuffer -> Prop :=
| rb_locked_nil b : 0 < recycle_lock_count_ b -> rb_locked_steps b [] b
| rb_locked_cons b op b' ops b'' :
    0 < recycle_lock_count_ b -> op_allowed op b -> rb_exec op b = Ok b' ->
    rb_locked_steps b' ops b'' -> rb_locked_steps b (op :: ops) b''.

(** ** Lemmas *)
Section wf_facts.
Context (b : ReadBuffer) (Hwf : rb_wf b).

Lemma wf_bounds :
  0 <= processed_offset_ b /\ processed_offset_ b <= received_offset_ b /\
  received_offset_ b <= buffer_size_ b /\ buffer_size_ b < 2 ^ 31 /\
  processed_offset_ b <= parsed_offset_ b /\ parsed_offset_ b < 2 ^ 63 /\
  0 <= recycle_lock_count_ b /\ recycle_lock_count_ b < 2 ^ 63 /\ 0 < buffer_size_ b.
Proof. destruct Hwf. lia. Qed.

Lemma free_space_size_eq : RB.free_space_size b = buffer_size_ b - received_offset_ b.
Proof. pose proof wf_bounds. apply u64_small. lia. Qed.

Lemma received_bytes_eq : RB.received_bytes b = received_offset_ b - processed_offset_ b.
Proof. pose proof wf_bounds. apply u64_small. lia. Qed.

Lemma unprocessed_bytes_eq :
  RB.unprocessed_bytes b = Z.min (received_offset_ b) (parsed_offset_ b) - processed_offset_ b.
Proof. pose proof wf_bounds. apply u64_small. lia. Qed.

Lemma move_to_front_Ok :
  exists m, RB.move_to_front b = Ok m /\ zlen m = zlen (data_ b) /\
    slice m 0 (received_offset_ b - processed_offset_ b) =
    slice (data_ b) (processed_offset_ b) (received_offset_ b).
Proof.
  pose proof wf_bounds as Hb. pose proof (wf_len b Hwf) as Hl.
  unfold RB.move_to_front. rewrite u64_small by lia.
  rewrite read_bytes_slice by lia. rewrite bind_Ok_l.
  replace (processed_offset_ b + (received_offset_ b - processed_offset_ b))
    with (received_offset_ b) by lia.
  set (bs := slice _ _ _).
  assert (zlen bs = received_offset_ b - processed_offset_ b) as Hbs
    by (apply zlen_slice; lia).
  pose proof (mem_write_Ok (data_ b) 0 bs ltac:(lia) ltac:(lia)) as Hw.
  rewrite Hw. revert Hw. generalize (take (Z.to_nat 0) (data_ b) ++ bs ++
    drop (Z.to_nat (0 + zlen bs)) (data_ b)) as m. intros m Hw.
  exists m. split; [done|]. split; [by eapply zlen_mem_write|].
  pose proof (slice_mem_write_extend _ 0 _ _ _ Hw ltac:(lia)) as He.
  rewrite slice_nil, Hbs in He. exact He.
Qed.

(** Recycling never faults, keeps the buffer well formed and does not change
    the queue of received bytes. *)
Lemma try_recycle_Ok :
  exists b', RB.try_recycle_buffer b = Ok b' /\ rb_wf b' /\ abs b' = abs b /\
    buffer_size_ b' = buffer_size_ b /\ recycle_lock_count_ b' = recycle_lock_count_ b.
Proof.
  pose proof wf_bounds as Hb. pose proof (wf_len b Hwf) as Hl.
  unfold RB.try_recycle_buffer. rewrite free_space_size_eq.
  destruct (Z.eqb_spec (recycle_lock_count_ b) 0); [|by exists b; auto].
  destruct (Z.eqb_spec (processed_offset_ b) (received_offset_ b)) as [Heq|Hne].
  - eexists. split; [done|]. rewrite u64_small by lia.
    split; [split; simpl; lia|]. split; [|done].
    unfold abs; simpl. rewrite Heq, !slice_nil. f_equal. lia.
  - destruct (Z.ltb_spec (buffer_size_ b - received_offset_ b) (processed_offset_ b)); [|by exists b; auto].
    destruct move_to_front_Ok as (m & -> & Hm & Hs). rewrite bind_Ok_l.
    unfold res_assert. rewrite (proj2 (Z.leb_le _ _)) by lia. rewrite bind_Ok_l.
    eexists. split; [done|]. rewrite !u64_small by lia.
    split; [split; simpl; lia|]. split; [|done].
    unfold abs; simpl. rewrite Hs. f_equal. lia.
Qed.
End wf_facts.

Lemma set_offsets_wf b p r q :
  rb_wf b -> 0 <= p <= r -> r <= buffer_size_ b -> p <= q < 2 ^ 63 ->
  rb_wf (RB.set_offsets b p r q).
Proof. intros [] ? ? ?. split; simpl; lia. Qed.

Lemma receive_Ok b bs :
  rb_wf b -> zlen bs <= RB.free_space_size b ->
  exists m, RB.receive b bs = Ok (RB.set_offsets (RB.set_data b m)
      (processed_offset_ b) (received_offset_ b + zlen bs) (parsed_offset_ b)) /\
    mem_write (data_ b) (received_offset_ b) bs = Ok m.
Proof.
  intros Hwf Hf. rewrite free_space_size_eq in Hf by done.
  pose proof (wf_bounds b Hwf). pose proof (zlen_nonneg bs). pose proof (wf_len b Hwf).
  unfold RB.receive, RB.free_space_begin. rewrite mem_write_Ok by lia.
  eexists. split; [|done]. rewrite bind_Ok_l. unfold RB.update_received_bytes. simpl.
  by rewrite u64_small by lia.
Qed.

Lemma drop_slice m i j n :
  0 <= i -> 0 <= n -> drop (Z.to_nat n) (slice m i j) = slice m (i + n) j.
Proof.
  intros Hi Hn. unfold slice. rewrite skipn_firstn_comm, drop_drop.
  do 2 f_equal; lia.
Qed.

(** One operation: it does not fault, keeps the invariant and does to the
    queue what the specification says. *)
Lemma rb_exec_refines op b :
  rb_wf b -> op_allowed op b ->
  exists b', rb_exec op b = Ok b' /\ rb_wf b' /\ abs b' = queue_exec op (abs b) /\
    buffer_size_ b' = buffer_size_ b.
Proof.
  intros Hwf Hop. pose proof (wf_bounds b Hwf) as Hb. pose proof (wf_len b Hwf) as Hl.
  destruct op as [bs|n|n| |]; simpl in *.
  - destruct (receive_Ok b bs Hwf Hop) as (m & -> & Hm).
    rewrite free_space_size_eq in Hop by done. pose proof (zlen_nonneg bs).
    pose proof (zlen_mem_write _ _ _ _ Hm). eexists. split; [done|].
    split; [split; simpl; lia|]. split; [|done]. unfold abs; simpl. f_equal.
    eapply slice_mem_write_extend; [done|lia].
  - eexists. split; [done|]. unfold RB.update_parsed_bytes. rewrite u64_small by lia.
    split; [apply set_offsets_wf; done || lia|]. split; [|done].
    unfold abs; simpl. f_equal. lia.
  - rewrite unprocessed_bytes_eq in Hop by done.
    unfold RB.update_processed_bytes, RB.update_processed_offset. rewrite u64_small by lia.
    set (b1 := RB.set_offsets _ _ _ _).
    assert (rb_wf b1) as Hwf1 by (apply set_offsets_wf; done || lia).
    destruct (try_recycle_Ok b1 Hwf1) as (b' & -> & Hwf' & Habs & Hsz & _).
    exists b'. split; [done|]. split; [done|]. split; [|done]. rewrite Habs.
    unfold abs; simpl. rewrite drop_slice by lia. f_equal. lia.
  - eexists. split; [done|]. unfold RB.inc_recycle_lock. rewrite u64_small by lia.
    split; [split; simpl; lia|]. done.
  - unfold RB.dec_recycle_lock, res_assert. rewrite (proj2 (Z.ltb_lt _ _)) by lia.
    rewrite bind_Ok_l. set (b1 := RB.set_lock _ _).
    assert (rb_wf b1) as Hwf1 by (split; simpl; lia).
    destruct (try_recycle_Ok b1 Hwf1) as (b' & -> & Hwf' & Habs & Hsz & _).
    exists b'. split; [done|]. split; [done|]. split; [|done]. by rewrite Habs.
Qed.

(** The remaining operations of the callers *)
Lemma skip_refines n b :
  rb_wf b -> 0 <= n <= RB.unprocessed_bytes b ->
  exists b', Ok (RB.update_processed_offset b n) = Ok b' /\ rb_wf b' /\
    abs b' = queue_exec (OpProcess n) (abs b) /\ buffer_size_ b' = buffer_size_ b.
Proof.
  intros Hwf Hn. pose proof (wf_bounds b Hwf). rewrite unprocessed_bytes_eq in Hn by done.
  eexists. split; [done|]. unfold RB.update_processed_offset. rewrite u64_small by lia.
  split; [apply set_offsets_wf; done || lia|]. split; [|done].
  unfold abs; simpl. rewrite drop_slice by lia. f_equal. lia.
Qed.

Lemma cut_tail_refines n b :
  rb_wf b -> 0 <= n <= RB.received_bytes b ->
  exists b', Ok (RB.cut_received_tail b n) = Ok b' /\ rb_wf b' /\
    abs b' = mkQueue (take (length (q_bytes (abs b)) - Z.to_nat n) (q_bytes (abs b))) (q_parsed (abs b)) /\
    buffer_size_ b' = buffer_size_ b.
Proof.
  intros Hwf Hn. pose proof (wf_bounds b Hwf). pose proof (wf_len b Hwf). rewrite received_bytes_eq in Hn by done.
  eexists. split; [done|]. unfold RB.cut_received_tail. rewrite u64_small by lia.
  split; [apply set_offsets_wf; done || lia|]. split; [|done].
  unfold abs; simpl. f_equal.
  assert (zlen (slice (data_ b) (processed_offset_ b) (received_offset_ b)) =
          received_offset_ b - processed_offset_ b) as Hz by (apply zlen_slice; lia).
  unfold zlen in Hz. set (n' := length _) in *. unfold slice. rewrite take_take. f_equal. lia.
Qed.

Lemma reset_refines b :
  rb_wf b -> exists b', Ok (RB.Reset b) = Ok b' /\ rb_wf b' /\ abs b' = mkQueue [] 0 /\
    buffer_size_ b' = buffer_size_ b.
Proof.
  intros Hwf. pose proof (wf_bounds b Hwf). eexists. split; [done|].
  split; [destruct Hwf; split; simpl; lia|]. split; [|done]. unfold abs; simpl. by rewrite slice_nil.
Qed.

Lemma push_reply_refines data parsed b :
  rb_wf b -> received_offset_ b = 0 /\ parsed_offset_ b = 0 /\ zlen data <= buffer_size_ b ->
  exists b', RB.push_reply_data b data parsed = Ok b' /\ rb_wf b' /\
    abs b' = mkQueue data (if parsed then zlen data else 0) /\ buffer_size_ b' = buffer_size_ b.
Proof.
  intros Hwf (Hr & Hp & Hfit). pose proof (wf_bounds b Hwf) as Hb. pose proof (wf_len b Hwf) as Hl.
  pose proof (zlen_nonneg data). unfold RB.push_reply_data.
  pose proof (mem_write_Ok (data_ b) 0 data ltac:(lia) ltac:(lia)) as Hw. rewrite Hw. revert Hw.
  generalize (take (Z.to_nat 0) (data_ b) ++ data ++ drop (Z.to_nat (0 + zlen data)) (data_ b)) as m. intros m Hw.
  pose proof (zlen_mem_write _ _ _ _ Hw) as Hlm.
  pose proof (slice_mem_write_extend _ 0 _ _ _ Hw ltac:(lia)) as He. rewrite slice_nil in He. cbn [app] in He.
  rewrite bind_Ok_l. eexists. split; [done|].
  unfold RB.update_parsed_bytes, RB.update_received_bytes. cbn. rewrite Hr, Hp, !Z.add_0_l in *.
  assert (processed_offset_ b = 0) as Hpo by lia.
  rewrite !u64_small by lia. destruct Hwf.
  destruct parsed; (split; [split; cbn; lia|]; split; [|done]; unfold abs; cbn; rewrite Hpo, He; f_equal; lia).
Qed.

Lemma rb_exec_stream op b b' :
  rb_wf b -> op_allowed op b -> rb_exec op b = Ok b' ->
  op_output op b ++ q_bytes (abs b') = q_bytes (abs b) ++ op_input op.
Proof.
  intros Hwf Hop He. pose proof (wf_bounds b Hwf). pose proof (wf_len b Hwf).
  destruct (rb_exec_refines op b Hwf Hop) as (b1 & He1 & _ & Habs & _).
  rewrite He in He1. injection He1 as <-. rewrite Habs.
  destruct op as [bs|n|n| |]; simpl in *; rewrite ?app_nil_r; try done.
  rewrite unprocessed_bytes_eq in Hop by done. rewrite drop_slice by lia.
  unfold RB.unprocessed_data. symmetry. apply slice_split; lia.
Qed.

(** Under the lock nothing is recycled. *)
Lemma try_recycle_locked b b' :
  RB.try_recycle_buffer b = Ok b' -> 0 < recycle_lock_count_ b' -> b' = b.
Proof.
  unfold RB.try_recycle_buffer. intros H Hl. revert H.
  destruct (Z.eqb_spec (recycle_lock_count_ b) 0); [|by intros [= <-]].
  case_match; [intros [= <-]; simpl in *; lia|].
  case_match; [|by intros [= <-]].
  intros He. inv_bind He. inv_bind He. injection He as <-. simpl in *. lia.
Qed.

(** While the lock stays held an operation leaves the received bytes where
    they are. *)
Lemma rb_exec_locked op b b' :
  rb_wf b -> op_allowed op b -> rb_exec op b = Ok b' -> 0 < recycle_lock_count_ b' ->
  received_offset_ b <= received_offset_ b' /\
  forall i j, 0 <= i <= j -> j <= received_offset_ b -> slice (data_ b') i j = slice (data_ b) i j.
Proof.
  intros Hwf Hop He Hlock. pose proof (wf_bounds b Hwf). pose proof (wf_len b Hwf).
  destruct op as [bs|n|n| |]; simpl in *.
  - destruct (receive_Ok b bs Hwf Hop) as (m & He' & Hm). rewrite He in He'.
    injection He' as ->. simpl. pose proof (zlen_nonneg bs).
    split; [lia|]. intros i j Hi Hj. eapply slice_mem_write_disjoint; [done|lia..].
  - injection He as <-. simpl. auto with lia.
  - apply try_recycle_locked in He as ->; [|done]. simpl. auto with lia.
  - injection He as <-. simpl. auto with lia.
  - inv_bind He. rewrite (proj2 (Z.ltb_lt _ _)) in He by lia.
    apply try_recycle_locked in He as ->; [|done]. simpl. auto with lia.
Qed.

(** The last lock released *)
Lemma dec_lock_makes_room b :
  rb_wf b -> recycle_lock_count_ b = 1 ->
  exists b', RB.dec_recycle_lock b = Ok b' /\
    processed_offset_ b' <= RB.free_space_size b' /\
    (processed_offset_ b = received_offset_ b ->
     received_offset_ b' = 0 /\ RB.has_much_free_space b' = true).
Proof.
  intros Hwf Hl. pose proof (wf_bounds b Hwf) as Hb.
  unfold RB.dec_recycle_lock, res_assert. rewrite Hl. change (0 <? 1) with true. cbv iota.
  rewrite bind_Ok_l. set (b1 := RB.set_lock b (1 - 1)).
  assert (rb_wf b1) as Hwf1 by (destruct Hwf; split; simpl; lia).
  unfold RB.try_recycle_buffer. rewrite (free_space_size_eq b1 Hwf1). simpl.
  destruct (Z.eqb_spec (processed_offset_ b) (received_offset_ b)) as [Heq|Hne].
  - eexists. split; [done|]. unfold RB.free_space_size, RB.has_much_free_space. simpl.
    rewrite !u64_small by lia. split; [lia|]. intros _. split; [done|]. lia.
  - destruct (Z.ltb_spec (buffer_size_ b - received_offset_ b) (processed_offset_ b)) as [Hm|Hm].
    + destruct (move_to_front_Ok b1 Hwf1) as (m & -> & _ & _). rewrite bind_Ok_l.
      unfold res_assert. simpl. rewrite (proj2 (Z.leb_le _ _)) by lia. rewrite bind_Ok_l.
      eexists. split; [done|]. unfold RB.free_space_size. simpl.
      rewrite (u64_small (received_offset_ b - processed_offset_ b)) by lia.
      rewrite u64_small by lia. split; [lia|]. intros; lia.
    + eexists. split; [done|]. rewrite free_space_size_eq by done. simpl.
      split; [lia|]. intros; lia.
Qed.

(** ** Properties *)


(** A 8-byte buffer with 6 received bytes of which 4 are processed: processing
    two more and receiving again. *)
Definition demo_buffer : ReadBuffer :=
  mkReadBuffer (str "abcdefgh") 8 4 6 6 0.

Lemma demo_buffer_wf : rb_wf demo_buffer.
Proof. split; by_compute. Qed.


(** C14: over any schedule of allowed operations the read buffer is a faithful
    byte stream: the bytes handed on, followed by the bytes still queued, are
    the bytes queued at the start followed by everything the socket delivered,
    in order, whatever was recycled or moved in between. *)
Theorem read_buffer_stream_integrity b ops out b' :
  rb_wf b -> rb_steps b ops out b' ->
  rb_wf b' /\ out ++ q_bytes (abs b') = q_bytes (abs b) ++ concat (op_input <$> ops).
Proof.
  intros Hwf Hs. induction Hs as [b|b op b1 ops out b2 Hop He Hs IH].
  - split; [done|]. by rewrite app_nil_r.
  - destruct (rb_exec_refines op b Hwf Hop) as (b1' & He' & Hwf1 & _).
    rewrite He in He'. injection He' as <-. destruct (IH Hwf1) as [Hwf2 IH2].
    split; [done|]. rewrite <- app_assoc, IH2, app_assoc.
    rewrite (rb_exec_stream _ _ _ Hwf Hop He). by rewrite <- app_assoc.
Qed.

Lemma read_buffer_stream_integrity_witness :
  exists b', rb_wf b' /\ str "ef" ++ q_bytes (abs b') = str "ef" ++ str "xyz".
Proof.
  eexists. apply (read_buffer_stream_integrity demo_buffer
    [OpLock; OpProcess 2; OpUnlock; OpReceive (str "xyz")] (str "ef") _ demo_buffer_wf).
  change (str "ef") with ([] ++ (str "ef" ++ ([] ++ ([] ++ [])))).
  repeat (eapply rb_steps_cons; [by_compute|vm_compute; reflexivity|]).
  apply rb_steps_nil.
Defined.

(** C15: pinning.  As long as the recycle lock is held, whatever is received,
    parsed and processed in the meantime, the bytes that were received when the
    schedule began stay at the same offsets of the storage: a pointer handed to
    an asynchronous write still denotes the same bytes. *)
Theorem read_buffer_pinned_while_locked b ops b' :
  rb_wf b -> rb_locked_steps b ops b' ->
  forall i j, 0 <= i <= j -> j <= received_offset_ b ->
  slice (data_ b') i j = slice (data_ b) i j.
Proof.
  intros Hwf Hs. induction Hs as [b Hl|b op b1 ops b2 Hl Hop He Hs IH]; intros i j Hi Hj; [done|].
  assert (0 < recycle_lock_count_ b1) as Hl1 by (inversion Hs; done).
  destruct (rb_exec_refines op b Hwf Hop) as (b1' & He' & Hwf1 & _).
  rewrite He in He'. injection He' as <-.
  destruct (rb_exec_locked op b b1 Hwf Hop He Hl1) as [Hrec Hsl].
  rewrite IH by (done || lia). by apply Hsl.
Qed.

Lemma read_buffer_pinned_witness :
  exists b', rb_locked_steps (RB.inc_recycle_lock demo_buffer)
               [OpProcess 2; OpReceive (str "xy")] b' /\
    slice (data_ b') 4 6 = str "ef".
Proof.
  eexists. assert (rb_locked_steps (RB.inc_recycle_lock demo_buffer)
               [OpProcess 2; OpReceive (str "xy")]
               (mkReadBuffer (str "abcdefxy") 8 6 8 6 1)) as Hs.
  { repeat (eapply rb_locked_cons; [by_compute|by_compute
      |vm_compute; reflexivity|]). apply rb_locked_nil. reflexivity. }
  split; [exact Hs|].
  assert (rb_wf (RB.inc_recycle_lock demo_buffer)) as Hwf by (split; by_compute).
  apply (read_buffer_pinned_while_locked _ _ _ Hwf Hs 4 6); by_compute.
Defined.

(** C23: recycling makes room.  When the last lock is released, the processed
    prefix is no longer than the free space behind the received bytes; and when
    everything received was processed the buffer starts over at offset 0, where
    [has_much_free_space] holds, so reading can always resume. *)
Theorem read_buffer_recycle_makes_room b :
  rb_wf b -> recycle_lock_count_ b = 1 ->
  exists b', RB.dec_recycle_lock b = Ok b' /\
    processed_offset_ b' <= RB.free_space_size b' /\
    (processed_offset_ b = received_offset_ b ->
     received_offset_ b' = 0 /\ RB.has_much_free_space b' = true).
Proof. apply dec_lock_makes_room. Qed.

Lemma read_buffer_recycle_makes_room_witness :
  exists b', RB.dec_recycle_lock (RB.inc_recycle_lock demo_buffer) = Ok b' /\
    processed_offset_ b' <= RB.free_space_size b' /\
    (4 = 6 -> received_offset_ b' = 0 /\ RB.has_much_free_space b' = true).
Proof.
  apply (read_buffer_recycle_makes_room (RB.inc_recycle_lock demo_buffer));
    [split; by_compute|reflexivity].
Defined.
