(* ===== verification/Allocator.v ===== *)
(** * The buffer allocator

    [proxy/allocator.h] and [proxy/allocator.cc]: slabs of [buffer_size_] bytes
    out of a reserved block while there are free ones, single heap blocks
    otherwise.  An address is an integer; [new char[n]] returns an address the
    heap chooses, an argument of the definitions that call it. *)

From S2P Require Import Prelude StdMap.

Record Allocator := mkAllocator {
  al_buffer_size_ : Z;
  reserved_space_ : option Z;      (** [nullptr] is [None] *)
  reserved_space_size_ : Z;
  free_slabs_ : smap Z unit        (** [std::set<char*>] *)
}.

(** The constructor's loop over the reserved block; every turn advances by
    [buffer_size], so the size of the block bounds the turns. *)
Fixpoint insert_slabs (fuel : nat) (p limit buffer_size : Z) (s : smap Z unit) : smap Z unit :=
  match fuel with
  | O => s
  | S k => if p <? limit
           then insert_slabs k (p + buffer_size) limit buffer_size (sm_emplace p () s)
           else s
  end.

Definition Allocator_ctor (buffer_size reserved_space_size : Z) (new_block : Z) : result Allocator :=
  if reserved_space_size =? 0 then
    Ok (mkAllocator buffer_size None reserved_space_size [])
  else if reserved_space_size <? 0 then Fault StdException  (* bad_array_new_length *)
  else Ok (mkAllocator buffer_size (Some new_block) reserved_space_size
             (insert_slabs (Z.to_nat reserved_space_size) new_block
                (new_block + reserved_space_size) buffer_size [])).

(** [Alloc()]; [new_block] is what [new char[buffer_size_]] returns if called *)
Definition Alloc (a : Allocator) (new_block : Z) : Z * Allocator :=
  match free_slabs_ a with
  | [] => (new_block, a)
  | (slab, _) :: rest =>
      (slab, mkAllocator (al_buffer_size_ a) (reserved_space_ a) (reserved_space_size_ a)
               (sm_erase slab (free_slabs_ a)))
  end.

Definition in_reserved (a : Allocator) (slab : Z) : bool :=
  match reserved_space_ a with
  | None => false
  | Some base => (base <=? slab) && (slab <? base + reserved_space_size_ a)
  end.

(** [Release(slab)]: a slab of the reserved block becomes free again, any other
    is given back to the heap. *)
Definition Release (a : Allocator) (slab : Z) : Allocator :=
  if in_reserved a slab
  then mkAllocator (al_buffer_size_ a) (reserved_space_ a) (reserved_space_size_ a)
         (sm_emplace slab () (free_slabs_ a))
  else a.

(** ** The allocator in use

    [live] are the slabs handed out and not yet released: the buffers of the
    client and backend connections, each released once in the destructor. *)
Record AllocState := mkAllocState { st_alloc : Allocator; live : list Z }.

Definition overlap_free (size p q : Z) : Prop := p + size <= q \/ q + size <= p.

(** What the heap guarantees of a block it returns. *)
Definition heap_block (s : AllocState) (p : Z) : Prop :=
  let a := st_alloc s in
  (forall base, reserved_space_ a = Some base ->
     p + al_buffer_size_ a <= base \/ base + reserved_space_size_ a <= p) /\
  (forall q, q ∈ live s -> overlap_free (al_buffer_size_ a) p q).

Inductive alloc_step : AllocState -> AllocState -> Prop :=
| step_Alloc s new_block :
    heap_block s new_block ->
    alloc_step s (mkAllocState (Alloc (st_alloc s) new_block).2
                    ((Alloc (st_alloc s) new_block).1 :: live s))
| step_Release s slab l1 l2 :
    live s = l1 ++ slab :: l2 ->
    alloc_step s (mkAllocState (Release (st_alloc s) slab) (l1 ++ l2)).

(** The addresses at which the reserved block is cut. *)
Definition slab_addrs (base size : Z) (n : nat) : list Z :=
  (fun i : nat => base + Z.of_nat i * size) <$> seq 0 n.

Definition free_list (a : Allocator) : list Z := (free_slabs_ a).*1.

(** The slabs of the reserved block are, once each, either free or live; a live
    slab that is not one of them is a heap block away from everything else. *)
Record alloc_inv (n : nat) (s : AllocState) : Prop := {
  ai_size : 0 < al_buffer_size_ (st_alloc s);
  ai_none : reserved_space_ (st_alloc s) = None -> free_slabs_ (st_alloc s) = [];
  ai_sorted : sm_sorted (free_slabs_ (st_alloc s));
  ai_block base : reserved_space_ (st_alloc s) = Some base ->
    reserved_space_size_ (st_alloc s) = Z.of_nat n * al_buffer_size_ (st_alloc s) /\
    free_list (st_alloc s) ++ filter (fun p => in_reserved (st_alloc s) p = true) (live s)
    ≡ₚ slab_addrs base (al_buffer_size_ (st_alloc s)) n;
  ai_heap p : p ∈ live s -> in_reserved (st_alloc s) p = false ->
    (forall base, reserved_space_ (st_alloc s) = Some base ->
       p + al_buffer_size_ (st_alloc s) <= base \/
       base + reserved_space_size_ (st_alloc s) <= p);
  ai_disjoint i j p q : live s !! i = Some p -> live s !! j = Some q -> i <> j ->
    overlap_free (al_buffer_size_ (st_alloc s)) p q
}.

(** ** Lemmas *)
Lemma slab_addrs_elem base size n p :
  p ∈ slab_addrs base size n <-> exists i : nat, (i < n)%nat /\ p = base + Z.of_nat i * size.
Proof.
  unfold slab_addrs. rewrite list_elem_of_fmap. split.
  - intros (i & -> & Hi). apply elem_of_seq in Hi. exists i. split; [lia|done].
  - intros (i & Hi & ->). exists i. split; [done|]. apply elem_of_seq. lia.
Qed.

Lemma slab_addrs_S base size n :
  slab_addrs base size (S n) = base :: slab_addrs (base + size) size n.
Proof.
  unfold slab_addrs. cbn [seq fmap list_fmap]. f_equal; [lia|].
  rewrite <- fmap_S_seq, <- list_fmap_compose. apply list_fmap_ext. intros i x _. unfold compose. lia.
Qed.

Lemma slab_addrs_in_range base size n p :
  0 < size -> p ∈ slab_addrs base size n -> base <= p /\ p + size <= base + Z.of_nat n * size.
Proof. intros Hs (i & Hi & ->)%slab_addrs_elem. nia. Qed.

Lemma slab_addrs_disjoint base size n p q :
  0 < size -> p ∈ slab_addrs base size n -> q ∈ slab_addrs base size n -> p <> q ->
  overlap_free size p q.
Proof.
  intros Hs (i & Hi & ->)%slab_addrs_elem (j & Hj & ->)%slab_addrs_elem Hne.
  assert (i <> j) by congruence.
  unfold overlap_free. destruct (decide (i < j)%nat); [left|right]; nia.
Qed.

(** An [emplace] above all present keys appends. *)
Lemma sm_emplace_last (s : smap Z unit) p :
  Forall (fun e => e.1 < p) s -> sm_emplace p () s = s ++ [(p, ())].
Proof.
  intros Hf. induction Hf as [|[k []] s Hk Hf IH]; simpl in *; [done|].
  rewrite !key_ltb_Z, (proj2 (Z.ltb_ge _ _)), (proj2 (Z.ltb_lt _ _)) by lia.
  by rewrite IH.
Qed.

Lemma insert_slabs_spec n fuel p size s :
  0 < size -> (n <= fuel)%nat -> Forall (fun e => e.1 < p) s ->
  (insert_slabs fuel p (p + Z.of_nat n * size) size s).*1 = s.*1 ++ slab_addrs p size n.
Proof.
  intros Hsz. revert fuel p s. induction n as [|n IH]; intros fuel p s Hf Hs.
  - rewrite app_nil_r. destruct fuel; simpl; [done|]. by rewrite (proj2 (Z.ltb_ge _ _)) by lia.
  - destruct fuel as [|k]; [lia|]. cbn [insert_slabs].
    rewrite (proj2 (Z.ltb_lt _ _)) by nia. rewrite sm_emplace_last by done.
    replace (p + Z.of_nat (S n) * size) with (p + size + Z.of_nat n * size) by lia.
    rewrite IH; [|lia|].
    + rewrite slab_addrs_S, fmap_app. by rewrite <- app_assoc.
    + apply Forall_app. split; [|by repeat constructor; simpl; lia].
      eapply Forall_impl; [exact Hs|]. simpl. lia.
Qed.

Lemma insert_slabs_sorted fuel p limit size s :
  sm_sorted s -> sm_sorted (insert_slabs fuel p limit size s).
Proof.
  revert p s. induction fuel as [|k IH]; intros p s Hs; simpl; [done|].
  case_match; [|done]. apply IH. by apply sm_emplace_sorted.
Qed.

Lemma in_reserved_addrs n s base p :
  alloc_inv n s -> reserved_space_ (st_alloc s) = Some base ->
  p ∈ slab_addrs base (al_buffer_size_ (st_alloc s)) n -> in_reserved (st_alloc s) p = true.
Proof.
  intros Hi Hb Hp. destruct (ai_block n s Hi base Hb) as [Hn _].
  pose proof (ai_size n s Hi) as Hsz. apply slab_addrs_in_range in Hp; [|done].
  unfold in_reserved. rewrite Hb. lia.
Qed.

(** A live slab in the reserved block is one of its slabs. *)
Lemma live_reserved_addrs n s base p :
  alloc_inv n s -> reserved_space_ (st_alloc s) = Some base ->
  p ∈ live s -> in_reserved (st_alloc s) p = true ->
  p ∈ slab_addrs base (al_buffer_size_ (st_alloc s)) n.
Proof.
  intros Hi Hb Hp Hr. destruct (ai_block n s Hi base Hb) as [_ <-].
  apply elem_of_app. right. by apply list_elem_of_filter.
Qed.

Lemma free_addrs n s base p :
  alloc_inv n s -> reserved_space_ (st_alloc s) = Some base ->
  p ∈ free_list (st_alloc s) -> p ∈ slab_addrs base (al_buffer_size_ (st_alloc s)) n.
Proof.
  intros Hi Hb Hp. destruct (ai_block n s Hi base Hb) as [_ <-]. apply elem_of_app. by left.
Qed.

Lemma slab_addrs_NoDup base size n : 0 < size -> NoDup (slab_addrs base size n).
Proof.
  intros Hs. unfold slab_addrs. apply NoDup_fmap_2_strong; [|apply NoDup_seq].
  intros i j _ _ Heq. nia.
Qed.

(** A free slab is away from every live one. *)
Lemma free_live_disjoint n s p q :
  alloc_inv n s -> p ∈ free_list (st_alloc s) -> q ∈ live s ->
  overlap_free (al_buffer_size_ (st_alloc s)) p q.
Proof.
  intros Hi Hp Hq. pose proof (ai_size n s Hi) as Hsz.
  destruct (reserved_space_ (st_alloc s)) as [base|] eqn:Hb.
  2:{ unfold free_list in Hp. rewrite (ai_none n s Hi Hb) in Hp. set_solver. }
  pose proof (free_addrs n s base p Hi Hb Hp) as Hpa.
  destruct (ai_block n s Hi base Hb) as [Hn Hperm].
  destruct (in_reserved (st_alloc s) q) eqn:Hr.
  - eapply slab_addrs_disjoint; [done|done|by eapply live_reserved_addrs|].
    intros ->. pose proof (slab_addrs_NoDup base _ n Hsz) as Hnd. rewrite <- Hperm in Hnd.
    apply NoDup_app in Hnd as (_ & Hd & _). apply (Hd q Hp). by apply list_elem_of_filter.
  - pose proof (ai_heap n s Hi q Hq Hr base Hb) as Hh.
    apply slab_addrs_in_range in Hpa; [|done]. unfold overlap_free. lia.
Qed.

Lemma sm_erase_head (e : Z * unit) s : sm_erase e.1 (e :: s) = s.
Proof. destruct e. simpl. by rewrite !key_ltb_Z, Z.ltb_irrefl. Qed.

Lemma live_disjoint_cons size p l :
  (forall q, q ∈ l -> overlap_free size p q) ->
  (forall i j p q, l !! i = Some p -> l !! j = Some q -> i <> j -> overlap_free size p q) ->
  forall i j p' q', (p :: l) !! i = Some p' -> (p :: l) !! j = Some q' -> i <> j ->
  overlap_free size p' q'.
Proof.
  intros Hp Hl [|i] [|j] p' q'; simpl; intros H1 H2 Hne; [done| | |eapply Hl; eauto].
  - injection H1 as <-. apply Hp. by eapply list_elem_of_lookup_2.
  - injection H2 as <-. unfold overlap_free in *.
    destruct (Hp p'); [by eapply list_elem_of_lookup_2|by right|by left].
Qed.

Lemma alloc_inv_alloc n s p :
  alloc_inv n s -> heap_block s p ->
  alloc_inv n (mkAllocState (Alloc (st_alloc s) p).2 ((Alloc (st_alloc s) p).1 :: live s)).
Proof.
  intros Hi [Hh1 Hh2]. pose proof (ai_size n s Hi) as Hsz. unfold Alloc.
  destruct (free_slabs_ (st_alloc s)) as [|[slab []] rest] eqn:Hf; cbn [fst snd].
  - assert (in_reserved (st_alloc s) p = false) as Hnr.
    { unfold in_reserved. destruct (reserved_space_ (st_alloc s)) as [base|]; [|done].
      destruct (Hh1 base eq_refl); lia. }
    destruct Hi as [? ? ? Hblk Hheap Hdis]. split; simpl; [done|done|done| | |].
    + intros base Hb. rewrite filter_cons_False by congruence. by apply Hblk.
    + intros q [->|Hq]%elem_of_cons Hr base Hb; [by apply Hh1|by eapply Hheap].
    + by apply live_disjoint_cons.
  - pose proof (sm_erase_head (slab, ()) rest) as He. cbn [fst] in He. rewrite He.
    assert (slab ∈ free_list (st_alloc s)) as Hfree by (unfold free_list; rewrite Hf; set_solver).
    pose proof (fun q => free_live_disjoint n s slab q Hi Hfree) as Hfl.
    pose proof (ai_sorted n s Hi) as Hs. rewrite Hf in Hs.
    split; simpl; [done| |by eapply sm_sorted_tail| | |].
    + intros Hb. pose proof (ai_none n s Hi Hb). congruence.
    + intros base Hb. destruct (ai_block n s Hi base Hb) as [Hn Hperm]. split; [done|].
      pose proof (in_reserved_addrs n s base slab Hi Hb (free_addrs n s base slab Hi Hb Hfree)) as Hr.
      unfold free_list in *. rewrite Hf in Hperm. simpl in *.
      rewrite filter_cons_True by exact Hr. rewrite <- Hperm. symmetry. apply Permutation_middle.
    + intros q [->|Hq]%elem_of_cons Hr base Hb; [|by eapply (ai_heap n s Hi)].
      exfalso. pose proof (in_reserved_addrs n s base slab Hi Hb (free_addrs n s base slab Hi Hb Hfree)) as Hr'.
      unfold in_reserved in *; simpl in *. congruence.
    + apply live_disjoint_cons; [done|apply (ai_disjoint n s Hi)].
Qed.

Lemma live_disjoint_remove size (l1 l2 : list Z) slab :
  (forall i j p q, (l1 ++ slab :: l2) !! i = Some p -> (l1 ++ slab :: l2) !! j = Some q ->
     i <> j -> overlap_free size p q) ->
  forall i j p q, (l1 ++ l2) !! i = Some p -> (l1 ++ l2) !! j = Some q -> i <> j ->
  overlap_free size p q.
Proof.
  intros Hl i j p q Hp Hq Hne.
  set (f k := if decide (k < length l1)%nat then k else S k).
  assert (forall k x, (l1 ++ l2) !! k = Some x -> (l1 ++ slab :: l2) !! f k = Some x) as Hf.
  { intros k x. unfold f. case_decide.
    - by rewrite !lookup_app_l by lia.
    - rewrite !lookup_app_r by lia. by replace (S k - length l1)%nat with (S (k - length l1)) by lia. }
  apply (Hl (f i) (f j)); [by apply Hf..|]. unfold f. repeat case_decide; lia.
Qed.

Lemma alloc_inv_release n s slab l1 l2 :
  alloc_inv n s -> live s = l1 ++ slab :: l2 ->
  alloc_inv n (mkAllocState (Release (st_alloc s) slab) (l1 ++ l2)).
Proof.
  intros Hi Hl. pose proof (ai_disjoint n s Hi) as Hdis. rewrite Hl in Hdis.
  pose proof (live_disjoint_remove _ _ _ _ Hdis) as Hdis'. clear Hdis.
  assert (forall q, q ∈ l1 ++ l2 -> q ∈ live s) as Hsub by (rewrite Hl; set_solver).
  pose proof (ai_sorted n s Hi) as Hs. pose proof (ai_size n s Hi) as Hsz. unfold Release.
  destruct (in_reserved (st_alloc s) slab) eqn:Hr.
  - split; simpl; [done| |by apply sm_emplace_sorted| | |done].
    + intros Hb. unfold in_reserved in Hr. by rewrite Hb in Hr.
    + intros base Hb. destruct (ai_block n s Hi base Hb) as [Hn Hperm]. split; [done|].
      assert (slab ∉ free_list (st_alloc s)) as Hnf.
      { intros Hin. destruct (free_live_disjoint n s slab slab Hi Hin); [rewrite Hl; set_solver|lia|lia]. }
      unfold free_list in *. simpl.
      rewrite (sm_emplace_perm slab () (free_slabs_ (st_alloc s))) by by apply sm_find_not_elem.
      rewrite <- Hperm, Hl, !filter_app, filter_cons_True by exact Hr.
      rewrite !(list_filter_iff _ (fun p => in_reserved (st_alloc s) p = true))
        by (intros; reflexivity).
      simpl. rewrite !app_assoc. apply Permutation_middle.
    + intros q Hq Hqr base Hb. eapply (ai_heap n s Hi); [by apply Hsub|done|done].
  - destruct Hi as [? ? ? Hblk Hheap _]. split; simpl; [done|done|done| | |done].
    + intros base Hb. destruct (Hblk base Hb) as [Hn Hperm]. split; [done|].
      rewrite Hl, filter_app, filter_cons_False in Hperm by congruence. by rewrite filter_app.
    + intros q Hq Hqr base Hb. eapply Hheap; eauto.
Qed.

(** The constructor, for a reserved block that is a whole number of slabs. *)
Lemma Allocator_ctor_inv buffer_size (n : nat) new_block a :
  0 < buffer_size ->
  Allocator_ctor buffer_size (Z.of_nat n * buffer_size) new_block = Ok a ->
  alloc_inv n (mkAllocState a []).
Proof.
  intros Hsz. unfold Allocator_ctor.
  destruct (Z.eqb_spec (Z.of_nat n * buffer_size) 0) as [H0|H0].
  - intros [= <-]. split; simpl; [done|done|constructor|done|set_solver|done].
  - rewrite (proj2 (Z.ltb_ge _ _)) by nia. intros [= <-].
    split; simpl; [done|done|by apply insert_slabs_sorted; constructor| |set_solver|done].
    intros base [= <-]. split; [done|]. rewrite app_nil_r. unfold free_list. simpl.
    rewrite insert_slabs_spec; [done|done|nia|constructor].
Qed.

Lemma alloc_steps_inv n s s' : rtc alloc_step s s' -> alloc_inv n s -> alloc_inv n s'.
Proof.
  intros Hs. induction Hs as [|s s1 s' Hstep _ IH]; [done|]. intros Hi. apply IH.
  destruct Hstep; eauto using alloc_inv_alloc, alloc_inv_release.
Qed.

(** ** Properties *)

(** C16: for a reserved block of a whole number of slabs, in every state that
    allocations and releases can reach, two buffers in use never overlap, no
    buffer in use overlaps a free slab, and every free slab lies inside the
    reserved block. *)
Theorem allocator_no_overlap buffer_size n new_block a s :
  0 < buffer_size ->
  Allocator_ctor buffer_size (Z.of_nat n * buffer_size) new_block = Ok a ->
  rtc alloc_step (mkAllocState a []) s ->
  (forall i j p q, live s !! i = Some p -> live s !! j = Some q -> i <> j ->
     overlap_free (al_buffer_size_ (st_alloc s)) p q) /\
  (forall p q, p ∈ free_list (st_alloc s) -> q ∈ live s ->
     overlap_free (al_buffer_size_ (st_alloc s)) p q) /\
  (forall p base, p ∈ free_list (st_alloc s) -> reserved_space_ (st_alloc s) = Some base ->
     base <= p /\ p + al_buffer_size_ (st_alloc s) <= base + reserved_space_size_ (st_alloc s)).
Proof.
  intros Hsz Hc Hs. pose proof (alloc_steps_inv n _ _ Hs (Allocator_ctor_inv _ n _ _ Hsz Hc)) as Hi.
  split; [apply (ai_disjoint n s Hi)|]. split; [intros p q; by apply (free_live_disjoint n)|].
  intros p base Hp Hb. destruct (ai_block n s Hi base Hb) as [-> _].
  eapply slab_addrs_in_range; [apply (ai_size n s Hi)|by eapply free_addrs].
Qed.

(** Two slabs of 4 bytes at address 100; one is allocated. *)
Definition demo_alloc_state : AllocState :=
  mkAllocState (mkAllocator 4 (Some 100) 8 [(104, ())]) [100].

Lemma allocator_no_overlap_witness :
  (forall i j p q, live demo_alloc_state !! i = Some p -> live demo_alloc_state !! j = Some q ->
     i <> j -> overlap_free 4 p q) /\
  (forall p q, p ∈ [104] -> q ∈ [100] -> overlap_free 4 p q) /\
  (forall p base, p ∈ [104] -> Some 100 = Some base -> base <= p /\ p + 4 <= base + 8).
Proof.
  apply (allocator_no_overlap 4 2 100 (mkAllocator 4 (Some 100) 8 [(100, ()); (104, ())])
           demo_alloc_state); [reflexivity|reflexivity|].
  eapply rtc_l; [|apply rtc_refl].
  apply (step_Alloc (mkAllocState (mkAllocator 4 (Some 100) 8 [(100, ()); (104, ())]) []) 200).
  split; [|intros q Hq; apply not_elem_of_nil in Hq; destruct Hq].
  intros base Hb. injection Hb as <-. right. by_compute.
Defined.

(** No slab leaks or is duplicated: in every reachable state the free slabs
    together with the slabs in use out of the reserved block are the slabs the
    constructor cut, once each.  So when everything was released all of them
    are free again. *)
Theorem allocator_conserves_slabs buffer_size n new_block a s base :
  0 < buffer_size ->
  Allocator_ctor buffer_size (Z.of_nat n * buffer_size) new_block = Ok a ->
  rtc alloc_step (mkAllocState a []) s -> reserved_space_ (st_alloc s) = Some base ->
  free_list (st_alloc s) ++ filter (fun p => in_reserved (st_alloc s) p = true) (live s)
  ≡ₚ slab_addrs base (al_buffer_size_ (st_alloc s)) n.
Proof.
  intros Hsz Hc Hs Hb. pose proof (alloc_steps_inv n _ _ Hs (Allocator_ctor_inv _ n _ _ Hsz Hc)) as Hi.
  by destruct (ai_block n s Hi base Hb).
Qed.

Lemma allocator_conserves_slabs_witness :
  [104] ++ filter (fun p => in_reserved (st_alloc demo_alloc_state) p = true) [100]
  ≡ₚ slab_addrs 100 4 2.
Proof.
  apply (allocator_conserves_slabs 4 2 100 (mkAllocator 4 (Some 100) 8 [(100, ()); (104, ())])
           demo_alloc_state 100); [reflexivity|reflexivity| |reflexivity].
  eapply rtc_l; [|apply rtc_refl].
  apply (step_Alloc (mkAllocState (mkAllocator 4 (Some 100) 8 [(100, ()); (104, ())]) []) 200).
  split; [|intros q Hq; apply not_elem_of_nil in Hq; destruct Hq].
  intros base Hb. injection Hb as <-. right. by_compute.
Defined.

(** A reserved block smaller than one slab is cut into a slab that reaches
    past its end.  The configuration accepts such sizes ([reserved_buffer_space
    2] with [buffer_size 4]), and the buffer allocated first is that slab. *)
Theorem allocator_short_reserve_overruns buffer_size reserved new_block fresh :
  0 < reserved < buffer_size ->
  exists a, Allocator_ctor buffer_size reserved new_block = Ok a /\
    (Alloc a fresh).1 = new_block /\ new_block + reserved < (Alloc a fresh).1 + buffer_size.
Proof.
  intros Hr. unfold Allocator_ctor.
  rewrite (proj2 (Z.eqb_neq _ _)), (proj2 (Z.ltb_ge _ _)) by lia. eexists. split; [done|].
  destruct (Z.to_nat reserved) as [|k] eqn:Hk; [lia|]. cbn [insert_slabs sm_emplace].
  rewrite (proj2 (Z.ltb_lt _ _)) by lia.
  assert (insert_slabs k (new_block + buffer_size) (new_block + reserved) buffer_size
            [(new_block, ())] = [(new_block, ())]) as Hi.
  { destruct k; cbn [insert_slabs]; [done|]. by rewrite (proj2 (Z.ltb_ge _ _)) by lia. }
  rewrite Hi. unfold Alloc. cbn [free_slabs_ fst]. split; [done|lia].
Qed.

Lemma allocator_short_reserve_witness :
  exists a, Allocator_ctor 4096 2048 65536 = Ok a /\
    (Alloc a 0).1 = 65536 /\ 65536 + 2048 < (Alloc a 0).1 + 4096.
Proof. apply (allocator_short_reserve_overruns 4096 2048 65536 0). by_compute. Defined.
