(* ===== verification/RedisProtocol.v ===== *)
(** * The redis protocol (RESP) parser

    [proxy/redis_protocol.h]: [redis::Bulk], [redis::BulkArray] and
    [redis::Integer].  A [Bulk] does not own its bytes, it points into a read
    buffer: the methods take the buffer's storage as their first argument. *)

From S2P Require Import Prelude CString.

Definition SIZE_PARSE_ERROR : Z := -10001.
Definition SIZE_NIL_BULK : Z := -1.

(** ** [class Bulk] *)
Record Bulk := mkBulk {
  raw_data_ : Z;        (** [const char*] *)
  present_size_ : Z     (** [int]: > 0 ok, 0 not ready, < 0 error *)
}.

#[global] Instance Bulk_eq_dec : EqDecision Bulk.
Proof. solve_decision. Defined.

(** [while( *p != '\r' && size_t(p - data) < bytes)]: [n] is
    [bytes - (p - data)], so [*p] is read before the bound is tested. *)
Fixpoint bulk_len_loop (l : bytes) (n : nat) (p total : Z) : result (Z * Z) :=
  match l with
  | [] => Fault OutOfBounds
  | c :: l' =>
      if bool_decide (c = CR) then Ok (p, total)
      else match n with
           | O => Ok (p, total)
           | S n' => bulk_len_loop l' n' (p + 1) (u64 (total * 10 + u64 (schar c - 48)))
           end
  end.

(** The constructor *)
Definition Bulk_ctor (m : bytes) (data bytes : Z) : result Bulk :=
  let ret sz := Ok (mkBulk data sz) in
  if bytes <? 4 then ret 0 else
  c0 ← rd m data;
  if bool_decide (c0 <> "$"%char) then ret SIZE_PARSE_ERROR else
  c1 ← rd m (data + 1);
  if bool_decide (c1 = "-"%char) then
    c2 ← rd m (data + 2);
    if bool_decide (c2 <> "1"%char) then ret SIZE_PARSE_ERROR
    else if bytes <? 5 then ret 0 else
    c3 ← rd m (data + 3);
    if bool_decide (c3 <> CR) then ret SIZE_PARSE_ERROR else
    c4 ← rd m (data + 4);
    if bool_decide (c4 <> LF) then ret SIZE_PARSE_ERROR else ret 5
  else
    r ← bulk_len_loop (at_ptr m (data + 1)) (Z.to_nat (bytes - 1)) (data + 1) 0;
    let '(p, total) := r in
    c ← rd m p;
    if bool_decide (c = CR) && (p + 1 <? data + bytes) then
      c' ← rd m (p + 1);
      ret (if bool_decide (c' = LF)
           then s32 (Z.min bytes (u64 ((p - data) + total + 4))) else 0)
    else ret 0.

Fixpoint bulk_total_loop (l : bytes) (p total : Z) : result (Z * Z) :=
  match l with
  | [] => Fault OutOfBounds
  | c :: l' =>
      if bool_decide (c = CR) then Ok (p, total)
      else bulk_total_loop l' (p + 1) (u64 (total * 10 + u64 (schar c - 48)))
  end.

Definition Bulk_total_size (m : bytes) (b : Bulk) : result Z :=
  c ← rd m (raw_data_ b + 1);
  if bool_decide (c = "-"%char) then Ok 5 else
  r ← bulk_total_loop (at_ptr m (raw_data_ b + 1)) (raw_data_ b + 1) 0;
  let '(p, total) := r in
  Ok (u64 (total + (p - raw_data_ b) + 4)).

Fixpoint find_lf (l : bytes) (p : Z) : result Z :=
  match l with
  | [] => Fault OutOfBounds
  | c :: l' => if bool_decide (c = LF) then Ok p else find_lf l' (p + 1)
  end.

Definition Bulk_payload_data (m : bytes) (b : Bulk) : result Z :=
  p ← find_lf (at_ptr m (raw_data_ b + 2)) (raw_data_ b + 2); Ok (p + 1).

(** [std::stoi] of a [const char*] builds a [std::string]: the scan for its end runs
    to the first NUL of the storage. *)
Definition Bulk_payload_size (m : bytes) (b : Bulk) : result Z :=
  s ← c_string (at_ptr m (raw_data_ b + 1));
  Ok (match stoi s with
      | Some sz => if 0 <? sz then sz else 0
      | None => 0
      end).

Definition Bulk_absent_size (m : bytes) (b : Bulk) : result Z :=
  total ← Bulk_total_size m b;
  Ok (if total <=? u64 (present_size_ b) then 0 else total - u64 (present_size_ b)).

Definition Bulk_completed (m : bytes) (b : Bulk) : result bool :=
  if 0 <? present_size_ b then a ← Bulk_absent_size m b; Ok (a =? 0) else Ok false.

Fixpoint bytes_match (f : ascii -> ascii) (s l : bytes) : result bool :=
  match s with
  | [] => Ok true
  | c :: s' =>
      match l with
      | [] => Fault OutOfBounds
      | c' :: l' => if bool_decide (f c = f c') then bytes_match f s' l' else Ok false
      end
  end.

Definition bulk_compare (f : ascii -> ascii) (m : bytes) (b : Bulk) (s : bytes) : result bool :=
  a ← Bulk_absent_size m b;
  _ ← res_assert (a =? 0);
  size ← Bulk_payload_size m b;
  if zlen s =? size then
    q ← Bulk_payload_data m b; bytes_match f s (at_ptr m q)
  else Ok false.

Definition Bulk_equals := bulk_compare id.
Definition Bulk_iequals := bulk_compare tolower.

Definition Bulk_to_string (m : bytes) (b : Bulk) : result bytes :=
  c ← rd m (raw_data_ b + 1);
  if bool_decide (c = "-"%char) then Ok (str "nil") else
  p ← Bulk_payload_data m b;
  total ← Bulk_total_size m b;
  absent ← Bulk_absent_size m b;
  read_bytes m p (u64 (total - (p - raw_data_ b) - absent - 2)).

(** [std::string(bulk.payload_data(), bulk.payload_size())] *)
Definition Bulk_payload (m : bytes) (b : Bulk) : result bytes :=
  p ← Bulk_payload_data m b; n ← Bulk_payload_size m b; read_bytes m p n.

(** ** [class BulkArray] *)
Record BulkArray := mkBulkArray {
  ba_raw_data_ : Z;
  parsed_size_ : Z;       (** [size_t] *)
  items_ : list Bulk
}.

Definition SerializePrefix (i : Z) : bytes := str "*" ++ dec_int i ++ crlf.

(** [ParseBulkItems]: the returned count and the vector it extended.  A turn
    that goes on advances [p] by at least one byte (lemma
    [Bulk_total_size_pos]), so [bytes] bounds the turns. *)
Fixpoint parse_bulk_items (fuel : nat) (m : bytes) (limit p max_bulks : Z)
    (items : list Bulk) (parsed_bytes : Z) : result (Z * list Bulk) :=
  if (p <? limit) && (zlen items <? max_bulks) then
    match fuel with
    | O => Fault OutOfFuel
    | S k =>
        back ← Bulk_ctor m p (limit - p);
        if present_size_ back <? 0 then Ok (-1, items ++ [back])
        else if present_size_ back =? 0 then Ok (parsed_bytes, items)
        else
          total ← Bulk_total_size m back;
          p' ← ptr_add p total;
          parse_bulk_items k m limit p' max_bulks (items ++ [back]) (s32 (parsed_bytes + total))
    end
  else Ok (parsed_bytes, items).

Definition ParseBulkItems (m : bytes) (data bytes max_bulks : Z) : result (Z * list Bulk) :=
  parse_bulk_items (Z.to_nat bytes) m (data + bytes) data max_bulks [] 0.

(** [for(++p; p < data + bytes && isdigit( *p); ++p)] *)
Fixpoint bulks_loop (l : bytes) (n : nat) (p bulks : Z) : result (Z * Z) :=
  match n with
  | O => Ok (p, bulks)
  | S n' =>
      match l with
      | [] => Fault OutOfBounds
      | c :: l' =>
          if isdigit c then bulks_loop l' n' (p + 1) (u64 (bulks * 10 + u64 (schar c - 48)))
          else Ok (p, bulks)
      end
  end.

Definition BulkArray_ctor (m : bytes) (data bytes : Z) : result BulkArray :=
  let ret sz := Ok (mkBulkArray data sz []) in
  if bytes <? 4 then ret 0 else
  c0 ← rd m data;
  if bool_decide (c0 <> "*"%char) then ret (u64 SIZE_PARSE_ERROR) else
  r ← bulks_loop (at_ptr m (data + 1)) (Z.to_nat (bytes - 1)) (data + 1) 0;
  let '(p, bulks) := r in
  if data + bytes <? p + 2 then ret 0 else
  if p =? data + 1 then ret (u64 SIZE_PARSE_ERROR) else
  c ← rd m p;
  if bool_decide (c <> CR) then ret (u64 SIZE_PARSE_ERROR) else
  c' ← rd m (p + 1);
  if bool_decide (c' <> LF) then ret (u64 SIZE_PARSE_ERROR) else
  let p := p + 2 in
  r' ← ParseBulkItems m p (data + bytes - p) bulks;
  let '(n, items) := r' in
  Ok (mkBulkArray data (if n <? 0 then u64 SIZE_PARSE_ERROR else u64 (p - data + n)) items).

(** [int parsed_size() const] *)
Definition BulkArray_parsed_size (ba : BulkArray) : Z := s32 (parsed_size_ ba).

Definition BulkArray_at (ba : BulkArray) (pos : Z) : result Bulk :=
  if pos <? 0 then Fault OutOfBounds else of_option OutOfBounds (items_ ba !! Z.to_nat pos).

Definition BulkArray_back (ba : BulkArray) : result Bulk :=
  of_option NullDeref (last (items_ ba)).

Definition BulkArray_total_bulks (m : bytes) (ba : BulkArray) : result Z :=
  s ← c_string (at_ptr m (ba_raw_data_ ba + 1));
  Ok (match stoi s with Some n => u64 n | None => 0 end).

Definition BulkArray_present_bulks (ba : BulkArray) : Z := zlen (items_ ba).

Definition BulkArray_absent_bulks (m : bytes) (ba : BulkArray) : result Z :=
  total ← BulkArray_total_bulks m ba; Ok (u64 (total - BulkArray_present_bulks ba)).

Definition BulkArray_completed (m : bytes) (ba : BulkArray) : result bool :=
  total ← BulkArray_total_bulks m ba;
  if negb (zlen (items_ ba) =? total) then Ok false
  else match last (items_ ba) with
       | None => Ok true
       | Some back => a ← Bulk_absent_size m back; Ok (negb (0 <? a))
       end.

Fixpoint sum_total_sizes (m : bytes) (items : list Bulk) (total : Z) : result Z :=
  match items with
  | [] => Ok total
  | b :: items' => t ← Bulk_total_size m b; sum_total_sizes m items' (u64 (total + t))
  end.

Definition BulkArray_total_size (m : bytes) (ba : BulkArray) : result Z :=
  total_bulks ← BulkArray_total_bulks m ba;
  if zlen (items_ ba) <? total_bulks then Ok 0
  else if total_bulks =? 0 then Ok 4
  else front ← of_option NullDeref (head (items_ ba));
       sum_total_sizes m (items_ ba) (u64 (raw_data_ front - ba_raw_data_ ba)).

(** ** [class Integer] *)
Definition SerializeInt (i : Z) : bytes := str ":" ++ dec_int i ++ crlf.

(** ** Reference encoding (RESP) *)
Definition enc_bulk (s : bytes) : bytes := str "$" ++ dec (zlen s) ++ crlf ++ s ++ crlf.
Definition nil_bulk : bytes := str "$-1" ++ crlf.
Definition enc_array (args : list bytes) : bytes :=
  str "*" ++ dec (zlen args) ++ crlf ++ concat (enc_bulk <$> args).

(** ** Lemmas: one bulk *)

Lemma schar_digit c : isdigit c = true -> schar c = uchar c /\ 0 <= uchar c - 48 <= 9.
Proof.
  unfold isdigit, schar. intros H. destruct (Z.ltb_spec (uchar c) 128); lia.
Qed.

Lemma digits_val_ge ds acc :
  Forall (fun c => isdigit c = true) ds -> 0 <= acc -> acc <= digits_val ds acc.
Proof.
  intros Hd. revert acc. induction Hd as [|c ds Hc Hd IH]; intros acc Ha; simpl; [lia|].
  rewrite Hc. destruct (schar_digit c Hc) as [_ ?].
  specialize (IH (acc * 10 + (uchar c - 48)) ltac:(lia)). lia.
Qed.

(** The step both length loops take on a digit. *)
Lemma digit_step c ds total :
  isdigit c = true -> Forall (fun c => isdigit c = true) ds -> 0 <= total ->
  digits_val (c :: ds) total < 2 ^ 64 ->
  u64 (total * 10 + u64 (schar c - 48)) = total * 10 + (uchar c - 48).
Proof.
  intros Hc Hd Ht Hv. simpl in Hv. rewrite Hc in Hv. destruct (schar_digit c Hc) as [-> ?].
  pose proof (digits_val_ge ds (total * 10 + (uchar c - 48)) Hd ltac:(lia)).
  rewrite (u64_small (uchar c - 48)) by lia. apply u64_small. lia.
Qed.

Section digit_loops.
Context (ds : bytes) (Hds : Forall (fun c => isdigit c = true) ds).

Lemma bulk_len_loop_digits l n p total :
  (length ds <= n)%nat -> 0 <= total -> digits_val ds total < 2 ^ 64 ->
  bulk_len_loop (ds ++ CR :: l) n p total = Ok (p + zlen ds, digits_val ds total).
Proof.
  revert n p total. induction Hds as [|c cs Hc Hcs IH]; intros n p total Hn Ht Hv.
  - simpl. by rewrite Z.add_0_r.
  - destruct n as [|n]; [simpl in Hn; lia|].
    destruct (isdigit_not_special c Hc) as (_ & _ & _ & Hcr & _).
    simpl. rewrite bool_decide_false by done. rewrite (digit_step c cs) by done.
    simpl in Hv. rewrite Hc in Hv. destruct (schar_digit c Hc).
    rewrite IH by (try done; simpl in *; lia). rewrite Hc, zlen_cons. do 2 f_equal. lia.
Qed.

(** The digits may be cut short by [bytes]. *)
Lemma bulk_len_loop_cut x l p total :
  exists t, bulk_len_loop (ds ++ x :: l) (length ds) p total = Ok (p + zlen ds, t).
Proof.
  revert p total. induction Hds as [|c cs Hc Hcs IH]; intros p total; simpl.
  - rewrite Z.add_0_r. case_bool_decide; eauto.
  - destruct (isdigit_not_special c Hc) as (_ & _ & _ & Hcr & _).
    rewrite bool_decide_false by done. rewrite zlen_cons.
    replace (p + (1 + zlen cs)) with (p + 1 + zlen cs) by lia. by apply IH.
Qed.

Lemma bulk_total_loop_digits l p total :
  0 <= total -> digits_val ds total < 2 ^ 64 ->
  bulk_total_loop (ds ++ CR :: l) p total = Ok (p + zlen ds, digits_val ds total).
Proof.
  revert p total. induction Hds as [|c cs Hc Hcs IH]; intros p total Ht Hv.
  - simpl. by rewrite Z.add_0_r.
  - destruct (isdigit_not_special c Hc) as (_ & _ & _ & Hcr & _).
    simpl. rewrite bool_decide_false by done. rewrite (digit_step c cs) by done.
    simpl in Hv. rewrite Hc in Hv. destruct (schar_digit c Hc).
    rewrite IH by (try done; lia). rewrite Hc, zlen_cons. do 2 f_equal. lia.
Qed.

Lemma bulks_loop_digits c l n p bulks :
  isdigit c = false -> (length ds <= n)%nat -> 0 <= bulks -> digits_val ds bulks < 2 ^ 64 ->
  bulks_loop (ds ++ c :: l) n p bulks = Ok (p + zlen ds, digits_val ds bulks).
Proof.
  intros Hnd. revert n p bulks. induction Hds as [|d cs Hc Hcs IH]; intros n p bulks Hn Ht Hv.
  - destruct n; simpl; rewrite ?Hnd, Z.add_0_r; done.
  - destruct n as [|n]; [simpl in Hn; lia|].
    simpl. rewrite Hc, (digit_step d cs) by done.
    simpl in Hv. rewrite Hc in Hv. destruct (schar_digit d Hc).
    rewrite IH by (try done; simpl in *; lia). rewrite zlen_cons. do 2 f_equal. lia.
Qed.

End digit_loops.

Lemma find_lf_app l p : LF ∉ l -> forall k, find_lf (l ++ LF :: k) p = Ok (p + zlen l).
Proof.
  intros Hl k. revert p. induction l as [|c l IH]; intros p; simpl.
  - by rewrite Z.add_0_r.
  - rewrite bool_decide_false by set_solver. rewrite IH by set_solver.
    rewrite zlen_cons. f_equal. lia.
Qed.

Lemma digits_no_special ds c :
  Forall (fun c => isdigit c = true) ds -> isdigit c = false -> c ∉ ds.
Proof. intros Hd Hc Hin. apply (proj1 (Forall_forall _ _) Hd) in Hin. congruence. Qed.

(** Reading at a known offset of the storage. *)
Lemma at_ptr_cons m p c l : 0 <= p -> at_ptr m p = c :: l -> rd m p = Ok c /\ at_ptr m (p + 1) = l.
Proof.
  intros Hp Hm. split; [by rewrite rd_at_ptr, Hm by done|].
  rewrite <- at_ptr_at_ptr by lia. by rewrite Hm.
Qed.

Lemma at_ptr_app_skip m p l k : 0 <= p -> at_ptr m p = l ++ k -> at_ptr m (p + zlen l) = k.
Proof.
  intros Hp Hm. rewrite <- at_ptr_at_ptr by (done || apply zlen_nonneg). rewrite Hm.
  apply at_ptr_app.
Qed.

(** The payload size a bulk may announce: its whole encoding then fits an
    [int], which is what [present_size_] and [ParseBulkItems] count with. *)
Definition small_payload (k : Z) : Prop := 0 <= k < 2 ^ 30.

(** [$<k>\r\n] *)
Definition bulk_header (k : Z) : bytes := str "$" ++ dec k ++ crlf.

Lemma digits_val_dec k : 0 <= k -> digits_val (dec k) 0 = k.
Proof. intros Hk. by apply dec_spec. Qed.

Lemma dec_fuel_length fuel n : (length (dec_fuel fuel n) <= fuel)%nat.
Proof.
  revert n. induction fuel as [|k IH]; intros n; cbn [dec_fuel]; [simpl; lia|].
  case_match; [simpl; lia|]. rewrite length_app. specialize (IH (n / 10)). simpl. lia.
Qed.

Lemma dec_short k : 0 <= k < 2 ^ 62 -> 1 <= zlen (dec k) <= 62.
Proof.
  intros Hk. split.
  - pose proof (dec_not_nil k ltac:(lia)). destruct (dec k); [done|]. rewrite zlen_cons.
    pose proof (zlen_nonneg l). lia.
  - pose proof (dec_fuel_length (S (Z.to_nat (Z.log2 k))) k) as Hl. unfold dec, zlen.
    assert (Z.log2 k < 62) by (destruct (decide (k = 0)) as [->|]; [done|apply Z.log2_lt_pow2; lia]).
    lia.
Qed.

Lemma zlen_bulk_header k : zlen (bulk_header k) = zlen (dec k) + 3.
Proof. unfold bulk_header. rewrite !zlen_app. change (zlen (str "$")) with 1. change (zlen crlf) with 2. lia. Qed.

Section bulk.
Context (m : bytes) (data : Z) (Hdata : 0 <= data) (k : Z) (Hk : small_payload k).

Lemma dec_head : exists c l, dec k = c :: l /\ isdigit c = true.
Proof.
  pose proof (dec_not_nil k ltac:(unfold small_payload in Hk; lia)) as Hn.
  pose proof (dec_digits k ltac:(unfold small_payload in Hk; lia)) as Hd.
  destruct (dec k) as [|c l]; [done|]. inversion_clear Hd. eauto.
Qed.

(** A complete header: the constructor returns how much of the bulk is there. *)
Lemma Bulk_ctor_header rest n :
  at_ptr m data = bulk_header k ++ rest ->
  zlen (bulk_header k) <= n < 2 ^ 31 ->
  Bulk_ctor m data n = Ok (mkBulk data (Z.min n (zlen (bulk_header k) + k + 2))).
Proof.
  intros Hm Hn. unfold small_payload in Hk. pose proof (dec_short k ltac:(lia)) as Hlen.
  rewrite zlen_bulk_header in *. pose proof (dec_digits k ltac:(lia)) as Hd.
  pose proof (digits_val_dec k ltac:(lia)) as Hv.
  unfold bulk_header in Hm. rewrite <- !app_assoc in Hm. simpl in Hm.
  apply at_ptr_cons in Hm as [Hr Hm]; [|done]. unfold Bulk_ctor.
  rewrite (proj2 (Z.ltb_ge _ _)) by lia. rewrite Hr, bind_Ok_l, bool_decide_false by tauto.
  destruct dec_head as (c & l & Hc & Hdig). destruct (isdigit_not_special c Hdig) as (_ & Hminus & _).
  pose proof Hm as Hm1. rewrite Hc in Hm1. simpl in Hm1.
  apply at_ptr_cons in Hm1 as [Hr1 _]; [|lia]. rewrite Hr1, bind_Ok_l, bool_decide_false by done.
  rewrite Hm, bulk_len_loop_digits by (try done; unfold zlen in *; lia). rewrite bind_Ok_l.
  apply at_ptr_app_skip in Hm; [|lia]. apply at_ptr_cons in Hm as [HrCR Hm]; [|unfold zlen; lia].
  apply at_ptr_cons in Hm as [HrLF _]; [|unfold zlen; lia].
  rewrite HrCR, bind_Ok_l, bool_decide_true by done.
  rewrite (proj2 (Z.ltb_lt _ _)) by lia. simpl. rewrite HrLF, bind_Ok_l, bool_decide_true by done.
  rewrite Hv, u64_small by lia. do 2 f_equal. rewrite s32_small by lia. lia.
Qed.

Lemma Bulk_total_size_header rest sz :
  at_ptr m data = bulk_header k ++ rest ->
  Bulk_total_size m (mkBulk data sz) = Ok (zlen (bulk_header k) + k + 2).
Proof.
  intros Hm. unfold small_payload in Hk. pose proof (dec_short k ltac:(lia)) as Hlen.
  rewrite zlen_bulk_header. pose proof (dec_digits k ltac:(lia)) as Hd.
  pose proof (digits_val_dec k ltac:(lia)) as Hv.
  unfold bulk_header in Hm. rewrite <- !app_assoc in Hm. simpl in Hm.
  apply at_ptr_cons in Hm as [_ Hm]; [|done]. unfold Bulk_total_size. cbn [raw_data_].
  destruct dec_head as (c & l & Hc & Hdig). destruct (isdigit_not_special c Hdig) as (_ & Hminus & _).
  pose proof Hm as Hm1. rewrite Hc in Hm1. simpl in Hm1.
  apply at_ptr_cons in Hm1 as [Hr1 _]; [|lia]. rewrite Hr1, bind_Ok_l, bool_decide_false by done.
  rewrite Hm, bulk_total_loop_digits by (done || lia). rewrite bind_Ok_l, Hv.
  rewrite u64_small by lia. f_equal. lia.
Qed.

Lemma Bulk_payload_data_header rest sz :
  at_ptr m data = bulk_header k ++ rest ->
  Bulk_payload_data m (mkBulk data sz) = Ok (data + zlen (bulk_header k)).
Proof.
  intros Hm. unfold small_payload in Hk. pose proof (dec_digits k ltac:(lia)) as Hd.
  destruct dec_head as (c & l & Hc & Hdig). rewrite Hc in Hd.
  unfold Bulk_payload_data. cbn [raw_data_]. rewrite zlen_bulk_header, Hc, zlen_cons.
  unfold bulk_header in Hm. rewrite <- !app_assoc, Hc in Hm. simpl in Hm.
  apply at_ptr_cons in Hm as [_ Hm]; [|done]. apply at_ptr_cons in Hm as [_ Hm]; [|lia].
  replace (data + 2) with (data + 1 + 1) by lia. rewrite Hm.
  inversion_clear Hd as [|?? _ Hl].
  replace (l ++ CR :: LF :: rest) with ((l ++ [CR]) ++ LF :: rest) by by rewrite <- app_assoc.
  rewrite find_lf_app.
  - rewrite bind_Ok_l, zlen_app, zlen_cons, zlen_nil. f_equal. lia.
  - apply not_elem_of_app. split; [by apply digits_no_special|]. decide_goal.
Qed.

Lemma Bulk_payload_size_header rest sz :
  at_ptr m data = bulk_header k ++ rest -> NUL ∈ rest ->
  Bulk_payload_size m (mkBulk data sz) = Ok k.
Proof.
  intros Hm Hnul. unfold small_payload in Hk. unfold Bulk_payload_size. cbn [raw_data_].
  unfold bulk_header in Hm. rewrite <- !app_assoc in Hm. simpl in Hm.
  apply at_ptr_cons in Hm as [_ Hm]; [|done]. rewrite Hm.
  replace (dec k ++ CR :: LF :: rest) with ((dec k ++ [CR; LF]) ++ rest) by by rewrite <- app_assoc.
  destruct (c_string_Ok rest Hnul) as [s Hs].
  rewrite c_string_app, Hs.
  - rewrite !bind_Ok_l, <- app_assoc. simpl. rewrite stoi_dec_app by (done || unfold INT_MAX; lia).
    f_equal. destruct (Z.ltb_spec 0 k); lia.
  - apply not_elem_of_app. split; [apply digits_no_special; [apply dec_digits; lia|done]|].
    decide_goal.
Qed.
End bulk.

(** A header that is cut: not ready.  The byte behind the received ones is read
    too, so the storage must have one more. *)
Lemma Bulk_ctor_cut m data k n x stale :
  0 <= data -> small_payload k -> 0 <= n < zlen (bulk_header k) ->
  at_ptr m data = take (Z.to_nat n) (bulk_header k) ++ x :: stale ->
  Bulk_ctor m data n = Ok (mkBulk data 0).
Proof.
  intros Hdata Hk Hn Hm. unfold Bulk_ctor. destruct (Z.ltb_spec n 4); [done|].
  pose proof (dec_digits k ltac:(unfold small_payload in Hk; lia)) as Hd.
  rewrite zlen_bulk_header in Hn. unfold bulk_header in Hm.
  replace (Z.to_nat n) with (S (Z.to_nat (n - 1))) in Hm by lia. simpl in Hm.
  apply at_ptr_cons in Hm as [Hr Hm]; [|done].
  rewrite Hr, bind_Ok_l, bool_decide_false by tauto.
  destruct (dec_head k Hk) as (c & l & Hc & Hdig).
  destruct (isdigit_not_special c Hdig) as (_ & Hminus & _).
  pose proof Hm as Hm1. rewrite Hc in Hm1.
  replace (Z.to_nat (n - 1)) with (S (Z.to_nat (n - 2))) in Hm1 by lia. simpl in Hm1.
  apply at_ptr_cons in Hm1 as [Hr1 _]; [|lia]. rewrite Hr1, bind_Ok_l, bool_decide_false by done.
  destruct (decide (n - 1 <= zlen (dec k))) as [Hle|Hgt].
  - rewrite take_app_le in Hm by (unfold zlen in Hle; lia).
    set (ds := take (Z.to_nat (n - 1)) (dec k)) in *.
    assert (length ds = Z.to_nat (n - 1)) as Hl by (unfold ds, zlen in *; rewrite length_take; lia).
    assert (Forall (fun c => isdigit c = true) ds) as Hds by by apply Forall_take.
    rewrite Hm, <- Hl. destruct (bulk_len_loop_cut ds Hds x stale (data + 1) 0) as [t ->].
    rewrite bind_Ok_l. apply at_ptr_app_skip in Hm; [|lia].
    apply at_ptr_cons in Hm as [-> _]; [|unfold zlen; lia]. rewrite bind_Ok_l.
    rewrite (proj2 (Z.ltb_ge _ _)) by (unfold zlen; lia). by rewrite andb_false_r.
  - assert (take (Z.to_nat (n - 1)) (dec k ++ crlf) = dec k ++ [CR]) as Ht.
    { rewrite take_app_ge by (unfold zlen in Hgt; lia).
      replace (Z.to_nat (n - 1) - length (dec k))%nat with 1%nat by (unfold zlen in *; lia). done. }
    rewrite Ht, <- app_assoc in Hm. simpl in Hm. unfold small_payload in Hk.
    rewrite Hm, bulk_len_loop_digits by (try done; rewrite ?digits_val_dec by lia; unfold zlen in *; lia).
    rewrite bind_Ok_l. apply at_ptr_app_skip in Hm; [|lia].
    apply at_ptr_cons in Hm as [-> _]; [|unfold zlen; lia]. rewrite bind_Ok_l.
    rewrite (proj2 (Z.ltb_ge _ _)) by lia. by rewrite andb_false_r.
Qed.

(** ** Lemmas: any input *)

Lemma bulk_loops_agree l n p total q t :
  bulk_len_loop l n p total = Ok (q, t) -> p <= q /\
  (l !! Z.to_nat (q - p) = Some CR -> bulk_total_loop l p total = Ok (q, t)).
Proof.
  revert n p total. induction l as [|c l IH]; intros n p total H; simpl in H; [done|].
  case_bool_decide as Hc.
  - injection H as <- <-. split; [lia|]. intros _. simpl. by rewrite bool_decide_true.
  - destruct n as [|n].
    + injection H as <- <-. split; [lia|]. rewrite Z.sub_diag. simpl. congruence.
    + apply IH in H as [Hle Hag]. split; [lia|]. intros Hl. simpl.
      rewrite bool_decide_false by done. apply Hag.
      replace (Z.to_nat (q - p)) with (S (Z.to_nat (q - (p + 1)))) in Hl by lia. done.
Qed.

Lemma lookup_at_ptr m p i : 0 <= p -> at_ptr m p !! i = m !! (Z.to_nat p + i)%nat.
Proof. intros Hp. unfold at_ptr. rewrite (proj2 (Z.ltb_ge _ _)) by lia. apply lookup_drop. Qed.

(** A bulk that is at least partly there has a positive total size, so a parser
    that skips it makes progress. *)
Lemma rd_nonneg m p c : rd m p = Ok c -> 0 <= p.
Proof. unfold rd. destruct (Z.ltb_spec p 0); [done|lia]. Qed.

Lemma Bulk_total_size_pos m data n b t :
  Bulk_ctor m data n = Ok b -> 0 < present_size_ b -> Bulk_total_size m b = Ok t -> 0 < t < 2 ^ 64.
Proof.
  intros Hb Hp Ht. unfold Bulk_ctor in Hb. destruct (Z.ltb_spec n 4) as [|Hn].
  { injection Hb as <-. simpl in Hp. lia. }
  inv_bind Hb. pose proof (rd_nonneg _ _ _ Hr) as Hdata. case_bool_decide; [injection Hb as <-; simpl in Hp; done|].
  inv_bind Hb. case_bool_decide as Hminus.
  { assert (raw_data_ b = data) as Hraw.
    { inv_bind Hb. repeat (case_match; try inv_bind Hb); by injection Hb as <-. }
    unfold Bulk_total_size in Ht. rewrite Hraw, Hr0, bind_Ok_l in Ht.
    rewrite bool_decide_true in Ht by done. injection Ht as <-. lia. }
  inv_bind Hb. destruct r1 as [p total]. inv_bind Hb.
  destruct (bool_decide (r1 = CR) && (p + 1 <? data + n)) eqn:Hcond.
  2:{ injection Hb as <-. simpl in Hp. done. }
  apply andb_true_iff in Hcond as [Hcr%bool_decide_eq_true Hlt].
  inv_bind Hb. injection Hb as <-. simpl in Hp. case_bool_decide; [|done].
  unfold Bulk_total_size in Ht. cbn [raw_data_] in Ht. rewrite Hr0, bind_Ok_l in Ht.
  rewrite bool_decide_false in Ht by done.
  apply bulk_loops_agree in Hr1 as [Hle Hag]. rewrite Hag in Ht.
  - rewrite bind_Ok_l in Ht. injection Ht as <-.
    replace (total + (p - data) + 4) with (p - data + total + 4) by lia.
    pose proof (u64_range (p - data + total + 4)). split; [|lia].
    destruct (decide (u64 (p - data + total + 4) = 0)) as [Hz|]; [|lia].
    rewrite Hz, Z.min_r in Hp by lia. done.
  - rewrite lookup_at_ptr by lia. unfold rd in Hr2.
    rewrite (proj2 (Z.ltb_ge _ _)) in Hr2 by lia. apply of_option_Ok in Hr2. subst r1.
    rewrite <- Hr2. f_equal. lia.
Qed.

Lemma rd_fuel m p : fuel_free (rd m p).
Proof. unfold rd. fuel_free_tac. Qed.
Lemma bulk_len_loop_fuel l n p t : fuel_free (bulk_len_loop l n p t).
Proof. revert n p t. induction l; intros n p t; simpl; fuel_free_tac. Qed.
Lemma bulk_total_loop_fuel l p t : fuel_free (bulk_total_loop l p t).
Proof. revert p t. induction l; intros p t; simpl; fuel_free_tac. Qed.
Lemma bulks_loop_fuel l n p t : fuel_free (bulks_loop l n p t).
Proof. revert n p t. induction l; intros [|n] p t; simpl; fuel_free_tac. Qed.
Lemma ptr_add_fuel p n : fuel_free (ptr_add p n).
Proof. unfold ptr_add. fuel_free_tac. Qed.
#[export] Hint Resolve rd_fuel bulk_len_loop_fuel bulk_total_loop_fuel bulks_loop_fuel ptr_add_fuel : fuel.

Lemma Bulk_ctor_fuel m data n : fuel_free (Bulk_ctor m data n).
Proof. unfold Bulk_ctor. fuel_free_tac. Qed.
Lemma Bulk_total_size_fuel m b : fuel_free (Bulk_total_size m b).
Proof. unfold Bulk_total_size. fuel_free_tac. Qed.
#[export] Hint Resolve Bulk_ctor_fuel Bulk_total_size_fuel : fuel.

(** With a turn per byte the item parser never runs out of turns. *)
Lemma parse_bulk_items_fuel fuel m limit p max_bulks items parsed :
  limit - p <= Z.of_nat fuel ->
  fuel_free (parse_bulk_items fuel m limit p max_bulks items parsed).
Proof.
  revert p items parsed. induction fuel as [|f IH]; intros p items parsed Hf;
    cbn [parse_bulk_items]; destruct (Z.ltb_spec p limit) as [Hlt|]; simpl; try done; [lia|].
  destruct (zlen items <? max_bulks); [|done].
  apply fuel_free_bind; [apply Bulk_ctor_fuel|]. intros b Hb.
  destruct (Z.ltb_spec (present_size_ b) 0); [done|].
  destruct (Z.eqb_spec (present_size_ b) 0); [done|].
  apply fuel_free_bind; [apply Bulk_total_size_fuel|]. intros t Ht.
  pose proof (Bulk_total_size_pos m p _ b t Hb ltac:(lia) Ht).
  apply fuel_free_bind; [apply ptr_add_fuel|]. intros p' Hp'.
  unfold ptr_add in Hp'. case_match; [|done]. injection Hp' as <-. apply IH; lia.
Qed.

(** ** Lemmas: arrays *)

(** The bulks a parser makes of the encodings of [args] from [p] on. *)
Fixpoint bulk_items (p : Z) (args : list bytes) : list Bulk :=
  match args with
  | [] => []
  | s :: args' => mkBulk p (zlen (enc_bulk s)) :: bulk_items (p + zlen (enc_bulk s)) args'
  end.

Definition enc_items (args : list bytes) : bytes := concat (enc_bulk <$> args).

Lemma enc_bulk_header s : enc_bulk s = bulk_header (zlen s) ++ s ++ crlf.
Proof. unfold enc_bulk, bulk_header. by rewrite <- !app_assoc. Qed.

Lemma zlen_enc_bulk s : zlen (enc_bulk s) = zlen (bulk_header (zlen s)) + zlen s + 2.
Proof. rewrite enc_bulk_header, !zlen_app. change (zlen crlf) with 2. lia. Qed.

Lemma zlen_bulk_header_pos k : 3 <= zlen (bulk_header k).
Proof. rewrite zlen_bulk_header. pose proof (zlen_nonneg (dec k)). lia. Qed.

Lemma zlen_enc_bulk_ge s : zlen s + 5 <= zlen (enc_bulk s).
Proof. rewrite zlen_enc_bulk. pose proof (zlen_bulk_header_pos (zlen s)). lia. Qed.

Lemma enc_items_cons s args : enc_items (s :: args) = enc_bulk s ++ enc_items args.
Proof. reflexivity. Qed.

Lemma zlen_enc_items_ge args : 5 * zlen args <= zlen (enc_items args).
Proof.
  induction args as [|s args IH]; [done|]. rewrite enc_items_cons, zlen_app, zlen_cons.
  pose proof (zlen_enc_bulk_ge s). pose proof (zlen_nonneg s). lia.
Qed.

Lemma length_bulk_items p args : length (bulk_items p args) = length args.
Proof. revert p. induction args as [|s args IH]; intros p; simpl; [done|]. by rewrite IH. Qed.

(** The parser's turns over complete bulks. *)
Lemma parse_bulk_items_complete args : forall fuel m limit p max_bulks items parsed rest,
  0 <= p -> at_ptr m p = enc_items args ++ rest -> p + zlen (enc_items args) <= limit ->
  limit - p < 2 ^ 30 -> (length args <= fuel)%nat -> zlen items + zlen args <= max_bulks ->
  0 <= parsed -> parsed + zlen (enc_items args) < 2 ^ 30 ->
  parse_bulk_items fuel m limit p max_bulks items parsed =
  parse_bulk_items (fuel - length args) m limit (p + zlen (enc_items args)) max_bulks
    (items ++ bulk_items p args) (parsed + zlen (enc_items args)).
Proof.
  induction args as [|s args IH]; intros fuel m limit p max_bulks items parsed rest
    Hp Hm Hlim Hsmall Hfuel Hmax Hpar Hpar'.
  - rewrite !Z.add_0_r, app_nil_r. simpl. by rewrite Nat.sub_0_r.
  - destruct fuel as [|f]; [simpl in Hfuel; lia|]. rewrite enc_items_cons in *.
    rewrite !zlen_app, zlen_cons in *. pose proof (zlen_nonneg args). pose proof (zlen_nonneg s).
    pose proof (zlen_nonneg (enc_items args)). pose proof (zlen_enc_bulk_ge s).
    assert (small_payload (zlen s)) as Hsp by (unfold small_payload; lia).
    rewrite <- app_assoc in Hm. cbn [parse_bulk_items length Nat.sub].
    rewrite (proj2 (Z.ltb_lt p limit)), (proj2 (Z.ltb_lt (zlen items) _)) by lia.
    pose proof Hm as Hm'. rewrite enc_bulk_header, <- !app_assoc in Hm'. simpl.
    rewrite (Bulk_ctor_header m p Hp (zlen s) Hsp _ (limit - p) Hm')
      by (rewrite zlen_enc_bulk in *; lia).
    rewrite bind_Ok_l. rewrite <- zlen_enc_bulk. rewrite Z.min_r by lia. cbn [present_size_].
    rewrite (proj2 (Z.ltb_ge _ _)), (proj2 (Z.eqb_neq _ _)) by lia.
    rewrite (Bulk_total_size_header m p Hp (zlen s) Hsp _ _ Hm'), bind_Ok_l, <- zlen_enc_bulk.
    unfold ptr_add. rewrite (proj2 (Z.ltb_lt _ _)) by lia. rewrite bind_Ok_l.
    rewrite s32_small by lia. apply at_ptr_app_skip in Hm; [|done].
    rewrite (IH f m limit _ max_bulks _ _ rest) by
      (try done; rewrite ?zlen_app, ?zlen_cons, ?zlen_nil; simpl in Hfuel; lia).
    cbn [bulk_items]. rewrite <- app_assoc. simpl. f_equal; lia.
Qed.

Definition array_header (n : Z) : bytes := str "*" ++ dec n ++ crlf.

Lemma zlen_array_header n : zlen (array_header n) = zlen (dec n) + 3.
Proof. unfold array_header. rewrite !zlen_app. change (zlen (str "*")) with 1. change (zlen crlf) with 2. lia. Qed.

Section array.
Context (m : bytes) (data : Z) (Hdata : 0 <= data) (n : Z) (Hn : 0 <= n < 2 ^ 30).

(** A cut inside the header *)
Lemma bulks_loop_prefix ds l k p bulks :
  Forall (fun c => isdigit c = true) ds -> (k <= length ds)%nat ->
  exists v, bulks_loop (ds ++ l) k p bulks = Ok (p + Z.of_nat k, v).
Proof.
  intros Hds. revert k p bulks. induction Hds as [|d ds Hd Hds IH]; intros k p bulks Hk.
  - exists bulks. destruct k as [|k]; [|simpl in Hk; lia]. change (Z.of_nat 0) with 0. rewrite Z.add_0_r. by destruct l.
  - destruct k as [|k]; [exists bulks; change (Z.of_nat 0) with 0; by rewrite Z.add_0_r|].
    cbn [app bulks_loop]. rewrite Hd. simpl in Hk.
    destruct (IH k (p + 1) (u64 (bulks * 10 + u64 (schar d - 48)))) as [v ->]; [lia|].
    exists v. do 2 f_equal. lia.
Qed.

Lemma BulkArray_ctor_cut_header rest k :
  at_ptr m data = array_header n ++ rest -> 0 <= k < zlen (array_header n) ->
  BulkArray_ctor m data k = Ok (mkBulkArray data 0 []).
Proof.
  intros Hm Hk. rewrite zlen_array_header in Hk. pose proof (dec_digits n ltac:(lia)) as Hd.
  pose proof (digits_val_dec n ltac:(lia)) as Hv.
  unfold BulkArray_ctor. destruct (Z.ltb_spec k 4); [done|].
  unfold array_header in Hm. rewrite <- !app_assoc in Hm. cbn [str String.list_ascii_of_string app] in Hm.
  apply at_ptr_cons in Hm as [-> Hm]; [|lia]. rewrite bind_Ok_l, bool_decide_eq_false_2, Hm by tauto.
  destruct (decide (k - 1 <= zlen (dec n))) as [Hle|Hgt].
  - destruct (bulks_loop_prefix (dec n) (crlf ++ rest) (Z.to_nat (k - 1)) (data + 1) 0) as [v ->];
      [done|unfold zlen in *; lia|]. rewrite bind_Ok_l, (proj2 (Z.ltb_lt _ _)) by lia. done.
  - change (crlf ++ rest) with (CR :: LF :: rest).
    rewrite bulks_loop_digits by (done || unfold zlen in *; lia).
    rewrite bind_Ok_l, (proj2 (Z.ltb_lt _ _)) by lia. done.
Qed.

Lemma BulkArray_ctor_header rest bytes :
  at_ptr m data = array_header n ++ rest -> zlen (array_header n) <= bytes ->
  BulkArray_ctor m data bytes =
  (r ← ParseBulkItems m (data + zlen (array_header n)) (bytes - zlen (array_header n)) n;
   Ok (mkBulkArray data (if r.1 <? 0 then u64 SIZE_PARSE_ERROR
                         else u64 (zlen (array_header n) + r.1)) r.2)).
Proof.
  intros Hm Hb. rewrite zlen_array_header in *. pose proof (dec_digits n ltac:(lia)) as Hd.
  pose proof (digits_val_dec n ltac:(lia)) as Hv. pose proof (dec_short n ltac:(lia)).
  unfold array_header in Hm. rewrite <- !app_assoc in Hm. simpl in Hm.
  apply at_ptr_cons in Hm as [Hr Hm]; [|done]. unfold BulkArray_ctor.
  rewrite (proj2 (Z.ltb_ge _ _)) by lia. rewrite Hr, bind_Ok_l, bool_decide_false by tauto.
  rewrite Hm, bulks_loop_digits by (try done; unfold zlen in *; lia). rewrite bind_Ok_l, Hv.
  rewrite (proj2 (Z.ltb_ge _ _)), (proj2 (Z.eqb_neq _ _)) by lia.
  apply at_ptr_app_skip in Hm; [|lia]. apply at_ptr_cons in Hm as [-> Hm]; [|unfold zlen; lia].
  apply at_ptr_cons in Hm as [HLF _]; [|unfold zlen; lia].
  rewrite bind_Ok_l, bool_decide_false by tauto. rewrite HLF, bind_Ok_l, bool_decide_false by tauto.
  replace (data + 1 + zlen (dec n) + 2) with (data + (zlen (dec n) + 3)) by lia.
  replace (data + bytes - (data + (zlen (dec n) + 3))) with (bytes - (zlen (dec n) + 3)) by lia.
  destruct (ParseBulkItems _ _ _ _) as [[r its]|f]; simpl; [|done].
  by replace (data + (zlen (dec n) + 3) - data + r) with (zlen (dec n) + 3 + r) by lia.
Qed.

Lemma BulkArray_total_bulks_header rest sz items :
  at_ptr m data = array_header n ++ rest -> NUL ∈ rest ->
  BulkArray_total_bulks m (mkBulkArray data sz items) = Ok n.
Proof.
  intros Hm Hnul. unfold BulkArray_total_bulks. cbn [ba_raw_data_].
  unfold array_header in Hm. rewrite <- !app_assoc in Hm. simpl in Hm.
  apply at_ptr_cons in Hm as [_ Hm]; [|done]. rewrite Hm.
  replace (dec n ++ CR :: LF :: rest) with ((dec n ++ [CR; LF]) ++ rest) by by rewrite <- app_assoc.
  destruct (c_string_Ok rest Hnul) as [s Hs]. rewrite c_string_app, Hs.
  - rewrite !bind_Ok_l, <- app_assoc. simpl. rewrite stoi_dec_app by (done || unfold INT_MAX; lia).
    by rewrite u64_small by lia.
  - apply not_elem_of_app. split; [apply digits_no_special; [apply dec_digits; lia|done]|].
    decide_goal.
Qed.
End array.

(** The methods of the bulks of complete encodings. *)
Section complete_bulk.
Context (m : bytes) (p : Z) (s rest : bytes).
Hypothesis (Hp : 0 <= p) (Hs : zlen (enc_bulk s) < 2 ^ 30).
Hypothesis Hm : at_ptr m p = enc_bulk s ++ rest.

Lemma enc_bulk_small : small_payload (zlen s).
Proof.
  unfold small_payload. pose proof (zlen_enc_bulk_ge s). pose proof (zlen_nonneg s). lia.
Qed.

Lemma enc_bulk_at : at_ptr m p = bulk_header (zlen s) ++ s ++ crlf ++ rest.
Proof. rewrite Hm, enc_bulk_header. by rewrite <- !app_assoc. Qed.

Lemma complete_total_size sz : Bulk_total_size m (mkBulk p sz) = Ok (zlen (enc_bulk s)).
Proof.
  rewrite (Bulk_total_size_header m p Hp _ enc_bulk_small _ _ enc_bulk_at).
  by rewrite zlen_enc_bulk.
Qed.

Lemma complete_absent_size :
  Bulk_absent_size m (mkBulk p (zlen (enc_bulk s))) = Ok 0.
Proof.
  unfold Bulk_absent_size. rewrite complete_total_size, bind_Ok_l. cbn [present_size_].
  pose proof (zlen_nonneg (enc_bulk s)). rewrite u64_small by lia. by rewrite Z.leb_refl.
Qed.

Lemma complete_completed : Bulk_completed m (mkBulk p (zlen (enc_bulk s))) = Ok true.
Proof.
  unfold Bulk_completed. cbn [present_size_]. pose proof (zlen_enc_bulk_ge s).
  pose proof (zlen_nonneg s). rewrite (proj2 (Z.ltb_lt _ _)) by lia.
  by rewrite complete_absent_size.
Qed.

Lemma complete_payload sz : NUL ∈ rest -> Bulk_payload m (mkBulk p sz) = Ok s.
Proof.
  intros Hnul. unfold Bulk_payload.
  rewrite (Bulk_payload_data_header m p Hp _ enc_bulk_small _ _ enc_bulk_at), bind_Ok_l.
  rewrite (Bulk_payload_size_header m p Hp _ enc_bulk_small _ _ enc_bulk_at) by set_solver.
  rewrite bind_Ok_l. pose proof enc_bulk_at as Ha. pose proof (zlen_nonneg (bulk_header (zlen s))).
  apply at_ptr_app_skip in Ha; [|done]. unfold at_ptr in Ha.
  rewrite (proj2 (Z.ltb_ge _ _)) in Ha by lia. unfold read_bytes.
  assert (zlen s <= zlen m - (p + zlen (bulk_header (zlen s)))) as Hlen.
  { apply (f_equal length) in Ha. rewrite length_drop, !length_app in Ha. unfold zlen in *.
    change (length crlf) with 2%nat in Ha. lia. }
  pose proof (zlen_nonneg s). rewrite !(proj2 (Z.ltb_ge _ _)) by lia. simpl. rewrite Ha.
  unfold zlen. rewrite Nat2Z.id. by rewrite take_app_length.
Qed.
End complete_bulk.

Lemma sum_total_sizes_items args : forall m p total rest,
  0 <= p -> at_ptr m p = enc_items args ++ rest -> 0 <= total ->
  total + zlen (enc_items args) < 2 ^ 30 ->
  sum_total_sizes m (bulk_items p args) total = Ok (total + zlen (enc_items args)).
Proof.
  induction args as [|s args IH]; intros m p total rest Hp Hm Ht Hl.
  - simpl. by rewrite Z.add_0_r.
  - rewrite enc_items_cons in *. rewrite zlen_app in *. rewrite <- app_assoc in Hm.
    pose proof (zlen_nonneg (enc_items args)). pose proof (zlen_nonneg (enc_bulk s)).
    cbn [bulk_items sum_total_sizes].
    rewrite (complete_total_size m p s _ Hp ltac:(lia) Hm), bind_Ok_l, u64_small by lia.
    apply at_ptr_app_skip in Hm; [|done].
    rewrite (IH m _ _ rest) by (done || lia). f_equal. lia.
Qed.

(** [b] is complete and its payload is [s]. *)
Definition bulk_denotes (m : bytes) (b : Bulk) (s : bytes) : Prop :=
  Bulk_completed m b = Ok true /\ Bulk_payload m b = Ok s.

Lemma bulk_items_denote args : forall m p rest,
  0 <= p -> at_ptr m p = enc_items args ++ rest -> zlen (enc_items args) < 2 ^ 30 ->
  NUL ∈ rest -> Forall2 (bulk_denotes m) (bulk_items p args) args.
Proof.
  induction args as [|s args IH]; intros m p rest Hp Hm Hl Hnul; [constructor|].
  rewrite enc_items_cons in *. rewrite zlen_app in *. rewrite <- app_assoc in Hm.
  pose proof (zlen_nonneg (enc_items args)). pose proof (zlen_nonneg (enc_bulk s)).
  cbn [bulk_items]. constructor.
  - split; [eapply complete_completed; [done|lia|done]|].
    eapply complete_payload; [done|lia|done|set_solver].
  - apply (IH m _ rest); [lia|by apply at_ptr_app_skip in Hm|lia|done].
Qed.

Lemma last_bulk_items_absent args : forall m p rest b,
  0 <= p -> at_ptr m p = enc_items args ++ rest -> zlen (enc_items args) < 2 ^ 30 ->
  last (bulk_items p args) = Some b -> Bulk_absent_size m b = Ok 0.
Proof.
  induction args as [|s args IH]; intros m p rest b Hp Hm Hl Hb; [done|].
  rewrite enc_items_cons in *. rewrite zlen_app in *. rewrite <- app_assoc in Hm.
  pose proof (zlen_nonneg (enc_items args)). pose proof (zlen_nonneg (enc_bulk s)).
  destruct args as [|s' args].
  - injection Hb as <-. eapply complete_absent_size; [done|lia|done].
  - eapply (IH m (p + zlen (enc_bulk s)) rest); [lia|by apply at_ptr_app_skip in Hm|lia|done].
Qed.

Lemma enc_array_split args : enc_array args = array_header (zlen args) ++ enc_items args.
Proof. unfold enc_array, array_header. by rewrite <- !app_assoc. Qed.

(** The parser stops when it has the announced number of bulks, or no bytes. *)
Lemma parse_bulk_items_stop fuel m limit p max_bulks items parsed :
  limit <= p \/ max_bulks <= zlen items ->
  parse_bulk_items fuel m limit p max_bulks items parsed = Ok (parsed, items).
Proof.
  intros Hs. destruct fuel; cbn [parse_bulk_items];
    destruct (Z.ltb_spec p limit), (Z.ltb_spec (zlen items) max_bulks); simpl; done || lia.
Qed.

Lemma BulkArray_ctor_complete m data args rest bytes :
  0 <= data -> at_ptr m data = enc_array args ++ rest ->
  zlen (enc_array args) <= bytes < 2 ^ 30 ->
  BulkArray_ctor m data bytes =
  Ok (mkBulkArray data (zlen (enc_array args))
        (bulk_items (data + zlen (array_header (zlen args))) args)).
Proof.
  intros Hdata Hm Hb. rewrite enc_array_split in *. rewrite zlen_app in *.
  rewrite <- app_assoc in Hm. pose proof (zlen_enc_items_ge args).
  pose proof (zlen_nonneg (array_header (zlen args))). pose proof (zlen_nonneg args).
  rewrite (BulkArray_ctor_header m data Hdata (zlen args) ltac:(lia) _ bytes Hm) by lia.
  apply at_ptr_app_skip in Hm; [|done]. unfold ParseBulkItems.
  rewrite (parse_bulk_items_complete args _ _ _ _ _ _ _ rest)
    by (try done; rewrite ?zlen_nil; unfold zlen in *; lia).
  rewrite parse_bulk_items_stop; [|right; unfold zlen; simpl; rewrite length_bulk_items; lia].
  rewrite bind_Ok_l. cbn [fst snd].
  rewrite (proj2 (Z.ltb_ge _ _)) by lia. by rewrite Z.add_0_l, u64_small by lia.
Qed.

(** ** Lemmas: an array of which only a part was received *)
Section partial_array.
Context (m : bytes) (data : Z) (n : Z) (full : list bytes) (a : bytes) (j : Z)
  (x : ascii) (stale : bytes).
Hypothesis (Hdata : 0 <= data) (Hn : zlen full < n) (Hn30 : n < 2 ^ 30).
Hypothesis (Ha : zlen (enc_bulk a) < 2 ^ 30) (Hj : 0 <= j < zlen (enc_bulk a)).

(** The received bytes: the header of an array of [n] bulks, the complete
    bulks [full] and the first [j] bytes of the next one. *)
Definition received_part : bytes :=
  array_header n ++ enc_items full ++ take (Z.to_nat j) (enc_bulk a).

Hypothesis (Hlen : zlen received_part < 2 ^ 30).
Hypothesis (Hm : at_ptr m data = received_part ++ x :: stale).

Definition next_bulk_at : Z := data + zlen (array_header n) + zlen (enc_items full).

Definition partial_items : list Bulk :=
  bulk_items (data + zlen (array_header n)) full ++
  (if j <? zlen (bulk_header (zlen a)) then [] else [mkBulk next_bulk_at j]).

(** What the parser counts as parsed: an item whose header is there counts with
    its announced size. *)
Definition partial_parsed : Z :=
  zlen (array_header n) + zlen (enc_items full) +
  (if j <? zlen (bulk_header (zlen a)) then 0 else zlen (enc_bulk a)).

Lemma zlen_received_part :
  zlen received_part = zlen (array_header n) + zlen (enc_items full) + j.
Proof.
  unfold received_part. rewrite !zlen_app. unfold zlen. rewrite length_take.
  unfold zlen in Hj. lia.
Qed.

Lemma next_bulk_mem :
  at_ptr m next_bulk_at = take (Z.to_nat j) (enc_bulk a) ++ x :: stale.
Proof.
  unfold next_bulk_at, received_part in *. rewrite <- !app_assoc in Hm.
  pose proof (zlen_nonneg (array_header n)). apply at_ptr_app_skip in Hm; [|done].
  apply at_ptr_app_skip in Hm; [done|lia].
Qed.

Lemma next_bulk_header :
  zlen (bulk_header (zlen a)) <= j ->
  exists rest, at_ptr m next_bulk_at = bulk_header (zlen a) ++ rest.
Proof.
  intros Hh. rewrite next_bulk_mem, enc_bulk_header, take_app_ge by (unfold zlen in Hh |- *; lia).
  rewrite <- app_assoc. eauto.
Qed.

Lemma BulkArray_ctor_partial :
  BulkArray_ctor m data (zlen received_part) = Ok (mkBulkArray data partial_parsed partial_items).
Proof.
  pose proof zlen_received_part as Hrp. pose proof (zlen_nonneg (array_header n)).
  pose proof (zlen_nonneg (enc_items full)). pose proof (zlen_nonneg full).
  pose proof (zlen_enc_items_ge full). pose proof next_bulk_mem as Hnext.
  pose proof (enc_bulk_small a Ha) as Hsp.
  assert (0 <= next_bulk_at) by (unfold next_bulk_at; lia).
  pose proof Hm as Hm1. unfold received_part in Hm1. rewrite <- !app_assoc in Hm1.
  rewrite (BulkArray_ctor_header m data Hdata n ltac:(lia) _ _ Hm1) by lia.
  apply at_ptr_app_skip in Hm1; [|done]. unfold ParseBulkItems.
  rewrite (parse_bulk_items_complete full _ _ _ _ _ _ _ (take (Z.to_nat j) (enc_bulk a) ++ x :: stale))
    by (try done; rewrite ?zlen_nil; unfold zlen in *; lia).
  fold next_bulk_at. set (fuel := (_ - _)%nat).
  assert (fuel = Z.to_nat (zlen (enc_items full) + j) - length full)%nat as Hfuel
    by (unfold fuel; f_equal; lia). simpl app.
  replace (data + zlen (array_header n) + (zlen received_part - zlen (array_header n)))
    with (next_bulk_at + j) by (unfold next_bulk_at; lia).
  unfold partial_parsed, partial_items.
  destruct (decide (j = 0)) as [->|Hj0].
  { rewrite parse_bulk_items_stop by (left; lia). rewrite bind_Ok_l. cbn [fst snd].
    rewrite (proj2 (Z.ltb_ge _ _)) by lia. pose proof (zlen_bulk_header_pos (zlen a)).
    rewrite (proj2 (Z.ltb_lt 0 _)) by lia. rewrite app_nil_r, u64_small by lia.
    do 2 f_equal. lia. }
  destruct fuel as [|f]; [unfold zlen in *; lia|]. cbn [parse_bulk_items].
  assert (zlen (bulk_items (data + zlen (array_header n)) full) = zlen full) as Hbi
    by (unfold zlen; by rewrite length_bulk_items).
  rewrite (proj2 (Z.ltb_lt next_bulk_at _)), (proj2 (Z.ltb_lt _ n)) by lia. simpl.
  replace (next_bulk_at + j - next_bulk_at) with j by lia.
  destruct (Z.ltb_spec j (zlen (bulk_header (zlen a)))) as [Hcut|Hhdr].
  - rewrite (Bulk_ctor_cut m next_bulk_at (zlen a) j x stale).
    + rewrite bind_Ok_l. simpl. rewrite (proj2 (Z.ltb_ge _ _)) by lia.
      rewrite app_nil_r, u64_small by lia. do 2 f_equal. lia.
    + done.
    + done.
    + lia.
    + rewrite Hnext, enc_bulk_header. rewrite take_app_le by (unfold zlen in Hcut |- *; lia). done.
  - destruct (next_bulk_header Hhdr) as [rest Hrest].
    rewrite (Bulk_ctor_header m next_bulk_at ltac:(done) (zlen a) Hsp _ j Hrest) by lia.
    rewrite bind_Ok_l, <- zlen_enc_bulk. rewrite Z.min_l by lia. cbn [present_size_].
    rewrite (proj2 (Z.ltb_ge j 0)), (proj2 (Z.eqb_neq _ _)) by lia.
    rewrite (Bulk_total_size_header m next_bulk_at ltac:(done) (zlen a) Hsp _ _ Hrest), bind_Ok_l.
    rewrite <- zlen_enc_bulk. unfold ptr_add. rewrite (proj2 (Z.ltb_lt _ _)) by lia.
    rewrite bind_Ok_l, parse_bulk_items_stop by (left; lia). rewrite bind_Ok_l. cbn [fst snd].
    rewrite s32_small by lia. rewrite (proj2 (Z.ltb_ge _ _)) by lia.
    rewrite u64_small by lia. do 2 f_equal. lia.
Qed.

Lemma partial_not_completed :
  NUL ∈ x :: stale ->
  BulkArray_completed m (mkBulkArray data partial_parsed partial_items) = Ok false.
Proof.
  intros Hnul. unfold BulkArray_completed. pose proof (zlen_nonneg full).
  pose proof Hm as Hm1. unfold received_part in Hm1. rewrite <- !app_assoc in Hm1.
  rewrite (BulkArray_total_bulks_header m data Hdata n ltac:(lia) _ _ _ Hm1) by set_solver.
  rewrite bind_Ok_l. cbn [items_].
  destruct (Z.eqb_spec (zlen partial_items) n) as [Heq|]; [|done]. simpl.
  unfold partial_items in *. destruct (Z.ltb_spec j (zlen (bulk_header (zlen a)))) as [Hcut|Hhdr].
  { exfalso. rewrite app_nil_r in Heq. unfold zlen in *. rewrite length_bulk_items in Heq. lia. }
  rewrite last_snoc. destruct (next_bulk_header Hhdr) as [rest Hrest].
  pose proof (zlen_nonneg (array_header n)). pose proof (zlen_nonneg (enc_items full)).
  unfold Bulk_absent_size.
  rewrite (Bulk_total_size_header m next_bulk_at ltac:(unfold next_bulk_at; lia) (zlen a)
             (enc_bulk_small a Ha) _ _ Hrest).
  rewrite bind_Ok_l, <- zlen_enc_bulk. cbn [present_size_]. rewrite u64_small by lia.
  rewrite (proj2 (Z.leb_gt _ _)) by lia. rewrite bind_Ok_l.
  by rewrite (proj2 (Z.ltb_lt _ _)) by lia.
Qed.
End partial_array.

Lemma ParseBulkItems_fuel m data bytes max : fuel_free (ParseBulkItems m data bytes max).
Proof. apply parse_bulk_items_fuel. lia. Qed.
#[export] Hint Resolve ParseBulkItems_fuel : fuel.

(** Parsing terminates on every input: the loop of [ParseBulkItems] takes at most
    one turn per byte of the input, because a bulk that is accepted has a positive
    total size even when its announced length overflows. *)
Lemma BulkArray_ctor_fuel m data bytes : fuel_free (BulkArray_ctor m data bytes).
Proof. unfold BulkArray_ctor. fuel_free_tac. Qed.
#[export] Hint Resolve BulkArray_ctor_fuel : fuel.

(** The methods of the array of a complete encoding *)
Lemma BulkArray_complete_methods m data args rest :
  0 <= data -> at_ptr m data = enc_array args ++ rest -> NUL ∈ rest -> args <> [] ->
  zlen (enc_array args) < 2 ^ 30 ->
  let ba := mkBulkArray data (zlen (enc_array args))
              (bulk_items (data + zlen (array_header (zlen args))) args) in
  BulkArray_total_bulks m ba = Ok (zlen args) /\ BulkArray_completed m ba = Ok true /\
  BulkArray_total_size m ba = Ok (zlen (enc_array args)).
Proof.
  intros Hdata Hm Hnul Hne Hn ba. rewrite enc_array_split in *. rewrite zlen_app in *.
  rewrite <- app_assoc in Hm. pose proof (zlen_enc_items_ge args).
  pose proof (zlen_nonneg (array_header (zlen args))) as Hh. pose proof (zlen_nonneg args).
  assert (forall sz its, BulkArray_total_bulks m (mkBulkArray data sz its) = Ok (zlen args)) as Htb.
  { intros sz its. eapply BulkArray_total_bulks_header; [done|lia|done|set_solver]. }
  pose proof Hm as Hm1. apply at_ptr_app_skip in Hm1; [|done].
  assert (zlen (bulk_items (data + zlen (array_header (zlen args))) args) = zlen args) as Hl
    by (unfold zlen; by rewrite length_bulk_items).
  split; [apply Htb|]. subst ba. split.
  - unfold BulkArray_completed. rewrite Htb, bind_Ok_l. cbn [items_]. rewrite Hl, Z.eqb_refl. simpl.
    destruct (last _) as [b|] eqn:Hb; [|done].
    assert (Bulk_absent_size m b = Ok 0) as Hab
      by (eapply last_bulk_items_absent; [|exact Hm1|lia|exact Hb]; lia).
    by rewrite Hab.
  - unfold BulkArray_total_size. rewrite Htb, bind_Ok_l. cbn [items_ ba_raw_data_].
    rewrite Hl, Z.ltb_irrefl. destruct args as [|s args]; [done|].
    rewrite (proj2 (Z.eqb_neq _ _)) by (rewrite zlen_cons; pose proof (zlen_nonneg args); lia).
    set (h := zlen (array_header (zlen (s :: args)))) in *.
    rewrite <- (sum_total_sizes_items (s :: args) m (data + h) h rest) by (done || lia).
    cbn [bulk_items head of_option mbind result_bind raw_data_].
    replace (data + h - data) with h by lia. by rewrite u64_small by lia.
Qed.

(** ** Properties *)

(** C2: a redis command that was received completely is parsed exactly.  For any
    arguments, encoded anywhere in a buffer and followed by anything (the next
    pipelined commands, stale bytes) with a NUL somewhere behind, the array
    parser delivers one bulk per argument, each complete and with the argument
    as its payload, reports the array complete, and counts exactly the bytes of
    the encoding. *)
Theorem resp_array_roundtrip m data args rest n :
  0 <= data -> at_ptr m data = enc_array args ++ rest -> NUL ∈ rest -> args <> [] ->
  zlen (enc_array args) <= n < 2 ^ 30 ->
  exists ba, BulkArray_ctor m data n = Ok ba /\
    Forall2 (bulk_denotes m) (items_ ba) args /\
    BulkArray_total_bulks m ba = Ok (zlen args) /\
    BulkArray_completed m ba = Ok true /\
    BulkArray_total_size m ba = Ok (zlen (enc_array args)) /\
    BulkArray_parsed_size ba = zlen (enc_array args).
Proof.
  intros Hdata Hm Hnul Hne Hn. rewrite (BulkArray_ctor_complete m data args rest n) by done.
  eexists. split; [done|].
  destruct (BulkArray_complete_methods m data args rest) as (Htb & Hc & Ht); [done|done|done|done|lia|].
  split; [|split; [done|split; [done|split; [done|]]]].
  - rewrite enc_array_split in *. rewrite zlen_app in *. rewrite <- app_assoc in Hm.
    pose proof (zlen_nonneg (array_header (zlen args))). apply at_ptr_app_skip in Hm; [|done].
    eapply bulk_items_denote; [lia|done|lia|done].
  - unfold BulkArray_parsed_size. cbn [parsed_size_]. pose proof (zlen_nonneg (enc_array args)). apply s32_small. lia.
Qed.

Definition demo_args : list bytes := [str "mset"; str "k1"; str "hello"; str "k2"; []].

Lemma resp_array_roundtrip_witness :
  exists ba, BulkArray_ctor (str "xyz" ++ enc_array demo_args ++ str "*1" ++ [NUL]) 3 60 = Ok ba /\
    Forall2 (bulk_denotes (str "xyz" ++ enc_array demo_args ++ str "*1" ++ [NUL])) (items_ ba) demo_args /\
    BulkArray_total_bulks (str "xyz" ++ enc_array demo_args ++ str "*1" ++ [NUL]) ba = Ok 5 /\
    BulkArray_completed (str "xyz" ++ enc_array demo_args ++ str "*1" ++ [NUL]) ba = Ok true /\
    BulkArray_total_size (str "xyz" ++ enc_array demo_args ++ str "*1" ++ [NUL]) ba = Ok 47 /\
    BulkArray_parsed_size ba = 47.
Proof.
  apply (resp_array_roundtrip (str "xyz" ++ enc_array demo_args ++ str "*1" ++ [NUL]) 3
           demo_args (str "*1" ++ [NUL]) 60);
    [by_compute|vm_compute; reflexivity|decide_goal|discriminate|by_compute].
Defined.





(** [payload_size] and [total_bulks] hand a pointer into the buffer to
    [std::stoi], which copies a C string: when no byte of the storage from there
    on is NUL the copy runs past the end of the buffer. *)
Theorem stoi_reads_past_buffer_end m b ba :
  NUL ∉ m -> Bulk_payload_size m b = Fault OutOfBounds /\
             BulkArray_total_bulks m ba = Fault OutOfBounds.
Proof.
  intros Hm. assert (forall p, c_string (at_ptr m p) = Fault OutOfBounds) as Hc.
  { intros p. apply c_string_fault. unfold at_ptr. case_match; [set_solver|].
    intros Hin. apply Hm. rewrite <- (take_drop (Z.to_nat p) m). set_solver. }
  unfold Bulk_payload_size, BulkArray_total_bulks. by rewrite !Hc.
Qed.

Lemma stoi_reads_past_buffer_end_witness :
  Bulk_payload_size (enc_array demo_args) (mkBulk 4 10) = Fault OutOfBounds /\
  BulkArray_total_bulks (enc_array demo_args) (mkBulkArray 0 47 []) = Fault OutOfBounds.
Proof.
  apply (stoi_reads_past_buffer_end (enc_array demo_args) (mkBulk 4 10) (mkBulkArray 0 47 [])).
  decide_goal.
Defined.
