(* ===== verification/DoobsHash.v ===== *)
(** * The key hash

    [proxy/doobs_hash.cc]: Bob Jenkins' 1996 hash on 32-bit words, over signed
    [char]s as the proxy's version reads them. *)

From S2P Require Import Prelude.

(** [x -= y; x -= z; x ^= w] *)
Definition mix_step (x y z w : Z) : Z := Z.lxor (u32 (u32 (x - y) - z)) w.

(** Three lines of the macro: [a] with a right shift of [c], [b] with a left
    shift of [a], [c] with a right shift of [b]. *)
Definition mix_round (r1 l2 r3 : Z) (s : Z * Z * Z) : Z * Z * Z :=
  let '(a, b, c) := s in
  let a := mix_step a b c (Z.shiftr c r1) in
  let b := mix_step b c a (u32 (Z.shiftl a l2)) in
  let c := mix_step c a b (Z.shiftr b r3) in
  (a, b, c).

(** The macro [mix(a,b,c)] *)
Definition mix (s : Z * Z * Z) : Z * Z * Z :=
  mix_round 3 10 15 (mix_round 12 16 5 (mix_round 13 8 13 s)).

(** [(ub4)k[i]], with the sign of [char] *)
Definition ub4 (k : bytes) (i : nat) : Z :=
  match k !! i with Some c => u32 (schar c) | None => 0 end.

(** [k[i] + ((ub4)k[i+1]<<8) + ((ub4)k[i+2]<<16) + ((ub4)k[i+3]<<24)] *)
Definition word4 (k : bytes) (i : nat) : Z :=
  u32 (ub4 k i + u32 (Z.shiftl (ub4 k (i + 1)) 8) + u32 (Z.shiftl (ub4 k (i + 2)) 16)
       + u32 (Z.shiftl (ub4 k (i + 3)) 24)).

(** [while (len >= 12)], which takes [len / 12] turns: the state after the
    blocks, and the up to 11 bytes left over *)
Fixpoint hash_blocks (s : Z * Z * Z) (k : bytes) (turns : nat) : (Z * Z * Z) * bytes :=
  match turns with
  | O => (s, k)
  | S n =>
      let '(a, b, c) := s in
      hash_blocks (mix (u32 (a + word4 k 0), u32 (b + word4 k 4), u32 (c + word4 k 8)))
        (drop 12 k) n
  end.

(** One [case] of the switch: [x += ((ub4)k[i] << sh)] if there is such a byte *)
Definition add_byte (k : bytes) (i : nat) (sh : Z) (x : Z) : Z :=
  if (i <? length k)%nat then u32 (x + u32 (Z.shiftl (ub4 k i) sh)) else x.

(** The switch, whose cases fall through from the last byte to the first *)
Definition hash_tail (k : bytes) (s : Z * Z * Z) : Z * Z * Z :=
  let '(a, b, c) := s in
  let c := add_byte k 8 8 (add_byte k 9 16 (add_byte k 10 24 c)) in
  let b := add_byte k 4 0 (add_byte k 5 8 (add_byte k 6 16 (add_byte k 7 24 b))) in
  let a := add_byte k 0 0 (add_byte k 1 8 (add_byte k 2 16 (add_byte k 3 24 a))) in
  (a, b, c).

Definition golden_ratio : Z := 0x9e3779b9.

Definition doobs_hash (k : bytes) (initval : Z) : Z :=
  let '((a, b, c), rest) := hash_blocks (golden_ratio, golden_ratio, initval) k (length k / 12)%nat in
  let '(a, b, c) := mix (hash_tail rest (a, b, u32 (c + u32 (zlen k)))) in
  c.

(** ** Lemmas *)
Definition w32 (x : Z) : Prop := 0 <= x < 2 ^ 32.
Definition w32_state (s : Z * Z * Z) : Prop := w32 s.1.1 /\ w32 s.1.2 /\ w32 s.2.

Lemma w32_u32 x : w32 (u32 x).
Proof. apply u32_range. Qed.

Lemma w32_lxor x y : w32 x -> w32 y -> w32 (Z.lxor x y).
Proof.
  unfold w32. intros Hx Hy. split; [apply Z.lxor_nonneg; lia|].
  destruct (decide (Z.lxor x y = 0)) as [->|Hne]; [lia|].
  assert (0 < Z.lxor x y) by (pose proof (proj2 (Z.lxor_nonneg x y)); lia).
  apply Z.log2_lt_pow2; [done|]. pose proof (Z.log2_lxor x y ltac:(lia) ltac:(lia)).
  assert (forall z, 0 <= z < 2 ^ 32 -> Z.log2 z < 32) as Hlog.
  { intros z Hz. destruct (decide (z = 0)) as [->|]; [done|]. apply Z.log2_lt_pow2; lia. }
  pose proof (Hlog x Hx). pose proof (Hlog y Hy). lia.
Qed.

Lemma w32_shiftr x n : w32 x -> 0 <= n -> w32 (Z.shiftr x n).
Proof.
  unfold w32. intros Hx Hn. rewrite Z.shiftr_div_pow2 by done.
  pose proof (Z.pow_pos_nonneg 2 n ltac:(lia) Hn). split; [apply Z.div_pos; lia|].
  apply Z.div_lt_upper_bound; nia.
Qed.

Lemma w32_mix_step x y z w : w32 w -> w32 (mix_step x y z w).
Proof. intros Hw. apply w32_lxor; [apply w32_u32|done]. Qed.

#[export] Hint Resolve w32_u32 w32_mix_step : yarm.
#[export] Hint Extern 1 (w32 (Z.shiftr _ _)) => apply w32_shiftr; [|lia] : yarm.

(** Undoing one line of the macro. *)
Definition unmix_step (x y z w : Z) : Z := u32 (u32 (Z.lxor x w + z) + y).

Lemma u32_add_l x y : u32 (u32 x + y) = u32 (x + y).
Proof. unfold u32. apply Zplus_mod_idemp_l. Qed.
Lemma u32_sub_l x y : u32 (u32 x - y) = u32 (x - y).
Proof. unfold u32. apply Zminus_mod_idemp_l. Qed.

Lemma unmix_mix_step x y z w : w32 x -> unmix_step (mix_step x y z w) y z w = x.
Proof.
  intros Hx. unfold unmix_step, mix_step.
  rewrite Z.lxor_assoc, Z.lxor_nilpotent, Z.lxor_0_r.
  rewrite u32_sub_l, (u32_add_l (x - y - z) z), u32_add_l.
  replace (x - y - z + z + y) with x by lia. by apply u32_small.
Qed.

Lemma mix_unmix_step x y z w : w32 x -> w32 w -> mix_step (unmix_step x y z w) y z w = x.
Proof.
  intros Hx Hw. unfold unmix_step, mix_step.
  rewrite u32_add_l, (u32_sub_l (Z.lxor x w + z + y) y), u32_sub_l.
  replace (Z.lxor x w + z + y - y - z) with (Z.lxor x w) by lia.
  rewrite u32_small by by apply w32_lxor.
  by rewrite Z.lxor_assoc, Z.lxor_nilpotent, Z.lxor_0_r.
Qed.

(** The lines undone from the last to the first. *)
Definition unmix_round (r1 l2 r3 : Z) (s : Z * Z * Z) : Z * Z * Z :=
  let '(a, b, c) := s in
  let c := unmix_step c a b (Z.shiftr b r3) in
  let b := unmix_step b c a (u32 (Z.shiftl a l2)) in
  let a := unmix_step a b c (Z.shiftr c r1) in
  (a, b, c).

Definition unmix (s : Z * Z * Z) : Z * Z * Z :=
  unmix_round 13 8 13 (unmix_round 12 16 5 (unmix_round 3 10 15 s)).

Section round.
Context (r1 l2 r3 : Z) (Hr1 : 0 <= r1) (Hr3 : 0 <= r3).

Lemma w32_mix_round s : w32_state s -> w32_state (mix_round r1 l2 r3 s).
Proof using Hr1 Hr3.
  destruct s as [[a b] c]. intros (Ha & Hb & Hc). refine (conj _ (conj _ _)); cbn [fst snd] in *;
    unfold mix_round; cbn [fst snd]; eauto 10 using w32_shiftr with yarm.
Qed.

Lemma w32_unmix_round s : w32_state s -> w32_state (unmix_round r1 l2 r3 s).
Proof.
  destruct s as [[a b] c]. intros _. refine (conj _ (conj _ _)); cbn [fst snd unmix_round];
    apply w32_u32.
Qed.

Lemma unmix_mix_round s : w32_state s -> unmix_round r1 l2 r3 (mix_round r1 l2 r3 s) = s.
Proof.
  destruct s as [[a b] c]. intros (Ha & Hb & Hc). cbn [fst snd] in *.
  unfold unmix_round, mix_round. rewrite !unmix_mix_step by done. done.
Qed.

Lemma mix_unmix_round s : w32_state s -> mix_round r1 l2 r3 (unmix_round r1 l2 r3 s) = s.
Proof using Hr1 Hr3.
  destruct s as [[a b] c]. intros (Ha & Hb & Hc). cbn [fst snd] in *.
  unfold unmix_round, mix_round.
  rewrite !mix_unmix_step by (unfold unmix_step; eauto using w32_shiftr with yarm). done.
Qed.
End round.

Lemma w32_mix s : w32_state s -> w32_state (mix s).
Proof. intros Hs. unfold mix. repeat (apply w32_mix_round; [lia|lia|]). done. Qed.

Lemma w32_hash_blocks s k n : w32_state s -> w32_state (hash_blocks s k n).1.
Proof.
  revert s k. induction n as [|n IH]; intros [[a b] c] k Hs; [exact Hs|].
  cbn [hash_blocks]. apply IH, w32_mix. refine (conj _ (conj _ _)); cbn [fst snd]; apply w32_u32.
Qed.

Lemma w32_add_byte k i sh x : w32 x -> w32 (add_byte k i sh x).
Proof. unfold add_byte. case_match; auto with yarm. Qed.

Lemma w32_hash_tail k s : w32_state s -> w32_state (hash_tail k s).
Proof.
  destruct s as [[a b] c]. intros (Ha & Hb & Hc). refine (conj _ (conj _ _)); repeat apply w32_add_byte; done.
Qed.

Lemma doobs_hash_w32 k initval : w32 initval -> w32 (doobs_hash k initval).
Proof.
  intros Hi. unfold doobs_hash.
  pose proof (w32_hash_blocks (golden_ratio, golden_ratio, initval) k (length k / 12)%nat) as Hb.
  destruct (hash_blocks _ _) as [[[a b] c] rest].
  destruct Hb as (Ha & Hb & Hc); [refine (conj _ (conj _ _)); (apply Hi || by_compute)|].
  pose proof (w32_mix (hash_tail rest (a, b, u32 (c + u32 (zlen k))))) as Hm.
  destruct (mix _) as [[a' b'] c']. apply Hm. apply w32_hash_tail.
  refine (conj _ (conj _ _)); cbn [fst snd]; auto with yarm.
Qed.

(** ** Properties *)

(** C27: [mix] is reversible, as the comment above the macro claims: on states of
    three 32-bit words it is a bijection, with [unmix] as its inverse.  No two
    states are merged by mixing. *)
Theorem mix_reversible s :
  w32_state s ->
  unmix (mix s) = s /\ mix (unmix s) = s /\ w32_state (mix s).
Proof.
  intros Hs. split; [|split; [|by apply w32_mix]]; unfold mix, unmix.
  - rewrite !unmix_mix_round; auto using w32_mix_round with lia.
  - rewrite !mix_unmix_round; auto using w32_unmix_round with lia.
Qed.

Lemma mix_reversible_witness :
  unmix (mix (1, 2, 3)) = (1, 2, 3) /\ mix (unmix (1, 2, 3)) = (1, 2, 3) /\ w32_state (mix (1, 2, 3)).
Proof. apply (mix_reversible (1, 2, 3)). by_compute. Defined.
