(* ===== verification/Config.v ===== *)
(** * The configuration file

    [proxy/config.h] and [proxy/config.cc]: the tokenizer, the directives of the
    global, worker and cluster contexts, loading and reloading.  Whether a string
    is an IPv4 address is decided by [boost::asio::ip::make_address_v4], a
    parameter.  The file is the list of its lines. *)

From S2P Require Import Prelude CString ErrorCode.

(** ** Data *)
Record Backend := mkBackend { host_ : bytes; port_ : Z; weight_ : Z }.

Record Cluster := mkCluster {
  protocol_ : ProtocolType;
  namespaces_ : list bytes;
  backends_ : list Backend
}.

(** The members of [Config]: the process-wide settings, the per-worker ones,
    and the clusters with the parser's [context_] and [error_msg_]. *)
Record GlobalConf := mkGlobalConf {
  pid_file_ : bytes;
  listen_ : bytes;
  daemonize_ : bool;
  backlog_ : Z;
  worker_threads_ : Z;
  max_namespace_length_ : Z;
  log_file_ : bytes;
  log_level_ : bytes;
  client_idle_timeout_ : Z;
  socket_rw_timeout_ : Z
}.

Record WorkerConf := mkWorkerConf {
  worker_max_idle_backends_ : Z;
  buffer_size_conf_ : Z;
  reserved_buffer_space_ : Z;
  worker_cpu_affinity_ : bool
}.

Record Config := mkConfig {
  global : GlobalConf;
  worker : WorkerConf;
  clusters_ : list Cluster;
  context_ : bytes;
  error_msg_ : bytes
}.

(** The default member initializers *)
Definition default_config : Config :=
  mkConfig
    (mkGlobalConf (str "/tmp/yarmproxy.pid") (str "127.0.0.1:11311") false 1024 0 4
       (str "./yarmproxy.log") (str "WARN") 60000 500)
    (mkWorkerConf 64 4096 0 false) [] [] [].

Definition set_pid_file (x : bytes) (g : GlobalConf) : GlobalConf :=
  mkGlobalConf x (listen_ g) (daemonize_ g) (backlog_ g) (worker_threads_ g) (max_namespace_length_ g) (log_file_ g) (log_level_ g) (client_idle_timeout_ g) (socket_rw_timeout_ g).
Definition set_listen (x : bytes) (g : GlobalConf) : GlobalConf :=
  mkGlobalConf (pid_file_ g) x (daemonize_ g) (backlog_ g) (worker_threads_ g) (max_namespace_length_ g) (log_file_ g) (log_level_ g) (client_idle_timeout_ g) (socket_rw_timeout_ g).
Definition set_daemonize (x : bool) (g : GlobalConf) : GlobalConf :=
  mkGlobalConf (pid_file_ g) (listen_ g) x (backlog_ g) (worker_threads_ g) (max_namespace_length_ g) (log_file_ g) (log_level_ g) (client_idle_timeout_ g) (socket_rw_timeout_ g).
Definition set_backlog (x : Z) (g : GlobalConf) : GlobalConf :=
  mkGlobalConf (pid_file_ g) (listen_ g) (daemonize_ g) x (worker_threads_ g) (max_namespace_length_ g) (log_file_ g) (log_level_ g) (client_idle_timeout_ g) (socket_rw_timeout_ g).
Definition set_worker_threads (x : Z) (g : GlobalConf) : GlobalConf :=
  mkGlobalConf (pid_file_ g) (listen_ g) (daemonize_ g) (backlog_ g) x (max_namespace_length_ g) (log_file_ g) (log_level_ g) (client_idle_timeout_ g) (socket_rw_timeout_ g).
Definition set_max_namespace_length (x : Z) (g : GlobalConf) : GlobalConf :=
  mkGlobalConf (pid_file_ g) (listen_ g) (daemonize_ g) (backlog_ g) (worker_threads_ g) x (log_file_ g) (log_level_ g) (client_idle_timeout_ g) (socket_rw_timeout_ g).
Definition set_log_file (x : bytes) (g : GlobalConf) : GlobalConf :=
  mkGlobalConf (pid_file_ g) (listen_ g) (daemonize_ g) (backlog_ g) (worker_threads_ g) (max_namespace_length_ g) x (log_level_ g) (client_idle_timeout_ g) (socket_rw_timeout_ g).
Definition set_log_level (x : bytes) (g : GlobalConf) : GlobalConf :=
  mkGlobalConf (pid_file_ g) (listen_ g) (daemonize_ g) (backlog_ g) (worker_threads_ g) (max_namespace_length_ g) (log_file_ g) x (client_idle_timeout_ g) (socket_rw_timeout_ g).
Definition set_client_idle_timeout (x : Z) (g : GlobalConf) : GlobalConf :=
  mkGlobalConf (pid_file_ g) (listen_ g) (daemonize_ g) (backlog_ g) (worker_threads_ g) (max_namespace_length_ g) (log_file_ g) (log_level_ g) x (socket_rw_timeout_ g).
Definition set_socket_rw_timeout (x : Z) (g : GlobalConf) : GlobalConf :=
  mkGlobalConf (pid_file_ g) (listen_ g) (daemonize_ g) (backlog_ g) (worker_threads_ g) (max_namespace_length_ g) (log_file_ g) (log_level_ g) (client_idle_timeout_ g) x.

Definition set_worker_max_idle_backends (x : Z) (w : WorkerConf) : WorkerConf :=
  mkWorkerConf x (buffer_size_conf_ w) (reserved_buffer_space_ w) (worker_cpu_affinity_ w).
Definition set_buffer_size_conf (x : Z) (w : WorkerConf) : WorkerConf :=
  mkWorkerConf (worker_max_idle_backends_ w) x (reserved_buffer_space_ w) (worker_cpu_affinity_ w).
Definition set_reserved_buffer_space (x : Z) (w : WorkerConf) : WorkerConf :=
  mkWorkerConf (worker_max_idle_backends_ w) (buffer_size_conf_ w) x (worker_cpu_affinity_ w).
Definition set_worker_cpu_affinity (x : bool) (w : WorkerConf) : WorkerConf :=
  mkWorkerConf (worker_max_idle_backends_ w) (buffer_size_conf_ w) (reserved_buffer_space_ w) x.

Definition with_global (f : GlobalConf -> GlobalConf) (c : Config) : Config :=
  mkConfig (f (global c)) (worker c) (clusters_ c) (context_ c) (error_msg_ c).
Definition with_worker (f : WorkerConf -> WorkerConf) (c : Config) : Config :=
  mkConfig (global c) (f (worker c)) (clusters_ c) (context_ c) (error_msg_ c).
Definition with_clusters (f : list Cluster -> list Cluster) (c : Config) : Config :=
  mkConfig (global c) (worker c) (f (clusters_ c)) (context_ c) (error_msg_ c).
Definition with_context (x : bytes) (c : Config) : Config :=
  mkConfig (global c) (worker c) (clusters_ c) x (error_msg_ c).
Definition fail_with (msg : bytes) (c : Config) : Config * bool :=
  (mkConfig (global c) (worker c) (clusters_ c) (context_ c) msg, false).

(** [clusters_.back()] updated in place, and [return true].  There is a last cluster when
    the context was entered through [cluster {], which pushes one, but a reload that
    starts in the context of one that failed has none: undefined behaviour. *)
Definition with_back (f : Cluster -> Cluster) (c : Config) : result (Config * bool) :=
  match last (clusters_ c) with
  | Some cl => Ok (with_clusters (fun l => take (length l - 1) l ++ [f cl]) c, true)
  | None => Fault NullDeref
  end.

Definition teq (t : bytes) (s : string) : bool := bool_decide (t = str s).

(** [strncmp(context_.c_str(), "/cluster", 8) == 0] *)
Definition in_cluster_context (ctx : bytes) : bool :=
  bool_decide (take 8 ctx = str "/cluster").

Definition PushSubcontext (sub : bytes) (c : Config) : Config :=
  with_context (context_ c ++ str "/" ++ sub) c.

(** [context_.substr(0, context_.find_last_of('/'))] *)
Fixpoint before_last_slash (ctx : bytes) : option bytes :=
  match ctx with
  | [] => None
  | ch :: l =>
      match before_last_slash l with
      | Some p => Some (ch :: p)
      | None => if bool_decide (ch = "/"%char) then Some [] else None
      end
  end.
Definition PopSubcontext (c : Config) : Config :=
  with_context (default (context_ c) (before_last_slash (context_ c))) c.

(** ** Directives *)

(** [x = std::stoi(token)] in a [try] block *)
Definition set_stoi (t : bytes) (set : Z -> GlobalConf -> GlobalConf) (c : Config) : Config * bool :=
  match stoi t with
  | Some v => (with_global (set v) c, true)
  | None => fail_with (str "positive integer required") c
  end.

Definition ApplyGlobalTokens (tokens : list bytes) (c : Config) : Config * bool :=
  match tokens with
  | [t0; t1] =>
      if teq t0 "listen" then (with_global (set_listen t1) c, true)
      else if teq t0 "daemonize" then
        (with_global (set_daemonize (teq t1 "true" || teq t1 "yes" || teq t1 "1")) c, true)
      else if teq t0 "pid_file" then (with_global (set_pid_file t1) c, true)
      else if teq t0 "backlog" then set_stoi t1 set_backlog c
      else if teq t0 "worker_threads" then set_stoi t1 set_worker_threads c
      else if teq t0 "client_idle_timeout" then set_stoi t1 set_client_idle_timeout c
      else if teq t0 "socket_rw_timeout" then set_stoi t1 set_socket_rw_timeout c
      else if teq t0 "max_namespace_length" then
        match stoi t1 with
        | Some v =>
            let c := with_global (set_max_namespace_length v) c in
            if 0 <? v then (c, true) else fail_with (str "positive integer required") c
        | None => fail_with (str "positive integer required") c
        end
      else if teq t0 "log_file" then (with_global (set_log_file t1) c, true)
      else if teq t0 "log_level" then (with_global (set_log_level t1) c, true)
      else if teq t0 "cluster" && teq t1 "{" then
        (PushSubcontext t0 (with_clusters (fun l => l ++ [mkCluster NONE [] []]) c), true)
      else if teq t0 "worker" && teq t1 "{" then (PushSubcontext t0 c, true)
      else fail_with (str "unknown directive " ++ t0) c
  | _ => fail_with (str "unknown directive " ++ default [] (head tokens)) c
  end.

(** [(sz & (sz - 1)) != 0] *)
Definition not_pow2 (sz : Z) : bool := negb (Z.land sz (sz - 1) =? 0).

Definition close_block (c : Config) : Config * bool :=
  if bool_decide (context_ c = []) then (c, false) else (PopSubcontext c, true).

Definition ApplyWorkerTokens (tokens : list bytes) (c : Config) : Config * bool :=
  if bool_decide (tokens = [str "}"]) then close_block c else
  match tokens with
  | [t0; t1] =>
      if teq t0 "max_idle_backends" then
        match stoi t1 with
        | Some v => (with_worker (set_worker_max_idle_backends (u64 v)) c, true)
        | None => fail_with (str "bad nubmer") c
        end
      else if teq t0 "cpu_affinity" then
        (with_worker (set_worker_cpu_affinity (teq t1 "on" || teq t1 "1")) c, true)
      else if teq t0 "buffer_size" then
        match stoi t1 with
        | Some sz =>
            if (sz <? 1) || (1024 <? sz) || not_pow2 sz then fail_with (str "bad buffer size") c
            else (with_worker (set_buffer_size_conf (u64 (sz * 1024))) c, true)
        | None => fail_with (str "bad number") c
        end
      else if teq t0 "reserved_buffer_space" then
        match stoi t1 with
        | Some sz =>
            if not_pow2 sz then fail_with (str "bad buffer trunk size") c
            else (with_worker (set_reserved_buffer_space (u64 (s32 (sz * 1024)))) c, true)
        | None => fail_with (str "bad number") c
        end
      else fail_with (str "unknown directive") c
  | _ => fail_with (str "bad token count") c
  end.

Section with_boost.
(** Does [boost::asio::ip::make_address_v4(host)] return rather than throw? *)
Variable make_address_v4 : bytes -> bool.

(** [tokens[1].find_first_of(':')] splits the endpoint. *)
Fixpoint split_colon (t : bytes) : option (bytes * bytes) :=
  match t with
  | [] => None
  | ch :: l =>
      if bool_decide (ch = ":"%char) then Some ([], l)
      else match split_colon l with
           | Some (h, p) => Some (ch :: h, p)
           | None => None
           end
  end.

Definition ApplyBackend (t1 t2 : bytes) (c : Config) : result (Config * bool) :=
  match split_colon t1 with
  | None => Ok (fail_with (str "endpoint bad format") c)
  | Some (host, p) =>
      if make_address_v4 host then
        match stoi p with
        | None => Ok (fail_with (str "bad endpoint") c)
        | Some port =>
            match stoi t2 with
            | None => Ok (fail_with (str "bad weight") c)
            | Some weight =>
                if (port <=? 0) || (weight <=? 0) then Ok (fail_with (str "illegal value") c)
                else with_back (fun cl =>
                       mkCluster (protocol_ cl) (namespaces_ cl)
                         (backends_ cl ++ [mkBackend host port (u64 weight)])) c
            end
        end
      else Ok (fail_with (str "bad endpoint") c)
  end.

Definition ApplyClusterTokens (tokens : list bytes) (c : Config) : result (Config * bool) :=
  if bool_decide (tokens = [str "}"]) then Ok (close_block c) else
  match tokens with
  | [] => Ok (c, false)
  | t0 :: args =>
      if teq t0 "protocol" then
        match args with
        | [t1] =>
            let set p := with_back (fun cl => mkCluster p (namespaces_ cl) (backends_ cl)) c in
            if teq t1 "redis" then set REDIS
            else if teq t1 "memcached" then set MEMCACHED
            else Ok (fail_with (str "unsupported protocol type") c)
        | _ => Ok (c, false)
        end
      else if teq t0 "namespace" then
        match args with
        | [] => Ok (c, false)
        | _ =>
            if existsb (fun ns => u64 (max_namespace_length_ (global c)) <? zlen ns) args
            then Ok (fail_with (str "too long namespace length") c)
            else with_back (fun cl => mkCluster (protocol_ cl) (namespaces_ cl ++ args) (backends_ cl)) c
        end
      else if teq t0 "backends" then
        match args with
        | [t1] => Ok (if teq t1 "{" then (PushSubcontext t0 c, true) else (c, false))
        | _ => Ok (c, false)
        end
      else if teq t0 "backend" then
        if bool_decide (context_ c = str "/cluster/backends") then
          match args with
          | [t1; t2] => ApplyBackend t1 t2 c
          | _ => Ok (c, false)
          end
        else Ok (fail_with (str "backend must in context #cluster#backends") c)
      else Ok (c, false)
  end.

Definition ApplyTokens (tokens : list bytes) (c : Config) : result (Config * bool) :=
  if bool_decide (context_ c = []) then Ok (ApplyGlobalTokens tokens c)
  else if in_cluster_context (context_ c) then ApplyClusterTokens tokens c
  else if bool_decide (context_ c = str "/worker") then Ok (ApplyWorkerTokens tokens c)
  else Ok (fail_with (str "unknown context " ++ context_ c) c).

(** ** Loading *)

(** [TokenizeLine]: [status] 1 while inside a token, which is [tokens->back()] *)
Fixpoint tokenize (line : bytes) (status : bool) (tokens : list bytes) : list bytes :=
  match line with
  | [] => tokens
  | ch :: line' =>
      if bool_decide (ch = ";"%char) || bool_decide (ch = "#"%char) then tokens
      else if isspace ch then tokenize line' false tokens
      else if status then
        tokenize line' true
          (match last tokens with
           | Some t => take (length tokens - 1) tokens ++ [t ++ [ch]]
           | None => tokens
           end)
      else tokenize line' true (tokens ++ [[ch]])
  end.
Definition TokenizeLine (line : bytes) : list bytes := tokenize line false [].

(** The loop of [TraverseConfFile] over the lines of the file *)
Fixpoint traverse_lines (handler : list bytes -> Config -> result (Config * bool))
    (lines : list bytes) (c : Config) : result (Config * bool) :=
  match lines with
  | [] => Ok (c, true)
  | line :: lines' =>
      match TokenizeLine line with
      | [] => traverse_lines handler lines' c
      | tokens =>
          r ← handler tokens c;
          let '(c', ok) := r in
          if ok : bool then traverse_lines handler lines' c' else Ok (c', false)
      end
  end.

(** [TraverseConfFile]; [None] is a file that cannot be opened *)
Definition TraverseConfFile (handler : list bytes -> Config -> result (Config * bool))
    (file : option (list bytes)) (c : Config) : result (Config * bool) :=
  match file with
  | None => Ok (c, false)
  | Some lines => traverse_lines handler lines c
  end.

Definition Initialize (file : option (list bytes)) (c : Config) : result (Config * bool) :=
  TraverseConfFile ApplyTokens file c.

Definition reload_handler (tokens : list bytes) (c : Config) : result (Config * bool) :=
  if bool_decide (context_ c = []) then
    if bool_decide (head tokens = Some (str "cluster")) then ApplyTokens tokens c else Ok (c, true)
  else if in_cluster_context (context_ c) then ApplyTokens tokens c
  else Ok (c, true).

Definition ReloadCulsters (file : option (list bytes)) (c : Config) : result (Config * bool) :=
  TraverseConfFile reload_handler file (with_clusters (fun _ => []) c).

(** One reload after the other: what each of them returns *)
Fixpoint reloads (files : list (option (list bytes))) (c : Config) : result (Config * list bool) :=
  match files with
  | [] => Ok (c, [])
  | file :: files' =>
      r ← ReloadCulsters file c;
      r' ← reloads files' r.1;
      Ok (r'.1, r.2 :: r'.2)
  end.

(** The first word of a file, blank lines and comments apart *)
Fixpoint first_directive (lines : list bytes) : option bytes :=
  match lines with
  | [] => None
  | line :: lines' =>
      match TokenizeLine line with
      | [] => first_directive lines'
      | t0 :: _ => Some t0
      end
  end.

(** The directives of the top level *)
Definition top_level : list bytes :=
  str <$> ["listen"; "daemonize"; "pid_file"; "backlog"; "worker_threads"; "client_idle_timeout";
           "socket_rw_timeout"; "max_namespace_length"; "log_file"; "log_level"; "cluster"; "worker"]%string.

(** ** Rendering a configuration *)

(** What a token may be made of. *)
Definition token_char (ch : ascii) : bool :=
  negb (isspace ch || bool_decide (ch = ";"%char) || bool_decide (ch = "#"%char)).
Definition valid_token (t : bytes) : Prop := t <> [] /\ forallb token_char t = true.

Fixpoint unwords (ts : list bytes) : bytes :=
  match ts with
  | [] => []
  | [t] => t
  | t :: ts' => t ++ SP :: unwords ts'
  end.

Definition protocol_name (p : ProtocolType) : bytes :=
  match p with REDIS => str "redis" | _ => str "memcached" end.

Definition render_backend (b : Backend) : list bytes :=
  [str "backend"; host_ b ++ str ":" ++ dec (port_ b); dec (weight_ b)].

(** The directives of a cluster block, as token lists *)
Definition render_cluster (cl : Cluster) : list (list bytes) :=
  [[str "cluster"; str "{"]; [str "protocol"; protocol_name (protocol_ cl)];
   str "namespace" :: namespaces_ cl; [str "backends"; str "{"]]
  ++ (render_backend <$> backends_ cl) ++ [[str "}"]; [str "}"]].

Definition render_file (cls : list Cluster) : list bytes :=
  unwords <$> concat (render_cluster <$> cls).

Record valid_backend (b : Backend) : Prop := {
  vb_host : valid_token (host_ b) /\ (":"%char ∉ host_ b) /\ make_address_v4 (host_ b) = true;
  vb_port : 0 < port_ b <= INT_MAX;
  vb_weight : 0 < weight_ b <= INT_MAX
}.

Record valid_cluster (max_ns : Z) (cl : Cluster) : Prop := {
  vc_protocol : protocol_ cl <> NONE;
  vc_ns : namespaces_ cl <> [];
  vc_ns_tokens : Forall valid_token (namespaces_ cl);
  vc_ns_len : Forall (fun ns => zlen ns <= u64 max_ns) (namespaces_ cl);
  vc_backends : Forall valid_backend (backends_ cl)
}.

(** ** Lemmas: the tokenizer *)
Lemma tokenize_token t : forall rest tokens cur,
  forallb token_char t = true ->
  tokenize (t ++ rest) true (tokens ++ [cur]) = tokenize rest true (tokens ++ [cur ++ t]).
Proof.
  induction t as [|ch t IH]; intros rest tokens cur Ht; simpl; [by rewrite app_nil_r|].
  apply andb_true_iff in Ht as [Hch Ht]. unfold token_char in Hch.
  apply negb_true_iff, orb_false_iff in Hch as [[Hsp H1]%orb_false_iff H2].
  rewrite H1, H2, Hsp. simpl. rewrite last_snoc, length_app. simpl.
  replace (length tokens + 1 - 1)%nat with (length tokens) by lia.
  rewrite take_app_length, IH by done. by rewrite <- app_assoc.
Qed.

Lemma tokenize_first t rest tokens :
  valid_token t -> tokenize (t ++ rest) false tokens = tokenize rest true (tokens ++ [t]).
Proof.
  intros [Hne Ht]. destruct t as [|ch t]; [done|]. simpl in Ht.
  apply andb_true_iff in Ht as [Hch Ht]. pose proof Hch as Hch'. unfold token_char in Hch.
  apply negb_true_iff, orb_false_iff in Hch as [[Hsp H1]%orb_false_iff H2].
  simpl. rewrite H1, H2, Hsp. simpl. rewrite tokenize_token by done. done.
Qed.

Lemma tokenize_unwords ts : forall tokens,
  Forall valid_token ts -> tokenize (unwords ts) false tokens = tokens ++ ts.
Proof.
  induction ts as [|t ts IH]; intros tokens Hv; simpl; [by rewrite app_nil_r|].
  inversion_clear Hv as [|?? Ht Hts]. destruct ts as [|t' ts].
  - rewrite <- (app_nil_r t) at 1. by rewrite tokenize_first.
  - rewrite tokenize_first by done. cbn [tokenize].
    change (bool_decide (SP = ";"%char) || bool_decide (SP = "#"%char)) with false.
    change (isspace SP) with true. cbv iota. rewrite IH by done. by rewrite <- app_assoc.
Qed.

(** A line of tokens reaches the handler as those tokens. *)
Lemma traverse_lines_unwords h ts lines c :
  Forall valid_token ts -> ts <> [] ->
  traverse_lines h (unwords ts :: lines) c =
  (r ← h ts c; let '(c', ok) := r in if ok : bool then traverse_lines h lines c' else Ok (c', false)).
Proof.
  intros Hv Hne. cbn [traverse_lines]. unfold TokenizeLine. rewrite tokenize_unwords by done.
  simpl. by destruct ts.
Qed.

Lemma digits_token ds : Forall (fun c => isdigit c = true) ds -> forallb token_char ds = true.
Proof.
  intros Hd. apply forallb_forall. intros ch Hin. apply list_elem_of_In in Hin.
  apply (proj1 (Forall_forall _ _) Hd) in Hin. destruct (isdigit_not_special ch Hin) as (Hsp & _).
  unfold token_char. rewrite Hsp. simpl.
  unfold isdigit in Hin. rewrite !bool_decide_false; [done| |]; intros ->; vm_compute in Hin; done.
Qed.

Lemma dec_token n : 0 <= n -> valid_token (dec n).
Proof. intros Hn. split; [by apply dec_not_nil|]. by apply digits_token, dec_digits. Qed.

Lemma str_token (t : string) : forallb token_char (str t) = true -> str t <> [] -> valid_token (str t).
Proof. by split. Qed.

Lemma stoi_dec n : 0 <= n <= INT_MAX -> stoi (dec n) = Some n.
Proof.
  intros Hn. pose proof (dec_digits n ltac:(lia)) as Hd. pose proof (dec_not_nil n ltac:(lia)) as Hne.
  destruct (dec_spec n ltac:(lia)) as (_ & Hv & _). unfold stoi, strtol.
  destruct (dec n) as [|d l]; [done|]. inversion_clear Hd as [|?? Hdig _].
  destruct (isdigit_not_special d Hdig) as (Hs & Hm & Hp & _). cbn [skip_space]. rewrite Hs.
  rewrite !bool_decide_false by done. rewrite Hdig, Hv. unfold INT_MIN, INT_MAX in *.
  by rewrite !(proj2 (Z.leb_le _ _)) by lia.
Qed.

Lemma split_colon_app h p : ":"%char ∉ h -> split_colon (h ++ ":"%char :: p) = Some (h, p).
Proof.
  induction h as [|ch h IH]; intros Hh; [done|]. simpl. rewrite bool_decide_false by set_solver.
  by rewrite IH by set_solver.
Qed.

(** ** Lemmas: cluster blocks *)
Lemma with_back_snoc f g w l cl ctx em :
  with_back f (mkConfig g w (l ++ [cl]) ctx em) = Ok (mkConfig g w (l ++ [f cl]) ctx em, true).
Proof.
  unfold with_back, with_clusters. simpl. rewrite last_snoc, length_app. simpl.
  replace (length l + 1 - 1)%nat with (length l) by lia. by rewrite take_app_length.
Qed.

(** Handlers that pass cluster directives on to [ApplyTokens]: both that of
    [Initialize] and that of [ReloadCulsters] do. *)
Definition passes_clusters (h : list bytes -> Config -> result (Config * bool)) : Prop :=
  forall ts c,
    (context_ c = [] /\ head ts = Some (str "cluster")) \/ in_cluster_context (context_ c) = true ->
    h ts c = ApplyTokens ts c.

Lemma ApplyTokens_passes : passes_clusters ApplyTokens.
Proof. done. Qed.

Lemma reload_passes : passes_clusters reload_handler.
Proof.
  intros ts c Hc. unfold reload_handler. destruct Hc as [[Hc Ht]|Hc].
  - by rewrite Hc, Ht, !bool_decide_true by done.
  - case_bool_decide as He; [by rewrite He in Hc|]. by rewrite Hc.
Qed.

Section blocks.
Context (h : list bytes -> Config -> result (Config * bool)) (Hh : passes_clusters h).
Context (g : GlobalConf) (w : WorkerConf) (em : bytes).

Lemma backend_line b cls cl rest :
  valid_backend b ->
  traverse_lines h (unwords (render_backend b) :: rest)
    (mkConfig g w (cls ++ [cl]) (str "/cluster/backends") em) =
  traverse_lines h rest
    (mkConfig g w (cls ++ [mkCluster (protocol_ cl) (namespaces_ cl) (backends_ cl ++ [b])])
       (str "/cluster/backends") em).
Proof using Hh.
  intros [([Hhne Hht] & Hcol & Haddr) Hport Hweight]. unfold INT_MAX in *.
  rewrite traverse_lines_unwords; [| |done].
  - rewrite Hh by (right; reflexivity). unfold ApplyTokens, ApplyClusterTokens, ApplyBackend. simpl.
    rewrite split_colon_app by done. rewrite Haddr, !stoi_dec by (unfold INT_MAX; lia).
    rewrite !(proj2 (Z.leb_gt _ _)) by lia. cbn [orb].
    rewrite with_back_snoc, u64_small by lia. by destruct b.
  - constructor; [by apply str_token|].
    constructor; [|constructor; [apply dec_token; lia|constructor]].
    split; [by destruct (host_ b)|].
    rewrite !forallb_app, Hht. simpl. apply digits_token, dec_digits. lia.
Qed.

Lemma backend_lines bs : forall cls cl rest,
  Forall valid_backend bs ->
  traverse_lines h ((unwords <$> (render_backend <$> bs)) ++ rest)
    (mkConfig g w (cls ++ [cl]) (str "/cluster/backends") em) =
  traverse_lines h rest
    (mkConfig g w (cls ++ [mkCluster (protocol_ cl) (namespaces_ cl) (backends_ cl ++ bs)])
       (str "/cluster/backends") em).
Proof using Hh.
  induction bs as [|b bs IH]; intros cls cl rest Hv; cbn [fmap list_fmap app].
  - rewrite app_nil_r. by destruct cl.
  - inversion_clear Hv. rewrite backend_line by done. rewrite IH by done.
    cbn [protocol_ namespaces_ backends_]. by rewrite <- app_assoc.
Qed.

Lemma apply_cluster_open cls :
  ApplyTokens [str "cluster"; str "{"] (mkConfig g w cls [] em) =
  Ok (mkConfig g w (cls ++ [mkCluster NONE [] []]) (str "/cluster") em, true).
Proof. reflexivity. Qed.

Lemma apply_protocol p cls :
  p <> NONE ->
  ApplyTokens [str "protocol"; protocol_name p]
    (mkConfig g w (cls ++ [mkCluster NONE [] []]) (str "/cluster") em) =
  Ok (mkConfig g w (cls ++ [mkCluster p [] []]) (str "/cluster") em, true).
Proof.
  intros Hp. destruct p; [done| |];
    unfold ApplyTokens, ApplyClusterTokens; simpl; by rewrite with_back_snoc.
Qed.

Lemma apply_namespace nss p cls :
  nss <> [] -> Forall (fun ns => zlen ns <= u64 (max_namespace_length_ g)) nss ->
  ApplyTokens (str "namespace" :: nss)
    (mkConfig g w (cls ++ [mkCluster p [] []]) (str "/cluster") em) =
  Ok (mkConfig g w (cls ++ [mkCluster p nss []]) (str "/cluster") em, true).
Proof.
  intros Hne Hlen. unfold ApplyTokens, ApplyClusterTokens. simpl. destruct nss as [|ns nss]; [done|].
  assert (existsb (fun x => u64 (max_namespace_length_ g) <? zlen x) (ns :: nss) = false) as ->.
  { apply not_true_iff_false. intros (x & Hin & Hx)%existsb_exists. apply list_elem_of_In in Hin.
    apply (proj1 (Forall_forall _ _) Hlen) in Hin. lia. }
  by rewrite with_back_snoc.
Qed.

Lemma apply_backends_open cls :
  ApplyTokens [str "backends"; str "{"] (mkConfig g w cls (str "/cluster") em) =
  Ok (mkConfig g w cls (str "/cluster/backends") em, true).
Proof. reflexivity. Qed.

Lemma apply_close_backends cls :
  ApplyTokens [str "}"] (mkConfig g w cls (str "/cluster/backends") em) =
  Ok (mkConfig g w cls (str "/cluster") em, true).
Proof. reflexivity. Qed.

Lemma apply_close_cluster cls :
  ApplyTokens [str "}"] (mkConfig g w cls (str "/cluster") em) = Ok (mkConfig g w cls [] em, true).
Proof. reflexivity. Qed.

(** One line: its tokens are valid, the handler applies them. *)
Ltac line_step lem :=
  rewrite traverse_lines_unwords;
  [ rewrite Hh by (first [left; split; reflexivity | right; reflexivity]); rewrite lem; [rewrite bind_Ok_l; cbv iota beta|..]
  | try (repeat constructor; done) | try done ].

Lemma cluster_block cl cls rest :
  valid_cluster (max_namespace_length_ g) cl ->
  traverse_lines h ((unwords <$> render_cluster cl) ++ rest) (mkConfig g w cls [] em) =
  traverse_lines h rest (mkConfig g w (cls ++ [cl]) [] em).
Proof using Hh.
  intros [Hp Hns Htok Hlen Hb]. unfold render_cluster. rewrite !fmap_app, <- !app_assoc.
  cbn [fmap list_fmap app].
  line_step apply_cluster_open.
  line_step (apply_protocol (protocol_ cl)); [|done|destruct (protocol_ cl); repeat constructor; done].
  line_step (apply_namespace (namespaces_ cl)); [|done|done].
  line_step apply_backends_open.
  rewrite (backend_lines _ _ _ _ Hb). cbn [app backends_ protocol_ namespaces_].
  line_step apply_close_backends. line_step apply_close_cluster. by destruct cl.
Qed.

Lemma render_file_loads cls : forall cls0 ,
  Forall (valid_cluster (max_namespace_length_ g)) cls ->
  traverse_lines h (render_file cls) (mkConfig g w cls0 [] em) =
  Ok (mkConfig g w (cls0 ++ cls) [] em, true).
Proof using Hh.
  unfold render_file. induction cls as [|cl cls IH]; intros cls0 Hv.
  - simpl. by rewrite app_nil_r.
  - inversion_clear Hv. rewrite fmap_cons, concat_cons, fmap_app, cluster_block by done. rewrite IH by done.
    by rewrite <- app_assoc.
Qed.
End blocks.

End with_boost.

(** ** Properties *)

(** C22: cluster blocks round-trip through the configuration file.  Take any list of valid
    clusters (a protocol; at least one namespace, each a token no longer than
    max_namespace_length; backends with an address that boost accepts and that has no
    colon, a positive port and a positive weight), written as text, one directive per line.
    Reloading this file in a configuration whose parser is at the top level ([context_]
    is empty: no earlier load stopped inside a block, after which a reload fails, see
    [config_reload_stuck_after_error]) gives exactly these clusters and leaves every other
    setting as it was. *)
Theorem config_reload_roundtrip make_address_v4 c cls :
  context_ c = [] ->
  Forall (valid_cluster make_address_v4 (max_namespace_length_ (global c))) cls ->
  ReloadCulsters make_address_v4 (Some (render_file cls)) c =
  Ok (mkConfig (global c) (worker c) cls [] (error_msg_ c), true).
Proof.
  intros Hctx Hv. unfold ReloadCulsters, TraverseConfFile, with_clusters. rewrite Hctx.
  rewrite (render_file_loads make_address_v4 _ (reload_passes make_address_v4)) by done. done.
Qed.

Definition demo_clusters : list Cluster :=
  [mkCluster REDIS [str "_"; str "user"] [mkBackend (str "127.0.0.1") 6379 100; mkBackend (str "127.0.0.2") 6380 50];
   mkCluster MEMCACHED [str "_"] [mkBackend (str "10.0.0.1") 11211 10]].

Lemma demo_clusters_valid :
  Forall (valid_cluster (fun _ => true) (max_namespace_length_ (global default_config))) demo_clusters.
Proof.
  assert (forall h p w, valid_token h -> ":"%char ∉ h -> 0 < p <= INT_MAX -> 0 < w <= INT_MAX ->
    valid_backend (fun _ => true) (mkBackend h p w)) as Hb by (intros; split; auto).
  apply Forall_cons; split; [|apply Forall_cons; split; [|apply Forall_nil; exact I]].
  - split; [discriminate|discriminate|..].
    + repeat constructor; discriminate.
    + repeat constructor; by_compute.
    + repeat constructor; try discriminate; decide_goal || by_compute.
  - split; [discriminate|discriminate|..].
    + repeat constructor; discriminate.
    + repeat constructor; by_compute.
    + repeat constructor; try discriminate; decide_goal || by_compute.
Qed.

Lemma config_reload_roundtrip_witness :
  ReloadCulsters (fun _ => true) (Some (render_file demo_clusters)) default_config =
  Ok (mkConfig (global default_config) (worker default_config) demo_clusters [] [], true).
Proof.
  exact (config_reload_roundtrip (fun _ => true) default_config demo_clusters eq_refl demo_clusters_valid).
Defined.

(** The buffer size the configuration accepts is a power of two between
    1 KB and 1 MB, so every size check of the buffers has room for the error
    replies and fits an [int]. *)
Theorem config_buffer_size_accepted c t c' :
  ApplyWorkerTokens [str "buffer_size"; t] c = (c', true) ->
  exists k, 0 <= k <= 10 /\ buffer_size_conf_ (worker c') = 1024 * 2 ^ k.
Proof.
  unfold ApplyWorkerTokens. simpl. destruct (stoi t) as [sz|]; [|done].
  destruct ((sz <? 1) || (1024 <? sz) || not_pow2 sz) eqn:Hc; [done|]. intros [= <-]. simpl.
  apply orb_false_iff in Hc as [[H1 H2]%orb_false_iff Hp]. unfold not_pow2 in Hp.
  apply negb_false_iff, Z.eqb_eq in Hp. rewrite u64_small by lia.
  assert (exists k, 0 <= k <= 10 /\ sz = 2 ^ k) as (k & Hk & ->); [|exists k; split; [done|lia]].
  exists (Z.log2 sz). pose proof (Z.log2_nonneg sz). pose proof (Z.log2_spec sz ltac:(lia)) as [Hlo Hhi].
  split; [pose proof (Z.log2_le_mono sz 1024 ltac:(lia)) as Hm; change (Z.log2 1024) with 10 in Hm; lia|].
  destruct (decide (sz = 2 ^ Z.log2 sz)) as [|Hne]; [done|]. exfalso.
  assert (Z.testbit (Z.land sz (sz - 1)) (Z.log2 sz) = true) as Hbit.
  { rewrite Z.land_spec, Z.bit_log2 by lia.
    replace (Z.log2 sz) with (Z.log2 (sz - 1)) at 1; [rewrite Z.bit_log2 by lia; done|].
    apply Z.log2_unique; lia. }
  rewrite Hp, Z.bits_0 in Hbit. done.
Qed.

Lemma config_buffer_size_accepted_witness :
  exists k, 0 <= k <= 10 /\
    buffer_size_conf_ (worker (ApplyWorkerTokens [str "buffer_size"; str "64"] default_config).1) = 1024 * 2 ^ k.
Proof.
  apply (config_buffer_size_accepted default_config (str "64")
           (ApplyWorkerTokens [str "buffer_size"; str "64"] default_config).1).
  vm_compute. reflexivity.
Defined.

(** ** A reload after one that failed *)
Section stuck.
Context (make_address_v4 : bytes -> bool).

Lemma in_cluster_not_empty c : in_cluster_context (context_ c) = true -> context_ c <> [].
Proof. intros H He. by rewrite He in H. Qed.

Lemma in_cluster_handler ts c :
  in_cluster_context (context_ c) = true ->
  reload_handler make_address_v4 ts c = ApplyClusterTokens make_address_v4 ts c.
Proof.
  intros Hc. pose proof (in_cluster_not_empty c Hc). unfold reload_handler, ApplyTokens.
  by rewrite bool_decide_false, Hc by done.
Qed.

Lemma with_back_fails f c c' : with_back f c <> Ok (c', false).
Proof. unfold with_back. by case_match. Qed.

(** A directive that fails inside a cluster block leaves [context_] as it is. *)
Lemma cluster_error_keeps_context ts c c' :
  in_cluster_context (context_ c) = true ->
  ApplyClusterTokens make_address_v4 ts c = Ok (c', false) -> context_ c' = context_ c.
Proof.
  intros Hc%in_cluster_not_empty. unfold ApplyClusterTokens, ApplyBackend, close_block.
  rewrite (bool_decide_false (context_ c = [])) by done.
  repeat case_match; intros He; try by apply with_back_fails in He. all: by injection He as <-.
Qed.

(** Inside a cluster block no directive of the top level is accepted. *)
Lemma top_level_rejected t0 args c :
  in_cluster_context (context_ c) = true -> t0 ∈ top_level ->
  reload_handler make_address_v4 (t0 :: args) c = Ok (c, false).
Proof.
  intros Hc Ht. rewrite in_cluster_handler by done. unfold ApplyClusterTokens, teq.
  repeat (apply elem_of_cons in Ht as [->|Ht]; [rewrite bool_decide_false by (intros [=]); reflexivity|]).
  by apply not_elem_of_nil in Ht.
Qed.

Lemma reload_fails lines c t0 :
  in_cluster_context (context_ c) = true -> first_directive lines = Some t0 -> t0 ∈ top_level ->
  traverse_lines (reload_handler make_address_v4) lines c = Ok (c, false).
Proof.
  intros Hc Hd Ht. induction lines as [|line lines IH]; [done|]. simpl in *.
  destruct (TokenizeLine line) as [|t ts]; [by apply IH|]. injection Hd as ->.
  by rewrite top_level_rejected by done.
Qed.

Definition begins_top_level (file : option (list bytes)) : Prop :=
  match file with
  | Some lines => exists t0, first_directive lines = Some t0 /\ t0 ∈ top_level
  | None => True
  end.

Lemma reloads_fail files c :
  in_cluster_context (context_ c) = true -> Forall begins_top_level files ->
  exists c', reloads make_address_v4 files c = Ok (c', replicate (length files) false).
Proof.
  intros Hc Hf. revert c Hc. induction Hf as [|file files Hfile Hf IH]; intros c Hc; [by exists c|].
  assert (ReloadCulsters make_address_v4 file c = Ok (with_clusters (fun _ => []) c, false)) as Hr.
  { unfold ReloadCulsters, TraverseConfFile. destruct file as [lines|]; [|done].
    destruct Hfile as (t0 & Hd & Ht). by eapply reload_fails. }
  cbn [reloads length replicate]. rewrite Hr, bind_Ok_l. cbn [fst snd].
  destruct (IH (with_clusters (fun _ => []) c) Hc) as [c' ->]. by exists c'.
Qed.

Lemma traverse_lines_app h l1 l2 c c1 :
  traverse_lines h l1 c = Ok (c1, true) -> traverse_lines h (l1 ++ l2) c = traverse_lines h l2 c1.
Proof.
  revert c. induction l1 as [|line l1 IH]; intros c; simpl; [by intros [= ->]|].
  destruct (TokenizeLine line) as [|t ts]; [apply IH|]. intros H. inv_bind H. destruct r as [c' []]; [|done].
  rewrite Hr, bind_Ok_l. by apply IH.
Qed.

(** C40: a reload that fails inside a cluster block is not undone.  Let a reload read some
    lines without an error, the last of them leaving the parser inside a cluster block, and
    then reject the next one.  It returns false and [context_] stays in the block; and from
    then on, in any sequence of reloads whose files (blank lines and comments apart) begin
    with one of the twelve directives of the top level, or cannot be opened, every reload
    fails, however correct its file. *)
Theorem config_reload_stuck_after_error c good bad rest c1 c2 files :
  traverse_lines (reload_handler make_address_v4) good (with_clusters (fun _ => []) c) = Ok (c1, true) ->
  in_cluster_context (context_ c1) = true ->
  traverse_lines (reload_handler make_address_v4) [bad] c1 = Ok (c2, false) ->
  Forall begins_top_level files ->
  ReloadCulsters make_address_v4 (Some (good ++ bad :: rest)) c = Ok (c2, false) /\
  context_ c2 = context_ c1 /\
  exists c', reloads make_address_v4 files c2 = Ok (c', replicate (length files) false).
Proof.
  intros Hgood Hc Hbad Hf.
  assert (context_ c2 = context_ c1 /\
          traverse_lines (reload_handler make_address_v4) (bad :: rest) c1 = Ok (c2, false)) as [Hctx Hall].
  { simpl in *. destruct (TokenizeLine bad) as [|t ts]; [done|]. inv_bind Hbad. destruct r as [c' []]; [done|].
    ok_inv. split; [|by rewrite Hr]. rewrite in_cluster_handler in Hr by done. by eapply cluster_error_keeps_context. }
  split; [|split; [done|apply reloads_fail; [by rewrite Hctx|done]]].
  unfold ReloadCulsters, TraverseConfFile. by rewrite (traverse_lines_app _ _ _ _ _ Hgood).
Qed.
End stuck.

(** A weight is misspelt, then corrected. *)
Definition good_lines : list bytes := [str "cluster {"; str "backends {"].
Definition bad_line : bytes := str "backend 127.0.0.1:6379 x".
Definition bad_file : list bytes := good_lines ++ bad_line :: [str "}"; str "}"].

Lemma config_reload_stuck_witness :
  exists c2 c', ReloadCulsters (fun _ => true) (Some bad_file) default_config = Ok (c2, false) /\
    context_ c2 = str "/cluster/backends" /\
    ReloadCulsters (fun _ => true) (Some (render_file demo_clusters)) default_config =
      Ok (mkConfig (global default_config) (worker default_config) demo_clusters [] [], true) /\
    reloads (fun _ => true) [Some (render_file demo_clusters); Some (str "listen 0.0.0.0:80" :: render_file demo_clusters)] c2 =
      Ok (c', [false; false]).
Proof.
  destruct (config_reload_stuck_after_error (fun _ => true) default_config good_lines bad_line [str "}"; str "}"]
    (mkConfig (global default_config) (worker default_config) [mkCluster NONE [] []] (str "/cluster/backends") [])
    (mkConfig (global default_config) (worker default_config) [mkCluster NONE [] []] (str "/cluster/backends") (str "bad weight"))
    [Some (render_file demo_clusters); Some (str "listen 0.0.0.0:80" :: render_file demo_clusters)])
    as (Hr & Hc & c' & Hall).
  - vm_compute. reflexivity.
  - vm_compute. reflexivity.
  - vm_compute. reflexivity.
  - repeat constructor; [exists (str "cluster")|exists (str "listen")]; (split; [vm_compute; reflexivity|decide_goal]).
  - eexists. exists c'. split; [exact Hr|]. split; [exact Hc|]. split; [vm_compute; reflexivity|exact Hall].
Defined.
