(* ===== verification/KeyDistributer.v ===== *)
(** * The consistent-hash ring

    [proxy/key_distributer.h] and [proxy/key_distributer.cc].  An endpoint is
    the pair of its IPv4 address and its port, in the order boost compares them.
    The address a host string denotes is [address_v4::from_string], a parameter
    of the constructor. *)

From S2P Require Import Prelude CString StdMap DoobsHash Config.

Definition Endpoint : Type := Z * Z.

#[global] Instance Endpoint_eq_dec : EqDecision Endpoint := _.
#[global] Instance Endpoint_countable : Countable Endpoint := _.

(** [Endpoint ep;], default constructed *)
Definition any_endpoint : Endpoint := (0, 0).

Record CachePoint := mkCachePoint { hash_point : Z; endpoint : Endpoint }.

#[global] Instance CachePoint_eq_dec : EqDecision CachePoint.
Proof. solve_decision. Defined.

(** [operator<], negated and reversed: the order [std::sort] establishes *)
Definition point_le (p q : CachePoint) : Prop := hash_point p <= hash_point q.
#[global] Instance point_le_dec : RelDecision point_le.
Proof. intros p q. unfold point_le. apply _. Defined.
#[global] Instance point_le_total : Total point_le.
Proof. intros p q. unfold point_le. lia. Qed.
#[global] Instance point_le_trans : Transitive point_le.
Proof. intros p q r. unfold point_le. lia. Qed.

Record KeyDistributer := mkKeyDistributer {
  weighted_nodes_ : smap Endpoint Z;
  cache_points_ : list CachePoint
}.

(** [snprintf(ss, 63, "%lu-%lu-%u", k, address, port)] and the hash of it *)
Definition point_name (k : Z) (ep : Endpoint) : bytes :=
  dec k ++ str "-" ++ dec ep.1 ++ str "-" ++ dec ep.2.

Definition node_points (ep : Endpoint) (weight : Z) : list CachePoint :=
  (fun k => mkCachePoint (doobs_hash (point_name k ep) 0) ep) <$> seqZ 0 weight.

(** [BuildCachePoints]: [std::sort] may order points with equal hashes in any
    way; this is one of them. *)
Definition BuildCachePoints (nodes : smap Endpoint Z) : option (list CachePoint) :=
  match nodes with
  | [] => None
  | _ => Some (merge_sort point_le (concat ((fun e => node_points e.1 e.2) <$> nodes)))
  end.

Section with_boost.
(** [boost::asio::ip::address_v4::from_string]; [None] is an exception *)
Variable from_string : bytes -> option Z.

(** The constructor's loop; the port of an [Endpoint] has 16 bits *)
Fixpoint emplace_backends (backends : list Backend) (nodes : smap Endpoint Z)
    : result (smap Endpoint Z) :=
  match backends with
  | [] => Ok nodes
  | b :: backends' =>
      addr ← of_option StdException (from_string (host_ b));
      emplace_backends backends' (sm_emplace (addr, port_ b mod 2 ^ 16) (weight_ b) nodes)
  end.

Definition KeyDistributer_ctor (backends : list Backend) : result KeyDistributer :=
  nodes ← emplace_backends backends [];
  Ok (mkKeyDistributer nodes (default [] (BuildCachePoints nodes))).
End with_boost.

(** [std::lower_bound]: the binary search for the first point whose hash is not
    below [h].  Every turn at least halves [len]; [len] bounds the turns. *)
Fixpoint lower_bound_loop (fuel : nat) (points : list CachePoint) (h : Z) (first len : nat) : nat :=
  match fuel with
  | O => first
  | S f =>
      match len with
      | O => first
      | _ =>
          let half := (len / 2)%nat in
          let middle := (first + half)%nat in
          match points !! middle with
          | Some p =>
              if hash_point p <? h
              then lower_bound_loop f points h (middle + 1) (len - half - 1)
              else lower_bound_loop f points h first half
          | None => first
          end
      end
  end.
Definition lower_bound (points : list CachePoint) (h : Z) : nat :=
  lower_bound_loop (length points) points h 0 (length points).

(** The node of a hash value on the ring *)
Definition locate_hash (points : list CachePoint) (h : Z) : Endpoint :=
  match points !! lower_bound points h with
  | Some p => endpoint p
  | None => match points with
            | p :: _ => endpoint p
            | [] => any_endpoint
            end
  end.

Definition LocateCacheNode (kd : KeyDistributer) (key : bytes) : Endpoint :=
  locate_hash (cache_points_ kd) (doobs_hash key 0).

(** ** Specification: the ring

    The node of a hash value is that of the first point clockwise from it:
    the point with the least hash that is not below, or else the point with the
    least hash of all. *)
Fixpoint successor (points : list CachePoint) (h : Z) : option CachePoint :=
  match points with
  | [] => None
  | p :: points' => if h <=? hash_point p then Some p else successor points' h
  end.
Definition ring_owner (points : list CachePoint) (h : Z) : Endpoint :=
  match successor points h with
  | Some p => endpoint p
  | None => match points with p :: _ => endpoint p | [] => any_endpoint end
  end.

(** ** Lemmas *)
Abbreviation sorted := (StronglySorted point_le).

Lemma sorted_lookup points i j p q :
  sorted points -> points !! i = Some p -> points !! j = Some q -> (i < j)%nat -> point_le p q.
Proof.
  intros Hs. revert i j. induction Hs as [|x points Hs IH Hx]; intros i j Hi Hj Hij; [done|].
  destruct j as [|j]; [lia|]. simpl in Hj. destruct i as [|i]; simpl in Hi.
  - injection Hi as <-. apply (proj1 (Forall_forall _ _) Hx). by eapply list_elem_of_lookup_2.
  - eapply (IH i j); done || lia.
Qed.

Lemma lower_bound_loop_spec fuel points h first len :
  sorted points -> (first + len <= length points)%nat -> (len <= fuel)%nat ->
  (forall i p, points !! i = Some p -> (i < first)%nat -> hash_point p < h) ->
  (forall i p, points !! i = Some p -> (first + len <= i)%nat -> h <= hash_point p) ->
  let r := lower_bound_loop fuel points h first len in
  (forall i p, points !! i = Some p -> (i < r)%nat -> hash_point p < h) /\
  (forall i p, points !! i = Some p -> (r <= i)%nat -> h <= hash_point p) /\
  (r <= length points)%nat.
Proof.
  intros Hs. revert first len. induction fuel as [|f IH]; intros first len Hle Hf Hlo Hhi.
  - assert (len = 0)%nat as -> by lia. simpl. rewrite Nat.add_0_r in Hhi, Hle. auto.
  - destruct len as [|len]; [simpl; rewrite Nat.add_0_r in Hhi, Hle; auto|].
    cbn [lower_bound_loop]. set (half := (S len / 2)%nat).
    assert (half < S len)%nat as Hhalf by (apply Nat.div_lt; lia).
    destruct (lookup_lt_is_Some_2 points (first + half)) as [p Hp]; [lia|]. rewrite Hp.
    destruct (Z.ltb_spec (hash_point p) h) as [Hlt|Hge]; apply IH; try lia; try done.
    + intros i q Hq Hi. destruct (decide (i = first + half)%nat) as [->|]; [congruence|].
      destruct (decide (i < first)%nat); [by eapply Hlo|].
      assert (point_le q p) by (apply (sorted_lookup points i (first + half)); done || lia).
      unfold point_le in *. lia.
    + intros i q Hq Hi. apply (Hhi i); [done|lia].
    + intros i q Hq Hi. destruct (decide (i = first + half)%nat) as [->|]; [congruence|].
      destruct (decide (first + S len <= i)%nat); [by eapply Hhi|].
      assert (point_le p q) by (apply (sorted_lookup points (first + half) i); done || lia).
      unfold point_le in *. lia.
Qed.

Lemma successor_lookup points h r :
  (forall i p, points !! i = Some p -> (i < r)%nat -> hash_point p < h) ->
  (forall i p, points !! i = Some p -> (r <= i)%nat -> h <= hash_point p) ->
  successor points h = points !! r.
Proof.
  revert r. induction points as [|p points IH]; intros r Hlo Hhi; [done|]. simpl.
  destruct r as [|r].
  - pose proof (Hhi 0%nat p eq_refl ltac:(lia)). by rewrite (proj2 (Z.leb_le _ _)) by lia.
  - pose proof (Hlo 0%nat p eq_refl ltac:(lia)). rewrite (proj2 (Z.leb_gt _ _)) by lia.
    apply IH; intros i q Hq Hi; [apply (Hlo (S i))|apply (Hhi (S i))]; simpl; done || lia.
Qed.

(** The binary search finds the point the specification names. *)
Lemma locate_hash_ring_owner points h : sorted points -> locate_hash points h = ring_owner points h.
Proof.
  intros Hs. unfold locate_hash, ring_owner, lower_bound.
  destruct (lower_bound_loop_spec (length points) points h 0 (length points)) as (Hlo & Hhi & _);
    [done|lia|lia|lia| |].
  - intros i p Hp%lookup_lt_Some Hi. lia.
  - by rewrite (successor_lookup points h _ Hlo Hhi).
Qed.

(** Clockwise distance on the circle of 32-bit hash values. *)
Definition clockwise (h : Z) (p : CachePoint) : Z := u32 (hash_point p - h).

Definition on_circle (points : list CachePoint) : Prop :=
  Forall (fun p => w32 (hash_point p)) points.

Lemma clockwise_ge h p : w32 h -> w32 (hash_point p) -> h <= hash_point p ->
  clockwise h p = hash_point p - h.
Proof. unfold w32. intros. apply u32_small. lia. Qed.
Lemma clockwise_lt h p : w32 h -> w32 (hash_point p) -> hash_point p < h ->
  clockwise h p = hash_point p - h + 2 ^ 32.
Proof.
  unfold w32, clockwise, u32. intros. rewrite <- (Z.mod_add _ 1) by lia. apply Z.mod_small. lia.
Qed.

Lemma successor_spec points h :
  sorted points ->
  match successor points h with
  | Some p => p ∈ points /\ h <= hash_point p /\
              (forall q, q ∈ points -> hash_point q < h \/ hash_point p <= hash_point q)
  | None => forall q, q ∈ points -> hash_point q < h
  end.
Proof.
  intros Hs. induction Hs as [|p points Hs IH Hp]; simpl; [set_solver|].
  destruct (Z.leb_spec h (hash_point p)) as [Hle|Hgt].
  - split; [set_solver|]. split; [done|]. intros q [->|Hq]%elem_of_cons; [lia|].
    apply (proj1 (Forall_forall _ _) Hp) in Hq. unfold point_le in Hq. lia.
  - destruct (successor points h) as [r|].
    + destruct IH as (Hr & Hh & Hq). split; [set_solver|]. split; [done|].
      intros q [->|Hin]%elem_of_cons; [by left|by apply Hq].
    + intros q [->|Hin]%elem_of_cons; [done|by apply IH].
Qed.

(** The owner of a hash value has the nearest point clockwise. *)
Lemma ring_owner_nearest points h :
  sorted points -> on_circle points -> w32 h -> points <> [] ->
  exists p, p ∈ points /\ ring_owner points h = endpoint p /\
    forall q, q ∈ points -> clockwise h p <= clockwise h q.
Proof.
  intros Hs Hc Hh Hne. unfold on_circle in Hc. rewrite Forall_forall in Hc.
  pose proof (successor_spec points h Hs) as Hsp. unfold ring_owner.
  destruct (successor points h) as [p|].
  - destruct Hsp as (Hp & Hle & Hq). exists p. split; [done|]. split; [done|].
    intros q Hin. pose proof (Hc p Hp). pose proof (Hc q Hin). rewrite clockwise_ge by done.
    unfold w32 in *. destruct (decide (h <= hash_point q)).
    + rewrite clockwise_ge by done. destruct (Hq q Hin); lia.
    + rewrite clockwise_lt by (done || lia). lia.
  - destruct points as [|p points]; [done|]. exists p. split; [set_solver|]. split; [done|].
    intros q Hin. rewrite !clockwise_lt by (try apply Hc; try apply Hsp; set_solver).
    apply elem_of_cons in Hin as [->|Hin]; [lia|]. apply StronglySorted_inv in Hs as [_ Hp].
    apply (proj1 (Forall_forall _ _) Hp) in Hin. unfold point_le in Hin. lia.
Qed.

(** Different nodes have no point in common. *)
Definition collision_free (points : list CachePoint) : Prop :=
  forall p q, p ∈ points -> q ∈ points -> hash_point p = hash_point q -> endpoint p = endpoint q.

Lemma clockwise_inj h p q :
  w32 h -> w32 (hash_point p) -> w32 (hash_point q) ->
  clockwise h p = clockwise h q -> hash_point p = hash_point q.
Proof.
  intros Hh Hp Hq.
  destruct (decide (h <= hash_point p)), (decide (h <= hash_point q));
    first [rewrite (clockwise_ge h p) by (done || lia)|rewrite (clockwise_lt h p) by (done || lia)];
    first [rewrite (clockwise_ge h q) by (done || lia)|rewrite (clockwise_lt h q) by (done || lia)];
    unfold w32 in *; lia.
Qed.

Lemma ring_owner_unique points h p :
  sorted points -> on_circle points -> w32 h -> collision_free points -> p ∈ points ->
  (forall q, q ∈ points -> clockwise h p <= clockwise h q) ->
  ring_owner points h = endpoint p.
Proof.
  intros Hs Hc Hh Hcf Hp Hmin.
  destruct (ring_owner_nearest points h) as (p' & Hp' & -> & Hmin');
    [done|done|done|intros ->; set_solver|].
  apply Hcf; [done|done|]. unfold on_circle in Hc. rewrite Forall_forall in Hc.
  apply (clockwise_inj h); [done|by apply Hc|by apply Hc|].
  pose proof (Hmin p' Hp'). pose proof (Hmin' p Hp). lia.
Qed.

(** Removing the points of one node leaves every other node's keys in place. *)
Lemma ring_owner_remove points points' e h :
  sorted points -> sorted points' -> on_circle points -> w32 h -> collision_free points ->
  points' ≡ₚ filter (fun p => endpoint p <> e) points ->
  ring_owner points h <> e -> points <> [] ->
  ring_owner points' h = ring_owner points h.
Proof.
  intros Hs Hs' Hc Hh Hcf Hperm Hown Hne.
  assert (forall q, q ∈ points' <-> endpoint q <> e /\ q ∈ points) as Hin
    by (intros q; rewrite Hperm, list_elem_of_filter; done).
  destruct (ring_owner_nearest points h) as (p & Hp & Heq & Hmin); [done..|].
  rewrite Heq in *. apply ring_owner_unique; [done| |done| | |].
  - unfold on_circle in *. rewrite Forall_forall in *. intros q Hq. apply Hc. by apply Hin.
  - intros q r Hq Hr. apply Hcf; by apply Hin.
  - by apply Hin.
  - intros q Hq. apply Hmin. by apply Hin.
Qed.

(** The nodes other than [e] *)
Fixpoint other_nodes (e : Endpoint) (m : smap Endpoint Z) : smap Endpoint Z :=
  match m with
  | [] => []
  | x :: m' => if decide (x.1 = e) then other_nodes e m' else x :: other_nodes e m'
  end.

Lemma other_nodes_Forall e P m : Forall P m -> Forall P (other_nodes e m).
Proof. induction 1; simpl; [done|]. case_decide; auto. Qed.

Lemma sm_emplace_lt (k : Endpoint) (w : Z) m :
  Forall (fun x => key_ltb k x.1 = true) m -> sm_emplace k w m = (k, w) :: m.
Proof. intros Hf. destruct Hf as [|[k' w'] m Hk _]; simpl in *; [done|]. by rewrite Hk. Qed.

Lemma sm_emplace_other_nodes (e k : Endpoint) (w : Z) m :
  sm_sorted m ->
  other_nodes e (sm_emplace k w m) =
  if decide (k = e) then other_nodes e m else sm_emplace k w (other_nodes e m).
Proof.
  induction m as [|[k' w'] m IH]; intros Hs; simpl; [by case_decide|].
  apply sm_sorted_cons in Hs as [Hs Hlt]. specialize (IH Hs).
  destruct (key_ltb k k') eqn:H1; simpl.
  - repeat case_decide; try done; [|by simpl; rewrite H1].
    symmetry. apply sm_emplace_lt, other_nodes_Forall. eapply Forall_impl; [exact Hlt|].
    intros x Hx. by eapply key_lt_trans.
  - destruct (key_ltb k' k) eqn:H2; simpl.
    + rewrite IH. repeat case_decide; try done. simpl. by rewrite H1, H2.
    + pose proof (key_lt_total _ _ H1 H2) as <-. repeat case_decide; try done. simpl. by rewrite H1.
Qed.

Section ring.
Context (from_string : bytes -> option Z).

(** The endpoint a configured backend denotes *)
Definition backend_endpoint (b : Backend) : option Endpoint :=
  addr ← from_string (host_ b); Some (addr, port_ b mod 2 ^ 16).

Lemma emplace_backends_sorted bs nodes nodes' :
  sm_sorted nodes -> emplace_backends from_string bs nodes = Ok nodes' -> sm_sorted nodes'.
Proof.
  revert nodes. induction bs as [|b bs IH]; simpl; intros nodes Hs H; [by ok_inv|].
  inv_bind H. eapply IH; [|exact H]. by apply sm_emplace_sorted.
Qed.

Lemma emplace_backends_filter e bs nodes nodes' :
  sm_sorted nodes -> emplace_backends from_string bs nodes = Ok nodes' ->
  emplace_backends from_string (filter (fun b => backend_endpoint b <> Some e) bs)
    (other_nodes e nodes) = Ok (other_nodes e nodes').
Proof.
  revert nodes. induction bs as [|b bs IH]; cbn [emplace_backends]; intros nodes Hs H; [by ok_inv|].
  apply bind_Ok in H as (addr & Ha & H). apply of_option_Ok in Ha.
  apply IH in H; [|by apply sm_emplace_sorted]. rewrite sm_emplace_other_nodes in H by done.
  assert (backend_endpoint b = Some (addr, port_ b mod 2 ^ 16)) as Hb
    by (unfold backend_endpoint; by rewrite Ha).
  rewrite filter_cons. destruct (decide ((addr, port_ b mod 2 ^ 16) = e)) as [He|He].
  - rewrite decide_False by (intros Hx; apply Hx; by rewrite Hb, He).
    by rewrite decide_True in H.
  - rewrite decide_True by (rewrite Hb; naive_solver). rewrite decide_False in H by done.
    simpl. by rewrite Ha.
Qed.

Lemma emplace_backends_elem bs nodes nodes' x :
  sm_sorted nodes -> emplace_backends from_string bs nodes = Ok nodes' -> x ∈ nodes' ->
  x ∈ nodes \/ exists b, b ∈ bs /\ backend_endpoint b = Some x.1.
Proof.
  revert nodes. induction bs as [|b bs IH]; simpl; intros nodes Hs H Hx; [ok_inv; by left|].
  apply bind_Ok in H as (addr & Ha & H). apply of_option_Ok in Ha.
  apply IH in H as [Hin|(b' & Hb' & He)]; [|by right; exists b'; set_solver|
    by apply sm_emplace_sorted|done].
  apply sm_emplace_elem in Hin as [Hin|[_ ->]]; [by left| |done].
  right. exists b. split; [set_solver|]. unfold backend_endpoint. by rewrite Ha.
Qed.
End ring.

Definition ring_points (nodes : smap Endpoint Z) : list CachePoint :=
  concat ((fun e => node_points e.1 e.2) <$> nodes).

Lemma default_BuildCachePoints nodes :
  default [] (BuildCachePoints nodes) = merge_sort point_le (ring_points nodes).
Proof. by destruct nodes. Qed.

Lemma ring_points_elem nodes p :
  p ∈ ring_points nodes <-> exists ep w, (ep, w) ∈ nodes /\ p ∈ node_points ep w.
Proof.
  unfold ring_points. rewrite list_elem_of_In, in_concat. setoid_rewrite <- list_elem_of_In.
  split.
  - intros (l & ([ep w] & -> & Hin)%list_elem_of_fmap & Hp). eauto.
  - intros (ep & w & Hin & Hp). eexists. split; [|exact Hp]. apply list_elem_of_fmap.
    by exists (ep, w).
Qed.

Lemma node_points_endpoint ep w p : p ∈ node_points ep w -> endpoint p = ep /\ w32 (hash_point p).
Proof.
  intros (k & -> & _)%list_elem_of_fmap. split; [done|]. by apply doobs_hash_w32.
Qed.

Lemma node_points_filter e ep w :
  filter (fun p => endpoint p <> e) (node_points ep w) =
  if decide (ep = e) then [] else node_points ep w.
Proof.
  unfold node_points. induction (seqZ 0 w) as [|k ks IH]; [by case_decide|].
  rewrite fmap_cons, filter_cons, IH. cbn [endpoint]. repeat case_decide; done.
Qed.

Lemma ring_points_cons x nodes : ring_points (x :: nodes) = node_points x.1 x.2 ++ ring_points nodes.
Proof. reflexivity. Qed.

Lemma ring_points_filter e nodes :
  ring_points (other_nodes e nodes) = filter (fun p => endpoint p <> e) (ring_points nodes).
Proof.
  induction nodes as [|x nodes IH]; [done|].
  rewrite ring_points_cons, filter_app, <- IH, node_points_filter. simpl. by case_decide.
Qed.

Lemma ring_on_circle nodes : on_circle (merge_sort point_le (ring_points nodes)).
Proof.
  apply Forall_forall. intros p Hp. rewrite merge_sort_Permutation in Hp.
  apply ring_points_elem in Hp as (ep & w & _ & Hp). by apply node_points_endpoint in Hp as [_ ?].
Qed.

Lemma KeyDistributer_ctor_nodes from_string bs kd :
  KeyDistributer_ctor from_string bs = Ok kd ->
  emplace_backends from_string bs [] = Ok (weighted_nodes_ kd) /\
  cache_points_ kd = merge_sort point_le (ring_points (weighted_nodes_ kd)).
Proof.
  unfold KeyDistributer_ctor. intros H. inv_bind H. ok_inv. simpl.
  split; [done|]. by rewrite default_BuildCachePoints.
Qed.

Lemma cache_points_sorted nodes : sorted (merge_sort point_le (ring_points nodes)).
Proof. apply StronglySorted_merge_sort; apply _. Qed.

(** ** Properties *)

(** C17: a key is served by a configured backend, the one that owns the first
    point of the ring clockwise from the key's hash, whatever the backends,
    weights and host names are, as long as the ring has a point. *)
Theorem locate_is_nearest_configured from_string backends kd key :
  KeyDistributer_ctor from_string backends = Ok kd -> cache_points_ kd <> [] ->
  exists b p, b ∈ backends /\ p ∈ cache_points_ kd /\
    backend_endpoint from_string b = Some (LocateCacheNode kd key) /\
    endpoint p = LocateCacheNode kd key /\
    forall q, q ∈ cache_points_ kd ->
      clockwise (doobs_hash key 0) p <= clockwise (doobs_hash key 0) q.
Proof.
  intros (Hn & Hp)%KeyDistributer_ctor_nodes Hne. unfold LocateCacheNode. rewrite Hp in *.
  rewrite locate_hash_ring_owner by apply cache_points_sorted.
  destruct (ring_owner_nearest _ (doobs_hash key 0) (cache_points_sorted (weighted_nodes_ kd))
    (ring_on_circle _))
    as (p & Hin & -> & Hmin); [by apply doobs_hash_w32|done|].
  pose proof Hin as Hr. rewrite merge_sort_Permutation in Hr.
  apply ring_points_elem in Hr as (ep & w & Hnode & Hep).
  apply node_points_endpoint in Hep as [<- _].
  eapply emplace_backends_elem in Hn as [H|(b & Hb & Hbe)]; [by apply not_elem_of_nil in H| |constructor|exact Hnode].
  by exists b, p.
Qed.

(** C18: consistent hashing: dropping one backend from a configuration whose
    ring has no hash collision between backends leaves every key of the other
    backends where it was; only the keys of the dropped one move. *)
Theorem remove_backend_moves_only_its_keys from_string backends kd kd' e key :
  KeyDistributer_ctor from_string backends = Ok kd ->
  KeyDistributer_ctor from_string
    (filter (fun b => backend_endpoint from_string b <> Some e) backends) = Ok kd' ->
  collision_free (cache_points_ kd) -> cache_points_ kd <> [] ->
  LocateCacheNode kd key <> e ->
  LocateCacheNode kd' key = LocateCacheNode kd key.
Proof.
  intros (Hn & Hp)%KeyDistributer_ctor_nodes (Hn' & Hp')%KeyDistributer_ctor_nodes Hcf Hne.
  apply (emplace_backends_filter _ e) in Hn; [|constructor]. simpl in Hn. rewrite Hn' in Hn.
  injection Hn as Hn. unfold LocateCacheNode. rewrite Hn, ring_points_filter in Hp'.
  assert (sorted (cache_points_ kd')) by (rewrite Hp'; apply StronglySorted_merge_sort; apply _).
  assert (sorted (cache_points_ kd)) by (rewrite Hp; apply cache_points_sorted).
  rewrite !locate_hash_ring_owner by done. intros Hown.
  apply (ring_owner_remove _ _ e); try done; [by rewrite Hp; apply ring_on_circle| |].
  - by apply doobs_hash_w32.
  - by rewrite Hp', Hp, !merge_sort_Permutation.
Qed.

(** Three backends on one host; the host name denotes 127.0.0.1. *)
Definition loopback (host : bytes) : option Z := Some 2130706433.
Definition sample_backends : list Backend :=
  [mkBackend (str "localhost") 6379 2; mkBackend (str "localhost") 6380 3;
   mkBackend (str "localhost") 6381 2].
Definition sample_ring (backends : list Backend) : KeyDistributer :=
  match KeyDistributer_ctor loopback backends with
  | Ok kd => kd
  | Fault _ => mkKeyDistributer [] []
  end.

Lemma locate_is_nearest_configured_witness :
  exists b p, b ∈ sample_backends /\ p ∈ cache_points_ (sample_ring sample_backends) /\
    backend_endpoint loopback b = Some (LocateCacheNode (sample_ring sample_backends) (str "user1")) /\
    endpoint p = LocateCacheNode (sample_ring sample_backends) (str "user1") /\
    forall q, q ∈ cache_points_ (sample_ring sample_backends) ->
      clockwise (doobs_hash (str "user1") 0) p <= clockwise (doobs_hash (str "user1") 0) q.
Proof.
  apply (locate_is_nearest_configured loopback sample_backends);
    [vm_compute; reflexivity|vm_compute; congruence].
Defined.

Lemma collision_free_by_compute points :
  forallb (fun p => forallb (fun q =>
    bool_decide (hash_point p = hash_point q -> endpoint p = endpoint q)) points) points = true ->
  collision_free points.
Proof.
  intros Hb p q Hp Hq. rewrite forallb_forall in Hb.
  specialize (Hb p (proj1 (list_elem_of_In _ _) Hp)). rewrite forallb_forall in Hb.
  specialize (Hb q (proj1 (list_elem_of_In _ _) Hq)). by apply bool_decide_eq_true in Hb.
Qed.

Lemma remove_backend_moves_only_its_keys_witness :
  LocateCacheNode (sample_ring
    (filter (fun b => backend_endpoint loopback b <> Some (2130706433, 6380)) sample_backends)) (str "user1") =
  LocateCacheNode (sample_ring sample_backends) (str "user1").
Proof.
  apply (remove_backend_moves_only_its_keys loopback sample_backends _ _ (2130706433, 6380));
    [vm_compute; reflexivity|vm_compute; reflexivity| | |].
  - apply collision_free_by_compute. vm_compute. reflexivity.
  - vm_compute. congruence.
  - vm_compute. congruence.
Defined.
