(* ===== verification/KeyLocator.v ===== *)
(** * Routing a key to a cluster by its namespace

    [proxy/key_locator.h] and [proxy/key_locator.cc].  Each cluster of the
    configuration registers its consistent-hash ring under a protocol and the
    namespaces it serves; [Locate] picks the ring by the part of the key before
    the first colon.  A [std::shared_ptr] that may be null is an [option]. *)

From S2P Require Import Prelude CString StdMap ErrorCode DoobsHash Config KeyDistributer.

(** [std::string::operator<] compares bytes as unsigned. *)
Fixpoint bytes_ltb (s t : bytes) : bool :=
  match s, t with
  | _, [] => false
  | [], _ :: _ => true
  | c :: s', d :: t' =>
      if uchar c <? uchar d then true
      else if uchar d <? uchar c then false else bytes_ltb s' t'
  end.
#[global] Instance bytes_key_lt : KeyLt bytes := bytes_ltb.

Definition KeyLocator : Type := smap bytes (option KeyDistributer).

Definition ProtocolNs (protocol : ProtocolType) : bytes :=
  match protocol with
  | MEMCACHED => str "m"
  | REDIS => str "r"
  | NONE => []
  end.

(** [oss << s.c_str()]: the characters before the first NUL *)
Fixpoint until_nul (s : bytes) : bytes :=
  match s with
  | [] => []
  | c :: s' => if bool_decide (c = NUL) then [] else c :: until_nul s'
  end.

Definition registered_ns (ns : bytes) : bytes :=
  if bool_decide (ns = str "_") then [] else until_nul ns.

Definition register_namespaces (protocol : ProtocolType) (kd : KeyDistributer)
    (namespaces : list bytes) (kl : KeyLocator) : KeyLocator :=
  foldl (fun kl ns => sm_emplace (ProtocolNs protocol ++ str "/" ++ registered_ns ns) (Some kd) kl)
    kl namespaces.

Section with_boost.
(** [boost::asio::ip::address_v4::from_string] *)
Variable from_string : bytes -> option Z.

Fixpoint register_clusters (clusters : list Cluster) (kl : KeyLocator) : result KeyLocator :=
  match clusters with
  | [] => Ok kl
  | cluster :: clusters' =>
      continuum ← KeyDistributer_ctor from_string (backends_ cluster);
      register_clusters clusters'
        (register_namespaces (protocol_ cluster) continuum (namespaces_ cluster) kl)
  end.

Definition KeyLocator_Initialize (config : Config) (kl : KeyLocator) : result (KeyLocator * bool) :=
  match clusters_ config with
  | [] => Ok (kl, false)
  | clusters => kl' ← register_clusters clusters kl; Ok (kl', true)
  end.
End with_boost.

Definition DefaultNamespace (protocol : ProtocolType) : result bytes :=
  match protocol with
  | REDIS => Ok (str "0/")
  | MEMCACHED => Ok (str "1/")
  | NONE => Fault AssertFailed
  end.

(** [key] points into the storage [m]; the bound passed to [memchr] is an [int]
    converted to [size_t]. *)
Definition KeyNamespace (config : Config) (m : bytes) (key len : Z) (protocol : ProtocolType)
    : result bytes :=
  p ← memchr m key ":"%char
        (u64 (Z.min (s32 len) (s32 (max_namespace_length_ (global config) + 1))));
  ns ← match p with
       | Some p => read_bytes m key (p - key)
       | None => Ok []
       end;
  Ok (ProtocolNs protocol ++ str "/" ++ ns).

(** [namespace_continum_[...]] adds a null pointer for an absent namespace. *)
Definition Locate (config : Config) (kl : KeyLocator) (m : bytes) (key len : Z)
    (protocol : ProtocolType) : result (Endpoint * KeyLocator) :=
  ns ← KeyNamespace config m key len protocol;
  '(continuum, kl) ←
    match sm_find ns kl with
    | Some continuum => Ok (continuum, kl)
    | None =>
        d ← DefaultNamespace protocol;
        let kl := sm_emplace d None kl in
        Ok (default None (sm_find d kl), kl)
    end;
  kd ← of_option NullDeref continuum;
  k ← read_bytes m key len;
  Ok (LocateCacheNode kd k, kl).

(** ** Specification

    The namespace of a key is what stands before its first colon, unless that is
    longer than the configured bound; the cluster of a namespace is the first one
    in the file that serves it. *)
Fixpoint before_colon (key : bytes) : option bytes :=
  match key with
  | [] => None
  | c :: key' => if bool_decide (c = ":"%char) then Some [] else (cons c) <$> before_colon key'
  end.
Definition namespace_of (max : Z) (key : bytes) : bytes :=
  match before_colon key with
  | Some ns => if zlen ns <=? max then ns else []
  | None => []
  end.
Definition serves (protocol : ProtocolType) (ns : bytes) (c : Cluster) : Prop :=
  protocol_ c = protocol /\ ns ∈ registered_ns <$> namespaces_ c.
#[global] Instance serves_dec protocol ns c : Decision (serves protocol ns c).
Proof. unfold serves. apply _. Defined.
Fixpoint cluster_of (protocol : ProtocolType) (ns : bytes) (clusters : list Cluster) : option Cluster :=
  match clusters with
  | [] => None
  | c :: clusters' =>
      if decide (serves protocol ns c) then Some c else cluster_of protocol ns clusters'
  end.

(** ** Lemmas *)
Lemma uchar_inj c d : uchar c = uchar d -> c = d.
Proof.
  unfold uchar. intros H%N2Z.inj. rewrite <- (ascii_N_embedding c), <- (ascii_N_embedding d). by f_equal.
Qed.

#[global] Instance bytes_key_order : KeyOrder bytes.
Proof.
  split; unfold key_ltb, bytes_key_lt.
  - induction k as [|c k IH]; simpl; [done|]. by rewrite Z.ltb_irrefl.
  - induction k1 as [|c1 k1 IH]; intros [|c2 k2] [|c3 k3]; simpl; try done. intros H1 H2.
    repeat case_match; try done; try lia; eauto.
  - induction k1 as [|c1 k1 IH]; intros [|c2 k2]; simpl; try done. intros H1 H2.
    repeat case_match; try done. f_equal; [apply uchar_inj; lia|by apply IH].
Qed.

Lemma ns_key_inj p q ns ns' :
  ProtocolNs p ++ str "/" ++ ns = ProtocolNs q ++ str "/" ++ ns' -> p = q /\ ns = ns'.
Proof. destruct p, q; simpl; intros H; simplify_eq; done. Qed.

Lemma ns_key_not_default p q ns d :
  DefaultNamespace q = Ok d -> ProtocolNs p ++ str "/" ++ ns <> d.
Proof. destruct p, q; simpl; intros; simplify_eq; done. Qed.

Lemma register_namespaces_sorted p kd nss kl :
  sm_sorted kl -> sm_sorted (register_namespaces p kd nss kl).
Proof.
  unfold register_namespaces. revert kl. induction nss as [|ns nss IH]; simpl; intros kl Hs; [done|].
  by apply IH, sm_emplace_sorted.
Qed.

(** The first registration of a namespace stays. *)
Lemma register_namespaces_find p kd nss q ns kl :
  sm_sorted kl ->
  sm_find (ProtocolNs q ++ str "/" ++ ns) (register_namespaces p kd nss kl) =
  match sm_find (ProtocolNs q ++ str "/" ++ ns) kl with
  | Some x => Some x
  | None => if decide (p = q /\ ns ∈ registered_ns <$> nss) then Some (Some kd) else None
  end.
Proof.
  unfold register_namespaces. revert kl. induction nss as [|n nss IH]; intros kl Hs.
  - simpl. rewrite decide_False by set_solver. by case_match.
  - cbn [foldl]. rewrite IH by by apply sm_emplace_sorted. clear IH.
    destruct (decide (p = q /\ ns = registered_ns n)) as [[-> ->]|Hne].
    + destruct (sm_find _ kl) as [x|] eqn:Hf.
      * apply sm_find_elem in Hf; [|done].
        by rewrite (proj2 (sm_find_elem _ x _ (sm_emplace_sorted _ _ _ Hs)))
          by (apply sm_emplace_elem; auto).
      * rewrite sm_find_emplace, decide_True by (done || set_solver). done.
    + rewrite sm_find_emplace_ne; [|done|].
      * destruct (sm_find _ kl); [done|]. apply decide_ext. set_solver.
      * intros [? ?]%ns_key_inj. naive_solver.
Qed.

Lemma register_clusters_find from_string clusters q ns kl kl' :
  sm_sorted kl -> register_clusters from_string clusters kl = Ok kl' ->
  sm_sorted kl' /\
  match sm_find (ProtocolNs q ++ str "/" ++ ns) kl with
  | Some x => sm_find (ProtocolNs q ++ str "/" ++ ns) kl' = Some x
  | None =>
      match cluster_of q ns clusters with
      | Some c => exists kd, KeyDistributer_ctor from_string (backends_ c) = Ok kd /\
                    sm_find (ProtocolNs q ++ str "/" ++ ns) kl' = Some (Some kd)
      | None => sm_find (ProtocolNs q ++ str "/" ++ ns) kl' = None
      end
  end.
Proof.
  revert kl. induction clusters as [|c clusters IH]; intros kl Hs H; cbn [register_clusters] in H.
  - ok_inv. split; [done|]. by destruct (sm_find _ _).
  - apply bind_Ok in H as (kd & Hkd & H).
    apply IH in H as [Hs' H]; [|by apply register_namespaces_sorted]. split; [done|].
    rewrite register_namespaces_find in H by done.
    destruct (sm_find _ kl) as [x|]; [done|]. cbn [cluster_of].
    destruct (decide (serves q ns c)) as [Hv|Hv];
      [rewrite decide_True in H by exact Hv|by rewrite decide_False in H by exact Hv]. eauto.
Qed.

Lemma register_clusters_no_default from_string clusters q d kl kl' :
  DefaultNamespace q = Ok d -> sm_find d kl = None -> sm_sorted kl ->
  register_clusters from_string clusters kl = Ok kl' -> sm_find d kl' = None.
Proof.
  intros Hd. revert kl. induction clusters as [|c clusters IH]; intros kl Hf Hs H;
    cbn [register_clusters] in H; [by ok_inv|].
  apply bind_Ok in H as (kd & _ & H). eapply IH; [| |exact H]; [|by apply register_namespaces_sorted].
  clear IH H. unfold register_namespaces. revert kl Hf Hs.
  induction (namespaces_ c) as [|n nss IH]; intros kl Hf Hs; cbn [foldl]; [done|].
  apply IH; [|by apply sm_emplace_sorted]. rewrite sm_find_emplace_ne; [done|done|].
  by eapply ns_key_not_default.
Qed.

Lemma before_colon_None key : before_colon key = None -> ":"%char ∉ key.
Proof.
  induction key as [|c key IH]; cbn [before_colon]; [set_solver|].
  case_bool_decide; [done|]. destruct (before_colon key); [done|]. set_solver.
Qed.
Lemma before_colon_Some key ns :
  before_colon key = Some ns -> (":"%char ∉ ns) /\ exists rest, key = ns ++ ":"%char :: rest.
Proof.
  revert ns. induction key as [|c key IH]; cbn [before_colon]; intros ns H; [done|].
  case_bool_decide; [simplify_eq; set_solver|].
  destruct (before_colon key) as [ns'|]; simpl in H; [|done]. simplify_eq.
  destruct (IH ns' eq_refl) as (? & rest & ->). split; [set_solver|by exists rest].
Qed.

Lemma memchr_from_prefix l k c n :
  (n <= length l)%nat -> memchr_from (l ++ k) c n = memchr_from l c n.
Proof.
  revert n. induction l as [|x l IH]; intros [|n] Hn; [by destruct k|simpl in Hn; lia|done|].
  simpl. rewrite IH by (simpl in Hn; lia). done.
Qed.

(** The bounded search of the code computes the namespace of the specification. *)
Lemma KeyNamespace_spec config pre key post protocol :
  zlen key < 2 ^ 31 -> 0 <= max_namespace_length_ (global config) < INT_MAX ->
  KeyNamespace config (pre ++ key ++ post) (zlen pre) (zlen key) protocol =
  Ok (ProtocolNs protocol ++ str "/" ++ namespace_of (max_namespace_length_ (global config)) key).
Proof.
  intros Hk Hmax. unfold INT_MAX in Hmax. set (max := max_namespace_length_ (global config)) in *.
  unfold KeyNamespace, memchr. fold max. pose proof (zlen_nonneg key).
  rewrite !s32_small, u64_small, at_ptr_app by lia.
  set (n := Z.min (zlen key) (max + 1)).
  rewrite memchr_from_prefix by (unfold n, zlen in *; lia). unfold namespace_of.
  destruct (before_colon key) as [ns|] eqn:Hb.
  - apply before_colon_Some in Hb as [Hns (rest & ->)].
    destruct (Z.leb_spec (zlen ns) max) as [Hle|Hgt].
    + rewrite memchr_from_app_found; [|done|unfold n, zlen in *; rewrite length_app; simpl; lia].
      cbn [mbind result_bind fmap option_fmap option_map].
      unfold read_bytes. replace (zlen pre + Z.of_nat (length ns) - zlen pre) with (zlen ns)
        by (unfold zlen; lia).
      pose proof (zlen_nonneg pre). pose proof (zlen_nonneg ns). pose proof (zlen_nonneg post).
      pose proof (zlen_nonneg rest).
      replace (_ || _ || _) with false by (symmetry; autorewrite with yarm; lia).
      unfold zlen. rewrite !Nat2Z.id, drop_app_length, <- app_assoc, take_app_length. done.
    + rewrite memchr_from_absent; [done|unfold n, zlen; lia|].
      assert (Z.to_nat n <= length ns)%nat by (unfold n, zlen in *; lia).
      rewrite take_app_le by done. intros Hin. apply Hns. by eapply elem_of_take in Hin as (? & ? & _);
        eapply list_elem_of_lookup_2.
  - apply before_colon_None in Hb. rewrite memchr_from_absent; [done|unfold n, zlen; lia|].
    intros Hin. apply Hb. by eapply elem_of_take in Hin as (? & ? & _); eapply list_elem_of_lookup_2.
Qed.

Lemma read_bytes_middle pre key post : read_bytes (pre ++ key ++ post) (zlen pre) (zlen key) = Ok key.
Proof.
  unfold read_bytes. pose proof (zlen_nonneg pre). pose proof (zlen_nonneg key).
  pose proof (zlen_nonneg post).
  replace (_ || _ || _) with false by (symmetry; autorewrite with yarm; lia).
  unfold zlen. by rewrite !Nat2Z.id, drop_app_length, take_app_length.
Qed.

Lemma Locate_found config kl protocol kd pre key post :
  0 <= max_namespace_length_ (global config) < INT_MAX -> zlen key < 2 ^ 31 ->
  sm_find (ProtocolNs protocol ++ str "/" ++ namespace_of (max_namespace_length_ (global config)) key) kl =
    Some (Some kd) ->
  Locate config kl (pre ++ key ++ post) (zlen pre) (zlen key) protocol = Ok (LocateCacheNode kd key, kl).
Proof.
  intros Hmax Hk Hf. unfold Locate. rewrite KeyNamespace_spec, bind_Ok_l, Hf, bind_Ok_l by done. simpl.
  by rewrite read_bytes_middle.
Qed.

(** ** Properties *)

(** C19: with the rings of a configuration loaded, a key is looked up in the ring
    of the first cluster of its protocol that serves the key's namespace, and
    the lookup changes nothing. *)
Theorem locate_routes_by_namespace from_string config kl protocol cluster pre key post :
  KeyLocator_Initialize from_string config [] = Ok (kl, true) ->
  0 <= max_namespace_length_ (global config) < INT_MAX -> zlen key < 2 ^ 31 ->
  cluster_of protocol (namespace_of (max_namespace_length_ (global config)) key)
    (clusters_ config) = Some cluster ->
  exists kd, KeyDistributer_ctor from_string (backends_ cluster) = Ok kd /\
    Locate config kl (pre ++ key ++ post) (zlen pre) (zlen key) protocol =
    Ok (LocateCacheNode kd key, kl).
Proof.
  unfold KeyLocator_Initialize. intros H Hmax Hk Hc.
  destruct (clusters_ config) as [|c0 cs] eqn:Hcs; [done|]. rewrite <- Hcs in *.
  apply bind_Ok in H as (kl' & Hreg & Hok). injection Hok as ->.
  apply (register_clusters_find _ _ protocol
    (namespace_of (max_namespace_length_ (global config)) key)) in Hreg as [_ Hf]; [|constructor].
  cbn [sm_find] in Hf. rewrite Hc in Hf. destruct Hf as (kd & Hkd & Hf). exists kd. split; [done|].
  by apply Locate_found.
Qed.

(** A key whose namespace no cluster of its protocol serves is not routed to
    a default cluster: the default namespaces the code falls back to are
    ["0/"] and ["1/"], no configuration registers them, and the lookup goes
    through a null pointer. *)
Theorem locate_unserved_namespace_is_null from_string config kl protocol pre key post :
  KeyLocator_Initialize from_string config [] = Ok (kl, true) -> protocol <> NONE ->
  0 <= max_namespace_length_ (global config) < INT_MAX -> zlen key < 2 ^ 31 ->
  cluster_of protocol (namespace_of (max_namespace_length_ (global config)) key)
    (clusters_ config) = None ->
  Locate config kl (pre ++ key ++ post) (zlen pre) (zlen key) protocol = Fault NullDeref.
Proof.
  unfold KeyLocator_Initialize. intros H Hp Hmax Hk Hc.
  destruct (clusters_ config) as [|c0 cs] eqn:Hcs; [done|]. rewrite <- Hcs in *.
  apply bind_Ok in H as (kl' & Hreg & Hok). injection Hok as ->.
  assert (exists d, DefaultNamespace protocol = Ok d) as [d Hd] by (destruct protocol; eauto; done).
  pose proof (register_clusters_no_default _ _ _ _ [] kl Hd eq_refl ltac:(constructor) Hreg) as Hnd.
  apply (register_clusters_find _ _ protocol
    (namespace_of (max_namespace_length_ (global config)) key)) in Hreg as [Hs Hf]; [|constructor].
  cbn [sm_find] in Hf. rewrite Hc in Hf.
  unfold Locate. rewrite KeyNamespace_spec, bind_Ok_l, Hf by done.
  rewrite Hd, bind_Ok_l. cbv zeta. rewrite sm_find_emplace by done. reflexivity.
Qed.

(** A redis cluster for the namespaces [_] and [user], a memcached one for [_] *)
Definition routing_config : Config :=
  mkConfig (global default_config) (worker default_config)
    [mkCluster REDIS [str "_"; str "user"] sample_backends;
     mkCluster REDIS [str "user"] []; mkCluster MEMCACHED [str "_"] sample_backends] [] [].
Definition routing_locator : KeyLocator :=
  match KeyLocator_Initialize loopback routing_config [] with
  | Ok (kl, _) => kl
  | Fault _ => []
  end.

Lemma locate_routes_by_namespace_witness :
  exists kd, KeyDistributer_ctor loopback sample_backends = Ok kd /\
    Locate routing_config routing_locator (str "get user:1 " ++ []) 4 6 REDIS =
    Ok (LocateCacheNode kd (str "user:1"), routing_locator).
Proof.
  apply (locate_routes_by_namespace loopback routing_config routing_locator REDIS
           (mkCluster REDIS [str "_"; str "user"] sample_backends) (str "get ") (str "user:1") (str " "));
    [vm_compute; reflexivity|by_compute|by_compute|vm_compute; reflexivity].
Defined.

Lemma locate_unserved_namespace_is_null_witness :
  Locate routing_config routing_locator (str "get img:1 ") 4 5 REDIS = Fault NullDeref.
Proof.
  apply (locate_unserved_namespace_is_null loopback routing_config routing_locator REDIS
           (str "get ") (str "img:1") (str " "));
    [vm_compute; reflexivity|discriminate|by_compute|by_compute|vm_compute; reflexivity].
Defined.
