(* ===== verification/QueryParser.v ===== *)
(** * Parsing client queries

    The parts of [proxy/command.cc] and of the command classes that read a query
    without touching any other object: the command tables, the scans over a
    memcached command line, and the prefixes of the sub-queries an [MSET] or
    [DEL] is split into. *)

From S2P Require Import Prelude CString StdMap ErrorCode RedisProtocol.

(** ** Command names *)
Inductive RedisCommandType :=
| RCT_BASIC | RCT_SET | RCT_MSET | RCT_MGET | RCT_DEL | RCT_YARMSTATS | RCT_UNSUPPORTED.

Inductive MemcCommandType :=
| MCT_GET | MCT_SET | MCT_BASIC | MCT_YARMSTATS | MCT_UNSUPPORTED.

Fixpoint name_type {A} (name : bytes) (table : list (string * A)) (other : A) : A :=
  match table with
  | [] => other
  | (n, t) :: table' => if bool_decide (name = str n) then t else name_type name table' other
  end.

Definition redis_command_names : list (string * RedisCommandType) :=
  [("get", RCT_BASIC); ("getset", RCT_BASIC); ("getrange", RCT_BASIC); ("ttl", RCT_BASIC);
   ("incr", RCT_BASIC); ("incrby", RCT_BASIC); ("incrbyfloat", RCT_BASIC); ("decr", RCT_BASIC);
   ("decrby", RCT_BASIC); ("strlen", RCT_BASIC);
   ("set", RCT_SET); ("append", RCT_SET); ("setrange", RCT_SET); ("setnx", RCT_SET);
   ("psetex", RCT_SET); ("setex", RCT_SET);
   ("mset", RCT_MSET);
   ("mget", RCT_MGET);
   ("del", RCT_DEL); ("exists", RCT_DEL); ("touch", RCT_DEL);
   ("yarmstats", RCT_YARMSTATS)]%string.

Definition GetRedisCommandType (m : bytes) (bulk : Bulk) : result RedisCommandType :=
  cmd_name ← Bulk_payload m bulk;
  Ok (name_type (tolower <$> cmd_name) redis_command_names RCT_UNSUPPORTED).

Definition memc_command_names : list (string * MemcCommandType) :=
  [("get", MCT_GET); ("gets", MCT_GET);
   ("set", MCT_SET); ("add", MCT_SET); ("replace", MCT_SET); ("append", MCT_SET);
   ("prepend", MCT_SET); ("cas", MCT_SET);
   ("delete", MCT_BASIC); ("incr", MCT_BASIC); ("decr", MCT_BASIC); ("touch", MCT_BASIC);
   ("yarmstats", MCT_YARMSTATS)]%string.

Definition GetMemcCommandType (m : bytes) (cmd_line size : Z) : result MemcCommandType :=
  p ← memchr m cmd_line SP size;
  let n := match p with Some p => p - cmd_line | None => size end in
  name ← read_bytes m cmd_line n;
  Ok (name_type name memc_command_names MCT_UNSUPPORTED).

(** ** Scans over a command line

    [l] is the storage from [p] on; the loops of the source have no other bound. *)

(** [while( *p is not in stops) ++p] *)
Fixpoint scan_to (stops : list ascii) (l : bytes) (p : Z) : result Z :=
  match l with
  | [] => Fault OutOfBounds
  | c :: l' => if bool_decide (c ∈ stops) then Ok p else scan_to stops l' (p + 1)
  end.

(** The key of a storage or basic command: from after the first space, one byte
    long at least. *)
Definition memc_key (stops : list ascii) (m : bytes) (buf : Z) : result (Z * Z) :=
  sp ← scan_to [SP] (at_ptr m buf) buf;
  let p := sp + 1 in
  q ← scan_to stops (at_ptr m (p + 1)) (p + 1);
  Ok (p, q - p).

(** [while( *(p - 1) != ' ') --p] *)
Fixpoint back_to_space (fuel : nat) (m : bytes) (p : Z) : result Z :=
  c ← rd m (p - 1);
  if bool_decide (c = SP) then Ok p
  else match fuel with
       | O => Fault OutOfFuel
       | S fuel' => back_to_space fuel' m (p - 1)
       end.

(** [std::atoi(p) + 2] of the last field, as a [size_t] *)
Definition memc_body_bytes (m : bytes) (cmd_data cmd_len : Z) : result Z :=
  let p := cmd_data + cmd_len - 2 in
  p ← back_to_space (Z.to_nat p) m p;
  Ok (u64 (s32 (atoi (at_ptr m p) + 2))).

(** The keys of a [get]: the loop of [MemcGetCommand]'s constructor, each key as
    its offset and length.  Every turn advances by one byte at least. *)
Fixpoint memc_get_keys (fuel : nat) (m : bytes) (p limit : Z) : result (list (Z * Z)) :=
  if p <? limit then
    match fuel with
    | O => Fault OutOfFuel
    | S fuel' =>
        q ← scan_to [SP; CR] (at_ptr m p) p;
        rest ← memc_get_keys fuel' m (q + 1) limit;
        Ok ((p, q - p) :: rest)
    end
  else Ok [].

Definition MemcGet_keys (m : bytes) (cmd_data cmd_size : Z) : result (list (Z * Z)) :=
  memc_get_keys (Z.to_nat cmd_size) m (cmd_data + 4) (cmd_data + cmd_size - 2).

(** ** Prefixes of sub-queries

    The static caches of [RedisMsetPrefix] and [RedisDelPrefix]. *)
Definition prefix_cache : Type := smap Z bytes.

Definition initial_mset_cache : prefix_cache :=
  [(1, str "*3" ++ crlf ++ str "$4" ++ crlf ++ str "mset" ++ crlf);
   (2, str "*5" ++ crlf ++ str "$4" ++ crlf ++ str "mset" ++ crlf);
   (3, str "*7" ++ crlf ++ str "$4" ++ crlf ++ str "mset" ++ crlf);
   (4, str "*9" ++ crlf ++ str "$4" ++ crlf ++ str "mset" ++ crlf)].

Definition RedisMsetPrefix (keys_count : Z) (cache : prefix_cache) : bytes * prefix_cache :=
  match sm_find keys_count cache with
  | Some s => (s, cache)
  | None =>
      let s := str "*" ++ dec (u64 (keys_count * 2 + 1)) ++ crlf ++ str "$4" ++ crlf ++ str "mset" ++ crlf in
      (s, sm_emplace keys_count s cache)
  end.

Record DelCaches := mkDelCaches {
  del_prefix_cache : prefix_cache;
  exists_prefix_cache : prefix_cache;
  touch_prefix_cache : prefix_cache
}.

Definition initial_del_caches : DelCaches :=
  mkDelCaches
    [(1, str "*2" ++ crlf ++ str "$3" ++ crlf ++ str "del" ++ crlf);
     (2, str "*3" ++ crlf ++ str "$3" ++ crlf ++ str "del" ++ crlf);
     (3, str "*4" ++ crlf ++ str "$3" ++ crlf ++ str "del" ++ crlf);
     (4, str "*5" ++ crlf ++ str "$3" ++ crlf ++ str "del" ++ crlf)] [] [].

Definition cached_del_prefix (cmd_name : bytes) (keys_count : Z) (cache : prefix_cache)
    : bytes * prefix_cache :=
  match sm_find keys_count cache with
  | Some s => (s, cache)
  | None =>
      let s := str "*" ++ dec (u64 (keys_count + 1)) ++ crlf ++ str "$" ++ dec (zlen cmd_name) ++
               crlf ++ cmd_name ++ crlf in
      (s, sm_emplace keys_count s cache)
  end.

Definition RedisDelPrefix (cmd_name : bytes) (keys_count : Z) (c : DelCaches)
    : result (bytes * DelCaches) :=
  if bool_decide (cmd_name = str "del") then
    let '(s, cache) := cached_del_prefix cmd_name keys_count (del_prefix_cache c) in
    Ok (s, mkDelCaches cache (exists_prefix_cache c) (touch_prefix_cache c))
  else if bool_decide (cmd_name = str "exists") then
    let '(s, cache) := cached_del_prefix cmd_name keys_count (exists_prefix_cache c) in
    Ok (s, mkDelCaches (del_prefix_cache c) cache (touch_prefix_cache c))
  else if bool_decide (cmd_name = str "touch") then
    let '(s, cache) := cached_del_prefix cmd_name keys_count (touch_prefix_cache c) in
    Ok (s, mkDelCaches (del_prefix_cache c) (exists_prefix_cache c) cache)
  else Fault AssertFailed.
