(* ===== verification/BackendConn.v ===== *)
(** * The connection to a backend

    [proxy/backend_conn.h] and the synchronous members of
    [proxy/backend_conn.cc]: the flags and the reply buffer of one connection.
    The members that start asynchronous operations and the handlers of their
    completion are in [ConnIO] and [Worker]. *)

From S2P Require Import Prelude CString ErrorCode ReadBuffer KeyDistributer.

(** [slab_] is the address of the storage of [buffer_], which goes back to the
    allocator.  Both callbacks are bound by [Command::WeakBind] to the command
    that uses the connection: [callback_] is the identity of that command. *)
Record BackendConn := mkBackendConn {
  buffer_ : ReadBuffer;
  slab_ : Z;
  remote_endpoint_ : Endpoint;
  socket_open_ : bool;
  callback_ : option Z;
  no_recycle_ : bool;
  aborted_ : bool;
  is_reading_reply_ : bool;
  has_read_some_reply_ : bool;
  reply_recv_complete_ : bool;
  write_timer_canceled_ : bool;
  read_timer_canceled_ : bool
}.

Module BC.

Definition set_buffer (x : ReadBuffer) (b : BackendConn) : BackendConn :=
  mkBackendConn x (slab_ b) (remote_endpoint_ b) (socket_open_ b) (callback_ b) (no_recycle_ b) (aborted_ b) (is_reading_reply_ b) (has_read_some_reply_ b) (reply_recv_complete_ b) (write_timer_canceled_ b) (read_timer_canceled_ b).
Definition set_socket_open (x : bool) (b : BackendConn) : BackendConn :=
  mkBackendConn (buffer_ b) (slab_ b) (remote_endpoint_ b) x (callback_ b) (no_recycle_ b) (aborted_ b) (is_reading_reply_ b) (has_read_some_reply_ b) (reply_recv_complete_ b) (write_timer_canceled_ b) (read_timer_canceled_ b).
Definition set_callback (x : option Z) (b : BackendConn) : BackendConn :=
  mkBackendConn (buffer_ b) (slab_ b) (remote_endpoint_ b) (socket_open_ b) x (no_recycle_ b) (aborted_ b) (is_reading_reply_ b) (has_read_some_reply_ b) (reply_recv_complete_ b) (write_timer_canceled_ b) (read_timer_canceled_ b).
Definition set_aborted (x : bool) (b : BackendConn) : BackendConn :=
  mkBackendConn (buffer_ b) (slab_ b) (remote_endpoint_ b) (socket_open_ b) (callback_ b) (no_recycle_ b) x (is_reading_reply_ b) (has_read_some_reply_ b) (reply_recv_complete_ b) (write_timer_canceled_ b) (read_timer_canceled_ b).
Definition set_no_recycle (b : BackendConn) : BackendConn :=
  mkBackendConn (buffer_ b) (slab_ b) (remote_endpoint_ b) (socket_open_ b) (callback_ b) true (aborted_ b) (is_reading_reply_ b) (has_read_some_reply_ b) (reply_recv_complete_ b) (write_timer_canceled_ b) (read_timer_canceled_ b).
Definition set_is_reading_reply (x : bool) (b : BackendConn) : BackendConn :=
  mkBackendConn (buffer_ b) (slab_ b) (remote_endpoint_ b) (socket_open_ b) (callback_ b) (no_recycle_ b) (aborted_ b) x (has_read_some_reply_ b) (reply_recv_complete_ b) (write_timer_canceled_ b) (read_timer_canceled_ b).
Definition set_has_read_some_reply (x : bool) (b : BackendConn) : BackendConn :=
  mkBackendConn (buffer_ b) (slab_ b) (remote_endpoint_ b) (socket_open_ b) (callback_ b) (no_recycle_ b) (aborted_ b) (is_reading_reply_ b) x (reply_recv_complete_ b) (write_timer_canceled_ b) (read_timer_canceled_ b).
Definition set_reply_recv_complete (b : BackendConn) : BackendConn :=
  mkBackendConn (buffer_ b) (slab_ b) (remote_endpoint_ b) (socket_open_ b) (callback_ b) (no_recycle_ b) (aborted_ b) (is_reading_reply_ b) (has_read_some_reply_ b) true (write_timer_canceled_ b) (read_timer_canceled_ b).
Definition set_write_timer_canceled (x : bool) (b : BackendConn) : BackendConn :=
  mkBackendConn (buffer_ b) (slab_ b) (remote_endpoint_ b) (socket_open_ b) (callback_ b) (no_recycle_ b) (aborted_ b) (is_reading_reply_ b) (has_read_some_reply_ b) (reply_recv_complete_ b) x (read_timer_canceled_ b).
Definition set_read_timer_canceled (x : bool) (b : BackendConn) : BackendConn :=
  mkBackendConn (buffer_ b) (slab_ b) (remote_endpoint_ b) (socket_open_ b) (callback_ b) (no_recycle_ b) (aborted_ b) (is_reading_reply_ b) (has_read_some_reply_ b) (reply_recv_complete_ b) (write_timer_canceled_ b) x.

(** The constructor, over a slab of the allocator *)
Definition ctor (slab : Z) (storage : bytes) (buffer_size : Z) (endpoint : Endpoint) : BackendConn :=
  mkBackendConn (RB.ctor storage buffer_size) slab endpoint false None
    false false false false false false false.

Definition finished (b : BackendConn) : bool :=
  reply_recv_complete_ b && (RB.unprocessed_bytes (buffer_ b) =? 0).
Definition recyclable (b : BackendConn) : bool := negb (no_recycle_ b) && finished b.
Definition error (b : BackendConn) : bool := no_recycle_ b.

Definition Close (b : BackendConn) : BackendConn :=
  if aborted_ b then b else set_aborted true (set_socket_open false b).

(** The members [Abort] assigns; the timers it cancels are in [ConnIO]. *)
Definition Abort_flags (b : BackendConn) : BackendConn :=
  mkBackendConn (buffer_ b) (slab_ b) (remote_endpoint_ b) false (callback_ b) true true false
    (has_read_some_reply_ b) (reply_recv_complete_ b) true true.

Definition SetReplyData (data : bytes) (parsed : bool) (b : BackendConn) : result BackendConn :=
  buf ← RB.push_reply_data (RB.Reset (buffer_ b)) data parsed;
  Ok (set_buffer buf b).

Definition Reset (b : BackendConn) : result BackendConn :=
  _ ← res_assert (negb (no_recycle_ b));
  Ok (mkBackendConn (RB.Reset (buffer_ b)) (slab_ b) (remote_endpoint_ b) (socket_open_ b)
        (callback_ b) (no_recycle_ b) (aborted_ b) false false false false false).

End BC.
