(* ===== verification/ReplyParser.v ===== *)
(** * Parsing the replies of backends

    [Command::ParseRedisSimpleReply] and [Command::ParseMemcSimpleReply]
    ([proxy/command.cc]) and the overriders of [Command::ParseReply] in
    [proxy/memc_get_command.cc], [proxy/redis_del_command.cc] and
    [proxy/redis_mget_command.cc].  Each works on the backend's buffer and flags
    and on the members of the command it uses, and returns [false] on data it
    rejects. *)

From S2P Require Import Prelude CString ErrorCode ReadBuffer RedisProtocol KeyDistributer.
From S2P Require Import BackendConn.

Definition parsed (n : Z) (b : BackendConn) : BackendConn :=
  BC.set_buffer (RB.update_parsed_bytes (buffer_ b) n) b.

Definition storage (b : BackendConn) : bytes := data_ (buffer_ b).

(** [a && b()] *)
Definition and_then (a : bool) (b : result bool) : result bool := if a then b else Ok false.

Definition ParseRedisSimpleReply (b : BackendConn) : result (bool * BackendConn) :=
  let unparsed_bytes := RB.unparsed_bytes (buffer_ b) in
  if unparsed_bytes =? 0 then
    Ok (true, if RB.parsed_unreceived_bytes (buffer_ b) =? 0
              then BC.set_reply_recv_complete b else b)
  else
    let entry := RB.unparsed_data (buffer_ b) in
    c ← rd (storage b) entry;
    if bool_decide (c ∉ [":"%char; "+"%char; "-"%char; "$"%char]) then Ok (false, b) else
    p ← memchr (storage b) entry LF unparsed_bytes;
    match p with
    | None => Ok (true, b)
    | Some p =>
        if bool_decide (c = "$"%char) then
          bulk ← Bulk_ctor (storage b) entry unparsed_bytes;
          if present_size_ bulk <? 0 then Ok (false, b)
          else if present_size_ bulk =? 0 then Ok (true, b)
          else
            completed ← Bulk_completed (storage b) bulk;
            total ← Bulk_total_size (storage b) bulk;
            Ok (true, parsed total (if completed : bool then BC.set_reply_recv_complete b else b))
        else Ok (true, parsed (p - entry + 1) (BC.set_reply_recv_complete b))
    end.

Definition ParseMemcSimpleReply (b : BackendConn) : result (bool * BackendConn) :=
  let entry := RB.unparsed_data (buffer_ b) in
  p ← memchr (storage b) entry LF (RB.unparsed_bytes (buffer_ b));
  Ok (true, match p with
            | Some p => BC.set_reply_recv_complete (parsed (p - entry + 1) b)
            | None => b
            end).

(** [Command::ParseReply] *)
Definition ParseSimpleReply (protocol : ProtocolType) (b : BackendConn) : result (bool * BackendConn) :=
  if bool_decide (protocol = REDIS) then ParseRedisSimpleReply b else ParseMemcSimpleReply b.

(** ** [MemcGetCommand::ParseReply] *)

(** [while(p != end)]: [l] is the storage from [p] on; a [p] past [end] is never
    equal to it. *)
Fixpoint body_size_loop (l : bytes) (p end_ count : Z) : result Z :=
  if p =? end_ then Ok 0
  else match l with
       | [] => Fault OutOfBounds
       | c :: l' =>
           if bool_decide (c = SP) then
             if count + 1 =? 2
             then s ← c_string l'; v ← of_option StdException (stoi s); Ok (u64 v)
             else body_size_loop l' (p + 1) end_ (count + 1)
           else body_size_loop l' (p + 1) end_ count
       end.

(** [sizeof("VALUE ")] counts the terminating NUL. *)
Definition ParseReplyBodySize (m : bytes) (data end_ : Z) : result Z :=
  body_size_loop (at_ptr m (data + 7)) (data + 7) end_ 0.

Definition END_RN : bytes := str "END" ++ crlf.

(** [is_last] is [backend == last_backend_].  A turn that goes on parses at least
    three bytes if the announced size is not negative; then the received bytes
    bound the turns. *)
Fixpoint memc_get_loop (fuel : nat) (is_last : bool) (b : BackendConn) : result (bool * BackendConn) :=
  let unparsed_bytes := RB.unparsed_bytes (buffer_ b) in
  if unparsed_bytes =? 0 then Ok (true, b) else
  match fuel with
  | O => Fault OutOfFuel
  | S fuel' =>
      let entry := RB.unparsed_data (buffer_ b) in
      p ← memchr (storage b) entry LF unparsed_bytes;
      match p with
      | None => Ok (true, b)
      | Some p =>
          c ← rd (storage b) entry;
          if bool_decide (c = "V"%char) then
            body_bytes ← ParseReplyBodySize (storage b) entry p;
            memc_get_loop fuel' is_last (parsed (u64 (p - entry + 1 + body_bytes + 2)) b)
          else
            is_end ← strncmp_eq (at_ptr (storage b) entry) END_RN 5;
            if is_end && (unparsed_bytes =? 5) then
              let b := BC.set_reply_recv_complete b in
              Ok (true, if is_last : bool then parsed 5 b
                        else BC.set_buffer (RB.cut_received_tail (buffer_ b) 5) b)
            else Ok (false, b)
      end
  end.

Definition MemcGet_ParseReply (is_last : bool) (b : BackendConn) : result (bool * BackendConn) :=
  memc_get_loop (S (Z.to_nat (RB.unparsed_bytes (buffer_ b)))) is_last b.

(** ** [RedisDelCommand::ParseReply] *)
Definition RedisDel_ParseReply (total_del_count : Z) (b : BackendConn) : result (bool * Z * BackendConn) :=
  let unparsed := RB.unparsed_bytes (buffer_ b) in
  _ ← res_assert (0 <? unparsed);
  let entry := RB.unparsed_data (buffer_ b) in
  c ← rd (storage b) entry;
  if bool_decide (c <> ":"%char) then Ok (false, total_del_count, b) else
  p ← memchr (storage b) entry LF unparsed;
  match p with
  | None => Ok (true, total_del_count, b)
  | Some p =>
      s ← c_string (at_ptr (storage b) (entry + 1));
      match stoi s with
      | None => Ok (false, total_del_count, b)
      | Some del_count =>
          Ok (true, s32 (total_del_count + del_count),
              BC.set_reply_recv_complete (parsed (p - entry + 1) b))
      end
  end.

(** ** [RedisMgetCommand::ParseReply] *)

(** What the function reads and writes: the backend, [reply_absent_bulks_] of its
    subquery and the count at the front of [waiting_reply_queue_]. *)
Record MgetParse := mkMgetParse { mp_backend : BackendConn; mp_absent : Z; mp_front : option Z }.

Definition mp_parsed (n : Z) (s : MgetParse) : MgetParse :=
  mkMgetParse (parsed n (mp_backend s)) (mp_absent s) (mp_front s).
Definition mp_set_absent (n : Z) (s : MgetParse) : MgetParse :=
  mkMgetParse (mp_backend s) n (mp_front s).
Definition mp_complete (s : MgetParse) : MgetParse :=
  mkMgetParse (BC.set_reply_recv_complete (mp_backend s)) (mp_absent s) (mp_front s).

(** One bulk of the reply: [None] when there is not enough data, [Some false] on
    an error, [Some true] when it was taken. *)
Definition mget_take_bulk (s : MgetParse) : result (option bool * MgetParse) :=
  let buf := buffer_ (mp_backend s) in
  let m := data_ buf in
  let entry := RB.unparsed_data buf in
  let unparsed_bytes := RB.unparsed_bytes buf in
  if mp_absent s =? 0 then
    bulk_array ← BulkArray_ctor m entry unparsed_bytes;
    if BulkArray_parsed_size bulk_array <? 0 then Ok (Some false, s)
    else if (BulkArray_parsed_size bulk_array =? 0) || (BulkArray_present_bulks bulk_array =? 0)
    then Ok (None, s)
    else
      first ← BulkArray_at bulk_array 0;
      size ← Bulk_total_size m first;
      let prefix := raw_data_ first - entry in
      let s := mp_parsed (prefix + size) s in
      let s := mkMgetParse
        (BC.set_buffer (RB.update_processed_offset (buffer_ (mp_backend s)) prefix) (mp_backend s))
        (mp_absent s) (mp_front s) in
      total_bulks ← BulkArray_total_bulks m bulk_array;
      if total_bulks =? 0 then Ok (Some false, s)
      else
        let s := mp_set_absent (total_bulks - 1) s in
        complete ← and_then (mp_absent s =? 0) (BulkArray_completed m bulk_array);
        Ok (Some true, if complete : bool then mp_complete s else s)
  else
    bulk ← Bulk_ctor m entry unparsed_bytes;
    if present_size_ bulk <? 0 then Ok (Some false, s)
    else if present_size_ bulk =? 0 then Ok (None, s)
    else
      size ← Bulk_total_size m bulk;
      let s := mp_set_absent (mp_absent s - 1) (mp_parsed size s) in
      complete ← and_then (mp_absent s =? 0) (Bulk_completed m bulk);
      Ok (Some true, if complete : bool then mp_complete s else s).

(** A turn that goes on takes one of the bulks counted at the front of the queue. *)
Fixpoint mget_loop (fuel : nat) (s : MgetParse) : result (bool * MgetParse) :=
  if RB.unparsed_bytes (buffer_ (mp_backend s)) =? 0 then Ok (true, s) else
  match fuel with
  | O => Fault OutOfFuel
  | S fuel' =>
      r ← mget_take_bulk s;
      match r with
      | (None, s) => Ok (true, s)
      | (Some false, s) => Ok (false, s)
      | (Some true, s) =>
          count ← of_option NullDeref (mp_front s);
          _ ← res_assert (0 <? count);
          let s := mkMgetParse (mp_backend s) (mp_absent s) (Some (count - 1)) in
          if count - 1 =? 0 then Ok (true, s) else mget_loop fuel' s
      end
  end.

Definition RedisMget_ParseReply (s : MgetParse) : result (bool * MgetParse) :=
  let buf := buffer_ (mp_backend s) in
  if 0 <? RB.unprocessed_bytes buf then
    Ok (true, if (RB.parsed_unreceived_bytes buf =? 0) && (mp_absent s =? 0)
              then mp_complete s else s)
  else mget_loop (S (Z.to_nat (default 0 (mp_front s)))) s.

(** [ErrorReplyBody] *)
Definition ErrorReplyBody (keys : Z) : bytes :=
  str "*" ++ dec keys ++ crlf ++ concat (replicate (Z.to_nat keys) nil_bulk).
