(* ===== verification/World.v ===== *)
(** * The state of one worker thread

    A worker runs one [io_context] on one thread: everything below happens in
    the handlers it calls, one at a time.  The state consists of the
    [WorkerContext] (allocator, key locator, backend pool), the objects on the
    heap (clients, commands, backend connections), the asynchronous operations
    and timers that are outstanding, and the local variables that hold a
    [std::shared_ptr].

    An object is named by the integer under which it is stored; the order of
    these stands for the order of addresses in a [std::map] keyed by pointers.
    A [std::weak_ptr] to an object that is gone locks to nothing. *)

From S2P Require Import Prelude CString StdMap ErrorCode ReadBuffer Allocator Config.
From S2P Require Import KeyDistributer KeyLocator BackendConn RedisProtocol QueryParser.

(** ** Objects *)

(** A pointer to bytes to be written to a socket: into a client's buffer, into a
    backend's buffer, or to a string that does not change. *)
Inductive source :=
| InClient (client : Z) (offset : Z)
| InBackend (backend : Z) (offset : Z)
| Constant (s : bytes).

Definition source_add (p : source) (n : Z) : source :=
  match p with
  | InClient c o => InClient c (o + n)
  | InBackend b o => InBackend b (o + n)
  | Constant s => Constant (drop (Z.to_nat n) s)
  end.

Definition segment : Type := source * Z.

(** [MemcGetCommand::Subquery] *)
Record GetSubquery := mkGetSubquery { gs_backend : Z; gs_segments : list segment }.

(** [RedisMgetCommand::Subquery] *)
Record MgetSubquery := mkMgetSubquery {
  ms_backend : Z;
  key_count_ : Z;
  query_prefix_ : bytes;
  ms_segments : list segment;
  reply_absent_bulks_ : Z
}.

(** [RedisDelCommand::Subquery] *)
Record DelSubquery := mkDelSubquery {
  ds_backend : Z;
  ds_keys_count : Z;
  ds_phase : Z;
  ds_segments : list segment
}.

(** [RedisMsetCommand::Subquery] *)
Inductive Phase := INIT_SEND_QUERY | SENDING_MORE_QUERY | READING_MORE_QUERY | READING_REPLY.

#[global] Instance Phase_eq_dec : EqDecision Phase.
Proof. solve_decision. Defined.

Record MsetSubquery := mkMsetSubquery {
  ts_backend : Z;
  ts_keys_count : Z;
  ts_phase : Phase;
  ts_query_recv_complete : bool;
  ts_segments : list segment
}.

Record MemcGet := mkMemcGet {
  mg_subqueries : smap Endpoint GetSubquery;
  mg_waiting_reply_queue : list Z;
  last_backend_ : option Z;
  completed_backends_ : Z;
  received_reply_backends_ : list Z
}.

Record RedisMget := mkRedisMget {
  reply_prefix_ : bytes;
  rm_subqueries : smap Endpoint MgetSubquery;
  rm_waiting_reply_queue : list (Z * Z)
}.

Record RedisDel := mkRedisDel {
  cmd_name_ : bytes;
  rd_unparsed_bulks : Z;
  rd_waiting_subqueries : smap Endpoint DelSubquery;
  rd_pending_subqueries : smap Z DelSubquery;
  total_del_count_ : Z
}.

(** The subqueries of an [MSET] are shared between the two maps and
    [tail_query_]: they are stored in [subquery_store_], and the maps and the
    pointer hold their indices. *)
Record RedisMset := mkRedisMset {
  rs_unparsed_bulks : Z;
  subquery_store_ : list MsetSubquery;
  rs_waiting_subqueries : smap Endpoint nat;
  rs_pending_subqueries : smap Z nat;
  tail_query_ : option nat
}.

Inductive CommandState :=
| CRedisBasic
| CMemcBasic
| CRedisSet (unparsed_bulks : Z) (query_recv_complete : bool)
| CMemcSet (query_recv_complete : bool)
| CError (reply_message : bytes)
| CStats (reply_message : bytes)
| CMemcGet (s : MemcGet)
| CRedisMget (s : RedisMget)
| CRedisDel (s : RedisDel)
| CRedisMset (s : RedisMset).

Record Command := mkCommand {
  client_conn_ : Z;
  cmd_protocol_ : ProtocolType;
  replying_backend_ : option Z;
  has_written_some_reply_ : bool;
  cmd_is_writing_reply_ : bool;
  command_state : CommandState
}.

Record ClientConnection := mkClientConnection {
  cl_buffer_ : ReadBuffer;
  cl_slab_ : Z;
  cl_socket_open_ : bool;
  active_cmd_queue_ : list Z;
  is_reading_query_ : bool;
  cl_is_writing_reply_ : bool;
  cl_aborted_ : bool
}.

(** ** Operations in flight

    What was passed to [async_accept], [async_read_some], [async_write],
    [async_connect] and [post], with the arguments bound to the completion handler.  The callback of
    [WriteReply] is a [WeakBind]: a command, and the backend or [nullptr]. *)
Inductive io_op :=
| ClientAccept (client : Z)
| ClientRead (client : Z) (offset size : Z)
| ClientWrite (client : Z) (data : source) (bytes : Z) (command : Z) (backend : option Z)
| BackendConnect (backend : Z) (data : source) (bytes : Z)
| BackendWrite (backend : Z) (data : source) (bytes : Z)
| BackendRead (backend : Z) (offset size : Z)
| PostedWriteError (backend : Z).

Inductive timer :=
| ClientReadTimer (client : Z)
| ClientWriteTimer (client : Z)
| BackendReadTimer (backend : Z)
| BackendWriteTimer (backend : Z).

#[global] Instance timer_eq_dec : EqDecision timer.
Proof. solve_decision. Defined.

(** [g_stats_] *)
Record Stats := mkStats {
  alive_since_ : Z;
  client_conns_ : Z;
  backend_conns_ : Z;
  bytes_from_clients_ : Z;
  bytes_to_clients_ : Z;
  bytes_from_backends_ : Z;
  bytes_to_backends_ : Z;
  client_read_timeouts_ : Z;
  client_write_timeouts_ : Z;
  backend_connect_errors_ : Z;
  backend_connect_timeouts_ : Z;
  backend_read_timeouts_ : Z;
  backend_write_timeouts_ : Z
}.

(** ** The state *)

(** A [std::shared_ptr] held by a local variable or by a handler's arguments. *)
Inductive holder := HoldClient (c : Z) | HoldCommand (c : Z) | HoldBackend (b : Z).

#[global] Instance holder_eq_dec : EqDecision holder.
Proof. solve_decision. Defined.

(** What a completed write handed to a socket *)
Inductive output := ToClient (client : Z) (bs : bytes) | ToBackend (backend : Z) (bs : bytes).

Record World := mkWorld {
  config : Config;
  allocator_ : Allocator;
  heap_next : Z;                 (** where [operator new] places the next block *)
  uninit : Z -> Z -> ascii;      (** what storage holds, at an address, when it is handed out for an object *)
  key_locator_ : option KeyLocator;
  conn_map_ : smap Endpoint (list Z);
  active_conns_ : smap Z Endpoint;
  stats : Stats;
  mset_prefix_cache : prefix_cache;
  del_prefix_caches : DelCaches;
  next_id : Z;
  clients : gmap Z ClientConnection;
  commands : gmap Z Command;
  backends : gmap Z BackendConn;
  in_flight : list io_op;
  armed : list (timer * ErrorCode);      (** timers that run *)
  expired : list (timer * ErrorCode);    (** whose handler is queued *)
  holders : list holder;
  trace : list output
}.

Definition w_allocator (x : Allocator) (r : World) : World :=
  mkWorld (config r) x (heap_next r) (uninit r) (key_locator_ r) (conn_map_ r) (active_conns_ r) (stats r) (mset_prefix_cache r) (del_prefix_caches r) (next_id r) (clients r) (commands r) (backends r) (in_flight r) (armed r) (expired r) (holders r) (trace r).
Definition w_heap_next (x : Z) (r : World) : World :=
  mkWorld (config r) (allocator_ r) x (uninit r) (key_locator_ r) (conn_map_ r) (active_conns_ r) (stats r) (mset_prefix_cache r) (del_prefix_caches r) (next_id r) (clients r) (commands r) (backends r) (in_flight r) (armed r) (expired r) (holders r) (trace r).
Definition w_key_locator (x : option KeyLocator) (r : World) : World :=
  mkWorld (config r) (allocator_ r) (heap_next r) (uninit r) x (conn_map_ r) (active_conns_ r) (stats r) (mset_prefix_cache r) (del_prefix_caches r) (next_id r) (clients r) (commands r) (backends r) (in_flight r) (armed r) (expired r) (holders r) (trace r).
Definition w_conn_map (x : smap Endpoint (list Z)) (r : World) : World :=
  mkWorld (config r) (allocator_ r) (heap_next r) (uninit r) (key_locator_ r) x (active_conns_ r) (stats r) (mset_prefix_cache r) (del_prefix_caches r) (next_id r) (clients r) (commands r) (backends r) (in_flight r) (armed r) (expired r) (holders r) (trace r).
Definition w_active_conns (x : smap Z Endpoint) (r : World) : World :=
  mkWorld (config r) (allocator_ r) (heap_next r) (uninit r) (key_locator_ r) (conn_map_ r) x (stats r) (mset_prefix_cache r) (del_prefix_caches r) (next_id r) (clients r) (commands r) (backends r) (in_flight r) (armed r) (expired r) (holders r) (trace r).
Definition w_stats (x : Stats) (r : World) : World :=
  mkWorld (config r) (allocator_ r) (heap_next r) (uninit r) (key_locator_ r) (conn_map_ r) (active_conns_ r) x (mset_prefix_cache r) (del_prefix_caches r) (next_id r) (clients r) (commands r) (backends r) (in_flight r) (armed r) (expired r) (holders r) (trace r).
Definition w_mset_prefix_cache (x : prefix_cache) (r : World) : World :=
  mkWorld (config r) (allocator_ r) (heap_next r) (uninit r) (key_locator_ r) (conn_map_ r) (active_conns_ r) (stats r) x (del_prefix_caches r) (next_id r) (clients r) (commands r) (backends r) (in_flight r) (armed r) (expired r) (holders r) (trace r).
Definition w_del_prefix_caches (x : DelCaches) (r : World) : World :=
  mkWorld (config r) (allocator_ r) (heap_next r) (uninit r) (key_locator_ r) (conn_map_ r) (active_conns_ r) (stats r) (mset_prefix_cache r) x (next_id r) (clients r) (commands r) (backends r) (in_flight r) (armed r) (expired r) (holders r) (trace r).
Definition w_next_id (x : Z) (r : World) : World :=
  mkWorld (config r) (allocator_ r) (heap_next r) (uninit r) (key_locator_ r) (conn_map_ r) (active_conns_ r) (stats r) (mset_prefix_cache r) (del_prefix_caches r) x (clients r) (commands r) (backends r) (in_flight r) (armed r) (expired r) (holders r) (trace r).
Definition w_clients (x : gmap Z ClientConnection) (r : World) : World :=
  mkWorld (config r) (allocator_ r) (heap_next r) (uninit r) (key_locator_ r) (conn_map_ r) (active_conns_ r) (stats r) (mset_prefix_cache r) (del_prefix_caches r) (next_id r) x (commands r) (backends r) (in_flight r) (armed r) (expired r) (holders r) (trace r).
Definition w_commands (x : gmap Z Command) (r : World) : World :=
  mkWorld (config r) (allocator_ r) (heap_next r) (uninit r) (key_locator_ r) (conn_map_ r) (active_conns_ r) (stats r) (mset_prefix_cache r) (del_prefix_caches r) (next_id r) (clients r) x (backends r) (in_flight r) (armed r) (expired r) (holders r) (trace r).
Definition w_backends (x : gmap Z BackendConn) (r : World) : World :=
  mkWorld (config r) (allocator_ r) (heap_next r) (uninit r) (key_locator_ r) (conn_map_ r) (active_conns_ r) (stats r) (mset_prefix_cache r) (del_prefix_caches r) (next_id r) (clients r) (commands r) x (in_flight r) (armed r) (expired r) (holders r) (trace r).
Definition w_in_flight (x : list io_op) (r : World) : World :=
  mkWorld (config r) (allocator_ r) (heap_next r) (uninit r) (key_locator_ r) (conn_map_ r) (active_conns_ r) (stats r) (mset_prefix_cache r) (del_prefix_caches r) (next_id r) (clients r) (commands r) (backends r) x (armed r) (expired r) (holders r) (trace r).
Definition w_armed (x : list (timer * ErrorCode)) (r : World) : World :=
  mkWorld (config r) (allocator_ r) (heap_next r) (uninit r) (key_locator_ r) (conn_map_ r) (active_conns_ r) (stats r) (mset_prefix_cache r) (del_prefix_caches r) (next_id r) (clients r) (commands r) (backends r) (in_flight r) x (expired r) (holders r) (trace r).
Definition w_expired (x : list (timer * ErrorCode)) (r : World) : World :=
  mkWorld (config r) (allocator_ r) (heap_next r) (uninit r) (key_locator_ r) (conn_map_ r) (active_conns_ r) (stats r) (mset_prefix_cache r) (del_prefix_caches r) (next_id r) (clients r) (commands r) (backends r) (in_flight r) (armed r) x (holders r) (trace r).
Definition w_holders (x : list holder) (r : World) : World :=
  mkWorld (config r) (allocator_ r) (heap_next r) (uninit r) (key_locator_ r) (conn_map_ r) (active_conns_ r) (stats r) (mset_prefix_cache r) (del_prefix_caches r) (next_id r) (clients r) (commands r) (backends r) (in_flight r) (armed r) (expired r) x (trace r).
Definition w_trace (x : list output) (r : World) : World :=
  mkWorld (config r) (allocator_ r) (heap_next r) (uninit r) (key_locator_ r) (conn_map_ r) (active_conns_ r) (stats r) (mset_prefix_cache r) (del_prefix_caches r) (next_id r) (clients r) (commands r) (backends r) (in_flight r) (armed r) (expired r) (holders r) x.

Definition c_replying_backend (x : option Z) (r : Command) : Command :=
  mkCommand (client_conn_ r) (cmd_protocol_ r) x (has_written_some_reply_ r) (cmd_is_writing_reply_ r) (command_state r).
Definition c_has_written_some_reply (x : bool) (r : Command) : Command :=
  mkCommand (client_conn_ r) (cmd_protocol_ r) (replying_backend_ r) x (cmd_is_writing_reply_ r) (command_state r).
Definition c_cmd_is_writing_reply (x : bool) (r : Command) : Command :=
  mkCommand (client_conn_ r) (cmd_protocol_ r) (replying_backend_ r) (has_written_some_reply_ r) x (command_state r).
Definition c_command_state (x : CommandState) (r : Command) : Command :=
  mkCommand (client_conn_ r) (cmd_protocol_ r) (replying_backend_ r) (has_written_some_reply_ r) (cmd_is_writing_reply_ r) x.

Definition l_buffer (x : ReadBuffer) (r : ClientConnection) : ClientConnection :=
  mkClientConnection x (cl_slab_ r) (cl_socket_open_ r) (active_cmd_queue_ r) (is_reading_query_ r) (cl_is_writing_reply_ r) (cl_aborted_ r).
Definition l_socket_open (x : bool) (r : ClientConnection) : ClientConnection :=
  mkClientConnection (cl_buffer_ r) (cl_slab_ r) x (active_cmd_queue_ r) (is_reading_query_ r) (cl_is_writing_reply_ r) (cl_aborted_ r).
Definition l_active_cmd_queue (x : list Z) (r : ClientConnection) : ClientConnection :=
  mkClientConnection (cl_buffer_ r) (cl_slab_ r) (cl_socket_open_ r) x (is_reading_query_ r) (cl_is_writing_reply_ r) (cl_aborted_ r).
Definition l_is_reading_query (x : bool) (r : ClientConnection) : ClientConnection :=
  mkClientConnection (cl_buffer_ r) (cl_slab_ r) (cl_socket_open_ r) (active_cmd_queue_ r) x (cl_is_writing_reply_ r) (cl_aborted_ r).
Definition l_is_writing_reply (x : bool) (r : ClientConnection) : ClientConnection :=
  mkClientConnection (cl_buffer_ r) (cl_slab_ r) (cl_socket_open_ r) (active_cmd_queue_ r) (is_reading_query_ r) x (cl_aborted_ r).
Definition l_aborted (x : bool) (r : ClientConnection) : ClientConnection :=
  mkClientConnection (cl_buffer_ r) (cl_slab_ r) (cl_socket_open_ r) (active_cmd_queue_ r) (is_reading_query_ r) (cl_is_writing_reply_ r) x.

Definition add_client_conns (n : Z) (s : Stats) : Stats :=
  mkStats (alive_since_ s) (client_conns_ s + n) (backend_conns_ s) (bytes_from_clients_ s) (bytes_to_clients_ s) (bytes_from_backends_ s) (bytes_to_backends_ s) (client_read_timeouts_ s) (client_write_timeouts_ s) (backend_connect_errors_ s) (backend_connect_timeouts_ s) (backend_read_timeouts_ s) (backend_write_timeouts_ s).
Definition add_backend_conns (n : Z) (s : Stats) : Stats :=
  mkStats (alive_since_ s) (client_conns_ s) (backend_conns_ s + n) (bytes_from_clients_ s) (bytes_to_clients_ s) (bytes_from_backends_ s) (bytes_to_backends_ s) (client_read_timeouts_ s) (client_write_timeouts_ s) (backend_connect_errors_ s) (backend_connect_timeouts_ s) (backend_read_timeouts_ s) (backend_write_timeouts_ s).
Definition add_bytes_from_clients (n : Z) (s : Stats) : Stats :=
  mkStats (alive_since_ s) (client_conns_ s) (backend_conns_ s) (bytes_from_clients_ s + n) (bytes_to_clients_ s) (bytes_from_backends_ s) (bytes_to_backends_ s) (client_read_timeouts_ s) (client_write_timeouts_ s) (backend_connect_errors_ s) (backend_connect_timeouts_ s) (backend_read_timeouts_ s) (backend_write_timeouts_ s).
Definition add_bytes_to_clients (n : Z) (s : Stats) : Stats :=
  mkStats (alive_since_ s) (client_conns_ s) (backend_conns_ s) (bytes_from_clients_ s) (bytes_to_clients_ s + n) (bytes_from_backends_ s) (bytes_to_backends_ s) (client_read_timeouts_ s) (client_write_timeouts_ s) (backend_connect_errors_ s) (backend_connect_timeouts_ s) (backend_read_timeouts_ s) (backend_write_timeouts_ s).
Definition add_bytes_from_backends (n : Z) (s : Stats) : Stats :=
  mkStats (alive_since_ s) (client_conns_ s) (backend_conns_ s) (bytes_from_clients_ s) (bytes_to_clients_ s) (bytes_from_backends_ s + n) (bytes_to_backends_ s) (client_read_timeouts_ s) (client_write_timeouts_ s) (backend_connect_errors_ s) (backend_connect_timeouts_ s) (backend_read_timeouts_ s) (backend_write_timeouts_ s).
Definition add_bytes_to_backends (n : Z) (s : Stats) : Stats :=
  mkStats (alive_since_ s) (client_conns_ s) (backend_conns_ s) (bytes_from_clients_ s) (bytes_to_clients_ s) (bytes_from_backends_ s) (bytes_to_backends_ s + n) (client_read_timeouts_ s) (client_write_timeouts_ s) (backend_connect_errors_ s) (backend_connect_timeouts_ s) (backend_read_timeouts_ s) (backend_write_timeouts_ s).
Definition add_client_read_timeouts (n : Z) (s : Stats) : Stats :=
  mkStats (alive_since_ s) (client_conns_ s) (backend_conns_ s) (bytes_from_clients_ s) (bytes_to_clients_ s) (bytes_from_backends_ s) (bytes_to_backends_ s) (client_read_timeouts_ s + n) (client_write_timeouts_ s) (backend_connect_errors_ s) (backend_connect_timeouts_ s) (backend_read_timeouts_ s) (backend_write_timeouts_ s).
Definition add_client_write_timeouts (n : Z) (s : Stats) : Stats :=
  mkStats (alive_since_ s) (client_conns_ s) (backend_conns_ s) (bytes_from_clients_ s) (bytes_to_clients_ s) (bytes_from_backends_ s) (bytes_to_backends_ s) (client_read_timeouts_ s) (client_write_timeouts_ s + n) (backend_connect_errors_ s) (backend_connect_timeouts_ s) (backend_read_timeouts_ s) (backend_write_timeouts_ s).
Definition add_backend_connect_errors (n : Z) (s : Stats) : Stats :=
  mkStats (alive_since_ s) (client_conns_ s) (backend_conns_ s) (bytes_from_clients_ s) (bytes_to_clients_ s) (bytes_from_backends_ s) (bytes_to_backends_ s) (client_read_timeouts_ s) (client_write_timeouts_ s) (backend_connect_errors_ s + n) (backend_connect_timeouts_ s) (backend_read_timeouts_ s) (backend_write_timeouts_ s).
Definition add_backend_connect_timeouts (n : Z) (s : Stats) : Stats :=
  mkStats (alive_since_ s) (client_conns_ s) (backend_conns_ s) (bytes_from_clients_ s) (bytes_to_clients_ s) (bytes_from_backends_ s) (bytes_to_backends_ s) (client_read_timeouts_ s) (client_write_timeouts_ s) (backend_connect_errors_ s) (backend_connect_timeouts_ s + n) (backend_read_timeouts_ s) (backend_write_timeouts_ s).
Definition add_backend_read_timeouts (n : Z) (s : Stats) : Stats :=
  mkStats (alive_since_ s) (client_conns_ s) (backend_conns_ s) (bytes_from_clients_ s) (bytes_to_clients_ s) (bytes_from_backends_ s) (bytes_to_backends_ s) (client_read_timeouts_ s) (client_write_timeouts_ s) (backend_connect_errors_ s) (backend_connect_timeouts_ s) (backend_read_timeouts_ s + n) (backend_write_timeouts_ s).
Definition add_backend_write_timeouts (n : Z) (s : Stats) : Stats :=
  mkStats (alive_since_ s) (client_conns_ s) (backend_conns_ s) (bytes_from_clients_ s) (bytes_to_clients_ s) (bytes_from_backends_ s) (bytes_to_backends_ s) (client_read_timeouts_ s) (client_write_timeouts_ s) (backend_connect_errors_ s) (backend_connect_timeouts_ s) (backend_read_timeouts_ s) (backend_write_timeouts_ s + n).

(** ** The monad of a handler *)
Definition M (A : Type) : Type := World -> result (A * World).

#[global] Instance M_ret : MRet M := fun A a w => Ok (a, w).
#[global] Instance M_bind : MBind M := fun A B k m w =>
  match m w with
  | Ok (a, w') => k a w'
  | Fault f => Fault f
  end.

Definition fault {A} (f : fault) : M A := fun _ => Fault f.
Definition get : M World := fun w => Ok (w, w).
Definition modify (f : World -> World) : M unit := fun w => Ok (tt, f w).
Definition lift {A} (r : result A) : M A := fun w =>
  match r with Ok a => Ok (a, w) | Fault f => Fault f end.
Definition m_assert (b : bool) : M unit := lift (res_assert b).
Definition skip : M unit := mret tt.

Definition when (b : bool) (m : M unit) : M unit := if b then m else skip.

Fixpoint for_each {A} (l : list A) (f : A -> M unit) : M unit :=
  match l with
  | [] => skip
  | x :: l' => f x;; for_each l' f
  end.

(** Access to an object through a pointer to it *)
Definition client (c : Z) : M ClientConnection := w ← get; lift (of_option NullDeref (clients w !! c)).
Definition command (c : Z) : M Command := w ← get; lift (of_option NullDeref (commands w !! c)).
Definition backend (b : Z) : M BackendConn := w ← get; lift (of_option NullDeref (backends w !! b)).

Definition set_client (c : Z) (x : ClientConnection) : M unit :=
  modify (fun w => w_clients (<[c := x]> (clients w)) w).
Definition set_command (c : Z) (x : Command) : M unit :=
  modify (fun w => w_commands (<[c := x]> (commands w)) w).
Definition set_backend (b : Z) (x : BackendConn) : M unit :=
  modify (fun w => w_backends (<[b := x]> (backends w)) w).

Definition update_client (c : Z) (f : ClientConnection -> ClientConnection) : M unit :=
  x ← client c; set_client c (f x).
Definition update_command (c : Z) (f : Command -> Command) : M unit :=
  x ← command c; set_command c (f x).
Definition update_backend (b : Z) (f : BackendConn -> BackendConn) : M unit :=
  x ← backend b; set_backend b (f x).

(** Operations on the two kinds of buffer *)
Definition client_buffer (c : Z) : M ReadBuffer := x ← client c; mret (cl_buffer_ x).
Definition backend_buffer (b : Z) : M ReadBuffer := x ← backend b; mret (buffer_ x).
Definition on_client_buffer (c : Z) (f : ReadBuffer -> result ReadBuffer) : M unit :=
  x ← client c; buf ← lift (f (cl_buffer_ x)); set_client c (l_buffer buf x).
Definition on_backend_buffer (b : Z) (f : ReadBuffer -> result ReadBuffer) : M unit :=
  x ← backend b; buf ← lift (f (buffer_ x)); set_backend b (BC.set_buffer buf x).

Definition ok {A} (f : A -> A) (x : A) : result A := Ok (f x).

(** A new object *)
Definition fresh_id : M Z :=
  w ← get; modify (w_next_id (next_id w + 1));; mret (next_id w).

(** ** Asynchronous operations and timers *)
Definition start (op : io_op) : M unit := modify (fun w => w_in_flight (in_flight w ++ [op]) w).

Definition running (t : timer) (e : timer * ErrorCode) : Prop := e.1 = t.
#[global] Instance running_dec t e : Decision (running t e) := decide (e.1 = t).

(** [timer.cancel()]: a wait that has expired already is not stopped. *)
Definition cancel_timer (t : timer) : M unit :=
  modify (fun w => w_armed (filter (fun e => ~ running t e) (armed w)) w).

(** [timer.expires_after(...)] cancels a pending wait, [timer.async_wait(...)]
    starts one. *)
Definition arm_timer (t : timer) (ec : ErrorCode) : M unit :=
  cancel_timer t;; modify (fun w => w_armed (armed w ++ [(t, ec)]) w).

Definition on_stats (f : Stats -> Stats) : M unit := modify (fun w => w_stats (f (stats w)) w).

(** ** The allocator *)

(** [Alloc()], and the storage found there, which may hold anything each time it is
    handed out; [operator new] returns a block it never returned before. *)
Definition alloc_slab : M (Z * bytes) :=
  w ← get;
  let size := al_buffer_size_ (allocator_ w) in
  let '(slab, a) := Alloc (allocator_ w) (heap_next w) in
  modify (w_allocator a);;
  when (bool_decide (slab = heap_next w)) (modify (w_heap_next (heap_next w + size)));;
  mret (slab, uninit w (next_id w) <$> seqZ slab size).

Definition release_slab (slab : Z) : M unit :=
  modify (fun w => w_allocator (Release (allocator_ w) slab) w).
