(* ===== verification/BackendPool.v ===== *)
(** * The pool of backend connections

    [proxy/backend_pool.h] and [proxy/backend_pool.cc], with the constructor and
    the destructor of [BackendConn].  [conn_map_] holds the idle connections of
    an endpoint, [active_conns_] the ones in use. *)

From S2P Require Import Prelude CString StdMap ErrorCode ReadBuffer Allocator Config.
From S2P Require Import KeyDistributer BackendConn World.

Definition BackendConn_ctor (ep : Endpoint) : M Z :=
  '(slab, storage) ← alloc_slab;
  w ← get;
  b ← fresh_id;
  set_backend b (BC.ctor slab storage (al_buffer_size_ (allocator_ w)) ep);;
  on_stats (add_backend_conns 1);;
  mret b.

Definition BackendConn_dtor (b : Z) : M unit :=
  x ← backend b;
  on_stats (add_backend_conns (-1));;
  release_slab (slab_ x);;
  modify (fun w => w_backends (delete b (backends w)) w).

(** The longest idle connection, or a new one *)
Definition idle_or_new (ep : Endpoint) : M Z :=
  w ← get;
  match sm_find ep (conn_map_ w) with
  | Some (b :: idle) => modify (w_conn_map (sm_set ep idle (conn_map_ w)));; mret b
  | _ => BackendConn_ctor ep
  end.

Definition Allocate (ep : Endpoint) : M Z :=
  b ← idle_or_new ep;
  w ← get;
  m_assert (bool_decide (sm_find b (active_conns_ w) = None));;
  modify (w_active_conns (sm_emplace b ep (active_conns_ w)));;
  mret b.

(** The source keeps a reference to the endpoint in the erased node of
    [active_conns_]; the value it had is what is used here. *)
Definition Release (b : Z) : M unit :=
  w ← get;
  match sm_find b (active_conns_ w) with
  | None => skip
  | Some ep =>
      modify (w_active_conns (sm_erase b (active_conns_ w)));;
      x ← backend b;
      if negb (BC.recyclable x) then set_backend b (BC.Close x)
      else
        match sm_find ep (conn_map_ w) with
        | None =>
            x ← lift (BC.Reset x);
            set_backend b x;;
            modify (w_conn_map (sm_set ep [b] (conn_map_ w)))
        | Some idle =>
            if worker_max_idle_backends_ (worker (config w)) <=? zlen idle
            then set_backend b (BC.Close x)
            else x ← lift (BC.Reset x);
                 set_backend b x;;
                 modify (w_conn_map (sm_set ep (idle ++ [b]) (conn_map_ w)))
        end
  end.
