(* ===== verification/Lifetime.v ===== *)
(** * Object lifetimes

    Which [std::shared_ptr]s to an object exist, and the destructors that run
    when the last one goes away: [Command::~Command] and its overriders,
    [BackendConn::~BackendConn] and [ClientConnection::~ClientConnection]. *)

From S2P Require Import Prelude CString StdMap ErrorCode ReadBuffer Allocator Config.
From S2P Require Import KeyDistributer BackendConn World BackendPool.

(** ** References *)

(** The backends a command refers to, in the order its members are destroyed *)
Definition state_backends (s : CommandState) : list Z :=
  match s with
  | CMemcGet s =>
      received_reply_backends_ s ++ option_list (last_backend_ s) ++ mg_waiting_reply_queue s ++
      (gs_backend <$> (mg_subqueries s).*2)
  | CRedisMget s => (rm_waiting_reply_queue s).*1 ++ (ms_backend <$> (rm_subqueries s).*2)
  | CRedisDel s =>
      (rd_pending_subqueries s).*1 ++ (ds_backend <$> (rd_pending_subqueries s).*2) ++
      (ds_backend <$> (rd_waiting_subqueries s).*2)
  | CRedisMset s =>
      (rs_pending_subqueries s).*1 ++
      (ts_backend <$> omap (fun i => subquery_store_ s !! i)
        (option_list (tail_query_ s) ++ (rs_pending_subqueries s).*2 ++ (rs_waiting_subqueries s).*2))
  | _ => []
  end.
Definition command_backends (c : Command) : list Z :=
  state_backends (command_state c) ++ option_list (replying_backend_ c).

Definition op_backend (op : io_op) : option Z :=
  match op with
  | BackendConnect b _ _ | BackendWrite b _ _ | BackendRead b _ _ => Some b
  | _ => None
  end.
Definition op_client (op : io_op) : option Z :=
  match op with
  | ClientAccept c | ClientRead c _ _ | ClientWrite c _ _ _ _ => Some c
  | _ => None
  end.

Definition command_held (w : World) (c : Z) : bool :=
  bool_decide (HoldCommand c ∈ holders w) ||
  existsb (fun e => bool_decide (c ∈ active_cmd_queue_ e.2)) (map_to_list (clients w)).
Definition backend_held (w : World) (b : Z) : bool :=
  bool_decide (HoldBackend b ∈ holders w) ||
  bool_decide (b ∈ (active_conns_ w).*1) ||
  existsb (fun e => bool_decide (b ∈ e.2)) (conn_map_ w) ||
  existsb (fun e => bool_decide (b ∈ command_backends e.2)) (map_to_list (commands w)) ||
  existsb (fun op => bool_decide (op_backend op = Some b)) (in_flight w).
Definition client_held (w : World) (c : Z) : bool :=
  bool_decide (HoldClient c ∈ holders w) ||
  existsb (fun e => bool_decide (client_conn_ e.2 = c)) (map_to_list (commands w)) ||
  existsb (fun op => bool_decide (op_client op = Some c)) (in_flight w).

(** ** Destructors *)
Definition ClientConnection_dtor (c : Z) : M unit :=
  x ← client c;
  release_slab (cl_slab_ x);;
  on_stats (add_client_conns (-1));;
  modify (fun w => w_clients (delete c (clients w)) w).

(** One reference to the object is gone *)
Definition drop_backend (b : Z) : M unit :=
  w ← get;
  when (bool_decide (is_Some (backends w !! b)) && negb (backend_held w b)) (BackendConn_dtor b).
Definition drop_client (c : Z) : M unit :=
  w ← get;
  when (bool_decide (is_Some (clients w !! c)) && negb (client_held w c)) (ClientConnection_dtor c).

(** The bodies of the destructors of the derived classes *)
Definition release_replying (c : Command) : M unit :=
  match replying_backend_ c with Some b => Release b | None => skip end.
Definition RedisBasicCommand_dtor (c : Command) : M unit := release_replying c.
Definition MemcBasicCommand_dtor (c : Command) : M unit := release_replying c.
Definition RedisSetCommand_dtor (c : Command) : M unit := release_replying c.
Definition MemcSetCommand_dtor (c : Command) : M unit := release_replying c.
Definition MemcGetCommand_dtor (s : MemcGet) : M unit :=
  for_each (mg_subqueries s).*2 (fun q => Release (gs_backend q)).
Definition RedisMgetCommand_dtor (s : RedisMget) : M unit :=
  for_each (rm_subqueries s).*2 (fun q => Release (ms_backend q)).
Definition RedisDelCommand_dtor (c : Command) (s : RedisDel) : M unit :=
  cl ← client (client_conn_ c);
  when (negb (zlen (rd_pending_subqueries s) =? 1)) (m_assert (cl_aborted_ cl));;
  for_each (rd_pending_subqueries s).*2 (fun q => Release (ds_backend q)).
Definition RedisMsetCommand_dtor (c : Command) (s : RedisMset) : M unit :=
  cl ← client (client_conn_ c);
  when (negb (zlen (rs_pending_subqueries s) =? 1)) (m_assert (cl_aborted_ cl));;
  for_each (rs_pending_subqueries s).*2 (fun i =>
    q ← lift (of_option NullDeref (subquery_store_ s !! i)); Release (ts_backend q)).

Definition command_dtor_body (c : Command) : M unit :=
  match command_state c with
  | CRedisBasic => RedisBasicCommand_dtor c
  | CMemcBasic => MemcBasicCommand_dtor c
  | CRedisSet _ _ => RedisSetCommand_dtor c
  | CMemcSet _ => MemcSetCommand_dtor c
  | CError _ | CStats _ => skip
  | CMemcGet s => MemcGetCommand_dtor s
  | CRedisMget s => RedisMgetCommand_dtor s
  | CRedisDel s => RedisDelCommand_dtor c s
  | CRedisMset s => RedisMsetCommand_dtor c s
  end.

Definition Command_dtor (c : Z) : M unit :=
  x ← command c;
  command_dtor_body x;;
  modify (fun w => w_commands (delete c (commands w)) w);;
  for_each (command_backends x) drop_backend;;
  drop_client (client_conn_ x).

Definition drop_command (c : Z) : M unit :=
  w ← get;
  when (bool_decide (is_Some (commands w !! c)) && negb (command_held w c)) (Command_dtor c).

(** ** References held by local variables *)
Definition hold (h : holder) : M unit := modify (fun w => w_holders (h :: holders w) w).

Fixpoint remove_one (h : holder) (l : list holder) : list holder :=
  match l with
  | [] => []
  | h' :: l' => if decide (h = h') then l' else h' :: remove_one h l'
  end.

Definition unhold (h : holder) : M unit :=
  modify (fun w => w_holders (remove_one h (holders w)) w);;
  match h with
  | HoldClient c => drop_client c
  | HoldCommand c => drop_command c
  | HoldBackend b => drop_backend b
  end.

Definition holding {A} (h : holder) (m : M A) : M A :=
  hold h;; a ← m; unhold h;; mret a.
