(* ===== verification/ConnIO.v ===== *)
(** * Starting asynchronous operations

    The members of [BackendConn] ([proxy/backend_conn.cc]) and of
    [ClientConnection] ([proxy/client_conn.cc]) that start reads, writes and
    timers, or abort a connection.  None of them runs a callback. *)

From S2P Require Import Prelude CString StdMap ErrorCode ReadBuffer Allocator Config.
From S2P Require Import KeyDistributer BackendConn World BackendPool Lifetime.

(** ** [BackendConn] *)
Module Backend.

Definition SetReadWriteCallback (b cmd : Z) : M unit :=
  update_backend b (BC.set_callback (Some cmd)).

Definition SetReplyData (b : Z) (data : bytes) (parsed : bool) : M unit :=
  x ← backend b; x ← lift (BC.SetReplyData data parsed x); set_backend b x.

Definition Close (b : Z) : M unit := update_backend b BC.Close.

Definition Abort (b : Z) : M unit :=
  x ← backend b;
  if aborted_ x then skip
  else
    set_backend b (BC.Abort_flags x);;
    cancel_timer (BackendWriteTimer b);;
    cancel_timer (BackendReadTimer b).

Definition ReadReply (b : Z) : M unit :=
  update_backend b (BC.set_is_reading_reply true);;
  on_backend_buffer b (ok RB.inc_recycle_lock);;
  update_backend b (BC.set_read_timer_canceled false);;
  arm_timer (BackendReadTimer b) E_BACKEND_READ_TIMEOUT;;
  buf ← backend_buffer b;
  start (BackendRead b (RB.free_space_begin buf) (RB.free_space_size buf)).

Definition TryReadMoreReply (b : Z) : M unit :=
  x ← backend b;
  if reply_recv_complete_ x || is_reading_reply_ x || negb (RB.has_much_free_space (buffer_ x))
  then skip else ReadReply b.

(** The [async_write] of a query *)
Definition AsyncWrite (b : Z) (data : source) (bytes : Z) : M unit :=
  arm_timer (BackendWriteTimer b) E_BACKEND_WRITE_TIMEOUT;;
  update_backend b (BC.set_write_timer_canceled false);;
  start (BackendWrite b data bytes).

(** [async_connect] opens the socket. *)
Definition WriteQuery (b : Z) (data : source) (bytes : Z) : M unit :=
  x ← backend b;
  if aborted_ x then start (PostedWriteError b)
  else if negb (socket_open_ x) then
    arm_timer (BackendWriteTimer b) E_BACKEND_CONNECT_TIMEOUT;;
    update_backend b (BC.set_write_timer_canceled false);;
    update_backend b (BC.set_socket_open true);;
    start (BackendConnect b data bytes)
  else AsyncWrite b data bytes.

End Backend.

(** ** [ClientConnection] *)
Module Client.

Definition ctor : M Z :=
  '(slab, storage) ← alloc_slab;
  w ← get;
  c ← fresh_id;
  set_client c (mkClientConnection (RB.ctor storage (al_buffer_size_ (allocator_ w))) slab
                  false [] false false false);;
  on_stats (add_client_conns 1);;
  mret c.

Definition UpdateTimer (c : Z) (t : timer) : M unit :=
  x ← client c;
  if cl_aborted_ x then skip else arm_timer t E_SUCCESS.

Definition AsyncRead (c : Z) : M unit :=
  update_client c (l_is_reading_query true);;
  on_client_buffer c (ok RB.inc_recycle_lock);;
  UpdateTimer c (ClientReadTimer c);;
  buf ← client_buffer c;
  start (ClientRead c (RB.free_space_begin buf) (RB.free_space_size buf)).

Definition StartRead (c : Z) : M unit := AsyncRead c.

Definition TryReadMoreQuery (c : Z) : M unit :=
  x ← client c;
  if is_reading_query_ x || negb (RB.has_much_free_space (cl_buffer_ x)) then skip
  else AsyncRead c.

(** [front()] of an empty list is undefined. *)
Definition IsFirstCommand (c cmd : Z) : M bool :=
  x ← client c;
  match active_cmd_queue_ x with
  | [] => fault NullDeref
  | first :: _ => mret (bool_decide (cmd = first))
  end.

Definition WriteReply (c : Z) (data : source) (bytes : Z) (cmd : Z) (b : option Z) : M unit :=
  x ← client c;
  m_assert (negb (cl_is_writing_reply_ x));;
  update_client c (l_is_writing_reply true);;
  UpdateTimer c (ClientWriteTimer c);;
  start (ClientWrite c data bytes cmd b).

Definition Abort (c : Z) : M unit :=
  x ← client c;
  if cl_aborted_ x then skip
  else
    update_client c (l_aborted true);;
    cancel_timer (ClientReadTimer c);;
    cancel_timer (ClientWriteTimer c);;
    update_client c (l_socket_open false);;
    update_client c (l_active_cmd_queue []);;
    for_each (active_cmd_queue_ x) drop_command.

End Client.
