(* ===== verification/Commands.v ===== *)
(** * Creating commands and starting their queries

    [Command] and its derived classes: construction from the query at the head
    of the client's buffer ([Command::CreateCommand] in [proxy/command.cc] and the
    constructors), [StartWriteQuery], [ContinueWriteQuery], and the parsing of
    the parts of a query that arrive later. *)

From S2P Require Import Prelude CString StdMap ErrorCode ReadBuffer Allocator Config.
From S2P Require Import RedisProtocol KeyDistributer KeyLocator QueryParser BackendConn World.
From S2P Require Import BackendPool Lifetime ConnIO.

#[global] Instance source_eq_dec : EqDecision source.
Proof. solve_decision. Defined.

(** ** Access to the worker's context *)

(** [key_locator()->Locate(...)] of a key in the client's buffer *)
Definition locate_key (m : bytes) (key len : Z) (protocol : ProtocolType) : M Endpoint :=
  w ← get;
  kl ← lift (of_option NullDeref (key_locator_ w));
  '(ep, kl) ← lift (Locate (config w) kl m key len protocol);
  modify (w_key_locator (Some kl));;
  mret ep.

Definition locate_bulk (m : bytes) (b : Bulk) : M Endpoint :=
  p ← lift (Bulk_payload_data m b);
  n ← lift (Bulk_payload_size m b);
  locate_key m p n REDIS.

(** [command->reset(new ...)]: the caller's variable holds the new command. *)
Definition new_command (cl : Z) (protocol : ProtocolType) (replying : option Z) (s : CommandState)
    : M Z :=
  cmd ← fresh_id;
  hold (HoldCommand cmd);;
  set_command cmd (mkCommand cl protocol replying false false s);;
  mret cmd.

(** ** Constructors *)
Definition RedisBasicCommand_ctor (cl : Z) (m : bytes) (ba : BulkArray) : M Z :=
  key ← lift (BulkArray_at ba 1);
  ep ← locate_bulk m key;
  b ← Allocate ep;
  new_command cl REDIS (Some b) CRedisBasic.

Definition RedisSetCommand_ctor (cl : Z) (m : bytes) (ba : BulkArray) : M Z :=
  unparsed_bulks ← lift (BulkArray_absent_bulks m ba);
  key ← lift (BulkArray_at ba 1);
  ep ← locate_bulk m key;
  b ← Allocate ep;
  new_command cl REDIS (Some b) (CRedisSet unparsed_bulks false).

Definition MemcBasicCommand_ctor (cl : Z) (m : bytes) (buf : Z) : M Z :=
  '(key, len) ← lift (memc_key [SP; CR] m buf);
  ep ← locate_key m key len MEMCACHED;
  b ← Allocate ep;
  new_command cl MEMCACHED (Some b) CMemcBasic.

(** The command and [*body_bytes] *)
Definition MemcSetCommand_ctor (cl : Z) (m : bytes) (cmd_data cmd_len : Z) : M (Z * Z) :=
  '(key, len) ← lift (memc_key [SP] m cmd_data);
  ep ← locate_key m key len MEMCACHED;
  b ← Allocate ep;
  body_bytes ← lift (memc_body_bytes m cmd_data cmd_len);
  cmd ← new_command cl MEMCACHED (Some b) (CMemcSet false);
  mret (cmd, body_bytes).

Definition ErrorCommand_ctor (cl : Z) (reply_message : bytes) : M Z :=
  new_command cl NONE None (CError reply_message).

Definition stats_message (protocol : ProtocolType) (s : Stats) : bytes :=
  (if bool_decide (protocol = REDIS) then str "+" else []) ++
  str "alive_since=" ++ dec_int (alive_since_ s) ++
  str ",client_conns=" ++ dec_int (client_conns_ s) ++
  str ",backend_conns=" ++ dec_int (backend_conns_ s) ++
  str ",bytes_from_clients=" ++ dec_int (bytes_from_clients_ s) ++
  str ",bytes_to_clients=" ++ dec_int (bytes_to_clients_ s) ++
  str ",bytes_from_backends=" ++ dec_int (bytes_from_backends_ s) ++
  str ",bytes_to_backends=" ++ dec_int (bytes_to_backends_ s) ++
  str ",client_read_timeouts=" ++ dec_int (client_read_timeouts_ s) ++
  str ",client_write_timeouts=" ++ dec_int (client_write_timeouts_ s) ++
  str ",backend_connect_errors=" ++ dec_int (backend_connect_errors_ s) ++
  str ",backend_connect_timeouts=" ++ dec_int (backend_connect_timeouts_ s) ++
  str ",backend_read_timeouts=" ++ dec_int (backend_read_timeouts_ s) ++
  str ",backend_write_timeouts=" ++ dec_int (backend_write_timeouts_ s) ++ crlf.

Definition StatsCommand_ctor (cl : Z) (protocol : ProtocolType) : M Z :=
  w ← get; new_command cl protocol None (CStats (stats_message protocol (stats w))).

(** *** [MemcGetCommand] *)
Fixpoint memc_get_subqueries (cl : Z) (m : bytes) (keys : list (Z * Z))
    (subqueries : smap Endpoint GetSubquery) : M (smap Endpoint GetSubquery) :=
  match keys with
  | [] => mret subqueries
  | (p, len) :: keys' =>
      ep ← locate_key m p len MEMCACHED;
      q ← match sm_find ep subqueries with
          | Some q => mret q
          | None =>
              on_client_buffer cl (ok RB.inc_recycle_lock);;
              b ← Allocate ep;
              mret (mkGetSubquery b [(Constant (str "get"), 3)])
          end;
      memc_get_subqueries cl m keys'
        (sm_set ep (mkGetSubquery (gs_backend q) (gs_segments q ++ [(InClient cl (p - 1), 1 + len)]))
           subqueries)
  end.

Definition MemcGetCommand_ctor (cl : Z) (m : bytes) (cmd_data cmd_size : Z) : M Z :=
  keys ← lift (MemcGet_keys m cmd_data cmd_size);
  subqueries ← memc_get_subqueries cl m keys [];
  let close e := (e.1, mkGetSubquery (gs_backend e.2) (gs_segments e.2 ++ [(Constant crlf, 2)])) in
  new_command cl MEMCACHED None (CMemcGet (mkMemcGet (close <$> subqueries) [] None 0 [])).

(** *** [RedisMgetCommand] *)
Definition extend_last (n : Z) (l : list segment) : result (list segment) :=
  match last l with
  | Some (p, len) => Ok (take (length l - 1) l ++ [(p, u64 (len + n))])
  | None => Fault NullDeref
  end.

Definition count_reply (b : Z) (queue : list (Z * Z)) : list (Z * Z) :=
  match last queue with
  | Some (b', n) => if bool_decide (b' = b) then take (length queue - 1) queue ++ [(b', n + 1)]
                    else queue ++ [(b, 1)]
  | None => [(b, 1)]
  end.

(** The loop over the keys; the state is [last_endpoint] with the two members *)
Fixpoint mget_subqueries (cl : Z) (m : bytes) (items : list Bulk) (last_endpoint : Endpoint)
    (subqueries : smap Endpoint MgetSubquery) (queue : list (Z * Z))
    : M (smap Endpoint MgetSubquery * list (Z * Z)) :=
  match items with
  | [] => mret (subqueries, queue)
  | bulk :: items' =>
      ep ← locate_bulk m bulk;
      q ← match sm_find ep subqueries with
          | Some q => mret q
          | None =>
              on_client_buffer cl (ok RB.inc_recycle_lock);;
              b ← Allocate ep;
              mret (mkMgetSubquery b 0 [] [] 0)
          end;
      total ← lift (Bulk_total_size m bulk);
      segments ← if bool_decide (last_endpoint = ep) then lift (extend_last total (ms_segments q))
                 else mret (ms_segments q ++ [(InClient cl (raw_data_ bulk), total)]);
      mget_subqueries cl m items' ep
        (sm_set ep (mkMgetSubquery (ms_backend q) (key_count_ q + 1) (query_prefix_ q) segments
                      (reply_absent_bulks_ q)) subqueries)
        (count_reply (ms_backend q) queue)
  end.

Definition RedisMgetCommand_ctor (cl : Z) (m : bytes) (ba : BulkArray) : M Z :=
  total ← lift (BulkArray_total_bulks m ba);
  items ← lift (if zlen (items_ ba) <? total then Fault OutOfBounds
                else Ok (drop 1 (take (Z.to_nat total) (items_ ba))));
  '(subqueries, queue) ← mget_subqueries cl m items any_endpoint [] [];
  new_command cl REDIS None
    (CRedisMget (mkRedisMget (SerializePrefix (s32 (total - 1))) subqueries queue)).

(** *** [RedisDelCommand] *)
Definition append_segment (data : source) (bytes : Z) (l : list segment) : result (list segment) :=
  match last l with
  | Some (p, len) =>
      if bool_decide (source_add p len = data) then extend_last bytes l else Ok (l ++ [(data, bytes)])
  | None => Fault NullDeref
  end.

Definition del_PushSubquery (cl : Z) (ep : Endpoint) (data : source) (bytes : Z)
    (waiting : smap Endpoint DelSubquery) : M (smap Endpoint DelSubquery) :=
  match sm_find ep waiting with
  | None =>
      on_client_buffer cl (ok RB.inc_recycle_lock);;
      b ← Allocate ep;
      mret (sm_emplace ep (mkDelSubquery b 1 0 [(data, bytes)]) waiting)
  | Some q =>
      segments ← lift (append_segment data bytes (ds_segments q));
      mret (sm_set ep (mkDelSubquery (ds_backend q) (ds_keys_count q + 1) (ds_phase q) segments) waiting)
  end.

Fixpoint del_push_all (cl : Z) (m : bytes) (keys : list Bulk) (waiting : smap Endpoint DelSubquery)
    : M (smap Endpoint DelSubquery) :=
  match keys with
  | [] => mret waiting
  | key :: keys' =>
      ep ← locate_bulk m key;
      waiting ← del_PushSubquery cl ep (InClient cl (raw_data_ key)) (u64 (present_size_ key)) waiting;
      del_push_all cl m keys' waiting
  end.

(** The keys the constructor takes: all of them, but for the last one when it is
    not complete. *)
Definition complete_keys (m : bytes) (keys : list Bulk) : result (list Bulk * bool) :=
  match last keys with
  | Some key =>
      completed ← Bulk_completed m key;
      Ok (if completed : bool then (keys, false) else (take (length keys - 1) keys, true))
  | None => Ok ([], false)
  end.

Definition RedisDelCommand_ctor (cl : Z) (m : bytes) (ba : BulkArray) : M Z :=
  absent ← lift (BulkArray_absent_bulks m ba);
  name ← lift (BulkArray_at ba 0);
  name_p ← lift (Bulk_payload_data m name);
  name_n ← lift (Bulk_payload_size m name);
  cmd_name ← lift (read_bytes m name_p name_n);
  '(keys, cut) ← lift (complete_keys m (drop 1 (items_ ba)));
  waiting ← del_push_all cl m keys [];
  new_command cl REDIS None
    (CRedisDel (mkRedisDel (tolower <$> cmd_name) (if cut : bool then u64 (absent + 1) else absent)
                  waiting [] 0)).

(** *** [RedisMsetCommand] *)
Definition mset_PushSubquery (cl : Z) (ep : Endpoint) (data : source) (bytes : Z) (s : RedisMset)
    : M RedisMset :=
  match sm_find ep (rs_waiting_subqueries s) with
  | None =>
      on_client_buffer cl (ok RB.inc_recycle_lock);;
      b ← Allocate ep;
      let i := length (subquery_store_ s) in
      mret (mkRedisMset (rs_unparsed_bulks s)
              (subquery_store_ s ++ [mkMsetSubquery b 1 INIT_SEND_QUERY false [(data, bytes)]])
              (sm_emplace ep i (rs_waiting_subqueries s)) (rs_pending_subqueries s) (Some i))
  | Some i =>
      q ← lift (of_option NullDeref (subquery_store_ s !! i));
      segments ← lift (append_segment data bytes (ts_segments q));
      mret (mkRedisMset (rs_unparsed_bulks s)
              (<[i := mkMsetSubquery (ts_backend q) (ts_keys_count q + 1) (ts_phase q)
                        (ts_query_recv_complete q) segments]> (subquery_store_ s))
              (rs_waiting_subqueries s) (rs_pending_subqueries s) (Some i))
  end.

(** [for(i = ...; i + 1 < n; i += 2)] over the key-value pairs *)
Fixpoint mset_push_all (cl : Z) (m : bytes) (bulks : list Bulk) (s : RedisMset) : M RedisMset :=
  match bulks with
  | key :: value :: bulks' =>
      ep ← locate_bulk m key;
      s ← mset_PushSubquery cl ep (InClient cl (raw_data_ key))
            (u64 (s32 (present_size_ key + present_size_ value))) s;
      mset_push_all cl m bulks' s
  | _ => mret s
  end.

Definition RedisMsetCommand_ctor (cl : Z) (m : bytes) (ba : BulkArray) : M Z :=
  absent ← lift (BulkArray_absent_bulks m ba);
  s ← mset_push_all cl m (drop 1 (items_ ba))
        (mkRedisMset (u64 (absent + absent mod 2)) [] [] [] None);
  new_command cl REDIS None (CRedisMset s).

(** ** [Command::CreateCommand]

    [buf] is a pointer into the client's buffer.  Returns the bytes parsed, zero
    if there is not enough data, and the command. *)
Definition redis_command (cl : Z) (m : bytes) (buf size : Z) : M (Z * option Z) :=
  ba ← lift (BulkArray_ctor m buf size);
  total_bulks ← lift (BulkArray_total_bulks m ba);
  if total_bulks =? 0 then
    text ← lift (read_bytes m buf size);
    cmd ← ErrorCommand_ctor cl (str "-ERR Bulk Array Parse Error:[" ++ text ++ str "]" ++ crlf);
    mret (size, Some cmd)
  else if BulkArray_present_bulks ba =? 0 then mret (0, None)
  else
    name ← lift (BulkArray_at ba 0);
    absent ← lift (Bulk_absent_size m name);
    if 0 <? absent then mret (0, None)
    else
      type ← lift (GetRedisCommandType m name);
      match type with
      | RCT_BASIC =>
          completed ← lift (BulkArray_completed m ba);
          if negb completed then mret (0, None)
          else cmd ← RedisBasicCommand_ctor cl m ba;
               n ← lift (BulkArray_total_size m ba);
               mret (n, Some cmd)
      | RCT_SET =>
          if BulkArray_present_bulks ba <? 2 then mret (0, None)
          else
            key ← lift (BulkArray_at ba 1);
            completed ← lift (Bulk_completed m key);
            if negb completed then mret (0, None)
            else cmd ← RedisSetCommand_ctor cl m ba;
                 mret (u64 (BulkArray_parsed_size ba), Some cmd)
      | RCT_MSET =>
          if BulkArray_present_bulks ba <? 3 then mret (0, None)
          else
            cmd ← RedisMsetCommand_ctor cl m ba;
            if BulkArray_present_bulks ba mod 2 =? 0 then
              back ← lift (BulkArray_back ba);
              n ← lift (Bulk_total_size m back);
              mret (u64 (BulkArray_parsed_size ba - n), Some cmd)
            else mret (u64 (BulkArray_parsed_size ba), Some cmd)
      | RCT_MGET =>
          completed ← lift (BulkArray_completed m ba);
          if negb completed then mret (0, None)
          else cmd ← RedisMgetCommand_ctor cl m ba;
               n ← lift (BulkArray_total_size m ba);
               mret (n, Some cmd)
      | RCT_DEL =>
          if BulkArray_present_bulks ba <? 2 then mret (0, None)
          else
            key ← lift (BulkArray_at ba 1);
            completed ← lift (Bulk_completed m key);
            if negb completed then mret (0, None)
            else
              cmd ← RedisDelCommand_ctor cl m ba;
              back ← lift (BulkArray_back ba);
              completed ← lift (Bulk_completed m back);
              if completed : bool then mret (u64 (BulkArray_parsed_size ba), Some cmd)
              else n ← lift (Bulk_total_size m back);
                   mret (u64 (BulkArray_parsed_size ba - n), Some cmd)
      | RCT_YARMSTATS =>
          completed ← lift (BulkArray_completed m ba);
          if negb completed then mret (0, None)
          else cmd ← StatsCommand_ctor cl REDIS;
               n ← lift (BulkArray_total_size m ba);
               mret (n, Some cmd)
      | RCT_UNSUPPORTED =>
          text ← lift (Bulk_to_string m name);
          cmd ← ErrorCommand_ctor cl
                  (str "-ERR YarmProxy unsupported redis command:[" ++ text ++ str "]" ++ crlf);
          mret (size, Some cmd)
      end.

Definition memc_command (cl : Z) (m : bytes) (buf size lf : Z) : M (Z * option Z) :=
  let cmd_line_bytes := lf - buf + 1 in
  type ← lift (GetMemcCommandType m buf cmd_line_bytes);
  match type with
  | MCT_GET =>
      cmd ← MemcGetCommand_ctor cl m buf cmd_line_bytes;
      mret (cmd_line_bytes, Some cmd)
  | MCT_SET =>
      '(cmd, body_bytes) ← MemcSetCommand_ctor cl m buf cmd_line_bytes;
      if body_bytes <=? 2 then
        line ← lift (read_bytes m buf cmd_line_bytes);
        err ← ErrorCommand_ctor cl (str "ERR Protocol Error:[" ++ line ++ str "]" ++ crlf);
        unhold (HoldCommand cmd);;
        mret (cmd_line_bytes, Some err)
      else mret (u64 (cmd_line_bytes + body_bytes), Some cmd)
  | MCT_BASIC =>
      cmd ← MemcBasicCommand_ctor cl m buf;
      mret (cmd_line_bytes, Some cmd)
  | MCT_YARMSTATS =>
      cmd ← StatsCommand_ctor cl MEMCACHED;
      mret (cmd_line_bytes, Some cmd)
  | MCT_UNSUPPORTED =>
      line ← lift (read_bytes m buf cmd_line_bytes);
      cmd ← ErrorCommand_ctor cl (str "YarmProxy Unsupported Request [" ++ line ++ str "]" ++ crlf);
      mret (size, Some cmd)
  end.

Definition CreateCommand (cl : Z) (buf size : Z) : M (Z * option Z) :=
  w ← get;
  x ← client cl;
  let m := data_ (cl_buffer_ x) in
  p ← lift (memchr m buf LF size);
  match p with
  | None =>
      if buffer_size_conf_ (worker (config w)) / 2 <? size then
        c ← lift (rd m buf);
        text ← lift (read_bytes m buf size);
        cmd ← ErrorCommand_ctor cl
                ((if bool_decide (c = "*"%char) then str "-" else []) ++
                 str "ERR Too long unparsable data:[" ++ text ++ str "]" ++ crlf);
        mret (size, Some cmd)
      else mret (0, None)
  | Some lf =>
      star ← lift (strncmp_eq (at_ptr m buf) (str "*") 1);
      if star : bool then redis_command cl m buf size else memc_command cl m buf size lf
  end.
