(* ===== verification/CommandQuery.v ===== *)
(** * Forwarding queries

    [StartWriteQuery], [ContinueWriteQuery], [ParseUnparsedPart] and
    [ProcessUnparsedPart] of the command classes, [TryWriteReply], and the
    functions of [ClientConnection] that turn received bytes into commands. *)

From S2P Require Import Prelude CString StdMap ErrorCode ReadBuffer Allocator Config.
From S2P Require Import RedisProtocol KeyDistributer KeyLocator QueryParser BackendConn World.
From S2P Require Import BackendPool Lifetime ConnIO Commands.

(** Access to the members of a command of a known class *)
Definition memc_get (cmd : Z) : M (Command * MemcGet) :=
  c ← command cmd;
  match command_state c with CMemcGet s => mret (c, s) | _ => fault NullDeref end.
Definition redis_mget (cmd : Z) : M (Command * RedisMget) :=
  c ← command cmd;
  match command_state c with CRedisMget s => mret (c, s) | _ => fault NullDeref end.
Definition redis_del (cmd : Z) : M (Command * RedisDel) :=
  c ← command cmd;
  match command_state c with CRedisDel s => mret (c, s) | _ => fault NullDeref end.
Definition redis_mset (cmd : Z) : M (Command * RedisMset) :=
  c ← command cmd;
  match command_state c with CRedisMset s => mret (c, s) | _ => fault NullDeref end.

(** ** The progress of a query *)
Definition RedisSetCommand_query_parsing_complete (unparsed_bulks : Z) : bool := unparsed_bulks =? 0.
Definition RedisDelCommand_query_parsing_complete (s : RedisDel) : bool := rd_unparsed_bulks s =? 0.
Definition RedisMsetCommand_query_parsing_complete (s : RedisMset) : bool := rs_unparsed_bulks s =? 0.

Definition query_parsing_complete (c : Command) : bool :=
  match command_state c with
  | CRedisSet unparsed_bulks _ => RedisSetCommand_query_parsing_complete unparsed_bulks
  | CRedisDel s => RedisDelCommand_query_parsing_complete s
  | CRedisMset s => RedisMsetCommand_query_parsing_complete s
  | _ => true
  end.

(** [*tail_query_] *)
Definition tail_subquery (s : RedisMset) : result MsetSubquery :=
  i ← of_option NullDeref (tail_query_ s); of_option NullDeref (subquery_store_ s !! i).

Definition RedisDelCommand_query_recv_complete (s : RedisDel) : bool := rd_unparsed_bulks s =? 0.
Definition RedisMsetCommand_query_recv_complete (s : RedisMset) : result bool :=
  q ← tail_subquery s;
  Ok (ts_query_recv_complete q && RedisMsetCommand_query_parsing_complete s).

Definition query_recv_complete (c : Command) : result bool :=
  match command_state c with
  | CRedisSet _ complete => Ok complete
  | CMemcSet complete => Ok complete
  | CRedisDel s => Ok (RedisDelCommand_query_recv_complete s)
  | CRedisMset s => RedisMsetCommand_query_recv_complete s
  | _ => Ok true
  end.

Definition RedisSetCommand_check_query_recv_complete (cmd : Z) (c : Command) (unparsed_bulks : Z)
    : M unit :=
  buf ← client_buffer (client_conn_ c);
  when ((RB.parsed_unreceived_bytes buf =? 0) && (unparsed_bulks =? 0))
    (update_command cmd (c_command_state (CRedisSet unparsed_bulks true))).
Definition MemcSetCommand_check_query_recv_complete (cmd : Z) (c : Command) : M unit :=
  buf ← client_buffer (client_conn_ c);
  when (RB.parsed_unreceived_bytes buf =? 0) (update_command cmd (c_command_state (CMemcSet true))).

Definition check_query_recv_complete (cmd : Z) : M unit :=
  c ← command cmd;
  match command_state c with
  | CRedisSet n _ => RedisSetCommand_check_query_recv_complete cmd c n
  | CMemcSet _ => MemcSetCommand_check_query_recv_complete cmd c
  | _ => skip
  end.

Definition set_state (cmd : Z) (s : CommandState) : M unit := update_command cmd (c_command_state s).

(** ** Sub-queries of an [MSET] *)
Definition set_subquery (i : nat) (q : MsetSubquery) (s : RedisMset) : RedisMset :=
  mkRedisMset (rs_unparsed_bulks s) (<[i := q]> (subquery_store_ s)) (rs_waiting_subqueries s)
    (rs_pending_subqueries s) (tail_query_ s).
Definition recv_complete (q : MsetSubquery) : MsetSubquery :=
  mkMsetSubquery (ts_backend q) (ts_keys_count q) (ts_phase q) true (ts_segments q).
Definition set_phase (p : Phase) (q : MsetSubquery) : MsetSubquery :=
  mkMsetSubquery (ts_backend q) (ts_keys_count q) p (ts_query_recv_complete q) (ts_segments q).
Definition pop_segment (q : MsetSubquery) : MsetSubquery :=
  mkMsetSubquery (ts_backend q) (ts_keys_count q) (ts_phase q) (ts_query_recv_complete q)
    (tail (ts_segments q)).
Definition set_pending (p : smap Z nat) (s : RedisMset) : RedisMset :=
  mkRedisMset (rs_unparsed_bulks s) (subquery_store_ s) (rs_waiting_subqueries s) p (tail_query_ s).

(** The body of the loop in [ActivateWaitingSubquery] *)
Definition mset_activate (cmd : Z) (i : nat) : M unit :=
  '(c, s) ← redis_mset cmd;
  q ← lift (of_option NullDeref (subquery_store_ s !! i));
  let b := ts_backend q in
  Backend.SetReadWriteCallback b cmd;;
  buf ← client_buffer (client_conn_ c);
  let complete := negb (bool_decide (tail_query_ s = Some i)) ||
                  (RB.parsed_unreceived_bytes buf =? 0) in
  let s := set_pending (sm_set b i (rs_pending_subqueries s)) s in
  set_state cmd (CRedisMset (if complete then set_subquery i (recv_complete q) s else s));;
  w ← get;
  let '(prefix, cache) := RedisMsetPrefix (ts_keys_count q) (mset_prefix_cache w) in
  modify (w_mset_prefix_cache cache);;
  Backend.WriteQuery b (Constant prefix) (zlen prefix).

Definition RedisMsetCommand_ActivateWaitingSubquery (cmd : Z) : M unit :=
  '(_, s) ← redis_mset cmd;
  for_each (rs_waiting_subqueries s).*2 (mset_activate cmd);;
  '(_, s) ← redis_mset cmd;
  set_state cmd (CRedisMset (mkRedisMset (rs_unparsed_bulks s) (subquery_store_ s) []
                               (rs_pending_subqueries s) (tail_query_ s))).

(** ** Sub-queries of a [DEL] *)

(** The body of the loop in [ActivateWaitingSubquery] *)
Definition del_activate (cmd : Z) (q : DelSubquery) : M unit :=
  '(_, s) ← redis_del cmd;
  let b := ds_backend q in
  Backend.SetReadWriteCallback b cmd;;
  set_state cmd (CRedisDel (mkRedisDel (cmd_name_ s) (rd_unparsed_bulks s)
    (rd_waiting_subqueries s) (sm_set b q (rd_pending_subqueries s)) (total_del_count_ s)));;
  w ← get;
  '(prefix, caches) ← lift (RedisDelPrefix (cmd_name_ s) (ds_keys_count q) (del_prefix_caches w));
  modify (w_del_prefix_caches caches);;
  Backend.WriteQuery b (Constant prefix) (zlen prefix).

Definition RedisDelCommand_ActivateWaitingSubquery (cmd : Z) : M unit :=
  '(_, s) ← redis_del cmd;
  for_each (rd_waiting_subqueries s).*2 (del_activate cmd);;
  '(_, s) ← redis_del cmd;
  set_state cmd (CRedisDel (mkRedisDel (cmd_name_ s) (rd_unparsed_bulks s) []
                              (rd_pending_subqueries s) (total_del_count_ s))).

(** ** Replies *)
Definition TryWriteReply (cmd b : Z) : M unit :=
  c ← command cmd;
  buf ← backend_buffer b;
  let unprocessed := RB.unprocessed_bytes buf in
  when (negb (cmd_is_writing_reply_ c) && (0 <? unprocessed))
    (update_command cmd (fun c => c_has_written_some_reply true (c_cmd_is_writing_reply true c));;
     on_backend_buffer b (ok RB.inc_recycle_lock);;
     Client.WriteReply (client_conn_ c) (InBackend b (RB.unprocessed_data buf)) unprocessed cmd (Some b);;
     on_backend_buffer b (fun buf => RB.update_processed_bytes buf unprocessed)).

(** [StartWriteReply] of the classes that send bytes of their own *)
Definition ErrorCommand_StartWriteReply (cmd : Z) (c : Command) (reply_message : bytes) : M unit :=
  Client.WriteReply (client_conn_ c) (Constant reply_message) (zlen reply_message) cmd None.
Definition StatsCommand_StartWriteReply (cmd : Z) (c : Command) (reply_message : bytes) : M unit :=
  Client.WriteReply (client_conn_ c) (Constant reply_message) (zlen reply_message) cmd None.
Definition RedisMgetCommand_StartWriteReply (cmd : Z) (c : Command) (s : RedisMget) : M unit :=
  Client.WriteReply (client_conn_ c) (Constant (reply_prefix_ s)) (zlen (reply_prefix_ s)) cmd None.

(** ** [StartWriteQuery] *)

(** The unprocessed part of the client's buffer goes to a backend. *)
Definition write_unprocessed (cl b : Z) : M unit :=
  on_client_buffer cl (ok RB.inc_recycle_lock);;
  buf ← client_buffer cl;
  Backend.WriteQuery b (InClient cl (RB.unprocessed_data buf)) (RB.unprocessed_bytes buf).

Definition Command_StartWriteQuery (cmd : Z) (c : Command) : M bool :=
  b ← lift (of_option AssertFailed (replying_backend_ c));
  check_query_recv_complete cmd;;
  Backend.SetReadWriteCallback b cmd;;
  write_unprocessed (client_conn_ c) b;;
  mret false.

Definition ErrorCommand_StartWriteQuery (cmd : Z) (c : Command) (reply_message : bytes) : M bool :=
  first ← Client.IsFirstCommand (client_conn_ c) cmd;
  when first (ErrorCommand_StartWriteReply cmd c reply_message);;
  mret false.

Definition StatsCommand_StartWriteQuery (cmd : Z) (c : Command) (reply_message : bytes) : M bool :=
  first ← Client.IsFirstCommand (client_conn_ c) cmd;
  when first (StatsCommand_StartWriteReply cmd c reply_message);;
  mret false.

(** The body of the loop over [subqueries_] *)
Definition memc_get_start (cmd : Z) (q : GetSubquery) : M unit :=
  Backend.SetReadWriteCallback (gs_backend q) cmd;;
  match gs_segments q with
  | (data, bytes) :: _ => Backend.WriteQuery (gs_backend q) data bytes
  | [] => fault NullDeref
  end.

Definition MemcGetCommand_StartWriteQuery (cmd : Z) (s : MemcGet) : M bool :=
  for_each (mg_subqueries s).*2 (memc_get_start cmd);;
  mret false.

(** The body of the loop over [subqueries_]; the front segment is a placeholder
    for the prefix *)
Definition mget_start (cmd : Z) (e : Endpoint * MgetSubquery) : M unit :=
  let q := e.2 in
  Backend.SetReadWriteCallback (ms_backend q) cmd;;
  let prefix := SerializePrefix (s32 (key_count_ q + 1)) ++ str "$4" ++ crlf ++ str "mget" ++ crlf in
  '(_, s) ← redis_mget cmd;
  set_state cmd (CRedisMget (mkRedisMget (reply_prefix_ s)
    (sm_set e.1 (mkMgetSubquery (ms_backend q) (key_count_ q) prefix
                   ((Constant [], 0) :: ms_segments q) (reply_absent_bulks_ q)) (rm_subqueries s))
    (rm_waiting_reply_queue s)));;
  Backend.WriteQuery (ms_backend q) (Constant prefix) (zlen prefix).

Definition RedisMgetCommand_StartWriteQuery (cmd : Z) (c : Command) (s : RedisMget) : M bool :=
  for_each (rm_subqueries s) (mget_start cmd);;
  first ← Client.IsFirstCommand (client_conn_ c) cmd;
  when first (RedisMgetCommand_StartWriteReply cmd c s);;
  mret false.

Definition RedisDelCommand_StartWriteQuery (cmd : Z) : M bool :=
  RedisDelCommand_ActivateWaitingSubquery cmd;;
  mret false.

Definition RedisMsetCommand_StartWriteQuery (cmd : Z) (c : Command) (s : RedisMset) : M bool :=
  i ← lift (of_option AssertFailed (tail_query_ s));
  q ← lift (tail_subquery s);
  buf ← client_buffer (client_conn_ c);
  when (RB.parsed_unreceived_bytes buf =? 0)
    (set_state cmd (CRedisMset (set_subquery i (recv_complete q) s)));;
  RedisMsetCommand_ActivateWaitingSubquery cmd;;
  mret false.

Definition StartWriteQuery (cmd : Z) : M bool :=
  c ← command cmd;
  match command_state c with
  | CRedisBasic | CMemcBasic | CRedisSet _ _ | CMemcSet _ => Command_StartWriteQuery cmd c
  | CError reply => ErrorCommand_StartWriteQuery cmd c reply
  | CStats reply => StatsCommand_StartWriteQuery cmd c reply
  | CMemcGet s => MemcGetCommand_StartWriteQuery cmd s
  | CRedisMget s => RedisMgetCommand_StartWriteQuery cmd c s
  | CRedisDel _ => RedisDelCommand_StartWriteQuery cmd
  | CRedisMset s => RedisMsetCommand_StartWriteQuery cmd c s
  end.

(** ** [ContinueWriteQuery]: [true] when no callback will follow *)
Definition Command_ContinueWriteQuery (cmd cl : Z) : M bool :=
  check_query_recv_complete cmd;;
  c ← command cmd;
  b ← lift (of_option NullDeref (replying_backend_ c));
  x ← backend b;
  if BC.error x then
    complete ← lift (query_recv_complete c);
    if negb complete then mret true
    else first ← Client.IsFirstCommand cl cmd;
         when first (TryWriteReply cmd b);;
         mret false
  else write_unprocessed cl b;; mret false.

(** [TryWriteReply], or the wait of a command that is not the first *)
Definition reply_or_wait (cmd b : Z) : M unit :=
  c ← command cmd;
  first ← Client.IsFirstCommand (client_conn_ c) cmd;
  if first : bool then TryWriteReply cmd b else update_command cmd (c_replying_backend (Some b)).

(** [pending_subqueries_.erase(backend); backend_pool()->Release(backend)] *)
Definition mset_forget (cmd b : Z) : M unit :=
  '(_, s) ← redis_mset cmd;
  set_state cmd (CRedisMset (set_pending (sm_erase b (rs_pending_subqueries s)) s));;
  Release b;;
  drop_backend b.

Definition RedisMsetCommand_ContinueWriteQuery (cmd cl : Z) (s : RedisMset) : M bool :=
  i ← lift (of_option AssertFailed (tail_query_ s));
  q ← lift (tail_subquery s);
  buf ← client_buffer cl;
  let q := if RB.parsed_unreceived_bytes buf =? 0 then recv_complete q else q in
  let s := set_subquery i q s in
  set_state cmd (CRedisMset s);;
  let b := ts_backend q in
  x ← backend b;
  if BC.error x then
    if negb (ts_query_recv_complete q) then mret true
    else
      (if (rs_unparsed_bulks s =? 0) && bool_decide (rs_waiting_subqueries s = []) &&
          (zlen (rs_pending_subqueries s) =? 1)
       then reply_or_wait cmd b
       else mset_forget cmd b);;
      mret false
  else
    m_assert (bool_decide (ts_phase q = READING_MORE_QUERY));;
    write_unprocessed cl b;;
    mret false.

Definition ContinueWriteQuery (cmd : Z) : M bool :=
  c ← command cmd;
  match command_state c with
  | CRedisSet _ _ | CMemcSet _ | CError _ | CStats _ => Command_ContinueWriteQuery cmd (client_conn_ c)
  | CRedisMset s => RedisMsetCommand_ContinueWriteQuery cmd (client_conn_ c) s
  | CRedisBasic | CMemcBasic | CMemcGet _ | CRedisMget _ | CRedisDel _ => fault AssertFailed
  end.

(** ** [ParseUnparsedPart] *)

(** [RedisSetCommand]: every turn takes one of the bulks that are missing. *)
Fixpoint set_parse_loop (n : nat) (unparsed_bulks : Z) (buf : ReadBuffer)
    : result (bool * Z * ReadBuffer) :=
  if (0 <? unparsed_bulks) && (0 <? RB.unparsed_received_bytes buf) then
    match n with
    | O => Fault OutOfFuel
    | S n' =>
        bulk ← Bulk_ctor (data_ buf) (RB.unparsed_data buf) (RB.unparsed_received_bytes buf);
        if present_size_ bulk <? 0 then Ok (false, unparsed_bulks, buf)
        else if present_size_ bulk =? 0 then Ok (true, unparsed_bulks, buf)
        else
          total ← Bulk_total_size (data_ buf) bulk;
          set_parse_loop n' (unparsed_bulks - 1) (RB.update_parsed_bytes buf total)
    end
  else Ok (true, unparsed_bulks, buf).

Definition RedisSetCommand_ParseUnparsedPart (cmd cl : Z) (unparsed_bulks : Z) (complete : bool)
    : M bool :=
  buf ← client_buffer cl;
  '(res, n, buf) ← lift (set_parse_loop (Z.to_nat unparsed_bulks) unparsed_bulks buf);
  update_client cl (l_buffer buf);;
  set_state cmd (CRedisSet n complete);;
  mret res.

Definition ParseUnparsedPart (cmd : Z) : M bool :=
  c ← command cmd;
  match command_state c with
  | CRedisSet n complete => RedisSetCommand_ParseUnparsedPart cmd (client_conn_ c) n complete
  | _ => mret true
  end.

(** ** [ProcessUnparsedPart] *)
Definition RedisDelCommand_ProcessUnparsedPart (cmd cl : Z) (s : RedisDel) : M bool :=
  buf ← client_buffer cl;
  let m := data_ buf in
  '(parsed_bytes, new_bulks) ← lift (ParseBulkItems m (RB.unparsed_data buf)
                                       (RB.unparsed_received_bytes buf) (rd_unparsed_bulks s));
  if parsed_bytes <? 0 then mret false
  else
    '(parsed_bytes, new_bulks) ←
      match last new_bulks with
      | Some back =>
          completed ← lift (Bulk_completed m back);
          if completed : bool then mret (parsed_bytes, new_bulks)
          else n ← lift (Bulk_total_size m back);
               mret (s32 (parsed_bytes - n), take (length new_bulks - 1) new_bulks)
      | None => mret (parsed_bytes, new_bulks)
      end;
    match new_bulks with
    | [] =>
        when (negb (RB.recycle_locked buf)) (Client.TryReadMoreQuery cl);;
        mret true
    | _ =>
        waiting ← del_push_all cl m new_bulks (rd_waiting_subqueries s);
        set_state cmd (CRedisDel (mkRedisDel (cmd_name_ s) (u64 (rd_unparsed_bulks s - zlen new_bulks))
                                    waiting (rd_pending_subqueries s) (total_del_count_ s)));;
        on_client_buffer cl (fun buf => RB.update_processed_bytes buf (u64 parsed_bytes));;
        on_client_buffer cl (ok (fun buf => RB.update_parsed_bytes buf (u64 parsed_bytes)));;
        RedisDelCommand_ActivateWaitingSubquery cmd;;
        mret true
    end.

Definition RedisMsetCommand_ProcessUnparsedPart (cmd cl : Z) (s : RedisMset) : M bool :=
  buf ← client_buffer cl;
  let m := data_ buf in
  '(parsed_bytes, new_bulks) ← lift (ParseBulkItems m (RB.unparsed_data buf)
                                       (RB.unparsed_received_bytes buf) (rs_unparsed_bulks s));
  if parsed_bytes <? 0 then mret false
  else
    '(parsed_bytes, new_bulks) ←
      if zlen new_bulks mod 2 =? 1 then
        back ← lift (of_option NullDeref (last new_bulks));
        n ← lift (Bulk_total_size m back);
        mret (s32 (parsed_bytes - n), take (length new_bulks - 1) new_bulks)
      else mret (parsed_bytes, new_bulks);
    match last new_bulks with
    | None =>
        when (negb (RB.recycle_locked buf)) (Client.TryReadMoreQuery cl);;
        mret true
    | Some back =>
        s ← mset_push_all cl m new_bulks s;
        total ← lift (Bulk_total_size m back);
        on_client_buffer cl (fun buf =>
          RB.update_processed_bytes buf (u64 (parsed_bytes - total + present_size_ back)));;
        on_client_buffer cl (ok (fun buf => RB.update_parsed_bytes buf (u64 parsed_bytes)));;
        set_state cmd (CRedisMset (mkRedisMset (u64 (rs_unparsed_bulks s - zlen new_bulks))
          (subquery_store_ s) (rs_waiting_subqueries s) (rs_pending_subqueries s) (tail_query_ s)));;
        RedisMsetCommand_ActivateWaitingSubquery cmd;;
        mret true
    end.

Definition ProcessUnparsedPart (cmd : Z) : M bool :=
  c ← command cmd;
  match command_state c with
  | CRedisDel s => RedisDelCommand_ProcessUnparsedPart cmd (client_conn_ c) s
  | CRedisMset s => RedisMsetCommand_ProcessUnparsedPart cmd (client_conn_ c) s
  | _ => mret true
  end.

(** ** [ClientConnection::ProcessUnparsedQuery]

    Every turn that goes on adds a command, and the queue has at most sixteen. *)
Definition kPipelineActiveLimit : nat := 16.

Definition push_command (cl cmd : Z) : M unit :=
  update_client cl (fun x => l_active_cmd_queue (active_cmd_queue_ x ++ [cmd]) x).

(** One turn: whether the loop goes on *)
Definition process_one (cl : Z) : M bool :=
  buf ← client_buffer cl;
  '(parsed_bytes, created) ← CreateCommand cl (RB.unprocessed_data buf) (RB.received_bytes buf);
  more ←
    (if parsed_bytes =? 0 then Client.TryReadMoreQuery cl;; mret false
     else
       on_client_buffer cl (ok (fun buf => RB.update_parsed_bytes buf parsed_bytes));;
       cmd ← lift (of_option NullDeref created);
       push_command cl cmd;;
       no_callback ← StartWriteQuery cmd;
       on_client_buffer cl (fun buf => RB.update_processed_bytes buf (RB.unprocessed_bytes buf));;
       buf ← client_buffer cl;
       c ← command cmd;
       if (0 <? RB.parsed_unreceived_bytes buf) || negb (query_parsing_complete c)
       then when no_callback (Client.TryReadMoreQuery cl);; mret false
       else mret true);
  match created with Some cmd => unhold (HoldCommand cmd) | None => skip end;;
  mret more.

Fixpoint process_unparsed (fuel : nat) (cl : Z) : M unit :=
  x ← client cl;
  if bool_decide (length (active_cmd_queue_ x) < kPipelineActiveLimit)%nat &&
     (0 <? RB.unparsed_received_bytes (cl_buffer_ x))
  then match fuel with
       | O => fault OutOfFuel
       | S fuel' => more ← process_one cl; if more : bool then process_unparsed fuel' cl else skip
       end
  else skip.

Definition ProcessUnparsedQuery (cl : Z) : M unit := process_unparsed kPipelineActiveLimit cl.
