(* ===== verification/CommandReply.v ===== *)
(** * Forwarding replies

    The order in which replies go back to the client:
    [ClientConnection::RotateReplyingCommand] ([proxy/client_conn.cc]) and
    [StartWriteReply], [RotateReplyingBackend] and [NextBackendStartReply] of the
    command classes, then the callbacks a command receives from its backends and
    from the client's socket. *)

From S2P Require Import Prelude CString StdMap ErrorCode ReadBuffer Allocator Config.
From S2P Require Import RedisProtocol KeyDistributer KeyLocator QueryParser BackendConn.
From S2P Require Import ReplyParser World BackendPool Lifetime ConnIO Commands CommandQuery.

Definition mg_set_waiting (l : list Z) (s : MemcGet) : MemcGet :=
  mkMemcGet (mg_subqueries s) l (last_backend_ s) (completed_backends_ s) (received_reply_backends_ s).
Definition mg_set_completed (n : Z) (s : MemcGet) : MemcGet :=
  mkMemcGet (mg_subqueries s) (mg_waiting_reply_queue s) (last_backend_ s) n (received_reply_backends_ s).

(** ** Rotation *)

(** [MemcGetCommand::NextBackendStartReply] with [RotateReplyingBackend], which
    calls it back for a backend that has nothing to forward; every turn takes one
    backend off the queue.  [rotate] is [RotateReplyingCommand]. *)
Fixpoint memc_next (rotate : Z -> M unit) (fuel : nat) (cmd : Z) : M unit :=
  '(c, s) ← memc_get cmd;
  match mg_waiting_reply_queue s with
  | [] => update_command cmd (c_replying_backend None)
  | next :: rest =>
      set_state cmd (CMemcGet (mg_set_waiting rest s));;
      x ← backend next;
      if BC.finished x then
        let n := completed_backends_ s + 1 in
        set_state cmd (CMemcGet (mg_set_completed n (mg_set_waiting rest s)));;
        if n <? zlen (mg_subqueries s)
        then match fuel with
             | O => fault OutOfFuel
             | S fuel' => memc_next rotate fuel' cmd
             end
        else rotate (client_conn_ c)
      else
        TryWriteReply cmd next;;
        update_command cmd (c_replying_backend (Some next))
  end.

Definition MemcGetCommand_NextBackendStartReply (rotate : Z -> M unit) (cmd : Z) : M unit :=
  '(_, s) ← memc_get cmd; memc_next rotate (length (mg_waiting_reply_queue s)) cmd.

(** [StartWriteReply] *)
Definition Command_StartWriteReply (cmd : Z) (c : Command) : M unit :=
  complete ← lift (query_recv_complete c);
  match replying_backend_ c with
  | Some b => when complete (TryWriteReply cmd b)
  | None => skip
  end.

Definition MemcGetCommand_StartWriteReply (rotate : Z -> M unit) (cmd : Z) : M unit :=
  MemcGetCommand_NextBackendStartReply rotate cmd.

(** The virtual call *)
Definition start_write_reply (rotate : Z -> M unit) (cmd : Z) : M unit :=
  c ← command cmd;
  match command_state c with
  | CError reply => ErrorCommand_StartWriteReply cmd c reply
  | CStats reply => StatsCommand_StartWriteReply cmd c reply
  | CRedisMget s => RedisMgetCommand_StartWriteReply cmd c s
  | CMemcGet _ => MemcGetCommand_StartWriteReply rotate cmd
  | _ => Command_StartWriteReply cmd c
  end.

(** [active_cmd_queue_.pop_front()] *)
Definition pop_command (cl : Z) : M unit :=
  x ← client cl;
  match active_cmd_queue_ x with
  | [] => fault NullDeref
  | first :: rest => set_client cl (l_active_cmd_queue rest x);; drop_command first
  end.

(** [RotateReplyingCommand]; a nested call takes a command off the queue too. *)
Fixpoint rotate_command (fuel : nat) (cl : Z) : M unit :=
  x ← client cl;
  when (bool_decide (length (active_cmd_queue_ x) = 1%nat)) (Client.TryReadMoreQuery cl);;
  pop_command cl;;
  x ← client cl;
  match active_cmd_queue_ x with
  | [] => skip
  | next :: _ =>
      match fuel with
      | O => fault OutOfFuel
      | S fuel' => start_write_reply (rotate_command fuel') next
      end;;
      x ← client cl;
      back ← lift (of_option NullDeref (last (active_cmd_queue_ x)));
      c ← command back;
      complete ← lift (query_recv_complete c);
      if negb complete
      then when (negb (RB.recycle_locked (cl_buffer_ x))) (Client.TryReadMoreQuery cl)
      else ProcessUnparsedQuery cl
  end.

Definition RotateReplyingCommand (cl : Z) : M unit :=
  x ← client cl; rotate_command (length (active_cmd_queue_ x)) cl.

Definition StartWriteReply : Z -> M unit := start_write_reply RotateReplyingCommand.

(** ** [RedisMgetCommand]: forwarding the bulks in the order of the keys *)

(** [ParseReply] on the members it uses *)
Definition RedisMgetCommand_ParseReply (cmd b : Z) : M bool :=
  '(c, s) ← redis_mget cmd;
  x ← backend b;
  let ep := remote_endpoint_ x in
  q ← lift (of_option NullDeref (sm_find ep (rm_subqueries s)));
  '(res, st) ← lift (RedisMget_ParseReply
                       (mkMgetParse x (reply_absent_bulks_ q) (head (rm_waiting_reply_queue s).*2)));
  set_backend b (mp_backend st);;
  let queue := match rm_waiting_reply_queue s, mp_front st with
               | (b', _) :: rest, Some n => (b', n) :: rest
               | queue, _ => queue
               end in
  set_state cmd (CRedisMget (mkRedisMget (reply_prefix_ s)
    (sm_set ep (mkMgetSubquery (ms_backend q) (key_count_ q) (query_prefix_ q) (ms_segments q)
                  (mp_absent st)) (rm_subqueries s)) queue));;
  mret res.

Definition RedisMgetCommand_BackendReadyToReply (cmd b : Z) : M unit :=
  '(c, s) ← redis_mget cmd;
  first ← Client.IsFirstCommand (client_conn_ c) cmd;
  if negb first then skip
  else match rm_waiting_reply_queue s with
       | [] => Client.Abort (client_conn_ c)
       | (front, _) :: _ =>
           if negb (bool_decide (reply_prefix_ s = [])) then skip
           else if negb (bool_decide (b = front)) then skip
           else
             update_command cmd (c_replying_backend (Some b));;
             ret ← RedisMgetCommand_ParseReply cmd b;
             if negb ret then Client.Abort (client_conn_ c)
             else
               buf ← backend_buffer b;
               if RB.unprocessed_bytes buf =? 0 then Backend.TryReadMoreReply b
               else TryWriteReply cmd b
       end.

Definition RedisMgetCommand_NextBackendStartReply (cmd : Z) : M unit :=
  '(c, s) ← redis_mget cmd;
  if negb (bool_decide (reply_prefix_ s = [])) then skip
  else match rm_waiting_reply_queue s with
       | [] => fault AssertFailed
       | (front, _) :: _ =>
           buf ← backend_buffer front;
           when (0 <? RB.unparsed_bytes buf) (RedisMgetCommand_BackendReadyToReply cmd front)
       end.

(** ** [RotateReplyingBackend] *)
Definition Command_RotateReplyingBackend (c : Command) : M unit :=
  complete ← lift (query_recv_complete c);
  m_assert complete;;
  RotateReplyingCommand (client_conn_ c).

Definition HasUnfinishedBanckends (s : MemcGet) : bool := completed_backends_ s <? zlen (mg_subqueries s).

Definition MemcGetCommand_RotateReplyingBackend (cmd : Z) : M unit :=
  '(c, s) ← memc_get cmd;
  let s := mg_set_completed (completed_backends_ s + 1) s in
  set_state cmd (CMemcGet s);;
  if HasUnfinishedBanckends s then MemcGetCommand_NextBackendStartReply RotateReplyingCommand cmd
  else RotateReplyingCommand (client_conn_ c).

Definition RedisMgetCommand_RotateReplyingBackend (cmd : Z) : M unit :=
  '(c, s) ← redis_mget cmd;
  if bool_decide (rm_waiting_reply_queue s = []) then RotateReplyingCommand (client_conn_ c)
  else RedisMgetCommand_NextBackendStartReply cmd.

Definition RotateReplyingBackend (cmd : Z) : M unit :=
  c ← command cmd;
  match command_state c with
  | CMemcGet _ => MemcGetCommand_RotateReplyingBackend cmd
  | CRedisMget _ => RedisMgetCommand_RotateReplyingBackend cmd
  | _ => Command_RotateReplyingBackend c
  end.

(** ** [MemcGetCommand]: forwarding backend by backend *)
Definition MemcGetCommand_TryMarkLastBackend (cmd b : Z) : M unit :=
  '(_, s) ← memc_get cmd;
  if bool_decide (b ∈ received_reply_backends_ s) then skip
  else
    let received := b :: received_reply_backends_ s in
    set_state cmd (CMemcGet (mkMemcGet (mg_subqueries s) (mg_waiting_reply_queue s)
      (if zlen received =? zlen (mg_subqueries s) then Some b else last_backend_ s)
      (completed_backends_ s) received)).

Definition MemcGetCommand_TryActivateReplyingBackend (cmd b : Z) : M bool :=
  c ← command cmd;
  match replying_backend_ c with
  | None => update_command cmd (c_replying_backend (Some b));; mret true
  | Some r => mret (bool_decide (b = r))
  end.

Definition MemcGetCommand_BackendReadyToReply (cmd b : Z) : M unit :=
  c ← command cmd;
  first ← Client.IsFirstCommand (client_conn_ c) cmd;
  active ← if first : bool then MemcGetCommand_TryActivateReplyingBackend cmd b else mret false;
  if active : bool then
    x ← backend b;
    if BC.finished x then RotateReplyingBackend cmd else TryWriteReply cmd b
  else
    '(_, s) ← memc_get cmd;
    when (negb (bool_decide (b ∈ mg_waiting_reply_queue s)))
      (set_state cmd (CMemcGet (mg_set_waiting (mg_waiting_reply_queue s ++ [b]) s))).

(** ** Errors of a backend *)
Definition Command_BackendErrorRecoverable (c : Command) : bool := negb (has_written_some_reply_ c).
Definition MemcGetCommand_BackendErrorRecoverable (x : BackendConn) : bool := negb (has_read_some_reply_ x).
Definition RedisMgetCommand_BackendErrorRecoverable (x : BackendConn) : bool := negb (has_read_some_reply_ x).

Definition BackendErrorRecoverable (cmd b : Z) : M bool :=
  c ← command cmd;
  match command_state c with
  | CMemcGet _ => x ← backend b; mret (MemcGetCommand_BackendErrorRecoverable x)
  | CRedisMget _ => x ← backend b; mret (RedisMgetCommand_BackendErrorRecoverable x)
  | _ => mret (Command_BackendErrorRecoverable c)
  end.

(** [set_reply_recv_complete(); set_no_recycle()] *)
Definition mark_failed (b : Z) : M unit :=
  update_backend b BC.set_reply_recv_complete;; update_backend b BC.set_no_recycle.

(** [pending_subqueries_.erase(backend); backend_pool()->Release(backend)] *)
Definition del_forget (cmd b : Z) : M unit :=
  '(_, s) ← redis_del cmd;
  set_state cmd (CRedisDel (mkRedisDel (cmd_name_ s) (rd_unparsed_bulks s) (rd_waiting_subqueries s)
                              (sm_erase b (rd_pending_subqueries s)) (total_del_count_ s)));;
  Release b;;
  drop_backend b.

Definition SetBackendReplyCount (b : Z) (count : Z) : M unit :=
  Backend.SetReplyData b (str ":" ++ dec (u64 count) ++ crlf) true.

(** [if (!buffer()->recycle_locked()) TryReadMoreQuery()] *)
Definition try_read_if_unlocked (cl : Z) : M unit :=
  buf ← client_buffer cl;
  when (negb (RB.recycle_locked buf)) (Client.TryReadMoreQuery cl).

Definition Command_OnBackendRecoverableError (cmd b : Z) (ec : ErrorCode) : M unit :=
  c ← command cmd;
  recoverable ← BackendErrorRecoverable cmd b;
  m_assert recoverable;;
  Backend.SetReplyData b (ErrorReply (cmd_protocol_ c) ec) true;;
  mark_failed b;;
  complete ← lift (query_recv_complete c);
  if complete : bool then
    first ← Client.IsFirstCommand (client_conn_ c) cmd;
    when first (TryWriteReply cmd b)
  else try_read_if_unlocked (client_conn_ c).

Definition MemcGetCommand_OnBackendRecoverableError (cmd b : Z) (ec : ErrorCode) : M unit :=
  MemcGetCommand_TryMarkLastBackend cmd b;;
  '(_, s) ← memc_get cmd;
  when (bool_decide (last_backend_ s = Some b))
    (Backend.SetReplyData b
       (if 1 <? zlen (mg_subqueries s) then END_RN else MemcErrorReply ec) true);;
  mark_failed b;;
  MemcGetCommand_BackendReadyToReply cmd b.

Definition RedisMgetCommand_OnBackendRecoverableError (cmd b : Z) (ec : ErrorCode) : M unit :=
  '(_, s) ← redis_mget cmd;
  x ← backend b;
  q ← lift (of_option NullDeref (sm_find (remote_endpoint_ x) (rm_subqueries s)));
  Backend.SetReplyData b (ErrorReplyBody (key_count_ q)) false;;
  update_backend b BC.set_no_recycle;;
  RedisMgetCommand_BackendReadyToReply cmd b.

Definition RedisDelCommand_OnBackendRecoverableError (cmd b : Z) (ec : ErrorCode) : M unit :=
  mark_failed b;;
  '(_, s) ← redis_del cmd;
  if (rd_unparsed_bulks s =? 0) && (zlen (rd_pending_subqueries s) =? 1)
  then SetBackendReplyCount b (total_del_count_ s);; reply_or_wait cmd b
  else del_forget cmd b.

Definition RedisMsetCommand_OnBackendRecoverableError (cmd b : Z) (ec : ErrorCode) : M unit :=
  recoverable ← BackendErrorRecoverable cmd b;
  m_assert recoverable;;
  Backend.SetReplyData b (RedisErrorReply ec) true;;
  mark_failed b;;
  '(_, s) ← redis_mset cmd;
  i ← lift (of_option NullDeref (sm_find b (rs_pending_subqueries s)));
  q ← lift (of_option NullDeref (subquery_store_ s !! i));
  when (ts_query_recv_complete q)
    (if (rs_unparsed_bulks s =? 0) && (zlen (rs_pending_subqueries s) =? 1)
     then reply_or_wait cmd b else mset_forget cmd b).

Definition OnBackendRecoverableError (cmd b : Z) (ec : ErrorCode) : M unit :=
  c ← command cmd;
  match command_state c with
  | CMemcGet _ => MemcGetCommand_OnBackendRecoverableError cmd b ec
  | CRedisMget _ => RedisMgetCommand_OnBackendRecoverableError cmd b ec
  | CRedisDel _ => RedisDelCommand_OnBackendRecoverableError cmd b ec
  | CRedisMset _ => RedisMsetCommand_OnBackendRecoverableError cmd b ec
  | _ => Command_OnBackendRecoverableError cmd b ec
  end.

(** ** [OnWriteQueryFinished] *)
Definition write_segment (b : Z) (l : list segment) : M unit :=
  match l with
  | (data, bytes) :: _ => Backend.WriteQuery b data bytes
  | [] => fault NullDeref
  end.

Definition dec_client_lock (cl : Z) : M unit := on_client_buffer cl RB.dec_recycle_lock.

(** The rest of the query is wanted and nothing pins the buffer. *)
Definition read_more_if_unlocked (cmd : Z) : M unit :=
  c ← command cmd;
  complete ← lift (query_recv_complete c);
  buf ← client_buffer (client_conn_ c);
  when (negb complete && negb (RB.recycle_locked buf)) (Client.TryReadMoreQuery (client_conn_ c)).

Definition Command_OnWriteQueryFinished (cmd b : Z) (ec : ErrorCode) : M unit :=
  c ← command cmd;
  let cl := client_conn_ c in
  if negb (bool_decide (ec = E_SUCCESS)) then
    recoverable ← BackendErrorRecoverable cmd b;
    if negb recoverable then Client.Abort cl
    else dec_client_lock cl;; OnBackendRecoverableError cmd b ec
  else
    dec_client_lock cl;;
    complete ← lift (query_recv_complete c);
    if complete : bool then Backend.ReadReply b else try_read_if_unlocked cl.

Definition MemcGetCommand_OnWriteQueryFinished (cmd b : Z) (ec : ErrorCode) : M unit :=
  '(c, s) ← memc_get cmd;
  let cl := client_conn_ c in
  if negb (bool_decide (ec = E_SUCCESS)) then
    if bool_decide (ec = E_CONNECT)
    then MemcGetCommand_OnBackendRecoverableError cmd b ec;; dec_client_lock cl
    else Client.Abort cl
  else
    x ← backend b;
    q ← lift (of_option NullDeref (sm_find (remote_endpoint_ x) (mg_subqueries s)));
    let segments := tail (gs_segments q) in
    set_state cmd (CMemcGet (mkMemcGet
      (sm_set (remote_endpoint_ x) (mkGetSubquery (gs_backend q) segments) (mg_subqueries s))
      (mg_waiting_reply_queue s) (last_backend_ s) (completed_backends_ s)
      (received_reply_backends_ s)));;
    if negb (bool_decide (segments = [])) then write_segment (gs_backend q) segments
    else dec_client_lock cl;; Backend.ReadReply b.

Definition RedisMgetCommand_OnWriteQueryFinished (cmd b : Z) (ec : ErrorCode) : M unit :=
  '(c, s) ← redis_mget cmd;
  let cl := client_conn_ c in
  if negb (bool_decide (ec = E_SUCCESS)) then
    if bool_decide (ec = E_CONNECT)
    then RedisMgetCommand_OnBackendRecoverableError cmd b ec;; dec_client_lock cl
    else Client.Abort cl
  else
    x ← backend b;
    q ← lift (of_option NullDeref (sm_find (remote_endpoint_ x) (rm_subqueries s)));
    let segments := tail (ms_segments q) in
    set_state cmd (CRedisMget (mkRedisMget (reply_prefix_ s)
      (sm_set (remote_endpoint_ x) (mkMgetSubquery (ms_backend q) (key_count_ q) (query_prefix_ q)
                                      segments (reply_absent_bulks_ q)) (rm_subqueries s))
      (rm_waiting_reply_queue s)));;
    if negb (bool_decide (segments = [])) then write_segment (ms_backend q) segments
    else dec_client_lock cl;; Backend.ReadReply b.

Definition RedisDelCommand_OnWriteQueryFinished (cmd b : Z) (ec : ErrorCode) : M unit :=
  '(c, s) ← redis_del cmd;
  let cl := client_conn_ c in
  if negb (bool_decide (ec = E_SUCCESS)) then
    if bool_decide (ec = E_CONNECT)
    then RedisDelCommand_OnBackendRecoverableError cmd b ec;;
         dec_client_lock cl;;
         read_more_if_unlocked cmd
    else Client.Abort cl
  else
    q ← lift (of_option NullDeref (sm_find b (rd_pending_subqueries s)));
    let store q := set_state cmd (CRedisDel (mkRedisDel (cmd_name_ s) (rd_unparsed_bulks s)
      (rd_waiting_subqueries s) (sm_set b q (rd_pending_subqueries s)) (total_del_count_ s))) in
    if ds_phase q =? 0 then
      m_assert (negb (bool_decide (ds_segments q = [])));;
      store (mkDelSubquery (ds_backend q) (ds_keys_count q) 1 (ds_segments q));;
      write_segment (ds_backend q) (ds_segments q)
    else if ds_phase q =? 1 then
      let segments := tail (ds_segments q) in
      if bool_decide (segments = []) then
        dec_client_lock cl;;
        store (mkDelSubquery (ds_backend q) (ds_keys_count q) 2 segments);;
        Backend.ReadReply b
      else
        store (mkDelSubquery (ds_backend q) (ds_keys_count q) 1 segments);;
        write_segment (ds_backend q) segments
    else fault AssertFailed.

(** The case [READING_MORE_QUERY], which the case before falls through to *)
Definition mset_query_part_sent (cmd b cl : Z) (i : nat) : M unit :=
  dec_client_lock cl;;
  '(_, s) ← redis_mset cmd;
  q ← lift (of_option NullDeref (subquery_store_ s !! i));
  when (ts_query_recv_complete q)
    (set_state cmd (CRedisMset (set_subquery i (set_phase READING_REPLY q) s));;
     Backend.ReadReply b);;
  read_more_if_unlocked cmd.

Definition RedisMsetCommand_OnWriteQueryFinished (cmd b : Z) (ec : ErrorCode) : M unit :=
  '(c, s) ← redis_mset cmd;
  let cl := client_conn_ c in
  if negb (bool_decide (ec = E_SUCCESS)) then
    if bool_decide (ec = E_CONNECT)
    then RedisMsetCommand_OnBackendRecoverableError cmd b ec;;
         dec_client_lock cl;;
         read_more_if_unlocked cmd
    else Client.Abort cl
  else
    i ← lift (of_option NullDeref (sm_find b (rs_pending_subqueries s)));
    q ← lift (of_option NullDeref (subquery_store_ s !! i));
    let store q := set_state cmd (CRedisMset (set_subquery i q s)) in
    match ts_phase q with
    | INIT_SEND_QUERY =>
        store (set_phase SENDING_MORE_QUERY q);;
        write_segment (ts_backend q) (ts_segments q)
    | SENDING_MORE_QUERY =>
        let q := pop_segment q in
        if negb (bool_decide (ts_segments q = [])) then
          store q;;
          write_segment (ts_backend q) (ts_segments q)
        else
          store (if ts_query_recv_complete q then q else set_phase READING_MORE_QUERY q);;
          mset_query_part_sent cmd b cl i
    | READING_MORE_QUERY => mset_query_part_sent cmd b cl i
    | READING_REPLY => fault AssertFailed
    end.

Definition OnWriteQueryFinished (cmd b : Z) (ec : ErrorCode) : M unit :=
  c ← command cmd;
  match command_state c with
  | CMemcGet _ => MemcGetCommand_OnWriteQueryFinished cmd b ec
  | CRedisMget _ => RedisMgetCommand_OnWriteQueryFinished cmd b ec
  | CRedisDel _ => RedisDelCommand_OnWriteQueryFinished cmd b ec
  | CRedisMset _ => RedisMsetCommand_OnWriteQueryFinished cmd b ec
  | _ => Command_OnWriteQueryFinished cmd b ec
  end.

(** ** [ParseReply], on the members it uses *)
Definition Command_ParseReply (b : Z) (protocol : ProtocolType) : M bool :=
  x ← backend b;
  '(res, x) ← lift (ParseSimpleReply protocol x);
  set_backend b x;;
  mret res.
Definition MemcGetCommand_ParseReply (b : Z) (s : MemcGet) : M bool :=
  x ← backend b;
  '(res, x) ← lift (MemcGet_ParseReply (bool_decide (last_backend_ s = Some b)) x);
  set_backend b x;;
  mret res.
Definition RedisDelCommand_ParseReply (cmd b : Z) (s : RedisDel) : M bool :=
  x ← backend b;
  '(res, count, x) ← lift (RedisDel_ParseReply (total_del_count_ s) x);
  set_backend b x;;
  set_state cmd (CRedisDel (mkRedisDel (cmd_name_ s) (rd_unparsed_bulks s)
    (rd_waiting_subqueries s) (rd_pending_subqueries s) count));;
  mret res.

Definition ParseReply (cmd b : Z) : M bool :=
  c ← command cmd;
  match command_state c with
  | CError _ | CStats _ => fault AssertFailed
  | CMemcGet s => MemcGetCommand_ParseReply b s
  | CRedisMget _ => RedisMgetCommand_ParseReply cmd b
  | CRedisDel s => RedisDelCommand_ParseReply cmd b s
  | _ => Command_ParseReply b (cmd_protocol_ c)
  end.

(** ** [OnBackendReplyReceived] *)

(** [if (ec == E_SUCCESS && !ParseReply(backend)) ec = E_PROTOCOL] *)
Definition parse_if_ok (cmd b : Z) (ec : ErrorCode) : M ErrorCode :=
  if bool_decide (ec = E_SUCCESS)
  then good ← ParseReply cmd b; mret (if good : bool then E_SUCCESS else E_PROTOCOL)
  else mret ec.

Definition reply_error (cmd b : Z) (ec : ErrorCode) : M unit :=
  c ← command cmd;
  recoverable ← BackendErrorRecoverable cmd b;
  if negb recoverable then Client.Abort (client_conn_ c)
  else OnBackendRecoverableError cmd b ec.

(** The reply of a sub-query that is not forwarded *)
Definition consume_reply (b : Z) : M unit :=
  buf ← backend_buffer b;
  m_assert (RB.unparsed_bytes buf =? 0);;
  on_backend_buffer b (fun buf => RB.update_processed_bytes buf (RB.unprocessed_bytes buf)).

Definition read_more_bulks (cl : Z) (unparsed_bulks : Z) : M unit :=
  buf ← client_buffer cl;
  when (negb (RB.recycle_locked buf) && (0 <? unparsed_bulks)) (Client.TryReadMoreQuery cl).

Definition Command_OnBackendReplyReceived (cmd b : Z) (ec : ErrorCode) : M unit :=
  ec ← parse_if_ok cmd b ec;
  if negb (bool_decide (ec = E_SUCCESS)) then reply_error cmd b ec
  else
    c ← command cmd;
    first ← Client.IsFirstCommand (client_conn_ c) cmd;
    when first (TryWriteReply cmd b);;
    Backend.TryReadMoreReply b.

Definition MemcGetCommand_OnBackendReplyReceived (cmd b : Z) (ec : ErrorCode) : M unit :=
  MemcGetCommand_TryMarkLastBackend cmd b;;
  ec ← parse_if_ok cmd b ec;
  if negb (bool_decide (ec = E_SUCCESS)) then reply_error cmd b ec
  else MemcGetCommand_BackendReadyToReply cmd b;; Backend.TryReadMoreReply b.

Definition RedisMgetCommand_OnBackendReplyReceived (cmd b : Z) (ec : ErrorCode) : M unit :=
  c ← command cmd;
  if negb (bool_decide (ec = E_SUCCESS)) then
    if bool_decide (replying_backend_ c = Some b) then Client.Abort (client_conn_ c)
    else RedisMgetCommand_OnBackendRecoverableError cmd b ec
  else RedisMgetCommand_BackendReadyToReply cmd b.

Definition RedisDelCommand_OnBackendReplyReceived (cmd b : Z) (ec : ErrorCode) : M unit :=
  ec ← parse_if_ok cmd b ec;
  '(c, s) ← redis_del cmd;
  if negb (bool_decide (ec = E_SUCCESS)) then Client.Abort (client_conn_ c)
  else
    x ← backend b;
    if negb (reply_recv_complete_ x) then Backend.TryReadMoreReply b
    else if (rd_unparsed_bulks s =? 0) && (zlen (rd_pending_subqueries s) =? 1)
    then SetBackendReplyCount b (total_del_count_ s);; reply_or_wait cmd b
    else
      consume_reply b;;
      del_forget cmd b;;
      read_more_bulks (client_conn_ c) (rd_unparsed_bulks s).

Definition RedisMsetCommand_OnBackendReplyReceived (cmd b : Z) (ec : ErrorCode) : M unit :=
  ec ← parse_if_ok cmd b ec;
  '(c, s) ← redis_mset cmd;
  if negb (bool_decide (ec = E_SUCCESS)) then Client.Abort (client_conn_ c)
  else
    x ← backend b;
    if negb (reply_recv_complete_ x) then Backend.TryReadMoreReply b
    else
      m_assert (bool_decide (rs_waiting_subqueries s = []));;
      if (rs_unparsed_bulks s =? 0) && (zlen (rs_pending_subqueries s) =? 1)
      then reply_or_wait cmd b
      else
        consume_reply b;;
        mset_forget cmd b;;
        read_more_bulks (client_conn_ c) (rs_unparsed_bulks s).

Definition OnBackendReplyReceived (cmd b : Z) (ec : ErrorCode) : M unit :=
  c ← command cmd;
  match command_state c with
  | CError _ | CStats _ => fault AssertFailed
  | CMemcGet _ => MemcGetCommand_OnBackendReplyReceived cmd b ec
  | CRedisMget _ => RedisMgetCommand_OnBackendReplyReceived cmd b ec
  | CRedisDel _ => RedisDelCommand_OnBackendReplyReceived cmd b ec
  | CRedisMset _ => RedisMsetCommand_OnBackendReplyReceived cmd b ec
  | _ => Command_OnBackendReplyReceived cmd b ec
  end.

(** ** [OnWriteReplyFinished] *)

(** [assert(is_writing_reply_); is_writing_reply_ = false;
    backend->buffer()->dec_recycle_lock()] *)
Definition reply_part_written (cmd b : Z) : M unit :=
  c ← command cmd;
  m_assert (cmd_is_writing_reply_ c);;
  update_command cmd (c_cmd_is_writing_reply false);;
  on_backend_buffer b RB.dec_recycle_lock.

Definition Command_OnWriteReplyFinished (cmd : Z) (b : option Z) (ec : ErrorCode) : M unit :=
  c ← command cmd;
  if negb (bool_decide (ec = E_SUCCESS)) then Client.Abort (client_conn_ c)
  else
    b ← lift (of_option NullDeref b);
    reply_part_written cmd b;;
    x ← backend b;
    if BC.finished x then
      m_assert (negb (RB.recycle_locked (buffer_ x)));;
      c ← command cmd;
      complete ← lift (query_recv_complete c);
      m_assert complete;;
      RotateReplyingBackend cmd
    else
      Backend.TryReadMoreReply b;;
      TryWriteReply cmd b.

Definition ErrorCommand_OnWriteReplyFinished (cmd : Z) (b : option Z) (ec : ErrorCode) : M unit :=
  c ← command cmd;
  m_assert (bool_decide (b = None));;
  Client.Abort (client_conn_ c).

Definition StatsCommand_OnWriteReplyFinished (cmd : Z) (b : option Z) (ec : ErrorCode) : M unit :=
  m_assert (bool_decide (b = None));;
  RotateReplyingBackend cmd.

Definition RedisMgetCommand_OnWriteReplyFinished (cmd : Z) (b : option Z) (ec : ErrorCode) : M unit :=
  '(c, s) ← redis_mget cmd;
  if negb (bool_decide (ec = E_SUCCESS)) then Client.Abort (client_conn_ c)
  else match b with
  | None =>
      set_state cmd (CRedisMget (mkRedisMget [] (rm_subqueries s) (rm_waiting_reply_queue s)));;
      RedisMgetCommand_NextBackendStartReply cmd
  | Some b =>
      reply_part_written cmd b;;
      m_assert (bool_decide (head (rm_waiting_reply_queue s).*1 = Some b));;
      m_assert (bool_decide (replying_backend_ c = Some b));;
      buf ← backend_buffer b;
      if RB.parsed_unreceived_bytes buf =? 0 then
        when (bool_decide (head (rm_waiting_reply_queue s).*2 = Some 0))
          (set_state cmd (CRedisMget (mkRedisMget (reply_prefix_ s) (rm_subqueries s)
                                        (tail (rm_waiting_reply_queue s)))));;
        RotateReplyingBackend cmd
      else Backend.TryReadMoreReply b
  end.

Definition OnWriteReplyFinished (cmd : Z) (b : option Z) (ec : ErrorCode) : M unit :=
  c ← command cmd;
  match command_state c with
  | CError _ => ErrorCommand_OnWriteReplyFinished cmd b ec
  | CStats _ => StatsCommand_OnWriteReplyFinished cmd b ec
  | CRedisMget _ => RedisMgetCommand_OnWriteReplyFinished cmd b ec
  | _ => Command_OnWriteReplyFinished cmd b ec
  end.
