(* ===== verification/Order.v ===== *)
(** * The order of replies

    The commands of a client are answered in the order of its queries: a write to
    the client's socket belongs to the command at the front of
    [active_cmd_queue_] (or to one that has left the queue), and a second write is
    not started before the first one has ended.  [wf] says so of a state, with
    what keeps it true; this file shows that the elementary updates the proxy's
    functions are made of preserve it. *)

From S2P Require Import Prelude CString StdMap ErrorCode ReadBuffer Allocator Config.
From S2P Require Import RedisProtocol KeyDistributer KeyLocator QueryParser BackendConn.
From S2P Require Import ReplyParser World BackendPool Lifetime ConnIO Commands CommandQuery.

(** ** Well-formed states *)
Definition write_to (c : Z) (op : io_op) : bool :=
  match op with ClientWrite c' _ _ _ _ => bool_decide (c' = c) | _ => false end.
Definition is_write (op : io_op) : bool :=
  match op with ClientWrite _ _ _ _ _ => true | _ => false end.

(** The writes to client [c] that are outstanding *)
Definition writes (w : World) (c : Z) : list io_op :=
  filter (fun op => write_to c op = true) (in_flight w).

(** [cmd] belongs to client [c]. *)
Definition owned (w : World) (cmd c : Z) : Prop :=
  forall k, commands w !! cmd = Some k -> client_conn_ k = c.

(** It is the turn of [cmd] to be answered, or it has been answered. *)
Definition in_turn (w : World) (c cmd : Z) : Prop :=
  forall x, clients w !! c = Some x ->
    head (active_cmd_queue_ x) = Some cmd \/ cmd ∉ active_cmd_queue_ x.

Record wf (w : World) : Prop := {
  wf_command cmd k : commands w !! cmd = Some k -> cmd < next_id w;
  wf_client c x :
    clients w !! c = Some x -> c < next_id w /\ StronglySorted Z.lt (active_cmd_queue_ x);
  wf_queued c x cmd :
    clients w !! c = Some x -> cmd ∈ active_cmd_queue_ x -> cmd < next_id w /\ owned w cmd c;
  wf_write c p n cmd b :
    ClientWrite c p n cmd b ∈ in_flight w ->
    c < next_id w /\ cmd < next_id w /\ owned w cmd c /\ in_turn w c cmd;
  wf_single c : (length (writes w c) <= 1)%nat;
  wf_idle c x : clients w !! c = Some x -> cl_is_writing_reply_ x = false -> writes w c = []
}.

(** ** Facts

    What a function knows about the commands it handles and what nothing it calls
    can make false. *)
Inductive fact :=
| Own (cmd c : Z)
| Turn (c cmd : Z).

Definition holds (w : World) (f : fact) : Prop :=
  match f with
  | Own cmd c => cmd < next_id w /\ owned w cmd c
  | Turn c cmd => cmd < next_id w /\ in_turn w c cmd
  end.

Definition keeps (S : list fact) (w w' : World) : Prop :=
  wf w -> Forall (holds w) S -> wf w' /\ Forall (holds w') S /\ next_id w <= next_id w'.

#[global] Instance keeps_preorder S : PreOrder (keeps S).
Proof.
  split; [by intros w Hw Hs|]. intros w1 w2 w3 H12 H23 Hw Hs.
  destruct (H12 Hw Hs) as (Hw2 & Hs2 & H2). destruct (H23 Hw2 Hs2) as (Hw3 & Hs3 & H3).
  split_and!; [done..|lia].
Qed.

(** Commands, queues and writes may go away, identifiers are not used twice. *)
Record shrinks (w w' : World) : Prop := {
  shrinks_next : next_id w <= next_id w';
  shrinks_commands cmd k' : commands w' !! cmd = Some k' ->
    exists k, commands w !! cmd = Some k /\ client_conn_ k' = client_conn_ k;
  shrinks_clients c x' : clients w' !! c = Some x' ->
    exists x, clients w !! c = Some x /\ active_cmd_queue_ x' `suffix_of` active_cmd_queue_ x /\
      (cl_is_writing_reply_ x' = false -> cl_is_writing_reply_ x = false);
  shrinks_writes c : writes w' c `sublist_of` writes w c
}.

Lemma elem_of_writes w c op : op ∈ writes w c <-> write_to c op = true /\ op ∈ in_flight w.
Proof. unfold writes. apply (list_elem_of_filter (fun op => write_to c op = true)). Qed.

Lemma writes_elem w c p n cmd b : ClientWrite c p n cmd b ∈ in_flight w <-> ClientWrite c p n cmd b ∈ writes w c.
Proof. rewrite elem_of_writes. simpl. rewrite bool_decide_eq_true_2 by done. naive_solver. Qed.

Lemma owned_shrinks w w' cmd c : shrinks w w' -> owned w cmd c -> owned w' cmd c.
Proof. intros Hs Ho k' Hk. destruct (shrinks_commands _ _ Hs cmd k' Hk) as (k & Hk' & ->). by apply Ho. Qed.

Lemma sorted_NoDup q : StronglySorted Z.lt q -> NoDup q.
Proof.
  induction 1 as [|a q _ IH Hq]; constructor; [|done]. intros Ha.
  rewrite Forall_forall in Hq. specialize (Hq a Ha). lia.
Qed.
Lemma sorted_suffix q q' : StronglySorted Z.lt q -> q' `suffix_of` q -> StronglySorted Z.lt q'.
Proof. intros Hq [l ->]. by eapply StronglySorted_app_1_r. Qed.
Lemma sorted_snoc q a :
  StronglySorted Z.lt q -> (forall k, k ∈ q -> k < a) -> StronglySorted Z.lt (q ++ [a]).
Proof.
  intros Hq Ha. apply StronglySorted_app_2; [|done|by repeat constructor].
  intros k j Hk ->%list_elem_of_singleton. by apply Ha.
Qed.

Lemma suffix_turn {A} (q q' : list A) a :
  NoDup q -> q' `suffix_of` q -> head q = Some a \/ a ∉ q -> head q' = Some a \/ a ∉ q'.
Proof.
  intros Hnd [l ->] [Hh|Hn]; [|right; intros Ha; apply Hn; set_solver].
  destruct l as [|b l]; [by left|]. right. simpl in Hh. injection Hh as ->.
  apply NoDup_cons in Hnd as [Hn _]. set_solver.
Qed.

Lemma in_turn_shrinks w w' c cmd : wf w -> shrinks w w' -> in_turn w c cmd -> in_turn w' c cmd.
Proof.
  intros Hw Hs Ht x' Hx. destruct (shrinks_clients _ _ Hs c x' Hx) as (x & Hx' & Hq & _).
  destruct (wf_client w Hw c x Hx') as [_ Hnd%sorted_NoDup]. by eapply suffix_turn; [|exact Hq|apply Ht].
Qed.

Lemma shrinks_keeps S w w' : shrinks w w' -> keeps S w w'.
Proof.
  intros Hs Hw Hf. pose proof (shrinks_next _ _ Hs) as Hn. split_and!; [|..|done].
  - split.
    + intros cmd k' Hk. destruct (shrinks_commands _ _ Hs cmd k' Hk) as (k & Hk' & _).
      pose proof (wf_command w Hw cmd k Hk'). lia.
    + intros c x' Hx. destruct (shrinks_clients _ _ Hs c x' Hx) as (x & Hx' & Hq & _).
      destruct (wf_client w Hw c x Hx') as [Hc Hnd]. split; [lia|].
      by eapply sorted_suffix.
    + intros c x' cmd Hx Hcmd. destruct (shrinks_clients _ _ Hs c x' Hx) as (x & Hx' & [l Hq] & _).
      destruct (wf_queued w Hw c x cmd Hx') as [Hc Ho]; [rewrite Hq; set_solver|].
      split; [lia|by eapply owned_shrinks].
    + intros c p n cmd b Hop%writes_elem. destruct (wf_write w Hw c p n cmd b) as (Hc & Hcmd & Ho & Ht).
      { apply writes_elem. eapply elem_of_submseteq; [exact Hop|].
        apply sublist_submseteq, (shrinks_writes _ _ Hs). }
      split_and!; [lia..|by eapply owned_shrinks|by eapply in_turn_shrinks].
    + intros c. pose proof (wf_single w Hw c). pose proof (sublist_length _ _ (shrinks_writes _ _ Hs c)). lia.
    + intros c x' Hx Hi. destruct (shrinks_clients _ _ Hs c x' Hx) as (x & Hx' & _ & Hfl).
      pose proof (wf_idle w Hw c x Hx' (Hfl Hi)) as Hn'. pose proof (shrinks_writes _ _ Hs c) as Hsub.
      rewrite Hn' in Hsub. by apply sublist_nil_r in Hsub.
  - eapply Forall_impl; [exact Hf|]. intros [cmd c|c cmd] [Hc Ho]; simpl; (split; [lia|]).
    + by eapply owned_shrinks.
    + by eapply in_turn_shrinks.
Qed.

(** ** Elementary updates *)
Lemma shrinks_same w w' :
  clients w' = clients w -> commands w' = commands w -> in_flight w' = in_flight w ->
  next_id w <= next_id w' -> shrinks w w'.
Proof.
  intros Hc Hk Hi Hn. split; [done|..].
  - rewrite Hk. eauto.
  - rewrite Hc. eauto.
  - intros c. unfold writes. by rewrite Hi.
Qed.

Lemma shrinks_set_client w c x x' :
  clients w !! c = Some x -> active_cmd_queue_ x' `suffix_of` active_cmd_queue_ x ->
  (cl_is_writing_reply_ x' = false -> cl_is_writing_reply_ x = false) ->
  shrinks w (w_clients (<[c := x']> (clients w)) w).
Proof.
  intros Hx Hq Hf. split; cbn; [done|eauto| |done].
  intros d y. rewrite lookup_insert_Some. intros [[<- <-]|[_ Hy]]; eauto.
Qed.

Lemma shrinks_delete_client w c : shrinks w (w_clients (delete c (clients w)) w).
Proof. split; cbn; [done|eauto| |done]. intros d y [_ Hy]%lookup_delete_Some. eauto. Qed.

Lemma shrinks_set_command w cmd k k' :
  commands w !! cmd = Some k -> client_conn_ k' = client_conn_ k ->
  shrinks w (w_commands (<[cmd := k']> (commands w)) w).
Proof.
  intros Hk Hc. split; cbn; [done| |eauto|done].
  intros d y. rewrite lookup_insert_Some. intros [[<- <-]|[_ Hy]]; eauto.
Qed.

Lemma shrinks_delete_command w cmd : shrinks w (w_commands (delete cmd (commands w)) w).
Proof. split; cbn; [done| |eauto|done]. intros d y [_ Hy]%lookup_delete_Some. eauto. Qed.

Lemma shrinks_start w op : is_write op = false -> shrinks w (w_in_flight (in_flight w ++ [op]) w).
Proof.
  intros Hop. split; cbn; [done|eauto..|]. intros c. unfold writes. cbn.
  rewrite filter_app, filter_cons_False, app_nil_r; [done|]. destruct op; simpl in *; congruence.
Qed.

Lemma filter_sublist_mono {A} (P : A -> Prop) `{!forall x, Decision (P x)} (l k : list A) :
  l `sublist_of` k -> filter P l `sublist_of` filter P k.
Proof.
  induction 1 as [|x l k _ IH|x l k _ IH]; rewrite ?filter_cons; [done|..];
    destruct (decide (P x)); by try constructor.
Qed.

Lemma shrinks_finish w i : shrinks w (w_in_flight (delete i (in_flight w)) w).
Proof. split; cbn; [done|eauto..|]. intros c. apply filter_sublist_mono, sublist_delete. Qed.

(** *** A new command *)
Definition fact_below (n : Z) (f : fact) : Prop :=
  match f with Own cmd _ | Turn _ cmd => cmd < n end.

Lemma holds_below w f : holds w f -> fact_below (next_id w) f.
Proof. by destruct f; intros [? _]. Qed.

Lemma keeps_new_command S cl p r s w cmd w' :
  new_command cl p r s w = Ok (cmd, w') -> keeps S w w'.
Proof.
  unfold new_command, fresh_id, hold, set_command, modify, get, mret, M_ret, mbind, M_bind.
  intros [= <- <-] Hw Hf.
  assert (forall cmd c, cmd < next_id w -> owned w cmd c ->
    owned (w_commands (<[next_id w := mkCommand cl p r false false s]> (commands w)) w) cmd c) as Ho.
  { intros cmd c Hc Ho k. cbn. rewrite lookup_insert_ne by lia. apply Ho. }
  split_and!; [|..|cbn; lia].
  - split; cbn.
    + intros cmd k. rewrite lookup_insert_Some. intros [[<- _]|[_ Hk]]; [lia|].
      pose proof (wf_command w Hw cmd k Hk). lia.
    + intros c x Hx. destruct (wf_client w Hw c x Hx). split; [lia|done].
    + intros c x cmd Hx Hcmd. destruct (wf_queued w Hw c x cmd Hx Hcmd) as [Hc Hown].
      split; [lia|by apply Ho].
    + intros c q n cmd b Hop. destruct (wf_write w Hw c q n cmd b Hop) as (H1 & H2 & H3 & H4).
      split_and!; [lia..|by apply Ho|done].
    + apply (wf_single w Hw).
    + apply (wf_idle w Hw).
  - eapply Forall_impl; [exact Hf|]. intros [cmd c|c cmd] [Hc Hh]; cbn; (split; [lia|]); [by apply Ho|done].
Qed.

(** *** A command is queued *)
Lemma keeps_push S c cmd w w' :
  push_command c cmd w = Ok (tt, w') -> wf w -> Forall (holds w) S ->
  (forall d x k, clients w !! d = Some x -> k ∈ active_cmd_queue_ x -> k < cmd) ->
  (forall d p n b, ClientWrite d p n cmd b ∉ in_flight w) ->
  Forall (fact_below cmd) S -> cmd < next_id w -> owned w cmd c ->
  wf w' /\ Forall (holds w') S /\ next_id w <= next_id w'.
Proof.
  unfold push_command, update_client, client, set_client, get, lift, of_option, modify, mbind, M_bind.
  destruct (clients w !! c) as [x|] eqn:Hx; [|done]. intros [= <-] Hw Hf Hq Hop Hb Hn Ho.
  assert (forall d k, k <> cmd -> in_turn w d k ->
    in_turn (w_clients (<[c := l_active_cmd_queue (active_cmd_queue_ x ++ [cmd]) x]> (clients w)) w) d k)
    as Hturn.
  { intros d k Hk Ht y. cbn. rewrite lookup_insert_Some. intros [[<- <-]|[_ Hy]]; [|by apply Ht]. cbn.
    destruct (Ht x Hx) as [Hh|Hh]; [left|right; set_solver]. by destruct (active_cmd_queue_ x). }
  split_and!; [|..|done].
  - split; cbn.
    + apply (wf_command w Hw).
    + intros d y. rewrite lookup_insert_Some. intros [[<- <-]|[_ Hy]]; [|by apply (wf_client w Hw)].
      destruct (wf_client w Hw c x Hx) as [Hc Hs]. split; [done|]. cbn. apply sorted_snoc; [done|].
      intros k Hk. by apply (Hq c x).
    + intros d y k. rewrite lookup_insert_Some. intros [[<- <-]|[_ Hy]]; [|by apply (wf_queued w Hw d y)].
      cbn. intros [Hk| ->%list_elem_of_singleton]%elem_of_app; [by apply (wf_queued w Hw c x)|done].
    + intros d p n k b Hw'. destruct (wf_write w Hw d p n k b Hw') as (H1 & H2 & H3 & H4).
      split_and!; [done..|]. apply Hturn; [|done]. intros ->. by apply (Hop d p n b).
    + apply (wf_single w Hw).
    + intros d y. rewrite lookup_insert_Some. intros [[<- <-]|[_ Hy]]; [|by apply (wf_idle w Hw d y)].
      by apply (wf_idle w Hw c x).
  - clear -Hf Hb Hturn. induction Hf as [|f S Hh _ IH]; [constructor|].
    apply Forall_cons in Hb as [Hb1 Hb2]. constructor; [|by apply IH].
    destruct f as [k d|d k]; [exact Hh|]. destruct Hh as [Hk Ht]. split; [exact Hk|]. simpl in Hb1.
    apply Hturn; [lia|done].
Qed.

(** *** A write is started by the command whose turn it is *)
Lemma keeps_WriteReply S c p n cmd b w w' :
  Turn c cmd ∈ S -> Own cmd c ∈ S -> Client.WriteReply c p n cmd b w = Ok (tt, w') -> keeps S w w'.
Proof.
  unfold Client.WriteReply, Client.UpdateTimer. intros Ht Ho H Hw Hf.
  destruct (clients w !! c) as [x|] eqn:Hx;
    [|by unfold client, get, lift, of_option, mbind, M_bind in H; rewrite Hx in H].
  assert (cl_is_writing_reply_ x = false /\ clients w' = <[c := l_is_writing_reply true x]> (clients w) /\
    commands w' = commands w /\ next_id w' = next_id w /\
    in_flight w' = in_flight w ++ [ClientWrite c p n cmd b]) as (Hi & Hc & Hk & Hn & Hfl).
  { unfold client, get, lift, of_option, m_assert, res_assert, update_client, set_client, modify, start,
      arm_timer, cancel_timer, skip, mret, M_ret, mbind, M_bind in H.
    rewrite Hx in H. destruct (cl_is_writing_reply_ x) eqn:Hi; [done|]. simpl in H.
    unfold client, get, lift, of_option, mbind, M_bind in H. cbn in H. rewrite Hx in H. cbn in H.
    rewrite lookup_insert_eq in H. destruct (cl_aborted_ _); by injection H as <-. }
  clear H. pose proof (proj1 (Forall_forall _ _) Hf _ Ht) as [Hcmd Hturn].
  pose proof (proj1 (Forall_forall _ _) Hf _ Ho) as [_ Hown].
  assert (forall d k, in_turn w d k -> in_turn w' d k) as Hturn'.
  { intros d k Hdk y. rewrite Hc, lookup_insert_Some. intros [[<- <-]|[_ Hy]]; [by apply (Hdk x)|by apply Hdk]. }
  assert (forall d, d <> c -> writes w' d = writes w d) as Hwne.
  { intros d Hd. unfold writes. rewrite Hfl, filter_app, filter_cons_False, app_nil_r; [done|]. simpl.
    rewrite bool_decide_eq_false_2; congruence. }
  assert (writes w' c = [ClientWrite c p n cmd b]) as Hwc.
  { unfold writes. rewrite Hfl, filter_app, filter_cons_True by (simpl; by apply bool_decide_eq_true).
    change (writes w c ++ [ClientWrite c p n cmd b] = [ClientWrite c p n cmd b]).
    by rewrite (wf_idle w Hw c x Hx Hi). }
  split_and!; [| |lia].
  - split; rewrite ?Hn.
    + rewrite Hk. apply (wf_command w Hw).
    + intros d y. rewrite Hc, lookup_insert_Some. intros [[<- <-]|[_ Hy]]; [by apply (wf_client w Hw _ x)|].
      by apply (wf_client w Hw).
    + intros d y k. unfold owned. rewrite Hc, Hk, lookup_insert_Some.
      intros [[<- <-]|[_ Hy]]; [by apply (wf_queued w Hw _ x)|by apply (wf_queued w Hw _ y)].
    + intros d q m k r. unfold owned. rewrite Hfl, Hk, elem_of_app, list_elem_of_singleton.
      intros [Hop|[= -> -> -> -> ->]].
      * destruct (wf_write w Hw d q m k r Hop) as (? & ? & ? & ?). split_and!; auto.
      * destruct (wf_client w Hw c x Hx) as [? _]. split_and!; auto.
    + intros d. destruct (decide (d = c)) as [->|Hd]; [by rewrite Hwc|]. rewrite Hwne by done.
      apply (wf_single w Hw).
    + intros d y. rewrite Hc, lookup_insert_Some. intros [[<- <-]|[Hd Hy]]; [done|].
      rewrite Hwne by congruence. by apply (wf_idle w Hw).
  - eapply Forall_impl; [exact Hf|]. intros [k d|d k] [H1 H2]; simpl; rewrite Hn; (split; [done|]).
    + unfold owned. by rewrite Hk.
    + by apply Hturn'.
Qed.

(** *** A write has ended *)
Lemma keeps_written S c x w :
  clients w !! c = Some x -> writes w c = [] ->
  keeps S w (w_clients (<[c := l_is_writing_reply false x]> (clients w)) w).
Proof.
  intros Hx Hnil Hw Hf.
  assert (forall d k, in_turn w d k ->
    in_turn (w_clients (<[c := l_is_writing_reply false x]> (clients w)) w) d k) as Hturn.
  { intros d k Hdk y. cbn. rewrite lookup_insert_Some. intros [[<- <-]|[_ Hy]]; [by apply (Hdk x)|by apply Hdk]. }
  split_and!; [| |done].
  - split; cbn.
    + apply (wf_command w Hw).
    + intros d y. rewrite lookup_insert_Some. intros [[<- <-]|[_ Hy]]; [by apply (wf_client w Hw _ x)|].
      by apply (wf_client w Hw).
    + intros d y k. rewrite lookup_insert_Some.
      intros [[<- <-]|[_ Hy]]; [by apply (wf_queued w Hw _ x)|by apply (wf_queued w Hw _ y)].
    + intros d q m k r Hop. destruct (wf_write w Hw d q m k r Hop) as (? & ? & ? & ?). split_and!; auto.
    + apply (wf_single w Hw).
    + intros d y. rewrite lookup_insert_Some. intros [[<- <-]|[Hd Hy]]; [done|]. by apply (wf_idle w Hw).
  - eapply Forall_impl; [exact Hf|]. intros [k d|d k] [H1 H2]; (split; [done|]); [done|by apply Hturn].
Qed.
