(* ===== verification/Worker.v ===== *)
(** * The event loop of a worker

    The completion handlers of [ClientConnection] and [BackendConn], the timers,
    the acceptor's handler ([proxy/proxy_server.cc]) and the update of the key
    locator ([WorkerPool::OnLocatorUpdated]), as the steps of a worker.  The
    environment (kernel, peers, clock) chooses which outstanding operation
    completes next and how. *)

From S2P Require Import Prelude CString StdMap ErrorCode ReadBuffer Allocator Config.
From S2P Require Import RedisProtocol KeyDistributer KeyLocator QueryParser BackendConn.
From S2P Require Import ReplyParser World BackendPool Lifetime ConnIO Commands CommandQuery.
From S2P Require Import CommandReply.

(** ** Callbacks bound by [WeakBind] *)
Definition with_command (cmd : Z) (m : M unit) : M unit :=
  w ← get;
  when (bool_decide (is_Some (commands w !! cmd))) (holding (HoldCommand cmd) m).

Definition query_sent_callback (b : Z) (ec : ErrorCode) : M unit :=
  x ← backend b;
  cmd ← lift (of_option StdException (callback_ x));
  with_command cmd (OnWriteQueryFinished cmd b ec).

Definition reply_received_callback (b : Z) (ec : ErrorCode) : M unit :=
  x ← backend b;
  cmd ← lift (of_option StdException (callback_ x));
  with_command cmd (OnBackendReplyReceived cmd b ec).

(** The callback of [WriteReply]; a backend that is gone locks to null. *)
Definition reply_written_callback (cmd : Z) (b : option Z) (ec : ErrorCode) : M unit :=
  w ← get;
  match b with
  | Some b =>
      if bool_decide (is_Some (backends w !! b))
      then with_command cmd (holding (HoldBackend b) (OnWriteReplyFinished cmd (Some b) ec))
      else with_command cmd (OnWriteReplyFinished cmd None ec)
  | None => with_command cmd (OnWriteReplyFinished cmd None ec)
  end.

(** ** What a socket does with the memory of an operation *)
Definition source_bytes (p : source) (n : Z) : M bytes :=
  match p with
  | InClient c off => buf ← client_buffer c; lift (read_bytes (data_ buf) off n)
  | InBackend b off => buf ← backend_buffer b; lift (read_bytes (data_ buf) off n)
  | Constant s => lift (read_bytes s 0 n)
  end.

Definition emit (o : output) : M unit := modify (fun w => w_trace (trace w ++ [o]) w).

(** ** Outcomes *)
Inductive outcome :=
| Failed
| Eof
| Connected
| Sent (n : Z)
| Received (bs : bytes).

(** ** Handlers of [BackendConn] *)
Definition stop_write_timer (b : Z) : M unit :=
  cancel_timer (BackendWriteTimer b);; update_backend b (BC.set_write_timer_canceled true).

Definition Backend_HandleWrite (b : Z) (data : source) (bytes : Z) (error : bool) (transferred : Z)
    : M unit :=
  x ← backend b;
  if aborted_ x then skip
  else
    stop_write_timer b;;
    if error then
      update_backend b (BC.set_socket_open false);;
      query_sent_callback b E_WRITE_QUERY
    else
      on_stats (add_bytes_to_backends transferred);;
      if transferred <? bytes
      then Backend.AsyncWrite b (source_add data transferred) (bytes - transferred)
      else query_sent_callback b E_SUCCESS.

Definition Backend_HandleRead (b : Z) (error : bool) (transferred : Z) : M unit :=
  x ← backend b;
  if aborted_ x then skip
  else
    cancel_timer (BackendReadTimer b);;
    update_backend b (BC.set_read_timer_canceled true);;
    update_backend b (BC.set_is_reading_reply false);;
    if error then
      update_backend b (BC.set_socket_open false);;
      reply_received_callback b E_READ_REPLY
    else
      update_backend b (BC.set_has_read_some_reply true);;
      on_stats (add_bytes_from_backends transferred);;
      on_backend_buffer b (ok (fun buf => RB.update_received_bytes buf transferred));;
      on_backend_buffer b RB.dec_recycle_lock;;
      reply_received_callback b E_SUCCESS.

(** [error]: the connection failed, or a socket option could not be set *)
Definition Backend_HandleConnect (b : Z) (data : source) (bytes : Z) (error : bool) : M unit :=
  x ← backend b;
  if aborted_ x then skip
  else
    stop_write_timer b;;
    if error then
      update_backend b (BC.set_socket_open false);;
      on_stats (add_backend_connect_errors 1);;
      query_sent_callback b E_CONNECT
    else Backend.AsyncWrite b data bytes.

Definition Backend_OnTimeout (b : Z) (code : ErrorCode) : M unit :=
  x ← backend b;
  if aborted_ x then skip
  else match code with
       | E_BACKEND_CONNECT_TIMEOUT =>
           when (negb (write_timer_canceled_ x))
             (on_stats (add_backend_connect_timeouts 1);;
              query_sent_callback b code;;
              Backend.Abort b)
       | E_BACKEND_WRITE_TIMEOUT =>
           when (negb (write_timer_canceled_ x))
             (on_stats (add_backend_write_timeouts 1);;
              query_sent_callback b code;;
              Backend.Abort b)
       | E_BACKEND_READ_TIMEOUT =>
           when (negb (read_timer_canceled_ x))
             (on_stats (add_backend_read_timeouts 1);;
              reply_received_callback b code;;
              Backend.Abort b)
       | _ => fault AssertFailed
       end.

(** ** Handlers of [ClientConnection] *)

(** The part of [HandleRead] that follows a successful read *)
Definition Client_process (c : Z) (back_cmd : option Z) : M unit :=
  let process_rest : M unit :=
    match back_cmd with
    | None => ProcessUnparsedQuery c
    | Some cmd =>
        x ← command cmd;
        good ← (if query_parsing_complete x then mret true else ProcessUnparsedPart cmd);
        if negb good then Client.Abort c
        else x ← command cmd;
             when (query_parsing_complete x) (ProcessUnparsedQuery c)
    end in
  buf ← client_buffer c;
  unprocessed ← lift (RB.parsed_unprocessed_bytes buf);
  if 0 <? unprocessed then
    cmd ← lift (of_option AssertFailed back_cmd);
    no_callback ← ContinueWriteQuery cmd;
    on_client_buffer c (fun buf => RB.update_processed_bytes buf (RB.unprocessed_bytes buf));;
    buf ← client_buffer c;
    if 0 <? RB.parsed_unreceived_bytes buf then when no_callback (Client.TryReadMoreQuery c)
    else process_rest
  else process_rest.

Definition Client_received (c : Z) (transferred : Z) : M unit :=
  on_stats (add_bytes_from_clients transferred);;
  on_client_buffer c (ok (fun buf => RB.update_received_bytes buf transferred));;
  on_client_buffer c RB.dec_recycle_lock;;
  x ← client c;
  match last (active_cmd_queue_ x) with
  | None => Client_process c None
  | Some cmd =>
      holding (HoldCommand cmd)
        (k ← command cmd;
         complete ← lift (query_recv_complete k);
         good ← (if complete : bool then mret true else ParseUnparsedPart cmd);
         if negb good then Client.Abort c else Client_process c (Some cmd))
  end.

Definition Client_HandleRead (c : Z) (o : outcome) : M unit :=
  cancel_timer (ClientReadTimer c);;
  x ← client c;
  if cl_aborted_ x then skip
  else
    update_client c (l_is_reading_query false);;
    match o with
    | Eof => skip
    | Received bs => Client_received c (zlen bs)
    | _ => Client.Abort c
    end.

Definition Client_HandleWrite (c : Z) (data : source) (bytes cmd : Z) (b : option Z)
    (error : bool) (transferred : Z) : M unit :=
  cancel_timer (ClientWriteTimer c);;
  when (negb error) (on_stats (add_bytes_to_clients transferred));;
  if negb error && (transferred <? bytes)
  then Client.WriteReply c (source_add data transferred) (bytes - transferred) cmd b
  else
    update_client c (l_is_writing_reply false);;
    reply_written_callback cmd b (if error then E_WRITE_REPLY else E_SUCCESS).

Definition Client_OnTimeout (c : Z) (is_read : bool) : M unit :=
  on_stats (if is_read then add_client_read_timeouts 1 else add_client_write_timeouts 1);;
  Client.Abort c.

(** ** The server *)
Definition StartAccept : M unit := c ← Client.ctor; start (ClientAccept c).

Definition HandleAccept (c : Z) (error : bool) : M unit :=
  when (negb error) (update_client c (l_socket_open true);; Client.StartRead c).

(** ** Completion of an operation

    The handler's arguments hold the connection until it returns. *)
Definition failed (o : outcome) : bool :=
  match o with Failed | Eof => true | _ => false end.

Definition sent_bytes (o : outcome) : Z := match o with Sent n => n | _ => 0 end.

Definition complete_op (op : io_op) (o : outcome) : M unit :=
  match op with
  | ClientAccept c => holding (HoldClient c) (HandleAccept c (failed o))
  | ClientRead c off _ =>
      holding (HoldClient c)
        ((match o with
          | Received bs => on_client_buffer c (fun buf =>
              m ← mem_write (data_ buf) off bs; Ok (RB.set_data buf m))
          | _ => skip
          end);;
         Client_HandleRead c o)
  | ClientWrite c data bytes cmd b =>
      holding (HoldClient c)
        ((match o with Sent n => bs ← source_bytes data n; emit (ToClient c bs) | _ => skip end);;
         Client_HandleWrite c data bytes cmd b (failed o) (sent_bytes o))
  | BackendConnect b data bytes =>
      holding (HoldBackend b) (Backend_HandleConnect b data bytes (failed o))
  | BackendWrite b data bytes =>
      holding (HoldBackend b)
        ((match o with Sent n => bs ← source_bytes data n; emit (ToBackend b bs) | _ => skip end);;
         Backend_HandleWrite b data bytes (failed o) (sent_bytes o))
  | BackendRead b off _ =>
      holding (HoldBackend b)
        (match o with
         | Received bs =>
             on_backend_buffer b (fun buf => m ← mem_write (data_ buf) off bs; Ok (RB.set_data buf m));;
             Backend_HandleRead b false (zlen bs)
         | _ => Backend_HandleRead b true 0
         end)
  | PostedWriteError b =>
      w ← get;
      when (bool_decide (is_Some (backends w !! b)))
        (holding (HoldBackend b) (query_sent_callback b E_WRITE_QUERY))
  end.

(** A handler bound to a [std::weak_ptr] *)
Definition timer_handler (t : timer) (code : ErrorCode) : M unit :=
  w ← get;
  match t with
  | ClientReadTimer c =>
      when (bool_decide (is_Some (clients w !! c))) (holding (HoldClient c) (Client_OnTimeout c true))
  | ClientWriteTimer c =>
      when (bool_decide (is_Some (clients w !! c))) (holding (HoldClient c) (Client_OnTimeout c false))
  | BackendReadTimer b | BackendWriteTimer b =>
      when (bool_decide (is_Some (backends w !! b))) (holding (HoldBackend b) (Backend_OnTimeout b code))
  end.

(** ** Steps *)
Inductive event :=
| EvStartAccept
| EvComplete (i : nat) (o : outcome)
| EvExpire (i : nat)
| EvTimeout (i : nat)
| EvLocator (kl : KeyLocator).

(** Which outcomes an operation may have: [async_read_some] delivers at most as many
    bytes as the buffer given to it has, [async_write] succeeds when everything is
    written.  An operation may also succeed after its socket was closed: its
    completion may have been queued before. *)
Definition op_admits (op : io_op) (o : outcome) : bool :=
  match op, o with
  | _, Failed => true
  | ClientAccept _, Connected => true
  | ClientRead _ _ _, Eof => true
  | ClientRead _ _ size, Received bs => (0 <? zlen bs) && (zlen bs <=? size)
  | ClientWrite _ _ bytes _ _, Sent n => n =? bytes
  | BackendConnect _ _ _, Connected => true
  | BackendWrite _ _ bytes, Sent n => n =? bytes
  | BackendRead _ _ _, Eof => true
  | BackendRead _ _ size, Received bs => (0 <? zlen bs) && (zlen bs <=? size)
  | _, _ => false
  end.

Definition enabled (w : World) (e : event) : bool :=
  match e with
  | EvStartAccept | EvLocator _ => true
  | EvComplete i o => match in_flight w !! i with Some op => op_admits op o | None => false end
  | EvExpire i => bool_decide (is_Some (armed w !! i))
  | EvTimeout i => bool_decide (is_Some (expired w !! i))
  end.

Definition handle (e : event) : M unit :=
  w ← get;
  match e with
  | EvStartAccept => StartAccept
  | EvComplete i o =>
      op ← lift (of_option NullDeref (in_flight w !! i));
      modify (w_in_flight (delete i (in_flight w)));;
      complete_op op o
  | EvExpire i =>
      t ← lift (of_option NullDeref (armed w !! i));
      modify (fun w => w_expired (expired w ++ [t]) (w_armed (delete i (armed w)) w))
  | EvTimeout i =>
      t ← lift (of_option NullDeref (expired w !! i));
      modify (w_expired (delete i (expired w)));;
      timer_handler t.1 t.2
  | EvLocator kl => modify (w_key_locator (Some kl))
  end.

(** The acceptor belongs to the server: a new client and the completion of an
    accept come from there, everything else from the worker. *)
Definition is_accept (op : io_op) : bool := match op with ClientAccept _ => true | _ => false end.
Definition internal (w : World) (e : event) : bool :=
  match e with
  | EvStartAccept => false
  | EvComplete i _ => negb (existsb is_accept (option_list (in_flight w !! i)))
  | _ => true
  end.

Definition step (w : World) (e : event) (w' : World) : Prop :=
  enabled w e = true /\ handle e w = Ok (tt, w').

(** Runs events in turn *)
Fixpoint run (es : list event) (w : World) : result World :=
  match es with
  | [] => Ok w
  | e :: es' =>
      if enabled w e then '(_, w) ← handle e w; run es' w else Fault AssertFailed
  end.

(** The state a worker starts in: [WorkerContext::WorkerContext] *)
Definition initial_stats (now : Z) : Stats := mkStats now 0 0 0 0 0 0 0 0 0 0 0 0.

Definition WorkerContext_ctor (config : Config) (heap : Z) (uninit : Z -> Z -> ascii) (now : Z)
    : result World :=
  let size := buffer_size_conf_ (worker config) in
  let reserved := reserved_buffer_space_ (worker config) in
  a ← Allocator_ctor size reserved heap;
  Ok (mkWorld config a (heap + reserved) uninit None [] [] (initial_stats now)
        initial_mset_cache initial_del_caches 0 ∅ ∅ ∅ [] [] [] [] []).
