(* ===== verification/Logic.v ===== *)
(** * Reasoning about handlers

    [respects R m]: a run of [m] relates the states before and after by [R].
    With [R w w' := P w -> P w'] this says that [m] preserves [P].  The functions
    of the proxy are shown to keep states well formed ([Order.wf]), to keep the
    facts [S] their caller relies on, and to respect every relation [T] that is
    closed under the elementary updates they are made of ([Stable],
    [StableQueue] and [StableIO] of [ReplyLogic]): [rel T S].  An invariant is then
    proved by checking the elementary updates only.  A function that writes to the
    client without asking whether it may ([IsFirstCommand]) needs a turn among the
    facts.  This file has the rules and the functions of the connections and of
    object lifetimes; [QueryLogic] and [ReplyLogic] have the commands. *)

From S2P Require Import Prelude CString StdMap ErrorCode ReadBuffer Allocator Config.
From S2P Require Import RedisProtocol KeyDistributer KeyLocator QueryParser BackendConn.
From S2P Require Import ReplyParser World BackendPool Lifetime ConnIO Commands CommandQuery.
From S2P Require Import CommandReply Order Worker.

Definition respects (R : World -> World -> Prop) {A} (m : M A) : Prop :=
  forall w a w', m w = Ok (a, w') -> R w w'.

Lemma M_bind_Ok {A B} (m : M A) (k : A -> M B) w b w' :
  (m ≫= k) w = Ok (b, w') -> exists a w1, m w = Ok (a, w1) /\ k a w1 = Ok (b, w').
Proof. unfold mbind, M_bind. destruct (m w) as [[a w1]|f] eqn:Hm; [eauto|done]. Qed.

Section rules.
Context (R : World -> World -> Prop) `{!PreOrder R}.

Lemma respects_ret {A} (a : A) : respects R (mret a).
Proof. intros w a' w' [= <- <-]. reflexivity. Qed.
Lemma respects_skip : respects R skip.
Proof. apply respects_ret. Qed.
Lemma respects_bind {A B} (m : M A) (k : A -> M B) :
  respects R m -> (forall a, respects R (k a)) -> respects R (m ≫= k).
Proof.
  intros Hm Hk w b w' (a & w1 & H1 & H2)%M_bind_Ok. etransitivity; [by eapply Hm|by eapply Hk].
Qed.
Lemma respects_ret_bind {A B} (a : A) (k : A -> M B) : respects R (k a) -> respects R (mret a ≫= k).
Proof. intros Hk w b w' H. by eapply Hk. Qed.
Lemma respects_lift {A} (r : result A) : respects R (lift r).
Proof. intros w a w'. unfold lift. destruct r; [|done]. intros [= <- <-]. reflexivity. Qed.
Lemma respects_fault {A} f : respects R (fault f : M A).
Proof. done. Qed.
Lemma respects_get : respects R get.
Proof. intros w a w' [= <- <-]. reflexivity. Qed.
Lemma respects_modify f : (forall w, R w (f w)) -> respects R (modify f).
Proof. intros Hf w a w' [= <- <-]. apply Hf. Qed.
Lemma respects_when b m : respects R m -> respects R (when b m).
Proof. destruct b; [done|]. intros _. apply respects_skip. Qed.
Lemma respects_for_each {A} (l : list A) f :
  (forall a, respects R (f a)) -> respects R (for_each l f).
Proof.
  intros Hf. induction l as [|x l IH]; simpl; [apply respects_skip|]. by apply respects_bind.
Qed.
Lemma respects_get_bind {B} (k : World -> M B) :
  (forall w0 w b w', k w0 w = Ok (b, w') -> w0 = w -> R w w') -> respects R (get ≫= k).
Proof. intros Hk w b w' (a & w1 & [= <- <-] & H)%M_bind_Ok. by eapply Hk. Qed.
Lemma respects_client c : respects R (client c).
Proof. apply respects_bind; [apply respects_get|]. intros w. apply respects_lift. Qed.
Lemma respects_command c : respects R (command c).
Proof. apply respects_bind; [apply respects_get|]. intros w. apply respects_lift. Qed.
Lemma respects_backend b : respects R (backend b).
Proof. apply respects_bind; [apply respects_get|]. intros w. apply respects_lift. Qed.
End rules.

Lemma client_Ok c w x w' : client c w = Ok (x, w') -> w' = w /\ clients w !! c = Some x.
Proof.
  unfold client, get, lift, mbind, M_bind, of_option. destruct (clients w !! c); [|done].
  intros [= <- <-]. done.
Qed.
Lemma backend_Ok b w x w' : backend b w = Ok (x, w') -> w' = w /\ backends w !! b = Some x.
Proof.
  unfold backend, get, lift, mbind, M_bind, of_option. destruct (backends w !! b); [|done].
  intros [= <- <-]. done.
Qed.
Lemma lift_Ok {A} (r : result A) w a w' : lift r w = Ok (a, w') -> w' = w /\ r = Ok a.
Proof. unfold lift. destruct r; [|done]. intros [= <- <-]. done. Qed.

Create HintDb respects.
#[export] Hint Resolve respects_ret respects_skip respects_lift respects_fault respects_get
  respects_client respects_command respects_backend : respects.

(** ** Elementary updates *)

(** A connection keeps its storage and its peer. *)
Definition same_place (x y : ClientConnection) : Prop :=
  cl_slab_ y = cl_slab_ x /\ same_block (cl_buffer_ x) (cl_buffer_ y).
Definition same_conn (x y : BackendConn) : Prop :=
  remote_endpoint_ y = remote_endpoint_ x /\ slab_ y = slab_ x /\ same_block (buffer_ x) (buffer_ y).

#[global] Instance same_conn_preorder : PreOrder same_conn.
Proof.
  split; [done|]. intros x y z (H1 & H2 & H3) (H4 & H5 & H6).
  split_and!; [congruence..|by etransitivity].
Qed.

Class Stable (T : World -> World -> Prop) : Prop := {
  stable_preorder :: PreOrder T;
  stable_set_client w c x x' :
    clients w !! c = Some x -> active_cmd_queue_ x' = active_cmd_queue_ x -> same_place x x' ->
    T w (w_clients (<[c := x']> (clients w)) w);
  stable_client_dtor w c x :
    clients w !! c = Some x ->
    T w (w_clients (delete c (clients w)) (w_allocator (Allocator.Release (allocator_ w) (cl_slab_ x)) w));
  stable_set_command w c x : T w (w_commands (<[c := x]> (commands w)) w);
  stable_delete_command w c : T w (w_commands (delete c (commands w)) w);
  stable_set_backend w b x x' :
    backends w !! b = Some x -> same_conn x x' -> T w (w_backends (<[b := x']> (backends w)) w);
  stable_backend_dtor w b x :
    backends w !! b = Some x -> backend_held w b = false ->
    T w (w_backends (delete b (backends w)) (w_allocator (Allocator.Release (allocator_ w) (slab_ x)) w));
  stable_start w op : is_accept op = false -> T w (w_in_flight (in_flight w ++ [op]) w);
  stable_finish w i op :
    in_flight w !! i = Some op -> is_accept op = false ->
    T w (w_in_flight (delete i (in_flight w)) w);
  stable_armed w l : T w (w_armed l w);
  stable_expired w l : T w (w_expired l w);
  stable_stats w s : T w (w_stats s w);
  stable_locator w kl : T w (w_key_locator kl w);
  stable_mset_cache w x : T w (w_mset_prefix_cache x w);
  stable_del_caches w x : T w (w_del_prefix_caches x w);
  stable_holders w l : T w (w_holders l w);
  stable_next_id w n : next_id w <= n -> T w (w_next_id n w);
  stable_Allocate ep : respects T (Allocate ep);
  stable_Release b : respects T (Release b)
}.

(** *** Well-formedness, facts and [T] together *)
Definition rel (T : World -> World -> Prop) (S : list fact) (w w' : World) : Prop :=
  wf w -> Forall (holds w) S -> T w w' /\ wf w' /\ Forall (holds w') S /\ next_id w <= next_id w'.

#[global] Instance rel_preorder T S : PreOrder T -> PreOrder (rel T S).
Proof.
  intros HT. split; [by intros w Hw Hs|]. intros w1 w2 w3 H12 H23 Hw Hs.
  destruct (H12 Hw Hs) as (H2 & Hw2 & Hs2 & Hn2). destruct (H23 Hw2 Hs2) as (H3 & Hw3 & Hs3 & Hn3).
  split_and!; [by etransitivity|done..|lia].
Qed.

Lemma rel_keeps T S w w' : T w w' -> keeps S w w' -> rel T S w w'.
Proof. intros HT Hk Hw Hs. destruct (Hk Hw Hs) as (? & ? & ?). done. Qed.
Lemma rel_shrinks T S w w' : T w w' -> shrinks w w' -> rel T S w w'.
Proof. intros HT Hs. by apply rel_keeps; [|apply shrinks_keeps]. Qed.

(** Nothing a client, a command or an operation is looked up in changes. *)
Definition quiet (w w' : World) : Prop :=
  clients w' = clients w /\ commands w' = commands w /\ in_flight w' = in_flight w /\
  next_id w <= next_id w'.
#[global] Instance quiet_preorder : PreOrder quiet.
Proof. split; [by intros w|]. intros w1 w2 w3 (? & ? & ? & ?) (? & ? & ? & ?). split_and!; congruence || lia. Qed.
Lemma quiet_shrinks w w' : quiet w w' -> shrinks w w'.
Proof. intros (? & ? & ? & ?). by apply shrinks_same. Qed.
Lemma rel_quiet T S w w' : T w w' -> quiet w w' -> rel T S w w'.
Proof. intros HT Hq. by apply rel_shrinks; [|apply quiet_shrinks]. Qed.

Ltac quiet_tac :=
  repeat match goal with
  | |- respects _ (mbind _ _) => apply respects_bind; [apply _| |intros ?]
  | |- respects _ (when _ _) => apply respects_when; [apply _|]
  | |- respects _ (m_assert _) => apply respects_lift; apply _
  | |- respects _ (let '_ := ?x in _) => destruct x
  | |- respects _ (match ?x with _ => _ end) => destruct x
  | |- respects _ (modify _) => apply respects_modify; intros ?; split_and!; cbn; done || lia
  | |- _ => solve [eauto with respects typeclass_instances]
  end.
Lemma quiet_fresh_id : respects quiet fresh_id.
Proof.
  apply respects_get_bind. intros w0 w b w' H ->.
  apply M_bind_Ok in H as (u & w1 & [= <- <-] & [= <- <-]). split_and!; cbn; done || lia.
Qed.
#[export] Hint Resolve quiet_fresh_id : respects.
Lemma quiet_set_backend b x : respects quiet (set_backend b x).
Proof. unfold set_backend. quiet_tac. Qed.
#[export] Hint Resolve quiet_set_backend : respects.
Lemma quiet_Allocate ep : respects quiet (Allocate ep).
Proof. unfold Allocate, idle_or_new, BackendConn_ctor, alloc_slab, on_stats. quiet_tac. Qed.
Lemma quiet_Release b : respects quiet (Release b).
Proof. unfold Release. quiet_tac. Qed.

(** *** Turns *)
Definition has_turn (S : list fact) (cmd : Z) : Prop := exists c, Turn c cmd ∈ S /\ Own cmd c ∈ S.

Lemma has_turn_intro S c cmd : Turn c cmd ∈ S -> Own cmd c ∈ S -> has_turn S cmd.
Proof. intros. by exists c. Qed.
Lemma has_turn_cons S f cmd : has_turn S cmd -> has_turn (f :: S) cmd.
Proof. intros (c & H1 & H2). exists c. set_solver. Qed.
#[export] Hint Resolve has_turn_intro has_turn_cons list_elem_of_here list_elem_of_further : respects.

(** Walks through the code of a function, down to the functions it calls.  The
    owner of a command that is read is noted, and the turn a command is found to
    have. *)
Section reads.
Context (T : World -> World -> Prop).

Lemma respects_read {B} S cmd (k : Command -> M B) :
  (forall x, (forall c, Own cmd c ∈ S -> client_conn_ x = c) ->
     respects (rel T (Own cmd (client_conn_ x) :: S)) (k x)) ->
  respects (rel T S) (command cmd ≫= k).
Proof.
  intros Hk w b w' H Hw Hs. unfold mbind, M_bind, command, get, lift, of_option, mbind, M_bind in H.
  destruct (commands w !! cmd) as [x|] eqn:Hx; [|done].
  destruct (Hk x) with w b w' as (HT & Hw' & Hs' & Hn); [|done..| |].
  - intros c Hc. by apply (proj1 (Forall_forall _ _) Hs _ Hc).
  - constructor; [|done]. split; [by apply (wf_command w Hw cmd x)|]. intros k' Hk'. by simplify_eq.
  - by apply Forall_cons in Hs' as [_ Hs'].
Qed.

(** The accessors that expect a command of a certain class *)
Lemma respects_read_as {A B} S cmd (f : Command -> M (Command * A)) (k : Command * A -> M B) :
  (forall x w p w', f x w = Ok (p, w') -> w' = w /\ p.1 = x) ->
  (forall x a, (forall c, Own cmd c ∈ S -> client_conn_ x = c) ->
     respects (rel T (Own cmd (client_conn_ x) :: S)) (k (x, a))) ->
  respects (rel T S) ((command cmd ≫= f) ≫= k).
Proof.
  intros Hf Hk w b w' (p & w1 & (x & w2 & Hx & Hp)%M_bind_Ok & H)%M_bind_Ok.
  apply (respects_read S cmd (fun y => k (y, p.2)) (fun y => Hk y p.2) w b w').
  unfold mbind, M_bind. rewrite Hx. destruct p as [y a]. apply Hf in Hp as [-> Hy]. simpl in *. by subst y.
Qed.
Ltac read_as_tac k :=
  apply (respects_read_as _ _ _ k); intros x; destruct (command_state x); intros w p w' Hp;
    try discriminate Hp; by injection Hp as <- <-.
Lemma respects_read_memc_get {B} S cmd (k : Command * MemcGet -> M B) :
  (forall x a, (forall c, Own cmd c ∈ S -> client_conn_ x = c) ->
     respects (rel T (Own cmd (client_conn_ x) :: S)) (k (x, a))) ->
  respects (rel T S) (memc_get cmd ≫= k).
Proof. read_as_tac k. Qed.
Lemma respects_read_redis_mget {B} S cmd (k : Command * RedisMget -> M B) :
  (forall x a, (forall c, Own cmd c ∈ S -> client_conn_ x = c) ->
     respects (rel T (Own cmd (client_conn_ x) :: S)) (k (x, a))) ->
  respects (rel T S) (redis_mget cmd ≫= k).
Proof. read_as_tac k. Qed.
Lemma respects_read_redis_del {B} S cmd (k : Command * RedisDel -> M B) :
  (forall x a, (forall c, Own cmd c ∈ S -> client_conn_ x = c) ->
     respects (rel T (Own cmd (client_conn_ x) :: S)) (k (x, a))) ->
  respects (rel T S) (redis_del cmd ≫= k).
Proof. read_as_tac k. Qed.
Lemma respects_read_redis_mset {B} S cmd (k : Command * RedisMset -> M B) :
  (forall x a, (forall c, Own cmd c ∈ S -> client_conn_ x = c) ->
     respects (rel T (Own cmd (client_conn_ x) :: S)) (k (x, a))) ->
  respects (rel T S) (redis_mset cmd ≫= k).
Proof. read_as_tac k. Qed.

Lemma respects_guard {B} S c cmd (k : bool -> M B) :
  respects (rel T (Turn c cmd :: S)) (k true) -> respects (rel T S) (k false) ->
  respects (rel T S) (Client.IsFirstCommand c cmd ≫= k).
Proof.
  intros Ht Hf w b w' H Hw Hs. apply M_bind_Ok in H as (first & w1 & H1 & H).
  unfold Client.IsFirstCommand in H1. apply M_bind_Ok in H1 as (x & w2 & [-> Hx]%client_Ok & H1).
  destruct (active_cmd_queue_ x) as [|front q] eqn:Hq; [done|]. injection H1 as <- <-.
  case_bool_decide as Hc; [subst front|by eapply Hf].
  destruct (Ht w b w' H Hw) as (HT & Hw' & Hs' & Hn).
  - constructor; [|done]. split; [apply (wf_queued w Hw c x cmd Hx); rewrite Hq; set_solver|].
    intros y Hy. simplify_eq. left. by rewrite Hq.
  - by apply Forall_cons in Hs' as [_ Hs'].
Qed.

(** The front of a queue has the turn. *)
Lemma respects_front {B} S c (k : ClientConnection -> M B) :
  (forall x, respects (rel T (match active_cmd_queue_ x with
                              | [] => S
                              | cmd :: _ => Turn c cmd :: Own cmd c :: S
                              end)) (k x)) ->
  respects (rel T S) (client c ≫= k).
Proof.
  intros Hk w b w' H Hw Hs. apply M_bind_Ok in H as (x & w1 & [-> Hx]%client_Ok & H).
  specialize (Hk x w b w' H Hw). destruct (active_cmd_queue_ x) as [|cmd q] eqn:Hq; [by apply Hk|].
  destruct (wf_queued w Hw c x cmd Hx) as [Hc Ho]; [rewrite Hq; set_solver|].
  destruct Hk as (HT & Hw' & Hs' & Hn); [|by apply Forall_cons in Hs' as [_ [_ Hs']%Forall_cons]].
  constructor; [|by constructor]. split; [done|]. intros y Hy. simplify_eq. left. by rewrite Hq.
Qed.
End reads.

Ltac respects_step :=
  match goal with
  | |- respects (rel _ _) (mbind _ (command _)) => apply respects_read; intros ? ?
  | |- respects (rel _ _) (mbind _ (memc_get _)) => apply respects_read_memc_get; intros ? ? ?
  | |- respects (rel _ _) (mbind _ (redis_mget _)) => apply respects_read_redis_mget; intros ? ? ?
  | |- respects (rel _ _) (mbind _ (redis_del _)) => apply respects_read_redis_del; intros ? ? ?
  | |- respects (rel _ _) (mbind _ (redis_mset _)) => apply respects_read_redis_mset; intros ? ? ?
  | |- respects (rel _ _) (mbind _ (Client.IsFirstCommand _ _)) => apply respects_guard
  | |- respects _ (mbind _ (mret _)) => apply respects_ret_bind
  | |- respects _ (mbind _ _) => apply respects_bind; [apply _| |intros ?]
  | |- respects _ (for_each _ _) => apply respects_for_each; [apply _|intros ?]
  | |- respects _ (m_assert _) => apply respects_lift; apply _
  | |- respects _ (let '_ := ?x in _) => destruct x
  | |- respects _ (match ?x with _ => _ end) => destruct x
  | |- forall _, respects _ _ => intros ?
  | |- _ => solve [eauto with respects typeclass_instances]
  end.
Ltac respects_tac :=
  intros; cbv beta iota zeta delta [negb when];
  repeat (respects_step; cbv beta iota zeta delta [negb when]).

(** The run [H] of a function is related by what its code respects. *)
Ltac by_respects H :=
  match goal with
  | |- ?R ?w ?w' =>
      match type of H with
      | ?m _ = Ok (?a, _) =>
          let Hr := fresh in
          assert (respects R m) as Hr by respects_tac; exact (Hr w a w' H)
      end
  end.

(** An operation on a buffer works on the block it has. *)
Ltac block_tac :=
  let H := fresh in
  intros ? ? H; cbv beta in H; first [solve [eauto with block]|by injection H as <-].

Section stable.
Context (T : World -> World -> Prop) `{!Stable T}.

Lemma respects_quiet {A} S (m : M A) : respects T m -> respects quiet m -> respects (rel T S) m.
Proof. intros HT Hq w a w' H. by apply rel_quiet; [eapply HT|eapply Hq]. Qed.
Lemma respects_quiet_update S f : (forall w, T w (f w)) -> (forall w, quiet w (f w)) -> respects (rel T S) (modify f).
Proof. intros HT Hq. apply respects_modify. intros w. by apply rel_quiet. Qed.

Lemma respects_Allocate S ep : respects (rel T S) (Allocate ep).
Proof. apply respects_quiet; [apply stable_Allocate|apply quiet_Allocate]. Qed.
Lemma respects_Release S b : respects (rel T S) (Release b).
Proof. apply respects_quiet; [apply stable_Release|apply quiet_Release]. Qed.

Lemma respects_update_command S cmd f :
  (forall x, client_conn_ (f x) = client_conn_ x) -> respects (rel T S) (update_command cmd f).
Proof.
  intros Hf w a w' H. unfold update_command, command, get, lift, of_option, mbind, M_bind in H.
  destruct (commands w !! cmd) as [x|] eqn:Hx; [|done]. injection H as <- <-.
  apply rel_shrinks; [apply stable_set_command|by eapply shrinks_set_command].
Qed.
Lemma respects_update_client S c f :
  (forall x, active_cmd_queue_ (f x) = active_cmd_queue_ x) ->
  (forall x, cl_is_writing_reply_ (f x) = cl_is_writing_reply_ x) ->
  (forall x, same_place x (f x)) -> respects (rel T S) (update_client c f).
Proof.
  intros Hf Hi Hp w a w' (x & w1 & [-> Hx]%client_Ok & [= <- <-])%M_bind_Ok.
  apply rel_shrinks; [by eapply stable_set_client|].
  eapply shrinks_set_client; [done|by rewrite Hf|by rewrite Hi].
Qed.
Lemma respects_on_client_buffer S c f :
  (forall b b', f b = Ok b' -> same_block b b') -> respects (rel T S) (on_client_buffer c f).
Proof.
  intros Hf w a w' (x & w1 & [-> Hx]%client_Ok & (buf & w2 & [-> Hb]%lift_Ok & [= <- <-])%M_bind_Ok)%M_bind_Ok.
  apply rel_shrinks; [eapply stable_set_client; [done|done|split; [done|by apply Hf]]|by eapply shrinks_set_client].
Qed.
Lemma rel_set_backend S w b x x' :
  backends w !! b = Some x -> same_conn x x' ->
  rel T S w (w_backends (<[b := x']> (backends w)) w).
Proof. intros Hx He. by apply rel_quiet; [eapply stable_set_backend|]. Qed.
Lemma respects_update_backend S b f :
  (forall x, same_conn x (f x)) -> respects (rel T S) (update_backend b f).
Proof.
  intros Hf w a w' (x & w1 & [-> Hx]%backend_Ok & [= <- <-])%M_bind_Ok. by eapply rel_set_backend.
Qed.
Lemma respects_on_backend_buffer S b f :
  (forall b b', f b = Ok b' -> same_block b b') -> respects (rel T S) (on_backend_buffer b f).
Proof.
  intros Hf w a w' (x & w1 & [-> Hx]%backend_Ok & (buf & w2 & [-> Hb]%lift_Ok & [= <- <-])%M_bind_Ok)%M_bind_Ok.
  eapply rel_set_backend; [done|split_and!; [done..|by apply Hf]].
Qed.

Lemma respects_client_buffer S c : respects (rel T S) (client_buffer c).
Proof. unfold client_buffer. respects_tac. Qed.
Lemma respects_backend_buffer S b : respects (rel T S) (backend_buffer b).
Proof. unfold backend_buffer. respects_tac. Qed.
Lemma respects_set_state S cmd s : respects (rel T S) (set_state cmd s).
Proof. by apply respects_update_command. Qed.
Lemma respects_start S op : is_accept op = false -> is_write op = false -> respects (rel T S) (start op).
Proof.
  intros Ha Hw. apply respects_modify. intros w.
  apply rel_shrinks; [by apply stable_start|by apply shrinks_start].
Qed.
Lemma respects_cancel_timer S t : respects (rel T S) (cancel_timer t).
Proof. apply respects_quiet_update; intros w; [apply stable_armed|done]. Qed.
Lemma respects_arm_timer S t ec : respects (rel T S) (arm_timer t ec).
Proof.
  apply respects_bind; [apply _|apply respects_cancel_timer|intros _].
  apply respects_quiet_update; intros w; [apply stable_armed|done].
Qed.
Lemma respects_on_stats S f : respects (rel T S) (on_stats f).
Proof. apply respects_quiet_update; intros w; [apply stable_stats|done]. Qed.
Lemma respects_hold S h : respects (rel T S) (hold h).
Proof. apply respects_quiet_update; intros w; [apply stable_holders|done]. Qed.
Lemma respects_locator S kl : respects (rel T S) (modify (w_key_locator kl)).
Proof. apply respects_quiet_update; intros w; [apply stable_locator|done]. Qed.
Lemma respects_mset_cache S x : respects (rel T S) (modify (w_mset_prefix_cache x)).
Proof. apply respects_quiet_update; intros w; [apply stable_mset_cache|done]. Qed.
Lemma respects_del_caches S x : respects (rel T S) (modify (w_del_prefix_caches x)).
Proof. apply respects_quiet_update; intros w; [apply stable_del_caches|done]. Qed.
Lemma respects_new_command S cl p r s : respects (rel T S) (new_command cl p r s).
Proof.
  intros w cmd w' H. apply rel_keeps; [|by eapply keeps_new_command].
  unfold new_command, fresh_id, hold, set_command, modify, get, mret, M_ret, mbind, M_bind in H.
  injection H as <- <-.
  set (w1 := w_next_id (next_id w + 1) w). set (w2 := w_holders (HoldCommand (next_id w) :: holders w) w1).
  transitivity w1; [apply stable_next_id; lia|]. transitivity w2; [apply stable_holders|].
  apply (stable_set_command w2).
Qed.
Lemma respects_WriteReply S c p n cmd b :
  Turn c cmd ∈ S -> Own cmd c ∈ S -> respects (rel T S) (Client.WriteReply c p n cmd b).
Proof.
  intros Ht Ho w [] w' H. apply rel_keeps; [|by eapply keeps_WriteReply].
  unfold Client.WriteReply, Client.UpdateTimer in H.
  apply M_bind_Ok in H as (x & w1 & [-> Hx]%client_Ok & H).
  apply M_bind_Ok in H as (u & w1 & [-> Hi]%lift_Ok & H).
  apply M_bind_Ok in H as (u1 & w1 & H1 & H). apply M_bind_Ok in H1 as (y & w2 & [-> Hy]%client_Ok & [= <- <-]).
  etransitivity; [by eapply (stable_set_client w c x (l_is_writing_reply true x)); simplify_eq|].
  simplify_eq. set (w1 := w_clients _ w) in *.
  apply M_bind_Ok in H as (u2 & w2 & H2 & [= <-]).
  apply M_bind_Ok in H2 as (y & w3 & [-> Hz]%client_Ok & H2).
  transitivity w2; [|by apply stable_start].
  destruct (cl_aborted_ y); [injection H2 as _ <-; reflexivity|].
  apply M_bind_Ok in H2 as (u3 & w4 & [= <- <-] & [= _ <-]).
  etransitivity; [apply (stable_armed w1)|apply stable_armed].
Qed.
End stable.

#[export] Hint Resolve respects_Allocate respects_Release respects_client_buffer respects_backend_buffer respects_set_state
  respects_cancel_timer respects_arm_timer respects_on_stats
  respects_hold respects_locator respects_mset_cache respects_del_caches
  respects_new_command respects_WriteReply : respects.
#[export] Hint Extern 2 (respects _ (start _)) =>
  apply respects_start; [apply _|reflexivity..] : respects.
#[export] Hint Extern 2 (respects _ (update_client _ _)) =>
  apply respects_update_client; [apply _|reflexivity|reflexivity|done] : respects.
#[export] Hint Extern 2 (respects (rel _ _) (on_client_buffer _ _)) =>
  apply respects_on_client_buffer; [apply _|block_tac] : respects.
#[export] Hint Extern 2 (respects (rel _ _) (on_backend_buffer _ _)) =>
  apply respects_on_backend_buffer; [apply _|block_tac] : respects.
#[export] Hint Extern 2 (respects _ (update_command _ _)) =>
  apply respects_update_command; [apply _|reflexivity] : respects.
#[export] Hint Extern 2 (respects _ (update_backend _ _)) =>
  apply respects_update_backend; [apply _|done] : respects.

(** ** The functions of the proxy *)
Section functions.
Context (T : World -> World -> Prop) `{!Stable T}.

Lemma respects_BackendConn_dtor S b w a w' :
  backend_held w b = false -> BackendConn_dtor b w = Ok (a, w') -> rel T S w w'.
Proof.
  intros Hh (x & w1 & [-> Hx]%backend_Ok & (u & w2 & [= <- <-] & (u' & w3 & [= <- <-] & [= <- <-])
    %M_bind_Ok)%M_bind_Ok)%M_bind_Ok. apply rel_quiet; [|done].
  etransitivity; [apply stable_stats|].
  exact (stable_backend_dtor (w_stats (add_backend_conns (-1) (stats w)) w) b x Hx Hh).
Qed.
Lemma respects_drop_backend S b : respects (rel T S) (drop_backend b).
Proof.
  apply respects_get_bind. intros w0 w a w' H ->. destruct (backend_held w b) eqn:Hh.
  - rewrite andb_false_r in H. injection H as <- <-. reflexivity.
  - destruct (bool_decide _); [|injection H as <- <-; reflexivity].
    by eapply respects_BackendConn_dtor.
Qed.
Lemma respects_ClientConnection_dtor S c : respects (rel T S) (ClientConnection_dtor c).
Proof.
  intros w a w' (x & w1 & [-> Hx]%client_Ok & (u & w2 & [= <- <-] & (u' & w3 & [= <- <-] & [= <- <-])
    %M_bind_Ok)%M_bind_Ok)%M_bind_Ok. set (w1 := w_stats (add_client_conns (-1) (stats w)) w).
  apply rel_shrinks; [transitivity w1; [apply stable_stats|exact (stable_client_dtor w1 c x Hx)]|].
  by destruct (shrinks_delete_client w c).
Qed.
Hint Resolve respects_drop_backend respects_ClientConnection_dtor : respects.
Lemma respects_drop_client S c : respects (rel T S) (drop_client c).
Proof. unfold drop_client. respects_tac. Qed.
Lemma respects_command_dtor_body S c : respects (rel T S) (command_dtor_body c).
Proof.
  unfold command_dtor_body, RedisBasicCommand_dtor, MemcBasicCommand_dtor, RedisSetCommand_dtor,
    MemcSetCommand_dtor, release_replying, MemcGetCommand_dtor, RedisMgetCommand_dtor,
    RedisDelCommand_dtor, RedisMsetCommand_dtor. respects_tac.
Qed.
Hint Resolve respects_drop_client respects_command_dtor_body : respects.
Lemma respects_Command_dtor S c : respects (rel T S) (Command_dtor c).
Proof.
  unfold Command_dtor. respects_tac. apply respects_modify. intros w.
  apply rel_shrinks; [apply stable_delete_command|apply shrinks_delete_command].
Qed.
Hint Resolve respects_Command_dtor : respects.
Lemma respects_drop_command S c : respects (rel T S) (drop_command c).
Proof. unfold drop_command. respects_tac. Qed.
Hint Resolve respects_drop_command : respects.
Lemma respects_unhold S h : respects (rel T S) (unhold h).
Proof.
  unfold unhold. apply respects_bind; [apply _| |intros _; respects_tac].
  apply respects_quiet_update; intros w; [apply stable_holders|done].
Qed.
Hint Resolve respects_unhold : respects.
Lemma respects_holding {A} S h (m : M A) : respects (rel T S) m -> respects (rel T S) (holding h m).
Proof. intros Hm. unfold holding. respects_tac. Qed.

(** *** Connections *)
Lemma respects_SetReplyData S b data p : respects (rel T S) (Backend.SetReplyData b data p).
Proof.
  unfold Backend.SetReplyData. intros w a w' (x & w1 & [-> Hx]%backend_Ok &
    (y & w2 & [-> Hy]%lift_Ok & [= <- <-])%M_bind_Ok)%M_bind_Ok.
  eapply (rel_set_backend T); [exact Hx|]. unfold BC.SetReplyData in Hy. inv_bind Hy. ok_inv.
  split_and!; [done..|]. by apply block_push_reply_data in Hr.
Qed.
Lemma respects_SetReadWriteCallback S b cmd : respects (rel T S) (Backend.SetReadWriteCallback b cmd).
Proof. unfold Backend.SetReadWriteCallback. respects_tac. Qed.
Lemma respects_BackendAbort S b : respects (rel T S) (Backend.Abort b).
Proof.
  intros w a w' (x & w1 & [-> Hx]%backend_Ok & H)%M_bind_Ok.
  destruct (aborted_ x); [injection H as <- <-; reflexivity|].
  apply M_bind_Ok in H as (u & w2 & [= <- <-] & H).
  etransitivity; [by eapply (rel_set_backend T S w b x (BC.Abort_flags x))|].
  revert H. apply respects_bind; [apply _|eauto with respects|intros _; eauto with respects].
Qed.
Lemma respects_ReadReply S b : respects (rel T S) (Backend.ReadReply b).
Proof. unfold Backend.ReadReply. respects_tac. Qed.
Hint Resolve respects_ReadReply : respects.
Lemma respects_TryReadMoreReply S b : respects (rel T S) (Backend.TryReadMoreReply b).
Proof. unfold Backend.TryReadMoreReply. respects_tac. Qed.
Lemma respects_AsyncWrite S b p n : respects (rel T S) (Backend.AsyncWrite b p n).
Proof. unfold Backend.AsyncWrite. respects_tac. Qed.
Hint Resolve respects_AsyncWrite : respects.
Lemma respects_WriteQuery S b p n : respects (rel T S) (Backend.WriteQuery b p n).
Proof. unfold Backend.WriteQuery. respects_tac. Qed.
Lemma respects_UpdateTimer S c t : respects (rel T S) (Client.UpdateTimer c t).
Proof. unfold Client.UpdateTimer. respects_tac. Qed.
Hint Resolve respects_UpdateTimer : respects.
Lemma respects_AsyncRead S c : respects (rel T S) (Client.AsyncRead c).
Proof. unfold Client.AsyncRead. respects_tac. Qed.
Hint Resolve respects_AsyncRead : respects.
Lemma respects_TryReadMoreQuery S c : respects (rel T S) (Client.TryReadMoreQuery c).
Proof. unfold Client.TryReadMoreQuery. respects_tac. Qed.
Lemma respects_IsFirstCommand S c cmd : respects (rel T S) (Client.IsFirstCommand c cmd).
Proof. unfold Client.IsFirstCommand. respects_tac. Qed.
End functions.

#[export] Hint Resolve respects_drop_backend respects_drop_client respects_drop_command
  respects_unhold respects_holding respects_SetReplyData respects_SetReadWriteCallback
  respects_BackendAbort respects_ReadReply respects_TryReadMoreReply respects_AsyncWrite
  respects_WriteQuery respects_AsyncRead respects_TryReadMoreQuery respects_IsFirstCommand : respects.
