(* ===== verification/QueryLogic.v ===== *)
(** * Reasoning about handlers: queries

    What [Logic] says of the functions that create commands, forward queries and
    turn received bytes into commands. *)

From S2P Require Import Prelude CString StdMap ErrorCode ReadBuffer Allocator Config.
From S2P Require Import RedisProtocol KeyDistributer KeyLocator QueryParser BackendConn.
From S2P Require Import ReplyParser World BackendPool Lifetime ConnIO Commands CommandQuery.
From S2P Require Import CommandReply Order Worker Logic.

(** *** Creating commands and forwarding queries *)
Section queries.
Context (T : World -> World -> Prop) `{!Stable T}.

Lemma respects_locate_key S m key len p : respects (rel T S) (locate_key m key len p).
Proof. unfold locate_key. respects_tac. Qed.
Hint Resolve respects_locate_key : respects.
Lemma respects_locate_bulk S m b : respects (rel T S) (locate_bulk m b).
Proof. unfold locate_bulk. respects_tac. Qed.
Hint Resolve respects_locate_bulk : respects.
Lemma respects_memc_get_subqueries S cl m keys s : respects (rel T S) (memc_get_subqueries cl m keys s).
Proof. revert s. induction keys as [|[p len] keys IH]; simpl; respects_tac. Qed.
Lemma respects_mget_subqueries S cl m items ep s q : respects (rel T S) (mget_subqueries cl m items ep s q).
Proof. revert ep s q. induction items as [|b items IH]; simpl; respects_tac. Qed.
Lemma respects_del_PushSubquery S cl ep p n s : respects (rel T S) (del_PushSubquery cl ep p n s).
Proof. unfold del_PushSubquery. respects_tac. Qed.
Lemma respects_mset_PushSubquery S cl ep p n s : respects (rel T S) (mset_PushSubquery cl ep p n s).
Proof. unfold mset_PushSubquery. respects_tac. Qed.
Hint Resolve respects_memc_get_subqueries respects_mget_subqueries respects_del_PushSubquery
  respects_mset_PushSubquery : respects.
Lemma respects_del_push_all S cl m keys s : respects (rel T S) (del_push_all cl m keys s).
Proof. revert s. induction keys as [|k keys IH]; simpl; respects_tac. Qed.
Lemma respects_mset_push_all S cl m bulks s : respects (rel T S) (mset_push_all cl m bulks s).
Proof.
  enough ((forall s, respects (rel T S) (mset_push_all cl m bulks s)) /\
          (forall k s, respects (rel T S) (mset_push_all cl m (k :: bulks) s))) as [H _] by apply H.
  induction bulks as [|v bulks [IH1 IH2]]; split; [respects_tac..|apply IH2|]. simpl. respects_tac.
Qed.
Hint Resolve respects_del_push_all respects_mset_push_all : respects.
Lemma respects_RedisBasicCommand_ctor S cl m ba : respects (rel T S) (RedisBasicCommand_ctor cl m ba).
Proof. unfold RedisBasicCommand_ctor. respects_tac. Qed.
Lemma respects_RedisSetCommand_ctor S cl m ba : respects (rel T S) (RedisSetCommand_ctor cl m ba).
Proof. unfold RedisSetCommand_ctor. respects_tac. Qed.
Lemma respects_MemcBasicCommand_ctor S cl m buf : respects (rel T S) (MemcBasicCommand_ctor cl m buf).
Proof. unfold MemcBasicCommand_ctor. respects_tac. Qed.
Lemma respects_MemcSetCommand_ctor S cl m p n : respects (rel T S) (MemcSetCommand_ctor cl m p n).
Proof. unfold MemcSetCommand_ctor. respects_tac. Qed.
Lemma respects_ErrorCommand_ctor S cl msg : respects (rel T S) (ErrorCommand_ctor cl msg).
Proof. unfold ErrorCommand_ctor. respects_tac. Qed.
Lemma respects_StatsCommand_ctor S cl p : respects (rel T S) (StatsCommand_ctor cl p).
Proof. unfold StatsCommand_ctor. respects_tac. Qed.
Lemma respects_MemcGetCommand_ctor S cl m p n : respects (rel T S) (MemcGetCommand_ctor cl m p n).
Proof. unfold MemcGetCommand_ctor. respects_tac. Qed.
Lemma respects_RedisMgetCommand_ctor S cl m ba : respects (rel T S) (RedisMgetCommand_ctor cl m ba).
Proof. unfold RedisMgetCommand_ctor. respects_tac. Qed.
Lemma respects_RedisDelCommand_ctor S cl m ba : respects (rel T S) (RedisDelCommand_ctor cl m ba).
Proof. unfold RedisDelCommand_ctor. respects_tac. Qed.
Lemma respects_RedisMsetCommand_ctor S cl m ba : respects (rel T S) (RedisMsetCommand_ctor cl m ba).
Proof. unfold RedisMsetCommand_ctor. respects_tac. Qed.
Hint Resolve respects_RedisBasicCommand_ctor respects_RedisSetCommand_ctor
  respects_MemcBasicCommand_ctor respects_MemcSetCommand_ctor respects_ErrorCommand_ctor
  respects_StatsCommand_ctor respects_MemcGetCommand_ctor respects_RedisMgetCommand_ctor
  respects_RedisDelCommand_ctor respects_RedisMsetCommand_ctor : respects.
Lemma respects_CreateCommand S cl buf size : respects (rel T S) (CreateCommand cl buf size).
Proof. unfold CreateCommand, redis_command, memc_command. respects_tac. Qed.
Lemma respects_memc_get S cmd : respects (rel T S) (memc_get cmd).
Proof. unfold memc_get. respects_tac. Qed.
Lemma respects_redis_mget S cmd : respects (rel T S) (redis_mget cmd).
Proof. unfold redis_mget. respects_tac. Qed.
Lemma respects_redis_del S cmd : respects (rel T S) (redis_del cmd).
Proof. unfold redis_del. respects_tac. Qed.
Lemma respects_redis_mset S cmd : respects (rel T S) (redis_mset cmd).
Proof. unfold redis_mset. respects_tac. Qed.
Hint Resolve respects_memc_get respects_redis_mget respects_redis_del respects_redis_mset : respects.
Lemma respects_check_query_recv_complete S cmd : respects (rel T S) (check_query_recv_complete cmd).
Proof.
  unfold check_query_recv_complete, RedisSetCommand_check_query_recv_complete,
    MemcSetCommand_check_query_recv_complete. respects_tac.
Qed.
Lemma respects_mset_activate S cmd i : respects (rel T S) (mset_activate cmd i).
Proof. unfold mset_activate. respects_tac. Qed.
Lemma respects_del_activate S cmd q : respects (rel T S) (del_activate cmd q).
Proof. unfold del_activate. respects_tac. Qed.
Hint Resolve respects_CreateCommand respects_check_query_recv_complete respects_mset_activate
  respects_del_activate : respects.
Lemma respects_mset_ActivateWaitingSubquery S cmd :
  respects (rel T S) (RedisMsetCommand_ActivateWaitingSubquery cmd).
Proof. unfold RedisMsetCommand_ActivateWaitingSubquery. respects_tac. Qed.
Lemma respects_del_ActivateWaitingSubquery S cmd :
  respects (rel T S) (RedisDelCommand_ActivateWaitingSubquery cmd).
Proof. unfold RedisDelCommand_ActivateWaitingSubquery. respects_tac. Qed.
Lemma respects_TryWriteReply S cmd b : has_turn S cmd -> respects (rel T S) (TryWriteReply cmd b).
Proof.
  intros (cl & Ht & Ho). unfold TryWriteReply. apply respects_read. intros x Hx.
  apply Hx in Ho as Hcl. subst cl. respects_tac.
Qed.
Lemma respects_mget_StartWriteReply S cmd c s :
  Turn (client_conn_ c) cmd ∈ S -> Own cmd (client_conn_ c) ∈ S ->
  respects (rel T S) (RedisMgetCommand_StartWriteReply cmd c s).
Proof. unfold RedisMgetCommand_StartWriteReply. respects_tac. Qed.
Lemma respects_error_StartWriteReply S cmd c s :
  Turn (client_conn_ c) cmd ∈ S -> Own cmd (client_conn_ c) ∈ S ->
  respects (rel T S) (ErrorCommand_StartWriteReply cmd c s).
Proof. unfold ErrorCommand_StartWriteReply. respects_tac. Qed.
Lemma respects_stats_StartWriteReply S cmd c s :
  Turn (client_conn_ c) cmd ∈ S -> Own cmd (client_conn_ c) ∈ S ->
  respects (rel T S) (StatsCommand_StartWriteReply cmd c s).
Proof. unfold StatsCommand_StartWriteReply. respects_tac. Qed.
Lemma respects_write_unprocessed S cl b : respects (rel T S) (write_unprocessed cl b).
Proof. unfold write_unprocessed. respects_tac. Qed.
Lemma respects_memc_get_start S cmd q : respects (rel T S) (memc_get_start cmd q).
Proof. unfold memc_get_start. respects_tac. Qed.
Lemma respects_mget_start S cmd q : respects (rel T S) (mget_start cmd q).
Proof. unfold mget_start. respects_tac. Qed.
Hint Resolve respects_mset_ActivateWaitingSubquery respects_del_ActivateWaitingSubquery
  respects_TryWriteReply respects_mget_StartWriteReply respects_error_StartWriteReply
  respects_stats_StartWriteReply respects_write_unprocessed respects_memc_get_start
  respects_mget_start : respects.
Lemma respects_StartWriteQuery S cmd : respects (rel T S) (StartWriteQuery cmd).
Proof.
  unfold StartWriteQuery, Command_StartWriteQuery, ErrorCommand_StartWriteQuery,
    StatsCommand_StartWriteQuery, MemcGetCommand_StartWriteQuery, RedisMgetCommand_StartWriteQuery,
    RedisDelCommand_StartWriteQuery, RedisMsetCommand_StartWriteQuery. respects_tac.
Qed.
Lemma respects_mset_forget S cmd b : respects (rel T S) (mset_forget cmd b).
Proof. unfold mset_forget. respects_tac. Qed.
Lemma respects_reply_or_wait S cmd b : respects (rel T S) (reply_or_wait cmd b).
Proof. unfold reply_or_wait. respects_tac. Qed.
Hint Resolve respects_mset_forget respects_reply_or_wait : respects.
Lemma respects_ContinueWriteQuery S cmd : respects (rel T S) (ContinueWriteQuery cmd).
Proof.
  unfold ContinueWriteQuery, Command_ContinueWriteQuery, RedisMsetCommand_ContinueWriteQuery.
  respects_tac.
Qed.
Lemma set_parse_loop_block n k b r j b' : set_parse_loop n k b = Ok (r, j, b') -> same_block b b'.
Proof.
  revert k b. induction n as [|n IH]; intros k b; cbn [set_parse_loop]; (case_match; [|by intros [= _ _ <-]]); [done|].
  intros Hl. inv_bind Hl. case_match; [by injection Hl as _ _ <-|]. case_match; [by injection Hl as _ _ <-|].
  inv_bind Hl. by apply IH in Hl.
Qed.
Lemma respects_set_ParseUnparsedPart S cmd c n complete :
  respects (rel T S) (RedisSetCommand_ParseUnparsedPart cmd c n complete).
Proof.
  intros w a w' (buf & w1 & (x & w2 & [-> Hx]%client_Ok & [= <- <-])%M_bind_Ok & H)%M_bind_Ok.
  apply M_bind_Ok in H as ([[r k] buf] & w1 & [-> Hb%set_parse_loop_block]%lift_Ok & H).
  apply M_bind_Ok in H as (u & w1 & (y & w2 & [-> Hy]%client_Ok & [= <- <-])%M_bind_Ok & H). simplify_eq.
  etransitivity; [|by_respects H].
  apply rel_shrinks; [by eapply (stable_set_client w c x)|by eapply (shrinks_set_client w c x)].
Qed.
Hint Resolve respects_set_ParseUnparsedPart : respects.
Lemma respects_ParseUnparsedPart S cmd : respects (rel T S) (ParseUnparsedPart cmd).
Proof. unfold ParseUnparsedPart. respects_tac. Qed.
Lemma respects_ProcessUnparsedPart S cmd : respects (rel T S) (ProcessUnparsedPart cmd).
Proof.
  unfold ProcessUnparsedPart, RedisDelCommand_ProcessUnparsedPart,
    RedisMsetCommand_ProcessUnparsedPart. respects_tac.
Qed.
End queries.

#[export] Hint Resolve respects_locate_key respects_locate_bulk respects_memc_get_subqueries
  respects_mget_subqueries respects_del_push_all respects_mset_push_all
  respects_RedisBasicCommand_ctor respects_RedisSetCommand_ctor
  respects_MemcBasicCommand_ctor respects_MemcSetCommand_ctor respects_ErrorCommand_ctor
  respects_StatsCommand_ctor respects_MemcGetCommand_ctor respects_RedisMgetCommand_ctor
  respects_RedisDelCommand_ctor respects_RedisMsetCommand_ctor : respects.
#[export] Hint Resolve respects_CreateCommand respects_TryWriteReply respects_memc_get
  respects_redis_mget respects_redis_del respects_redis_mset respects_mget_StartWriteReply
  respects_error_StartWriteReply respects_stats_StartWriteReply respects_mset_forget
  respects_reply_or_wait respects_StartWriteQuery respects_ContinueWriteQuery respects_ParseUnparsedPart
  respects_ProcessUnparsedPart : respects.

(** *** Turning received bytes into commands *)

(** No operation is started and no queue changes. *)
Definition calm (w w' : World) : Prop :=
  in_flight w' = in_flight w /\
  forall c x', clients w' !! c = Some x' ->
    exists x, clients w !! c = Some x /\ active_cmd_queue_ x' = active_cmd_queue_ x.

#[global] Instance calm_preorder : PreOrder calm.
Proof.
  split; [intros w; split; eauto|]. intros w1 w2 w3 [H12 Hc12] [H23 Hc23]. split; [congruence|].
  intros c x3 H3. destruct (Hc23 c x3 H3) as (x2 & H2 & Hq). destruct (Hc12 c x2 H2) as (x1 & H1 & Hq').
  exists x1. split; [done|congruence].
Qed.
Lemma quiet_calm w w' : quiet w w' -> calm w w'.
Proof. intros (Hc & _ & Hi & _). split; [done|]. rewrite Hc. eauto. Qed.

Lemma calm_Allocate ep : respects calm (Allocate ep).
Proof. intros w a w' H. by eapply quiet_calm, quiet_Allocate. Qed.
Lemma calm_Release b : respects calm (Release b).
Proof. intros w a w' H. by eapply quiet_calm, quiet_Release. Qed.
Lemma calm_on_client_buffer c f : respects calm (on_client_buffer c f).
Proof.
  intros w a w' (x & w1 & [-> Hx]%client_Ok & (buf & w2 & [-> _]%lift_Ok & [= <- <-])%M_bind_Ok)%M_bind_Ok.
  split; [done|]. intros d y. cbn. rewrite lookup_insert_Some. intros [[<- <-]|[_ Hy]]; eauto.
Qed.
Lemma calm_modify f :
  (forall w, in_flight (f w) = in_flight w) -> (forall w, clients (f w) = clients w) ->
  respects calm (modify f).
Proof. intros Hi Hc. apply respects_modify. intros w. split; [apply Hi|]. rewrite Hc. eauto. Qed.
#[local] Hint Resolve calm_Allocate calm_Release calm_on_client_buffer : respects.
#[local] Hint Extern 3 (respects calm (modify _)) => apply calm_modify; reflexivity : respects.
Ltac calm_tac := unfold on_stats, release_slab, hold, set_command, fresh_id; respects_tac.

Lemma calm_drop_backend b : respects calm (drop_backend b).
Proof. unfold drop_backend, BackendConn_dtor. calm_tac. Qed.
Lemma calm_drop_client c : respects calm (drop_client c).
Proof.
  unfold drop_client, ClientConnection_dtor. calm_tac. apply respects_modify. intros w1.
  split; [done|]. intros d y Hy. cbn in Hy. apply lookup_delete_Some in Hy as [_ Hy]. eauto.
Qed.
#[local] Hint Resolve calm_drop_backend calm_drop_client : respects.
Lemma calm_drop_command c : respects calm (drop_command c).
Proof.
  unfold drop_command, Command_dtor, command_dtor_body, RedisBasicCommand_dtor, MemcBasicCommand_dtor,
    RedisSetCommand_dtor, MemcSetCommand_dtor, release_replying, MemcGetCommand_dtor,
    RedisMgetCommand_dtor, RedisDelCommand_dtor, RedisMsetCommand_dtor. calm_tac.
Qed.
#[local] Hint Resolve calm_drop_command : respects.
Lemma calm_unhold c : respects calm (unhold (HoldCommand c)).
Proof. unfold unhold. calm_tac. Qed.
Lemma calm_new_command cl p r s : respects calm (new_command cl p r s).
Proof. unfold new_command. calm_tac. Qed.
Lemma calm_locate_key m key len p : respects calm (locate_key m key len p).
Proof. unfold locate_key. calm_tac. Qed.
#[local] Hint Resolve calm_unhold calm_new_command calm_locate_key : respects.
Lemma calm_locate_bulk m b : respects calm (locate_bulk m b).
Proof. unfold locate_bulk. calm_tac. Qed.
#[local] Hint Resolve calm_locate_bulk : respects.
Lemma calm_memc_get_subqueries cl m keys s : respects calm (memc_get_subqueries cl m keys s).
Proof. revert s. induction keys as [|[p len] keys IH]; simpl; calm_tac. Qed.
Lemma calm_mget_subqueries cl m items ep s q : respects calm (mget_subqueries cl m items ep s q).
Proof. revert ep s q. induction items as [|b items IH]; simpl; calm_tac. Qed.
Lemma calm_del_push_all cl m keys s : respects calm (del_push_all cl m keys s).
Proof. revert s. induction keys as [|k keys IH]; simpl; unfold del_PushSubquery; calm_tac. Qed.
Lemma calm_mset_push_all cl m bulks s : respects calm (mset_push_all cl m bulks s).
Proof.
  enough ((forall s, respects calm (mset_push_all cl m bulks s)) /\
          (forall k s, respects calm (mset_push_all cl m (k :: bulks) s))) as [H _] by apply H.
  induction bulks as [|v bulks [IH1 IH2]]; split; [calm_tac..|apply IH2|]. simpl.
  unfold mset_PushSubquery. calm_tac.
Qed.
#[local] Hint Resolve calm_memc_get_subqueries calm_mget_subqueries calm_del_push_all
  calm_mset_push_all : respects.
Lemma calm_CreateCommand cl buf size : respects calm (CreateCommand cl buf size).
Proof.
  unfold CreateCommand, redis_command, memc_command, RedisBasicCommand_ctor, RedisSetCommand_ctor,
    MemcBasicCommand_ctor, MemcSetCommand_ctor, ErrorCommand_ctor, StatsCommand_ctor,
    MemcGetCommand_ctor, RedisMgetCommand_ctor, RedisDelCommand_ctor, RedisMsetCommand_ctor.
  calm_tac.
Qed.

(** The commands a function may return, those related by [P] to its result, are
    new and belong to client [cl]. *)
Definition anything (w w' : World) : Prop := True.
#[global] Instance anything_stable : Stable anything.
Proof. split; done. Qed.

Definition makes {A} (P : A -> Z -> Prop) (cl : Z) (m : M A) : Prop :=
  forall w a w', wf w -> m w = Ok (a, w') -> forall cmd, P a cmd ->
    next_id w <= cmd /\ holds w' (Own cmd cl).

Lemma makes_none {A} (P : A -> Z -> Prop) cl a : (forall cmd, ~ P a cmd) -> makes P cl (mret a).
Proof. intros HP w a' w' _ [= <- <-] cmd Hcmd. by apply HP in Hcmd. Qed.
Lemma makes_prefix {A B} (P : B -> Z -> Prop) cl (m : M A) (k : A -> M B) :
  respects (rel anything []) m -> (forall a, makes P cl (k a)) -> makes P cl (m ≫= k).
Proof.
  intros Hm Hk w b w' Hw (a & w1 & H1 & H)%M_bind_Ok cmd Hcmd.
  destruct (Hm w a w1 H1 Hw) as (_ & Hw1 & _ & Hn); [constructor|].
  destruct (Hk a w1 b w' Hw1 H cmd Hcmd) as [Hc Ho]. split; [lia|done].
Qed.
Lemma makes_suffix {A B} (P : A -> Z -> Prop) (Q : B -> Z -> Prop) cl (m : M A) (k : A -> M B) :
  makes P cl m -> respects (rel anything []) m -> (forall a S, respects (rel anything S) (k a)) ->
  (forall a w b w' cmd, k a w = Ok (b, w') -> Q b cmd -> P a cmd) -> makes Q cl (m ≫= k).
Proof.
  intros Hm Hr Hk HPQ w b w' Hw (a & w1 & H1 & H)%M_bind_Ok cmd Hcmd.
  destruct (Hr w a w1 H1 Hw) as (_ & Hw1 & _ & Hn); [constructor|].
  destruct (Hm w a w1 Hw H1 cmd) as [Hc Ho]; [by eapply HPQ|]. split; [done|].
  destruct (Hk a [Own cmd cl] w1 b w' H Hw1) as (_ & _ & Hf & _); [by constructor|].
  by apply Forall_cons in Hf as [Hf _].
Qed.
Lemma makes_new_command cl p r s : makes eq cl (new_command cl p r s).
Proof.
  intros w a w' Hw H cmd <-.
  unfold new_command, fresh_id, hold, set_command, modify, get, mret, M_ret, mbind, M_bind in H.
  injection H as <- <-. split; [done|]. split; [cbn; lia|]. intros k. cbn.
  rewrite lookup_insert_eq. by intros [= <-].
Qed.

(** The command [CreateCommand] returns *)
Definition created (r : Z * option Z) (cmd : Z) : Prop := r.2 = Some cmd.

(** A chain of pure steps that ends with the command *)
Ltac returned_tac :=
  let H := fresh in let HQ := fresh in
  intros ? ? ? ? ? H HQ;
  repeat first
    [ apply M_bind_Ok in H; destruct H as (? & ? & _ & H)
    | match type of H with context [match ?x with _ => _ end] => destruct x end
    | discriminate H
    | injection H as <- <- ];
  unfold created in *; simpl in *; congruence.
Ltac makes_tac :=
  repeat match goal with
  | |- makes _ _ (mret _) => apply makes_none; intros ? ?; unfold created in *; simpl in *; discriminate
  | |- makes _ _ (fault _) => intros ? ? ? ? ?; discriminate
  | |- makes eq _ (new_command _ _ _ _) => apply makes_new_command
  | |- makes _ _ (match ?x with _ => _ end) => destruct x
  | |- makes _ _ (let '_ := ?x in _) => destruct x
  | |- makes _ _ (mbind _ _) =>
      first [ eapply (makes_suffix eq); [solve [eauto with makes]|solve [respects_tac]|solve [respects_tac]|returned_tac]
            | apply makes_prefix; [solve [respects_tac]|intros ?] ]
  end.
Create HintDb makes.
Lemma makes_RedisBasicCommand cl m ba : makes eq cl (RedisBasicCommand_ctor cl m ba).
Proof. unfold RedisBasicCommand_ctor. makes_tac. Qed.
Lemma makes_RedisSetCommand cl m ba : makes eq cl (RedisSetCommand_ctor cl m ba).
Proof. unfold RedisSetCommand_ctor. makes_tac. Qed.
Lemma makes_MemcBasicCommand cl m buf : makes eq cl (MemcBasicCommand_ctor cl m buf).
Proof. unfold MemcBasicCommand_ctor. makes_tac. Qed.
Lemma makes_MemcGetCommand cl m p n : makes eq cl (MemcGetCommand_ctor cl m p n).
Proof. unfold MemcGetCommand_ctor. makes_tac. Qed.
Lemma makes_RedisMgetCommand cl m ba : makes eq cl (RedisMgetCommand_ctor cl m ba).
Proof. unfold RedisMgetCommand_ctor. makes_tac. Qed.
Lemma makes_RedisDelCommand cl m ba : makes eq cl (RedisDelCommand_ctor cl m ba).
Proof. unfold RedisDelCommand_ctor. makes_tac. Qed.
Lemma makes_RedisMsetCommand cl m ba : makes eq cl (RedisMsetCommand_ctor cl m ba).
Proof. unfold RedisMsetCommand_ctor. makes_tac. Qed.
Lemma makes_ErrorCommand cl msg : makes eq cl (ErrorCommand_ctor cl msg).
Proof. apply makes_new_command. Qed.
Lemma makes_StatsCommand cl p : makes eq cl (StatsCommand_ctor cl p).
Proof. unfold StatsCommand_ctor. makes_tac. Qed.
#[export] Hint Resolve makes_new_command makes_RedisBasicCommand makes_RedisSetCommand
  makes_MemcBasicCommand makes_MemcGetCommand makes_RedisMgetCommand makes_RedisDelCommand
  makes_RedisMsetCommand makes_ErrorCommand makes_StatsCommand : makes.
Lemma makes_MemcSetCommand cl m p n :
  makes (fun a cmd => a.1 = cmd) cl (MemcSetCommand_ctor cl m p n).
Proof. unfold MemcSetCommand_ctor. makes_tac. Qed.
Lemma makes_redis_command cl m buf size : makes created cl (redis_command cl m buf size).
Proof. unfold redis_command. makes_tac. Qed.
Lemma makes_memc_command cl m buf size lf : makes created cl (memc_command cl m buf size lf).
Proof.
  unfold memc_command. apply makes_prefix; [respects_tac|]. intros []; try solve [makes_tac].
  intros w r w' Hw ([cmd n] & w1 & H1 & H)%M_bind_Ok k Hk.
  destruct (respects_MemcSetCommand_ctor anything [] cl m buf _ w (cmd, n) w1 H1 Hw) as (_ & Hw1 & _ & Hn);
    [constructor|].
  destruct (n <=? 2).
  - revert H. set (rest := lift _ ≫= _). intros H.
    enough (makes created cl rest) as Hr.
    { destruct (Hr w1 r w' Hw1 H k Hk). split; [lia|done]. }
    unfold rest. makes_tac.
  - injection H as <- <-. unfold created in Hk. simpl in Hk. injection Hk as <-.
    by apply (makes_MemcSetCommand cl m buf _ w (cmd, n) w1 Hw H1).
Qed.
#[export] Hint Resolve makes_redis_command makes_memc_command : makes.
Lemma makes_CreateCommand cl buf size : makes created cl (CreateCommand cl buf size).
Proof.
  unfold CreateCommand. makes_tac; eauto with makes.
Qed.

(** One turn of the loop of [ProcessUnparsedQuery]: a command may be queued, and what
    is done before and after that leaves the queues alone. *)
Lemma process_one_split S c w more w' :
  process_one c w = Ok (more, w') -> wf w -> Forall (holds w) S ->
  exists w0 w1, calm w w0 /\ (forall T, Stable T -> T w w0) /\
    (w1 = w0 /\ more = false \/ exists cmd, push_command c cmd w0 = Ok (tt, w1)) /\
    wf w1 /\ Forall (holds w1) S /\ next_id w <= next_id w1 /\ (forall T, Stable T -> rel T S w1 w').
Proof.
  intros H Hw Hf. unfold process_one in H.
  apply M_bind_Ok in H as (buf & w1 & (x & w0 & [-> Hx]%client_Ok & [= <- <-])%M_bind_Ok & H).
  apply M_bind_Ok in H as ([n cmd] & w2 & H2 & H).
  destruct (respects_CreateCommand anything S c _ _ w _ w2 H2 Hw Hf) as (_ & Hw2 & Hf2 & Hn2).
  assert (forall T, Stable T -> T w w2) as HT2
    by (intros T HT; by apply (respects_CreateCommand T S c _ _ w _ w2 H2)).
  pose proof (makes_CreateCommand c _ _ w _ w2 Hw H2) as Hmade.
  apply calm_CreateCommand in H2 as Hcalm. apply M_bind_Ok in H as (b & w3 & H3 & H).
  assert (forall T, Stable T -> rel T S w3 w') as Hlast by (intros T HT; by_respects H).
  destruct (n =? 0).
  { exists w2, w2. split_and!; [done|done| |done..|].
    - left. split; [done|]. apply M_bind_Ok in H3 as (u & w4 & _ & [= <- <-]).
      apply M_bind_Ok in H as (u' & w5 & _ & [= <- <-]). done.
    - intros T HT. etransitivity; [by_respects H3|by apply Hlast]. }
  apply M_bind_Ok in H3 as (u & w4 & H4 & H3).
  assert (forall T S, Stable T -> rel T S w2 w4) as Hr4 by (intros; by_respects H4).
  destruct (Hr4 anything S _ Hw2 Hf2) as (_ & Hw4 & Hf4 & Hn4).
  apply calm_on_client_buffer in H4 as Hcalm4. assert (calm w w4) as [Hi4 Hq4] by (by etransitivity).
  apply M_bind_Ok in H3 as (k & w5 & [-> Hk%of_option_Ok]%lift_Ok & H3). subst cmd.
  destruct (Hmade k eq_refl) as [Hkn Hown].
  destruct (Hr4 anything [Own k c] _ Hw2) as (_ & _ & Ho4 & _);
    [by constructor|]. apply Forall_cons in Ho4 as [[Hk4 Ho4] _].
  apply M_bind_Ok in H3 as ([] & w5 & H5 & H3).
  destruct (keeps_push S c k w4 w5 H5 Hw4 Hf4) as (Hw5 & Hf5 & Hn5); [..|done|done|].
  - intros d y k' Hy Hin. destruct (Hq4 d y Hy) as (y1 & Hy1 & Hqy).
    destruct (wf_queued w Hw d y1 k' Hy1) as [Hlt _]; [by rewrite <- Hqy|lia].
  - intros d p m r Hin. rewrite Hi4 in Hin. destruct (wf_write w Hw d p m k r Hin) as (_ & ? & _). lia.
  - eapply Forall_impl; [exact Hf|]. intros f Hh%holds_below. destruct f; simpl in *; lia.
  - exists w4, w5. split_and!; [done| |right; by exists k|done..|lia|].
    + intros T HT. transitivity w2; [by apply HT2|].
      by apply (Hr4 T S).
    + intros T HT. etransitivity; [by_respects H3|by apply Hlast].
Qed.
Lemma keeps_process_one S c : respects (keeps S) (process_one c).
Proof.
  intros w more w' H Hw Hf.
  destruct (process_one_split S c w more w' H Hw Hf) as (_ & w1 & _ & _ & _ & Hw1 & Hf1 & Hn1 & Hr).
  destruct (Hr anything _ Hw1 Hf1) as (_ & ? & ? & ?). split_and!; [done..|lia].
Qed.

Lemma keeps_process_unparsed S fuel c : respects (keeps S) (process_unparsed fuel c).
Proof.
  induction fuel as [|fuel IH]; intros w a w' (x & w1 & [-> Hx]%client_Ok & H)%M_bind_Ok;
    (destruct (_ && _); [|injection H as _ <-; reflexivity]); [done|].
  apply M_bind_Ok in H as (more & w1 & H1%(keeps_process_one S) & H).
  etransitivity; [exact H1|]. destruct more; [by eapply IH|injection H as _ <-; reflexivity].
Qed.

(** A relation that queueing a command respects *)
Lemma process_unparsed_stable T `{!Stable T} fuel c w a w' :
  (forall cmd w w', push_command c cmd w = Ok (tt, w') -> T w w') ->
  wf w -> process_unparsed fuel c w = Ok (a, w') -> T w w'.
Proof.
  intros Hpush. revert w. induction fuel as [|fuel IH]; intros w Hw (x & w1 & [-> Hx]%client_Ok & H)%M_bind_Ok;
    (destruct (_ && _); [|injection H as _ <-; reflexivity]); [done|].
  apply M_bind_Ok in H as (more & w1 & H1 & H).
  destruct (process_one_split [] c w more w1 H1 Hw) as (w2 & w3 & _ & HT2 & Hc & Hw3 & Hf3 & _ & Hr);
    [constructor|].
  destruct (Hr T _ Hw3 Hf3) as (HT3 & Hw1 & _).
  transitivity w1; [|destruct more; [by eapply IH|injection H as _ <-; reflexivity]].
  transitivity w2; [by apply HT2|]. transitivity w3; [|done].
  destruct Hc as [[-> _]|[cmd Hc]]; [reflexivity|by eapply Hpush].
Qed.
