(* ===== verification/ReplyLogic.v ===== *)
(** * Reasoning about handlers: replies and events

    What [Logic] says of the functions that parse and forward replies, of the
    completion handlers, and of the events of a worker. *)

From S2P Require Import Prelude CString StdMap ErrorCode ReadBuffer Allocator Config.
From S2P Require Import RedisProtocol KeyDistributer KeyLocator QueryParser BackendConn.
From S2P Require Import ReplyParser World BackendPool Lifetime ConnIO Commands CommandQuery.
From S2P Require Import CommandReply Order Worker Logic QueryLogic.

(** *** Reply parsers keep the connection's storage and endpoint *)
(** Takes apart a run of a parser along its branches. *)
Ltac run_inv :=
  repeat match goal with
  | H : (_ ≫= _) = Ok _ |- _ => apply bind_Ok in H; destruct H as (? & ? & H)
  | H : context [match ?x with _ => _ end] |- _ =>
      lazymatch type of H with _ = Ok _ => destruct x eqn:? end
  | H : Ok _ = Ok _ |- _ => injection H as <-; try subst
  | H : Ok _ = Ok _ |- _ => injection H; clear H; intros; subst
  | H : Fault _ = Ok _ |- _ => discriminate H
  end.

Lemma ParseSimpleReply_conn p x r y : ParseSimpleReply p x = Ok (r, y) -> same_conn x y.
Proof.
  unfold ParseSimpleReply, ParseRedisSimpleReply, ParseMemcSimpleReply.
  intros H. run_inv; done.
Qed.
Lemma memc_get_loop_conn fuel l x r y : memc_get_loop fuel l x = Ok (r, y) -> same_conn x y.
Proof.
  revert x. induction fuel as [|fuel IH]; intros x H; cbn [memc_get_loop] in H; run_inv;
    try done; try (apply IH in H; exact H).
Qed.
Lemma RedisDel_ParseReply_conn n x r k y :
  RedisDel_ParseReply n x = Ok (r, k, y) -> same_conn x y.
Proof. unfold RedisDel_ParseReply. intros H. run_inv; done. Qed.
Lemma mget_take_bulk_conn s r s' :
  mget_take_bulk s = Ok (r, s') -> same_conn (mp_backend s) (mp_backend s').
Proof. unfold mget_take_bulk. intros H. run_inv; done. Qed.
Lemma mget_loop_conn fuel s r s' :
  mget_loop fuel s = Ok (r, s') -> same_conn (mp_backend s) (mp_backend s').
Proof.
  revert s. induction fuel as [|fuel IH]; intros s H; cbn [mget_loop] in H; run_inv; try done;
    repeat match goal with H : mget_take_bulk _ = _ |- _ => apply mget_take_bulk_conn in H end;
    try done.
  apply IH in H. by etransitivity.
Qed.
Lemma RedisMget_ParseReply_conn s r s' :
  RedisMget_ParseReply s = Ok (r, s') -> same_conn (mp_backend s) (mp_backend s').
Proof.
  unfold RedisMget_ParseReply. intros H. case_match; [|by apply mget_loop_conn in H].
  run_inv; done.
Qed.

(** ** Updates of the command queue *)
Class StableQueue (T : World -> World -> Prop) : Prop := {
  stable_queue_stable :: Stable T;
  stable_shrink w c x q :
    clients w !! c = Some x -> q `suffix_of` active_cmd_queue_ x ->
    T w (w_clients (<[c := l_active_cmd_queue q x]> (clients w)) w);
  stable_ProcessUnparsedQuery c w a w' :
    wf w -> ProcessUnparsedQuery c w = Ok (a, w') -> T w w'
}.
Lemma respects_ProcessUnparsedQuery T `{!StableQueue T} S c : respects (rel T S) (ProcessUnparsedQuery c).
Proof.
  intros w a w' H Hw Hf. split; [by eapply stable_ProcessUnparsedQuery|].
  by apply (keeps_process_unparsed S kPipelineActiveLimit c w a w').
Qed.
#[export] Hint Resolve respects_ProcessUnparsedQuery : respects.

(** Bytes given to a socket *)
Class StableIO (T : World -> World -> Prop) : Prop := {
  stable_io_queue :: StableQueue T;
  stable_trace w l : T w (w_trace l w)
}.

(** *** Forwarding replies *)
Section replies.
Context (T : World -> World -> Prop) `{!StableQueue T}.

Lemma respects_pop_command S c : respects (rel T S) (pop_command c).
Proof.
  intros w a w' (x & w1 & [-> Hx]%client_Ok & H)%M_bind_Ok.
  destruct (active_cmd_queue_ x) as [|first rest] eqn:Hq; [done|].
  apply M_bind_Ok in H as (u & w1 & [= <- <-] & H).
  etransitivity; [|by eapply (respects_drop_command T S)].
  apply rel_shrinks; [eapply stable_shrink; [done|]|eapply shrinks_set_client; [done| |done]];
    simpl; rewrite Hq; by apply suffix_cons_r.
Qed.
Hint Resolve respects_pop_command : respects.
Lemma respects_clear S c : respects (rel T S) (update_client c (l_active_cmd_queue [])).
Proof.
  intros w a w' (x & w1 & [-> Hx]%client_Ok & [= <- <-])%M_bind_Ok.
  apply rel_shrinks; [eapply stable_shrink; [done|]|eapply shrinks_set_client; [done| |done]];
    apply suffix_nil.
Qed.
Hint Resolve respects_clear : respects.
Lemma respects_ClientAbort S c : respects (rel T S) (Client.Abort c).
Proof. unfold Client.Abort. respects_tac. Qed.
Hint Resolve respects_ClientAbort : respects.

Lemma respects_memc_next S rotate fuel cmd :
  (forall S c, respects (rel T S) (rotate c)) -> has_turn S cmd ->
  respects (rel T S) (memc_next rotate fuel cmd).
Proof. intros Hr. revert S. induction fuel as [|fuel IH]; intros S Ht; simpl; respects_tac. Qed.
Hint Resolve respects_memc_next : respects.
Lemma respects_memc_NextBackendStartReply S rotate cmd :
  (forall S c, respects (rel T S) (rotate c)) -> has_turn S cmd ->
  respects (rel T S) (MemcGetCommand_NextBackendStartReply rotate cmd).
Proof. intros Hr Ht. unfold MemcGetCommand_NextBackendStartReply. respects_tac. Qed.
Hint Resolve respects_memc_NextBackendStartReply : respects.
Lemma respects_start_write_reply S rotate cmd :
  (forall S c, respects (rel T S) (rotate c)) -> has_turn S cmd ->
  respects (rel T S) (start_write_reply rotate cmd).
Proof.
  intros Hr Ht. unfold start_write_reply. apply respects_read. intros x Hx.
  assert (Turn (client_conn_ x) cmd ∈ S) as Hturn by (destruct Ht as (cl & Ht & Ho); by rewrite (Hx cl Ho)).
  unfold Command_StartWriteReply, MemcGetCommand_StartWriteReply. respects_tac.
Qed.
Hint Resolve respects_start_write_reply : respects.

Lemma respects_rotate_command S fuel c : respects (rel T S) (rotate_command fuel c).
Proof.
  revert S c. induction fuel as [|fuel IH]; intros S c; simpl.
  - respects_tac. 
  - apply respects_bind; [apply _|respects_tac|intros x].
    apply respects_bind; [apply _|respects_tac|intros _].
    apply respects_bind; [apply _|respects_tac|intros _].
    apply respects_front. intros y. destruct (active_cmd_queue_ y) as [|next q]; respects_tac.
Qed.
Hint Resolve respects_rotate_command : respects.
Lemma respects_RotateReplyingCommand S c : respects (rel T S) (RotateReplyingCommand c).
Proof. unfold RotateReplyingCommand. respects_tac. Qed.
Hint Resolve respects_RotateReplyingCommand : respects.

(** Storing what a computation made of the backend *)
Lemma respects_store_backend {B} S b x x' (k : M B) :
  same_conn x x' -> respects (rel T S) k ->
  forall w a w', backends w !! b = Some x -> (set_backend b x';; k) w = Ok (a, w') -> rel T S w w'.
Proof.
  intros He Hk w a w' Hx (u & w1 & [= <- <-] & H)%M_bind_Ok.
  etransitivity; [by eapply (rel_set_backend T)|by eapply Hk].
Qed.

Lemma respects_mget_ParseReply S cmd b : respects (rel T S) (RedisMgetCommand_ParseReply cmd b).
Proof.
  intros w a w' ([c s] & w1 & H1 & H)%M_bind_Ok.
  transitivity w1; [by eapply (respects_redis_mget T S cmd)|].
  apply M_bind_Ok in H as (x & w2 & [-> Hx]%backend_Ok & H).
  apply M_bind_Ok in H as (q & w2 & [-> Hq]%lift_Ok & H).
  apply M_bind_Ok in H as ([r st] & w2 & [-> Hp]%lift_Ok & H).
  apply RedisMget_ParseReply_conn in Hp. revert H.
  apply (respects_store_backend S b x); [done|respects_tac|done].
Qed.
Hint Resolve respects_mget_ParseReply : respects.

Lemma respects_Command_ParseReply S b p : respects (rel T S) (Command_ParseReply b p).
Proof.
  intros w a w' (x & w1 & [-> Hx]%backend_Ok & ([r y] & w2 & [-> Hp]%lift_Ok & H)%M_bind_Ok)%M_bind_Ok.
  revert H. apply (respects_store_backend S b x); [by eapply ParseSimpleReply_conn|respects_tac|done].
Qed.
Lemma respects_memc_ParseReply S b s : respects (rel T S) (MemcGetCommand_ParseReply b s).
Proof.
  intros w a w' (x & w1 & [-> Hx]%backend_Ok & ([r y] & w2 & [-> Hp]%lift_Ok & H)%M_bind_Ok)%M_bind_Ok.
  revert H. apply (respects_store_backend S b x); [by eapply memc_get_loop_conn|respects_tac|done].
Qed.
Lemma respects_del_ParseReply S cmd b s : respects (rel T S) (RedisDelCommand_ParseReply cmd b s).
Proof.
  intros w a w' (x & w1 & [-> Hx]%backend_Ok & ([[r n] y] & w2 & [-> Hp]%lift_Ok & H)%M_bind_Ok)%M_bind_Ok.
  revert H. apply (respects_store_backend S b x); [by eapply RedisDel_ParseReply_conn|respects_tac|done].
Qed.
Hint Resolve respects_Command_ParseReply respects_memc_ParseReply respects_del_ParseReply : respects.
Lemma respects_ParseReply S cmd b : respects (rel T S) (ParseReply cmd b).
Proof. unfold ParseReply. respects_tac. Qed.
Hint Resolve respects_ParseReply : respects.

Lemma respects_mget_BackendReadyToReply S cmd b : respects (rel T S) (RedisMgetCommand_BackendReadyToReply cmd b).
Proof. unfold RedisMgetCommand_BackendReadyToReply. respects_tac. Qed.
Hint Resolve respects_mget_BackendReadyToReply : respects.
Lemma respects_mget_NextBackendStartReply S cmd : respects (rel T S) (RedisMgetCommand_NextBackendStartReply cmd).
Proof. unfold RedisMgetCommand_NextBackendStartReply. respects_tac. Qed.
Hint Resolve respects_mget_NextBackendStartReply : respects.
Lemma respects_RotateReplyingBackend S cmd : has_turn S cmd -> respects (rel T S) (RotateReplyingBackend cmd).
Proof.
  unfold RotateReplyingBackend, Command_RotateReplyingBackend, MemcGetCommand_RotateReplyingBackend,
    RedisMgetCommand_RotateReplyingBackend. respects_tac.
Qed.
Hint Resolve respects_RotateReplyingBackend : respects.
Lemma respects_memc_BackendReadyToReply S cmd b : respects (rel T S) (MemcGetCommand_BackendReadyToReply cmd b).
Proof. unfold MemcGetCommand_BackendReadyToReply, MemcGetCommand_TryActivateReplyingBackend. respects_tac. Qed.
Lemma respects_memc_TryMarkLastBackend S cmd b : respects (rel T S) (MemcGetCommand_TryMarkLastBackend cmd b).
Proof. unfold MemcGetCommand_TryMarkLastBackend. respects_tac. Qed.
Lemma respects_BackendErrorRecoverable S cmd b : respects (rel T S) (BackendErrorRecoverable cmd b).
Proof. unfold BackendErrorRecoverable. respects_tac. Qed.
Lemma respects_mark_failed S b : respects (rel T S) (mark_failed b).
Proof. unfold mark_failed. respects_tac. Qed.
Lemma respects_del_forget S cmd b : respects (rel T S) (del_forget cmd b).
Proof. unfold del_forget. respects_tac. Qed.
Lemma respects_SetBackendReplyCount S b n : respects (rel T S) (SetBackendReplyCount b n).
Proof. unfold SetBackendReplyCount. respects_tac. Qed.
Hint Resolve respects_memc_BackendReadyToReply respects_memc_TryMarkLastBackend
  respects_BackendErrorRecoverable respects_mark_failed respects_del_forget
  respects_SetBackendReplyCount : respects.
Lemma respects_try_read_if_unlocked S c : respects (rel T S) (try_read_if_unlocked c).
Proof. unfold try_read_if_unlocked. respects_tac. Qed.
Hint Resolve respects_try_read_if_unlocked : respects.
Lemma respects_memc_RecoverableError S cmd b ec :
  respects (rel T S) (MemcGetCommand_OnBackendRecoverableError cmd b ec).
Proof. unfold MemcGetCommand_OnBackendRecoverableError. respects_tac. Qed.
Lemma respects_mget_RecoverableError S cmd b ec :
  respects (rel T S) (RedisMgetCommand_OnBackendRecoverableError cmd b ec).
Proof. unfold RedisMgetCommand_OnBackendRecoverableError. respects_tac. Qed.
Lemma respects_del_RecoverableError S cmd b ec :
  respects (rel T S) (RedisDelCommand_OnBackendRecoverableError cmd b ec).
Proof. unfold RedisDelCommand_OnBackendRecoverableError. respects_tac. Qed.
Lemma respects_mset_RecoverableError S cmd b ec :
  respects (rel T S) (RedisMsetCommand_OnBackendRecoverableError cmd b ec).
Proof. unfold RedisMsetCommand_OnBackendRecoverableError. respects_tac. Qed.
Hint Resolve respects_memc_RecoverableError respects_mget_RecoverableError
  respects_del_RecoverableError respects_mset_RecoverableError : respects.
Lemma respects_OnBackendRecoverableError S cmd b ec : respects (rel T S) (OnBackendRecoverableError cmd b ec).
Proof. unfold OnBackendRecoverableError, Command_OnBackendRecoverableError. respects_tac. Qed.
Hint Resolve respects_OnBackendRecoverableError : respects.
Lemma respects_write_segment S b l : respects (rel T S) (write_segment b l).
Proof. unfold write_segment. respects_tac. Qed.
Lemma respects_read_more_if_unlocked S cmd : respects (rel T S) (read_more_if_unlocked cmd).
Proof. unfold read_more_if_unlocked. respects_tac. Qed.
Lemma respects_dec_client_lock S c : respects (rel T S) (dec_client_lock c).
Proof. unfold dec_client_lock. respects_tac. Qed.
Hint Resolve respects_write_segment respects_read_more_if_unlocked respects_dec_client_lock : respects.
Lemma respects_mset_query_part_sent S cmd b c i : respects (rel T S) (mset_query_part_sent cmd b c i).
Proof. unfold mset_query_part_sent. respects_tac. Qed.
Hint Resolve respects_mset_query_part_sent : respects.
Lemma respects_OnWriteQueryFinished S cmd b ec : respects (rel T S) (OnWriteQueryFinished cmd b ec).
Proof.
  unfold OnWriteQueryFinished, Command_OnWriteQueryFinished, MemcGetCommand_OnWriteQueryFinished,
    RedisMgetCommand_OnWriteQueryFinished, RedisDelCommand_OnWriteQueryFinished,
    RedisMsetCommand_OnWriteQueryFinished. respects_tac.
Qed.
Lemma respects_parse_if_ok S cmd b ec : respects (rel T S) (parse_if_ok cmd b ec).
Proof. unfold parse_if_ok. respects_tac. Qed.
Lemma respects_reply_error S cmd b ec : respects (rel T S) (reply_error cmd b ec).
Proof. unfold reply_error. respects_tac. Qed.
Lemma respects_consume_reply S b : respects (rel T S) (consume_reply b).
Proof. unfold consume_reply. respects_tac. Qed.
Lemma respects_read_more_bulks S c n : respects (rel T S) (read_more_bulks c n).
Proof. unfold read_more_bulks. respects_tac. Qed.
Hint Resolve respects_parse_if_ok respects_reply_error respects_consume_reply
  respects_read_more_bulks : respects.
Lemma respects_OnBackendReplyReceived S cmd b ec : respects (rel T S) (OnBackendReplyReceived cmd b ec).
Proof.
  unfold OnBackendReplyReceived, Command_OnBackendReplyReceived,
    MemcGetCommand_OnBackendReplyReceived, RedisMgetCommand_OnBackendReplyReceived,
    RedisDelCommand_OnBackendReplyReceived, RedisMsetCommand_OnBackendReplyReceived. respects_tac.
Qed.
Lemma respects_OnWriteReplyFinished S cmd b ec :
  has_turn S cmd -> respects (rel T S) (OnWriteReplyFinished cmd b ec).
Proof.
  unfold OnWriteReplyFinished, Command_OnWriteReplyFinished, ErrorCommand_OnWriteReplyFinished,
    StatsCommand_OnWriteReplyFinished, RedisMgetCommand_OnWriteReplyFinished, reply_part_written.
  respects_tac.
Qed.
Hint Resolve respects_OnWriteQueryFinished respects_OnBackendReplyReceived
  respects_OnWriteReplyFinished : respects.

(** *** Handlers *)
Lemma respects_with_command S cmd m : respects (rel T S) m -> respects (rel T S) (with_command cmd m).
Proof. intros Hm. unfold with_command. respects_tac. Qed.
Hint Resolve respects_with_command : respects.
Lemma respects_query_sent_callback S b ec : respects (rel T S) (query_sent_callback b ec).
Proof. unfold query_sent_callback. respects_tac. Qed.
Lemma respects_reply_received_callback S b ec : respects (rel T S) (reply_received_callback b ec).
Proof. unfold reply_received_callback. respects_tac. Qed.
Lemma respects_reply_written_callback S cmd b ec :
  has_turn S cmd -> respects (rel T S) (reply_written_callback cmd b ec).
Proof. unfold reply_written_callback. respects_tac. Qed.
Lemma respects_source_bytes S p n : respects (rel T S) (source_bytes p n).
Proof. unfold source_bytes. respects_tac. Qed.
Hint Resolve respects_query_sent_callback respects_reply_received_callback
  respects_reply_written_callback respects_source_bytes : respects.
Lemma respects_Backend_HandleWrite S b p n e k : respects (rel T S) (Backend_HandleWrite b p n e k).
Proof. unfold Backend_HandleWrite, stop_write_timer. respects_tac. Qed.
Lemma respects_Backend_HandleRead S b e n : respects (rel T S) (Backend_HandleRead b e n).
Proof. unfold Backend_HandleRead. respects_tac. Qed.
Lemma respects_Backend_HandleConnect S b p n e : respects (rel T S) (Backend_HandleConnect b p n e).
Proof. unfold Backend_HandleConnect, stop_write_timer. respects_tac. Qed.
Lemma respects_Backend_OnTimeout S b ec : respects (rel T S) (Backend_OnTimeout b ec).
Proof. unfold Backend_OnTimeout. respects_tac. Qed.
Lemma respects_Client_process S c cmd : respects (rel T S) (Client_process c cmd).
Proof. unfold Client_process. respects_tac. Qed.
Hint Resolve respects_Client_process : respects.
Lemma respects_Client_received S c n : respects (rel T S) (Client_received c n).
Proof. unfold Client_received. respects_tac. apply respects_holding; [apply _|]. respects_tac. Qed.
Hint Resolve respects_Client_received : respects.
Lemma respects_Client_HandleRead S c o : respects (rel T S) (Client_HandleRead c o).
Proof. unfold Client_HandleRead. respects_tac. Qed.

(** The end of a write: its operation is no longer outstanding. *)
Lemma calm_writes w w' c : calm w w' -> writes w' c = writes w c.
Proof. unfold writes. by intros [-> _]. Qed.

Lemma rel_Client_HandleWrite S c p n cmd b e k w a w' :
  Turn c cmd ∈ S -> Own cmd c ∈ S -> writes w c = [] ->
  Client_HandleWrite c p n cmd b e k w = Ok (a, w') -> rel T S w w'.
Proof.
  intros Ht Ho Hn H. unfold Client_HandleWrite in H.
  apply M_bind_Ok in H as (u & w1 & H1 & H).
  assert (writes w1 c = []) as Hn1.
  { rewrite <- Hn. apply calm_writes. revert H1. unfold cancel_timer. apply calm_modify; done. }
  etransitivity; [eapply (respects_cancel_timer T); exact H1|]. clear H1 Hn.
  apply M_bind_Ok in H as (u1 & w2 & H2 & H).
  assert (writes w2 c = []) as Hn2.
  { rewrite <- Hn1. apply calm_writes. revert H2. apply (respects_when calm). unfold on_stats. by apply calm_modify. }
  transitivity w2; [by_respects H2|]. clear H2 Hn1. revert H.
  destruct (_ && _); [exact (respects_WriteReply T S c _ _ cmd b Ht Ho w2 a w')|].
  intros (u2 & w3 & (x & w4 & [-> Hx]%client_Ok & [= <- <-])%M_bind_Ok & H)%M_bind_Ok.
  etransitivity.
  { apply (rel_keeps T S w2 (w_clients (<[c := l_is_writing_reply false x]> (clients w2)) w2));
      [by eapply stable_set_client|by apply (keeps_written S c x)]. }
  revert H. apply respects_reply_written_callback. by exists c.
Qed.

Lemma respects_Client_OnTimeout S c r : respects (rel T S) (Client_OnTimeout c r).
Proof. unfold Client_OnTimeout. respects_tac. Qed.
Lemma respects_HandleAccept S c e : respects (rel T S) (HandleAccept c e).
Proof. unfold HandleAccept, Client.StartRead. respects_tac. Qed.
End replies.

#[export] Hint Resolve respects_pop_command respects_clear respects_ClientAbort
  respects_memc_next respects_memc_NextBackendStartReply respects_start_write_reply
  respects_rotate_command respects_RotateReplyingCommand respects_mget_ParseReply
  respects_Command_ParseReply respects_memc_ParseReply respects_del_ParseReply
  respects_ParseReply respects_mget_BackendReadyToReply respects_mget_NextBackendStartReply
  respects_RotateReplyingBackend respects_memc_BackendReadyToReply
  respects_memc_TryMarkLastBackend respects_BackendErrorRecoverable respects_mark_failed
  respects_del_forget respects_SetBackendReplyCount respects_try_read_if_unlocked
  respects_memc_RecoverableError respects_mget_RecoverableError respects_del_RecoverableError
  respects_mset_RecoverableError respects_OnBackendRecoverableError respects_write_segment
  respects_read_more_if_unlocked respects_dec_client_lock respects_mset_query_part_sent
  respects_parse_if_ok respects_reply_error respects_consume_reply respects_read_more_bulks
  respects_OnWriteQueryFinished respects_OnBackendReplyReceived respects_OnWriteReplyFinished
  respects_with_command respects_query_sent_callback respects_reply_received_callback
  respects_reply_written_callback respects_source_bytes respects_Client_process
  respects_Client_received respects_Backend_HandleWrite respects_Backend_HandleRead
  respects_Backend_HandleConnect respects_Backend_OnTimeout respects_Client_HandleRead
  respects_Client_OnTimeout respects_HandleAccept : respects.

(** ** Events *)
Section steps.
Context (T : World -> World -> Prop) `{!StableIO T}.

#[local] Instance io_stable : Stable T.
Proof. apply _. Qed.

Lemma respects_emit S o : respects (rel T S) (emit o).
Proof. apply (respects_quiet_update T); intros w; [apply stable_trace|done]. Qed.
Hint Resolve respects_emit : respects.

Lemma calm_source_bytes p n : respects calm (source_bytes p n).
Proof. unfold source_bytes, client_buffer, backend_buffer. respects_tac. Qed.

Lemma rel_complete_write S c p n cmd b o w a w' :
  Turn c cmd ∈ S -> Own cmd c ∈ S -> writes w c = [] ->
  complete_op (ClientWrite c p n cmd b) o w = Ok (a, w') -> rel T S w w'.
Proof.
  intros Ht Ho Hn H. unfold complete_op, holding in H.
  apply M_bind_Ok in H as (u & w1 & H1 & H).
  assert (writes w1 c = []) as Hn1 by (rewrite <- Hn; by injection H1 as _ <-).
  etransitivity; [by eapply (respects_hold T)|]. clear H1.
  apply M_bind_Ok in H as (u1 & w2 & H2 & H).
  transitivity w2; [|by_respects H].
  apply M_bind_Ok in H2 as (u2 & w3 & H3 & H4).
  assert (writes w3 c = []) as Hn3.
  { rewrite <- Hn1. apply calm_writes. revert H3.
    destruct o; try by intros [= _ <-]. apply (respects_bind calm); [apply calm_source_bytes|].
    intros bs. unfold emit. by apply calm_modify. }
  transitivity w3; [by_respects H3|exact (rel_Client_HandleWrite T S c p n cmd b _ _ w3 u1 w2 Ht Ho Hn3 H4)].
Qed.
Lemma respects_complete_op S op o : is_write op = false -> respects (rel T S) (complete_op op o).
Proof.
  intros Hop. unfold complete_op. destruct op; try done; respects_tac;
    apply respects_holding; try apply _; respects_tac.
Qed.
Lemma respects_timer_handler S t ec : respects (rel T S) (timer_handler t ec).
Proof. unfold timer_handler. respects_tac. Qed.
Hint Resolve respects_complete_op respects_timer_handler : respects.

(** The operation that ends was outstanding: its command has the turn, and no other
    write to the client is outstanding. *)
Lemma finished_write w i c p n cmd b :
  wf w -> in_flight w !! i = Some (ClientWrite c p n cmd b) ->
  holds w (Turn c cmd) /\ holds w (Own cmd c) /\ writes (w_in_flight (delete i (in_flight w)) w) c = [].
Proof.
  intros Hw Hop. destruct (wf_write w Hw c p n cmd b) as (Hc & Hcmd & Ho & Ht);
    [by eapply list_elem_of_lookup_2|]. split_and!; [done..|].
  pose proof (wf_single w Hw c) as Hs. unfold writes in *. cbn.
  rewrite (delete_take_drop (in_flight w)), filter_app.
  rewrite <- (take_drop_middle _ _ _ Hop), filter_app, length_app, filter_cons_True in Hs
    by (simpl; by apply bool_decide_eq_true).
  simpl in Hs. apply app_nil. split; apply length_zero_iff_nil; lia.
Qed.

Lemma rel_finish S w i op :
  in_flight w !! i = Some op -> is_accept op = false -> rel T S w (w_in_flight (delete i (in_flight w)) w).
Proof. intros Hop Ha. apply rel_shrinks; [by eapply stable_finish|apply shrinks_finish]. Qed.

(** The events of the worker itself *)
Lemma internal_handle S w e w' : internal w e = true -> handle e w = Ok (tt, w') -> rel T S w w'.
Proof.
  intros Hi H. unfold handle in H. apply M_bind_Ok in H as (v & w1 & [= <- <-] & H).
  destruct e as [|i o|i|i|kl]; [done|..].
  - apply M_bind_Ok in H as (op & w1 & [-> Hop]%lift_Ok & H). apply of_option_Ok in Hop.
    cbn in Hi. rewrite Hop in Hi. cbn in Hi. apply negb_true_iff, orb_false_iff in Hi as [Hi _].
    apply M_bind_Ok in H as (u & w1 & [= <- <-] & H).
    destruct (is_write op) eqn:Hwr; [|etransitivity; [by eapply rel_finish|by eapply respects_complete_op]].
    destruct op as [| |c p n cmd b| | | |]; try done. intros Hw Hf.
    destruct (finished_write w i c p n cmd b Hw Hop) as (Ht & Ho & Hn).
    destruct (rel_finish (Turn c cmd :: Own cmd c :: S) w i _ Hop eq_refl Hw) as (HT1 & Hw1 & Hf1 & Hn1);
      [constructor; [exact Ht|constructor; [exact Ho|exact Hf]]|].
    eapply (rel_complete_write (Turn c cmd :: Own cmd c :: S)) in H; [|set_solver|set_solver|done].
    destruct (H Hw1 Hf1) as (HT2 & Hw2 & Hf2 & Hn2).
    apply Forall_cons in Hf2 as [_ [_ Hf2]%Forall_cons].
    split_and!; [by etransitivity|done..|lia].
  - apply M_bind_Ok in H as (t & w1 & [-> Ht]%lift_Ok & [= <-]). apply rel_quiet; [|done].
    transitivity (w_armed (delete i (armed w)) w); [apply stable_armed|apply stable_expired].
  - apply M_bind_Ok in H as (t & w1 & [-> Ht]%lift_Ok & H).
    apply M_bind_Ok in H as (u & w1 & [= <- <-] & H).
    etransitivity; [apply rel_quiet; [apply stable_expired|done]|by eapply respects_timer_handler].
  - injection H as <-. apply rel_quiet; [apply stable_locator|done].
Qed.

(** The completion of an accept, but for the operation itself *)
Lemma accept_handle S w i o c w' :
  in_flight w !! i = Some (ClientAccept c) -> handle (EvComplete i o) w = Ok (tt, w') ->
  rel T S (w_in_flight (delete i (in_flight w)) w) w'.
Proof.
  intros Hop H. unfold handle in H. apply M_bind_Ok in H as (v & w1 & [= <- <-] & H).
  rewrite Hop in H. apply M_bind_Ok in H as (op & w1 & [-> [= <-]]%lift_Ok & H).
  apply M_bind_Ok in H as (u & w1 & [= <- <-] & H). revert H; by apply respects_complete_op.
Qed.
End steps.

#[export] Hint Resolve respects_emit respects_complete_op respects_timer_handler : respects.
