(* ===== verification/Invariants.v ===== *)
(** * Invariants of a worker

    What holds in every state a worker reaches, whatever clients and backends
    send, whichever operations fail and in whatever order handlers run: the bound
    on pipelined commands and the discipline of the connection pool. *)

From S2P Require Import Prelude CString StdMap ErrorCode ReadBuffer Allocator Config.
From S2P Require Import RedisProtocol KeyDistributer KeyLocator QueryParser BackendConn.
From S2P Require Import ReplyParser World BackendPool Lifetime ConnIO Commands CommandQuery.
From S2P Require Import CommandReply Order Worker Logic QueryLogic ReplyLogic.

(** ** Reachable states *)
Inductive reachable (config : Config) : World -> Prop :=
| reachable_init heap uninit now w :
    WorkerContext_ctor config heap uninit now = Ok w -> reachable config w
| reachable_step w e w' : reachable config w -> step w e w' -> reachable config w'.

(** *** Reachable states are well formed *)
Lemma init_wf config heap uninit now w : WorkerContext_ctor config heap uninit now = Ok w -> wf w.
Proof.
  unfold WorkerContext_ctor. intros H. inv_bind H. ok_inv.
  split; cbn; try (intros *; rewrite ?lookup_empty; done).
  - intros c p n cmd b Hop. by apply not_elem_of_nil in Hop.
  - intros c. cbn. lia.
Qed.

Lemma quiet_alloc_slab : respects quiet alloc_slab.
Proof. unfold alloc_slab. quiet_tac. Qed.

Lemma StartAccept_wf w a w' : wf w -> StartAccept w = Ok (a, w') -> wf w'.
Proof.
  intros Hw (c & w1 & H1 & [= _ <-])%M_bind_Ok. unfold Client.ctor in H1.
  apply M_bind_Ok in H1 as ([slab st] & w2 & H2 & H).
  apply quiet_alloc_slab, quiet_shrinks, (shrinks_keeps []) in H2.
  destruct (H2 Hw) as (Hw2 & _); [constructor|]. clear H2 Hw w.
  unfold fresh_id, set_client, on_stats, modify, get, mret, M_ret, mbind, M_bind in H.
  injection H as <- <-.
  split; cbn.
  - intros cmd k Hk. pose proof (wf_command w2 Hw2 cmd k Hk). lia.
  - intros d x. rewrite lookup_insert_Some. intros [[<- <-]|[_ Hx]]; [split; [lia|constructor]|].
    destruct (wf_client w2 Hw2 d x Hx). split; [lia|done].
  - intros d x cmd. rewrite lookup_insert_Some. intros [[<- <-]|[_ Hx]] Hin; [by apply not_elem_of_nil in Hin|].
    destruct (wf_queued w2 Hw2 d x cmd Hx Hin). split; [lia|done].
  - intros d p n cmd b. rewrite elem_of_app, list_elem_of_singleton. intros [Hop|[=]].
    destruct (wf_write w2 Hw2 d p n cmd b Hop) as (? & ? & ? & Ht). split_and!; [lia..|done|].
    intros y. cbn. rewrite lookup_insert_Some. intros [[<- <-]|[_ Hy]]; [right; apply not_elem_of_nil|by apply Ht].
  - intros d. unfold writes. cbn. rewrite filter_app. cbn. rewrite app_nil_r. apply (wf_single w2 Hw2).
  - intros d y. unfold writes. cbn. rewrite filter_app, lookup_insert_Some. cbn. rewrite app_nil_r.
    intros [[<- <-]|[_ Hy]]; [intros _|by apply (wf_idle w2 Hw2)].
    destruct (writes w2 (next_id w2)) as [|op l] eqn:Hl; [done|exfalso].
    assert (op ∈ writes w2 (next_id w2)) as [Ht Hop]%elem_of_writes by (rewrite Hl; set_solver).
    destruct op as [| |d p n cmd b| | | |]; try done. simpl in Ht. apply bool_decide_eq_true in Ht as ->.
    destruct (wf_write w2 Hw2 _ p n cmd b Hop) as (? & _). lia.
Qed.

(** An invariant holds initially and is kept by the elementary updates, by the
    end of an accept and by the creation of a client. *)
Lemma reachable_invariant config (P : World -> Prop) w :
  StableIO (fun w w' => P w -> P w') ->
  (forall heap uninit now w, WorkerContext_ctor config heap uninit now = Ok w -> P w) ->
  (forall w i, P w -> P (w_in_flight (delete i (in_flight w)) w)) ->
  (forall w a w', P w -> StartAccept w = Ok (a, w') -> P w') ->
  reachable config w -> wf w /\ P w.
Proof.
  intros Hst Hinit Hdel Haccept Hr.
  induction Hr as [heap uninit now w Hw|w e w' Hr [Hwf IH] [He Hh]]; [split; [by eapply init_wf|by eapply Hinit]|].
  destruct (internal w e) eqn:Hi.
  - destruct (internal_handle _ [] w e w' Hi Hh Hwf) as (HT & Hwf' & _); [constructor|]. auto.
  - destruct e as [|i o|i|i|kl]; [|..|done|done|done].
    { split; [by eapply StartAccept_wf|by eapply Haccept]. }
    cbn in Hi. destruct (in_flight w !! i) as [op|] eqn:Hop; [|done].
    destruct op as [c|c ??|????? |b ??|b ??|b ??|b]; try done.
    destruct (shrinks_keeps [] _ _ (shrinks_finish w i) Hwf) as (Hwf1 & _); [constructor|].
    destruct (accept_handle _ [] w i o c w' Hop Hh Hwf1) as (HT & Hwf' & _); [constructor|]. auto.
Qed.

Lemma reachable_wf config w : reachable config w -> wf w.
Proof. intros Hr. by apply (reachable_invariant config (fun _ => True)). Qed.

#[global] Instance proj_preorder {A} (f : World -> A) : PreOrder (fun w w' => f w' = f w).
Proof. split; [done|]. intros w1 w2 w3 H1 H2. by rewrite H2. Qed.

(** ** The pipeline bound *)
Definition queues_same (w w' : World) : Prop :=
  forall c x', clients w' !! c = Some x' ->
    exists x, clients w !! c = Some x /\ active_cmd_queue_ x' = active_cmd_queue_ x.

Lemma queues_same_clients w w' : clients w' = clients w -> queues_same w w'.
Proof. intros Hc c x Hx. rewrite Hc in Hx. eauto. Qed.

#[global] Instance queues_same_preorder : PreOrder queues_same.
Proof.
  split; [intros w; by apply queues_same_clients|]. intros w1 w2 w3 H12 H23 c x3 H3.
  destruct (H23 c x3 H3) as (x2 & H2 & Hq). destruct (H12 c x2 H2) as (x1 & H1 & Hq').
  exists x1. split; [done|congruence].
Qed.

#[global] Instance queues_same_stable : Stable queues_same.
Proof.
  split; try apply _; try (intros; by apply queues_same_clients).
  - intros w c x x' Hx Hq _ d y Hy. cbn in Hy. apply lookup_insert_Some in Hy as [[<- <-]|[_ Hy]]; eauto.
  - intros w c x _ d y Hy. cbn in Hy. apply lookup_delete_Some in Hy as [_ Hy]. eauto.
  - intros ep w b w' [Hc _]%quiet_Allocate. by apply queues_same_clients.
  - intros b w u w' [Hc _]%quiet_Release. by apply queues_same_clients.
Qed.

Definition pipeline_bounded (w : World) : Prop :=
  forall c x, clients w !! c = Some x -> (length (active_cmd_queue_ x) <= kPipelineActiveLimit)%nat.

Definition keeps_bound (w w' : World) : Prop := pipeline_bounded w -> pipeline_bounded w'.

Lemma queues_same_bound w w' : queues_same w w' -> keeps_bound w w'.
Proof. intros Hs Hb c x' Hx. destruct (Hs c x' Hx) as (x & Hx' & ->). by eapply Hb. Qed.

#[global] Instance keeps_bound_preorder : PreOrder keeps_bound.
Proof. split; [by intros w Hb|]. intros w1 w2 w3 H1 H2 Hb. by apply H2, H1. Qed.

#[global] Instance keeps_bound_stable : Stable keeps_bound.
Proof.
  split; [apply _|..]; intros; try (apply queues_same_bound, queues_same_clients; reflexivity).
  - apply queues_same_bound. by eapply stable_set_client.
  - by eapply queues_same_bound, stable_client_dtor.
  - intros w b w' Hw. by eapply queues_same_bound, stable_Allocate.
  - intros w u w' Hw. by eapply queues_same_bound, stable_Release.
Qed.

(** One turn of the loop finds room and takes one place. *)
Lemma process_one_bound c w x a w' :
  wf w -> pipeline_bounded w -> clients w !! c = Some x ->
  (length (active_cmd_queue_ x) < kPipelineActiveLimit)%nat ->
  process_one c w = Ok (a, w') -> wf w' /\ pipeline_bounded w'.
Proof.
  intros Hw Hb Hx Hl H.
  destruct (process_one_split [] c w a w' H Hw) as (w0 & w1 & [_ Hq] & _ & Hc & Hw1 & Hf1 & _ & Hr);
    [constructor|].
  destruct (Hr keeps_bound _ Hw1 Hf1) as (HT & Hw' & _). split; [done|]. apply HT. clear HT Hr.
  destruct Hc as [[-> _]|[cmd H0]]; [by apply (queues_same_bound w)|].
  apply M_bind_Ok in H0 as (y & w2 & [-> Hy]%client_Ok & [= <-]).
  intros d z Hz. cbn in Hz. apply lookup_insert_Some in Hz as [[<- <-]|[_ Hz]].
  - destruct (Hq c y Hy) as (x' & Hx' & Hqy). simplify_eq. simpl. rewrite length_app, Hqy. simpl. lia.
  - by apply (queues_same_bound w w0 Hq Hb d).
Qed.

Lemma process_unparsed_bound fuel c w a w' :
  wf w -> process_unparsed fuel c w = Ok (a, w') -> keeps_bound w w'.
Proof.
  revert w. induction fuel as [|fuel IH]; intros w Hw H Hb; cbn [process_unparsed] in H;
    apply M_bind_Ok in H as (x & w1 & [-> Hx]%client_Ok & H).
  - destruct (_ && _); [done|]. by injection H as <- <-.
  - destruct (bool_decide _) eqn:Hl; [|by injection H as <- <-]. apply bool_decide_eq_true in Hl.
    destruct (_ && _); [|by injection H as <- <-].
    apply M_bind_Ok in H as (more & w1 & H1 & H).
    destruct (process_one_bound c w x more w1) as [Hw1 Hb1]; [done..|].
    destruct more; [by eapply IH|]. by injection H as <- <-.
Qed.

#[global] Instance keeps_bound_queue : StableQueue keeps_bound.
Proof.
  split; [apply _| |intros c w a w'; apply process_unparsed_bound].
  intros w c x q Hx Hq Hb d y Hy. cbn in Hy. apply lookup_insert_Some in Hy as [[<- <-]|[_ Hy]];
    [|by eapply Hb]. simpl. apply suffix_length in Hq. pose proof (Hb c x Hx). lia.
Qed.

#[global] Instance keeps_bound_io : StableIO keeps_bound.
Proof. split; [apply _|]. intros. by apply queues_same_bound, queues_same_clients. Qed.

Lemma StartAccept_bound w a w' : pipeline_bounded w -> StartAccept w = Ok (a, w') -> pipeline_bounded w'.
Proof.
  intros Hb (c & w1 & H1 & [= <- <-])%M_bind_Ok. unfold Client.ctor in H1.
  apply M_bind_Ok in H1 as ([slab st] & w2 & H2 & H). apply quiet_alloc_slab in H2 as [H2 _].
  apply M_bind_Ok in H as (v & w3 & [= <- <-] & H).
  apply M_bind_Ok in H as (id & w4 & H4 & H). apply quiet_fresh_id in H4 as [H4%queues_same_clients _].
  apply M_bind_Ok in H as (u & w5 & [= <- <-] & H).
  apply M_bind_Ok in H as (u' & w6 & [= <- <-] & [= <- <-]).
  intros d y Hy. cbn in Hy. apply lookup_insert_Some in Hy as [[<- <-]|[_ Hy]]; [simpl; lia|].
  apply (queues_same_bound w2 w4 H4) in Hy; [done|]. by apply (queues_same_bound w); [apply queues_same_clients|].
Qed.

(** C9: a client never has more than sixteen commands in its pipeline, in any
    state a worker reaches. *)
Theorem pipeline_never_exceeds_limit config w c x :
  reachable config w -> clients w !! c = Some x ->
  (length (active_cmd_queue_ x) <= kPipelineActiveLimit)%nat.
Proof.
  intros Hr. revert c x. change (pipeline_bounded w). revert Hr. intros Hr. apply (reachable_invariant config pipeline_bounded w); [..|done].
  - exact keeps_bound_io.
  - intros heap uninit now w' H. unfold WorkerContext_ctor in H. inv_bind H. ok_inv.
    intros c x Hx. cbn in Hx. by rewrite lookup_empty in Hx.
  - intros w1 i Hb. exact Hb.
  - apply StartAccept_bound.
Qed.
