(* ===== verification/Scenario.v ===== *)
(** * A worker with a small configuration

    Concrete states for the witnesses: two redis and two memcached backends on
    one host, buffers of 128 bytes, at most two idle connections per endpoint. *)

From S2P Require Import Prelude CString StdMap ErrorCode ReadBuffer Allocator Config.
From S2P Require Import RedisProtocol KeyDistributer KeyLocator QueryParser BackendConn.
From S2P Require Import ReplyParser World BackendPool Lifetime ConnIO Commands CommandQuery.
From S2P Require Import CommandReply Order Worker Logic QueryLogic ReplyLogic Invariants.

(** All that was written to a client *)
Definition client_output (c : Z) (w : World) : bytes :=
  concat (omap (fun o => match o with
                         | ToClient c' bs => if decide (c = c') then Some bs else None
                         | ToBackend _ _ => None
                         end) (trace w)).
(** All that was written to a connection *)
Definition backend_output (b : Z) (w : World) : bytes :=
  concat (omap (fun o => match o with
                         | ToBackend b' bs => if decide (b = b') then Some bs else None
                         | ToClient _ _ => None
                         end) (trace w)).

Definition local_backend (port : Z) : Backend := mkBackend (str "localhost") port 2.
Definition small_config : Config :=
  mkConfig (global default_config) (mkWorkerConf 2 128 0 false)
    [mkCluster REDIS [str "_"] [local_backend 6379; local_backend 6380];
     mkCluster MEMCACHED [str "_"] [local_backend 11211; local_backend 11212]] [] [].
Definition small_locator : KeyLocator :=
  match KeyLocator_Initialize loopback small_config [] with Ok (kl, _) => kl | Fault _ => [] end.

Definition empty_world : World :=
  mkWorld small_config (mkAllocator 128 None 0 []) 1000 (fun _ _ => NUL) None [] [] (initial_stats 0)
    initial_mset_cache initial_del_caches 0 ∅ ∅ ∅ [] [] [] [] [].

Lemma empty_world_init : WorkerContext_ctor small_config 1000 (fun _ _ => NUL) 0 = Ok empty_world.
Proof. reflexivity. Qed.

(** The state after some events; the start state if one of them cannot happen *)
Definition after (es : list event) : World :=
  match run es empty_world with Ok w => w | Fault _ => empty_world end.

Lemma run_reachable config es w w' : reachable config w -> run es w = Ok w' -> reachable config w'.
Proof.
  revert w. induction es as [|e es IH]; simpl; intros w Hr H; [by ok_inv|].
  destruct (enabled w e) eqn:He; [|done]. apply bind_Ok in H as ([[] w1] & H1 & H).
  eapply IH; [|exact H]. eapply reachable_step; [exact Hr|by split].
Qed.

Lemma after_reachable es : reachable small_config (after es).
Proof.
  assert (reachable small_config empty_world) as H0
    by (eapply reachable_init; exact empty_world_init).
  unfold after. destruct (run es empty_world) eqn:Hr; [by eapply run_reachable|done].
Qed.

(** A client is connected and its first read is outstanding. *)
Definition accepted : list event := [EvLocator small_locator; EvStartAccept; EvComplete 0 Connected].

(** Eighteen requests in one segment: sixteen become commands. *)
Definition pipelined : list event :=
  accepted ++ [EvComplete 0 (Received (concat (replicate 18 (str "get a" ++ crlf))))].

Lemma pipeline_never_exceeds_limit_witness :
  match clients (after pipelined) !! 0 with
  | Some x => length (active_cmd_queue_ x) = 16%nat /\
              (length (active_cmd_queue_ x) <= kPipelineActiveLimit)%nat
  | None => False
  end.
Proof.
  destruct (clients (after pipelined) !! 0) as [x|] eqn:Hx.
  - split; [|exact (pipeline_never_exceeds_limit small_config (after pipelined) 0 x
                      (after_reachable pipelined) Hx)].
    apply (f_equal (fmap (fun x => length (active_cmd_queue_ x)))) in Hx.
    assert ((fun x => length (active_cmd_queue_ x)) <$> clients (after pipelined) !! 0 = Some 16%nat)
      as H16 by (vm_compute; reflexivity).
    rewrite H16 in Hx. by injection Hx.
  - apply (f_equal (fmap (fun x => length (active_cmd_queue_ x)))) in Hx.
    assert ((fun x => length (active_cmd_queue_ x)) <$> clients (after pipelined) !! 0 = Some 16%nat)
      as H16 by (vm_compute; reflexivity).
    rewrite H16 in Hx. discriminate Hx.
Defined.

(** A redis [get] from the query to the reply: the connection goes back to the
    pool. *)
Definition get_served : list event :=
  accepted ++
  [EvComplete 0 (Received (enc_array [str "get"; str "k1"])); EvComplete 0 Connected;
   EvComplete 0 (Sent 21); EvComplete 0 (Received (enc_bulk (str "value"))); EvComplete 0 (Sent 11)].
