(* ===== verification/PoolInvariant.v ===== *)
(** * The discipline of the connection pool

    [BackendConnPool] ([proxy/backend_pool.cc]) in every state a worker reaches: a
    connection is idle or in use and never both, it is filed under the endpoint it
    is connected to, and the number of idle ones per endpoint is bounded. *)

From S2P Require Import Prelude CString StdMap ErrorCode ReadBuffer Allocator Config.
From S2P Require Import RedisProtocol KeyDistributer KeyLocator QueryParser BackendConn.
From S2P Require Import ReplyParser World BackendPool Lifetime ConnIO Commands CommandQuery.
From S2P Require Import CommandReply Order Worker Logic QueryLogic ReplyLogic Invariants Scenario.

(** A connection of the pool to the endpoint [ep] *)
Definition connects (w : World) (b : Z) (ep : Endpoint) : Prop :=
  exists x, backends w !! b = Some x /\ remote_endpoint_ x = ep.

(** The idle bound; a first connection is kept without looking at it. *)
Definition max_idle (w : World) : Z := Z.max 1 (worker_max_idle_backends_ (worker (config w))).

Record pool_inv (w : World) : Prop := {
  pool_active_sorted : sm_sorted (active_conns_ w);
  pool_idle_sorted : sm_sorted (conn_map_ w);
  pool_active b ep : (b, ep) ∈ active_conns_ w -> connects w b ep;
  pool_idle ep l b : (ep, l) ∈ conn_map_ w -> b ∈ l -> connects w b ep /\ b ∉ (active_conns_ w).*1;
  pool_idle_list ep l : (ep, l) ∈ conn_map_ w -> NoDup l /\ zlen l <= max_idle w;
  pool_ids b : is_Some (backends w !! b) -> b < next_id w
}.

Definition keeps_pool (w w' : World) : Prop := pool_inv w -> pool_inv w'.

#[global] Instance keeps_pool_preorder : PreOrder keeps_pool.
Proof. split; [by intros w Hb|]. intros w1 w2 w3 H1 H2 Hb. by apply H2, H1. Qed.

(** Updates that leave the pool, the connections and the numbering alone *)
Lemma pool_inv_frame w w' :
  active_conns_ w' = active_conns_ w -> conn_map_ w' = conn_map_ w -> backends w' = backends w ->
  config w' = config w -> next_id w <= next_id w' -> keeps_pool w w'.
Proof.
  intros Ha Hc Hb Hg Hn [H1 H2 H3 H4 H5 H6].
  split; unfold connects, max_idle in *; rewrite ?Ha, ?Hc, ?Hb, ?Hg in *; try done.
  intros b Hx. specialize (H6 b Hx). lia.
Qed.

(** Updates of the connections that keep those the pool knows *)
Lemma pool_inv_backends w m :
  (forall b ep, connects w b ep -> b ∈ (active_conns_ w).*1 \/ (exists e, e ∈ conn_map_ w /\ b ∈ e.2) ->
     exists x, m !! b = Some x /\ remote_endpoint_ x = ep) ->
  (forall b, is_Some (m !! b) -> b < next_id w) ->
  keeps_pool w (w_backends m w).
Proof.
  intros Hm Hn [H1 H2 H3 H4 H5 H6]. split; try done; unfold connects; cbn.
  - intros b ep Hb. apply Hm; [by apply H3|]. left. apply list_elem_of_fmap. by exists (b, ep).
  - intros ep l b Hl Hb. destruct (H4 ep l b Hl Hb) as [Hc Ha]. split; [|done].
    apply Hm; [done|]. right. by exists (ep, l).
Qed.

Lemma connects_fun w b ep ep' : connects w b ep -> connects w b ep' -> ep = ep'.
Proof. intros (x & Hx & <-) (y & Hy & <-). congruence. Qed.

Lemma held_active w b : backend_held w b = false -> b ∉ (active_conns_ w).*1.
Proof.
  unfold backend_held. rewrite !orb_false_iff. intros [[[[_ H] _] _] _].
  by apply bool_decide_eq_false in H.
Qed.
Lemma held_idle w b e : backend_held w b = false -> e ∈ conn_map_ w -> b ∉ e.2.
Proof.
  unfold backend_held. rewrite !orb_false_iff. intros [[[_ H] _] _] He Hb.
  apply not_true_iff_false in H. apply H. apply existsb_exists. exists e.
  split; [by apply list_elem_of_In|]. by apply bool_decide_eq_true.
Qed.

(** ** [Allocate] and [Release] *)

(** A new connection, known to nobody *)
Lemma BackendConn_ctor_spec ep w b w' :
  pool_inv w -> BackendConn_ctor ep w = Ok (b, w') ->
  pool_inv w' /\ connects w' b ep /\ (b ∉ (active_conns_ w').*1) /\
  (forall e, e ∈ conn_map_ w' -> b ∉ e.2) /\ active_conns_ w' = active_conns_ w /\
  conn_map_ w' = conn_map_ w.
Proof.
  intros Hp H. unfold BackendConn_ctor in H.
  apply M_bind_Ok in H as ([slab st] & w1 & H1 & H).
  assert (pool_inv w1 /\ active_conns_ w1 = active_conns_ w /\ conn_map_ w1 = conn_map_ w)
    as (Hp1 & Ha1 & Hc1).
  { revert H1. unfold alloc_slab, get, when, modify, mret, M_ret, mbind, M_bind.
    destruct (Alloc _ _). case_bool_decide; intros [= _ _ <-];
      (split; [|done]); revert Hp; apply pool_inv_frame; try done; cbn; lia. }
  apply M_bind_Ok in H as (v & w2 & [= <- <-] & H).
  apply M_bind_Ok in H as (id & w3 & H3 & H).
  apply M_bind_Ok in H3 as (v & w4 & [= <- <-] & H3).
  apply M_bind_Ok in H3 as (u & w5 & [= <- <-] & [= <- <-]).
  apply M_bind_Ok in H as (u' & w6 & [= <- <-] & H).
  apply M_bind_Ok in H as (u'' & w7 & [= <- <-] & [= <- <-]).
  set (id := next_id w1). assert (backends w1 !! id = None) as Hfresh.
  { destruct (backends w1 !! id) eqn:Hx; [|done]. apply mk_is_Some, (pool_ids _ Hp1) in Hx.
    unfold id in Hx. lia. }
  assert (forall ep', ~ connects w1 id ep') as Hnc by (intros ep' (x & Hx & _); congruence).
  split; [|split; [|split; [|split; [|split; cbn; congruence]]]].
  - set (wa := w_next_id (id + 1) w1).
    assert (pool_inv wa) as Hpa by (revert Hp1; apply pool_inv_frame; try done; cbn; lia).
    match goal with |- pool_inv (w_stats _ ?x) => assert (pool_inv x) as Hpb end.
    { revert Hpa. apply pool_inv_backends.
      - intros b ep' (x & Hx & He) _. exists x. split; [|done]. cbn in *.
        rewrite lookup_insert_ne; [done|]. congruence.
      - intros b [x Hx]. cbn in *. apply lookup_insert_Some in Hx as [[<- _]|[_ Hx]]; [lia|].
        apply mk_is_Some, (pool_ids _ Hp1) in Hx. unfold id. lia. }
    revert Hpb. apply pool_inv_frame; done.
  - eexists. cbn. rewrite lookup_insert_eq. split; done.
  - cbn. intros ([b' ep'] & -> & Hb)%list_elem_of_fmap. apply (Hnc ep'). by apply (pool_active _ Hp1).
  - cbn. intros [ep' l] He Hb. apply (Hnc ep'). by apply (pool_idle _ Hp1 ep' l).
Qed.

Definition idle_nowhere (w : World) (b : Z) : Prop := forall e, e ∈ conn_map_ w -> b ∉ e.2.

Lemma elem_active_key w b : b ∈ (active_conns_ w).*1 <-> exists ep, (b, ep) ∈ active_conns_ w.
Proof.
  rewrite list_elem_of_fmap. split.
  - intros ([b' ep] & -> & Hin). by exists ep.
  - intros [ep Hin]. by exists (b, ep).
Qed.

Lemma pool_activate w b ep :
  pool_inv w -> connects w b ep -> b ∉ (active_conns_ w).*1 -> idle_nowhere w b ->
  pool_inv (w_active_conns (sm_emplace b ep (active_conns_ w)) w).
Proof.
  intros [H1 H2 H3 H4 H5 H6] Hc Hna Hni.
  assert (forall e, e ∈ sm_emplace b ep (active_conns_ w) -> e ∈ active_conns_ w \/ e = (b, ep)) as He
    by (intros e He; apply sm_emplace_elem in He as [|[_ ->]]; auto).
  split; cbn; try done.
  - by apply sm_emplace_sorted.
  - intros b' ep' [Hin| [= -> ->]]%He; [by apply H3|done].
  - intros ep' l b' Hl Hb'. destruct (H4 ep' l b' Hl Hb') as [Hcb Ha]. split; [done|].
    intros ([b'' ep''] & Heq & Hin)%list_elem_of_fmap. cbn in Heq. subst b''.
    apply He in Hin as [Hin|[= <- <-]]; [|by apply (Hni _ Hl)]. apply Ha, list_elem_of_fmap. by exists (b', ep'').
Qed.

Lemma pool_take_idle w b ep idle :
  pool_inv w -> sm_find ep (conn_map_ w) = Some (b :: idle) ->
  let w' := w_conn_map (sm_set ep idle (conn_map_ w)) w in
  pool_inv w' /\ connects w' b ep /\ (b ∉ (active_conns_ w').*1) /\ idle_nowhere w' b.
Proof.
  intros [H1 H2 H3 H4 H5 H6] Hf. apply sm_find_elem in Hf; [|done].
  destruct (H5 _ _ Hf) as [[Hnb Hnd]%NoDup_cons Hlen]. rewrite zlen_cons in Hlen.
  destruct (H4 _ _ b Hf) as [Hc Ha]; [set_solver|].
  split; [|split; [done|split; [done|]]].
  - split; cbn; try done.
    + by apply sm_set_sorted.
    + intros ep' l b' [[= -> ->]|[Hin _]]%sm_set_elem Hb'; [| |done]; [|by apply (H4 ep' l)].
      apply (H4 ep (b :: idle)); [done|set_solver].
    + intros ep' l [[= -> ->]|[Hin _]]%sm_set_elem; [| |done]; [|by apply (H5 ep')].
      split; [done|]. unfold max_idle in *. cbn. lia.
  - intros [ep' l] [[= -> ->]|[Hin Hne]]%sm_set_elem Hb'; [done| |done].
    apply Hne. cbn in *. destruct (H4 ep' l b Hin Hb') as [Hc' _]. by apply (connects_fun w b).
Qed.

Lemma pool_deactivate w b ep :
  pool_inv w -> (b, ep) ∈ active_conns_ w ->
  let w' := w_active_conns (sm_erase b (active_conns_ w)) w in
  pool_inv w' /\ connects w' b ep /\ (b ∉ (active_conns_ w').*1) /\ idle_nowhere w' b.
Proof.
  intros [H1 H2 H3 H4 H5 H6] Hin. split; [|split; [by apply H3|split]].
  - split; cbn; try done.
    + by apply sm_erase_sorted.
    + intros b' ep' [Hb' _]%sm_erase_elem; [by apply H3|done].
    + intros ep' l b' Hl Hb'. destruct (H4 ep' l b' Hl Hb') as [Hc Ha]. split; [done|].
      intros ([b'' ep''] & -> & [Hx _]%sm_erase_elem)%list_elem_of_fmap; [|done].
      apply Ha, list_elem_of_fmap. by exists (b'', ep'').
  - cbn. intros ([b' ep'] & -> & [_ Hne]%sm_erase_elem)%list_elem_of_fmap; done.
  - intros [ep' l] Hl Hb. destruct (H4 ep' l b Hl Hb) as [_ Ha]. apply Ha, elem_active_key. by exists ep.
Qed.

Lemma pool_park w b ep :
  let l := default [] (sm_find ep (conn_map_ w)) in
  pool_inv w -> connects w b ep -> b ∉ (active_conns_ w).*1 -> idle_nowhere w b ->
  zlen l + 1 <= max_idle w ->
  pool_inv (w_conn_map (sm_set ep (l ++ [b]) (conn_map_ w)) w).
Proof.
  intros l [H1 H2 H3 H4 H5 H6] Hc Ha Hi Hlen.
  assert (forall x, x ∈ l -> (ep, l) ∈ conn_map_ w) as Hl.
  { intros x Hx. unfold l in *. destruct (sm_find ep (conn_map_ w)) eqn:Hf; cbn in *; [|set_solver].
    by apply sm_find_elem. }
  split; cbn; try done.
  - by apply sm_set_sorted.
  - intros ep' l' b' [[= -> ->]|[Hin _]]%sm_set_elem Hb'; [| |done]; [|by apply (H4 ep' l')].
    apply elem_of_app in Hb' as [Hb'| ->%list_elem_of_singleton]; [|done].
    apply (H4 ep l); [by eapply Hl|done].
  - intros ep' l' [[= -> ->]|[Hin _]]%sm_set_elem; [| |done]; [|by apply (H5 ep')].
    split; [|rewrite zlen_app, zlen_cons, zlen_nil; unfold max_idle in *; cbn; lia].
    apply NoDup_app. split; [|split; [|apply NoDup_singleton]].
    + unfold l. destruct (sm_find ep (conn_map_ w)) eqn:Hf; cbn; [|constructor].
      apply sm_find_elem in Hf; [|done]. by apply (H5 ep).
    + intros x Hx ->%list_elem_of_singleton. by apply (Hi _ (Hl b Hx)).
Qed.

Lemma BackendConn_ctor_total ep w : exists b w', BackendConn_ctor ep w = Ok (b, w').
Proof.
  unfold BackendConn_ctor, alloc_slab, get, when, modify, mret, M_ret, mbind, M_bind.
  destruct (Alloc _ _). case_bool_decide; eauto.
Qed.

(** The connection found or made is in nobody's hands. *)
Lemma idle_or_new_spec ep w :
  pool_inv w -> exists b w', idle_or_new ep w = Ok (b, w') /\
    pool_inv w' /\ connects w' b ep /\ (b ∉ (active_conns_ w').*1) /\ idle_nowhere w' b /\
    active_conns_ w' = active_conns_ w.
Proof.
  intros Hp. unfold idle_or_new, get. unfold mbind at 1, M_bind at 1.
  destruct (sm_find ep (conn_map_ w)) as [[|b idle]|] eqn:Hf.
  2: { exists b, (w_conn_map (sm_set ep idle (conn_map_ w)) w). split; [done|].
       destruct (pool_take_idle w b ep idle Hp Hf) as (? & ? & ? & ?). done. }
  all: destruct (BackendConn_ctor_total ep w) as (b & w1 & Hb); exists b, w1; split; [done|];
    destruct (BackendConn_ctor_spec ep w b w1 Hp Hb) as (? & ? & ? & ? & ? & ?); done.
Qed.

(** A connection handed out goes to the endpoint asked for and is shared with
    nobody. *)
Lemma Allocate_spec ep w :
  pool_inv w -> exists b w', Allocate ep w = Ok (b, w') /\
    pool_inv w' /\ connects w' b ep /\ (b ∉ (active_conns_ w).*1) /\ (b, ep) ∈ active_conns_ w'.
Proof.
  intros Hp. destruct (idle_or_new_spec ep w Hp) as (b & w1 & H1 & Hp1 & Hc & Ha & Hi & Heq).
  assert (sm_find b (active_conns_ w1) = None) as Hnone by (apply sm_find_not_elem; [done|apply Hp1]).
  exists b, (w_active_conns (sm_emplace b ep (active_conns_ w1)) w1). split.
  - unfold Allocate, mbind, M_bind. rewrite H1. unfold get, m_assert, lift, res_assert.
    by rewrite bool_decide_true.
  - split; [by apply pool_activate|]. split; [done|]. split; [congruence|]. cbn.
    apply sm_emplace_elem; [apply Hp1|]. by right.
Qed.

Lemma set_same_endpoint w b x x' :
  backends w !! b = Some x -> remote_endpoint_ x' = remote_endpoint_ x ->
  keeps_pool w (w_backends (<[b := x']> (backends w)) w) /\
  forall b' ep, connects w b' ep -> connects (w_backends (<[b := x']> (backends w)) w) b' ep.
Proof.
  intros Hx He.
  assert (forall b' ep, connects w b' ep ->
    exists y, <[b := x']> (backends w) !! b' = Some y /\ remote_endpoint_ y = ep) as Hk.
  { intros b' ep (y & Hy & <-). destruct (decide (b = b')) as [<-|Hne].
    - exists x'. rewrite lookup_insert_eq. split; [done|]. congruence.
    - exists y. by rewrite lookup_insert_ne. }
  split; [|done]. intros Hp. revert Hp. intros Hp. pose proof (pool_ids _ Hp) as Hids. revert Hp.
  apply pool_inv_backends; [intros; by apply Hk|].
  intros b' [y Hy]. apply lookup_insert_Some in Hy as [[<- _]|[_ Hy]]; apply Hids; eauto.
Qed.

Lemma Release_keeps_pool b : respects keeps_pool (Release b).
Proof.
  intros w u w' H Hp. unfold Release in H. apply M_bind_Ok in H as (v & w1 & [= <- <-] & H).
  destruct (sm_find b (active_conns_ w)) as [ep|] eqn:Hf; [|by injection H as <- <-].
  apply sm_find_elem in Hf; [|apply Hp].
  apply M_bind_Ok in H as (u1 & w1 & [= <- <-] & H).
  destruct (pool_deactivate w b ep Hp Hf) as (Hp1 & Hc1 & Ha1 & Hi1).
  set (w1 := w_active_conns _ w) in *.
  apply M_bind_Ok in H as (x & w2 & [-> Hx]%backend_Ok & H).
  destruct (negb (BC.recyclable x)).
  { injection H as <- <-. revert Hp1. apply (set_same_endpoint w1 b x); [done|].
    unfold BC.Close. by destruct (aborted_ x). }
  assert (forall y idle, default [] (sm_find ep (conn_map_ w)) = idle -> zlen idle + 1 <= max_idle w ->
    BC.Reset x = Ok y ->
    pool_inv (w_conn_map (sm_set ep (idle ++ [b]) (conn_map_ w)) (w_backends (<[b:=y]> (backends w1)) w1)))
    as Hpark.
  { intros y idle <- Hlen Hr. assert (remote_endpoint_ y = remote_endpoint_ x) as He
      by (unfold BC.Reset in Hr; inv_bind Hr; by ok_inv).
    destruct (set_same_endpoint w1 b x y Hx He) as [Hk Hcon].
    apply (pool_park (w_backends (<[b:=y]> (backends w1)) w1)); auto. }
  destruct (sm_find ep (conn_map_ w)) as [idle|] eqn:Hidle.
  - destruct (Z.leb_spec (worker_max_idle_backends_ (worker (config w))) (zlen idle)).
    { injection H as <- <-. revert Hp1. apply (set_same_endpoint w1 b x); [done|].
      unfold BC.Close. by destruct (aborted_ x). }
    apply M_bind_Ok in H as (y & w3 & [-> Hr]%lift_Ok & H).
    apply M_bind_Ok in H as (u2 & w4 & [= <- <-] & [= <- <-]).
    apply Hpark; [done|unfold max_idle; lia|done].
  - apply M_bind_Ok in H as (y & w3 & [-> Hr]%lift_Ok & H).
    apply M_bind_Ok in H as (u2 & w4 & [= <- <-] & [= <- <-]).
    apply (Hpark y []); [done|unfold max_idle; rewrite zlen_nil; lia|done].
Qed.

#[global] Instance keeps_pool_stable : Stable keeps_pool.
Proof.
  split; [apply _|..]; intros; try (apply pool_inv_frame; cbn; reflexivity || done).
  - match goal with H : same_conn _ _ |- _ => destruct H as [He _] end. by eapply set_same_endpoint.
  - intros Hp. enough (pool_inv (w_backends (delete b (backends w)) w)) as Hp'
      by (revert Hp'; by apply pool_inv_frame).
    pose proof (pool_ids _ Hp) as Hids. revert Hp. apply pool_inv_backends.
    + intros b' ep (y & Hy & He) Hpool. exists y. split; [|done]. rewrite lookup_delete_ne; [done|].
      intros <-. destruct Hpool as [Ha|(e & Hin & Hb)]; [by eapply held_active|by eapply held_idle].
    + intros b' [y Hy]. apply lookup_delete_Some in Hy as [_ Hy]. apply Hids. eauto.
  - intros w b w' H Hp. destruct (Allocate_spec ep w Hp) as (b' & w1 & H1 & Hp1 & _). congruence.
  - apply Release_keeps_pool.
Qed.

Lemma push_command_keeps_pool c cmd : respects keeps_pool (push_command c cmd).
Proof.
  intros w u w' (x & w1 & [-> Hx]%client_Ok & [= <- <-])%M_bind_Ok. apply pool_inv_frame; done.
Qed.

#[global] Instance keeps_pool_queue : StableQueue keeps_pool.
Proof.
  split; [apply _|intros; by apply pool_inv_frame|].
  intros c w a w'. apply process_unparsed_stable; [apply _|]. intros cmd w1 w2. apply push_command_keeps_pool.
Qed.

#[global] Instance keeps_pool_io : StableIO keeps_pool.
Proof. split; [apply _|]. intros. by apply pool_inv_frame. Qed.

Lemma fresh_id_keeps_pool : respects keeps_pool fresh_id.
Proof. intros w n w' [= <- <-]. apply pool_inv_frame; try done. cbn. lia. Qed.
#[export] Hint Resolve fresh_id_keeps_pool : respects.
Lemma Client_ctor_keeps_pool : respects keeps_pool Client.ctor.
Proof.
  assert (forall f, (forall w, keeps_pool w (f w)) -> respects keeps_pool (modify f)) as Hm
    by (intros f Hf; by apply respects_modify).
  unfold Client.ctor, alloc_slab, set_client, on_stats. respects_tac;
    apply Hm; intros w; by apply pool_inv_frame.
Qed.

Lemma reachable_pool config w : reachable config w -> pool_inv w.
Proof.
  intros Hr. apply (reachable_invariant config pool_inv w); [..|done].
  - exact keeps_pool_io.
  - intros heap uninit now w' H. unfold WorkerContext_ctor in H. inv_bind H. ok_inv.
    split; cbn; try constructor; try set_solver. intros b [x Hx]. by rewrite lookup_empty in Hx.
  - intros w1 i. by apply pool_inv_frame.
  - intros w1 u w2 Hp (c & w3 & H1%Client_ctor_keeps_pool & [= <- <-])%M_bind_Ok.
    apply (pool_inv_frame w3); [done..|by apply H1].
Qed.

(** C7: the pool in every reachable state: a connection in use is filed under the
    endpoint it is connected to; an idle one too, it is not in use, it is listed
    once, and no endpoint has more idle connections than the configured maximum
    (one is always kept). *)
Theorem pool_connections_disciplined config w :
  reachable config w ->
  (forall b ep, (b, ep) ∈ active_conns_ w -> connects w b ep) /\
  (forall ep idle, (ep, idle) ∈ conn_map_ w ->
     NoDup idle /\ zlen idle <= max_idle w /\
     forall b, b ∈ idle -> connects w b ep /\ b ∉ (active_conns_ w).*1).
Proof.
  intros Hp%reachable_pool. split; [apply Hp|]. intros ep idle Hin.
  destruct (pool_idle_list _ Hp _ _ Hin). split; [done|]. split; [done|].
  intros b Hb. by apply (pool_idle _ Hp ep idle).
Qed.

(** C20: in every reachable state the pool hands out a connection for any endpoint:
    the assertion that the connection was not in use holds, the connection goes to
    the endpoint asked for, was in no other command's hands, and is in use now. *)
Theorem allocate_is_exclusive config w ep :
  reachable config w ->
  exists b w', Allocate ep w = Ok (b, w') /\ connects w' b ep /\
    (b ∉ (active_conns_ w).*1) /\ (b, ep) ∈ active_conns_ w'.
Proof.
  intros Hp%reachable_pool. destruct (Allocate_spec ep w Hp) as (b & w' & H & _ & Hc & Ha & Hin).
  by exists b, w'.
Qed.

Lemma pool_connections_disciplined_witness :
  conn_map_ (after get_served) = [((2130706433, 6379), [1])] /\
  connects (after get_served) 1 (2130706433, 6379) /\ (1 ∉ (active_conns_ (after get_served)).*1).
Proof.
  assert (conn_map_ (after get_served) = [((2130706433, 6379), [1])]) as Hc by (vm_compute; reflexivity).
  split; [exact Hc|].
  destruct (pool_connections_disciplined small_config (after get_served) (after_reachable get_served))
    as [_ Hidle].
  destruct (Hidle (2130706433, 6379) [1]) as (_ & _ & Hb); [rewrite Hc; apply list_elem_of_here|].
  apply Hb, list_elem_of_here.
Defined.

Lemma allocate_is_exclusive_witness :
  exists b w', Allocate (2130706433, 6379) (after get_served) = Ok (b, w') /\
    connects w' b (2130706433, 6379) /\ (b ∉ (active_conns_ (after get_served)).*1) /\
    (b, (2130706433, 6379)) ∈ active_conns_ w'.
Proof.
  apply (allocate_is_exclusive small_config (after get_served) (2130706433, 6379)).
  apply after_reachable.
Defined.
