(* ===== verification/Storage.v ===== *)
(** * Every connection has storage of its own

    The buffers of connections lie in slabs the worker's allocator hands out in the
    constructors and takes back in the destructors.  In every state a worker reaches
    the slabs of the connections that exist are disjoint and none of them is free:
    what is received for one connection never ends up in the buffer of another. *)

From S2P Require Import Prelude CString StdMap ErrorCode ReadBuffer Allocator Config.
From S2P Require Import RedisProtocol KeyDistributer KeyLocator QueryParser BackendConn.
From S2P Require Import ReplyParser World BackendPool Lifetime ConnIO Commands CommandQuery.
From S2P Require Import CommandReply Order Worker Logic QueryLogic ReplyLogic Invariants Scenario.

(** The addresses of the buffers of all connections *)
Definition conn_slabs (w : World) : list Z :=
  (cl_slab_ <$> (map_to_list (clients w)).*2) ++ (slab_ <$> (map_to_list (backends w)).*2).

Definition block_ok (size : Z) (b : ReadBuffer) : Prop := zlen (data_ b) = size /\ buffer_size_ b = size.

(** [size] is the size of a buffer, [n] the number of slabs in the reserved block. *)
Record mem_inv (size : Z) (n : nat) (w : World) : Prop := {
  mi_size : al_buffer_size_ (allocator_ w) = size;
  mi_alloc : exists live, live ≡ₚ conn_slabs w /\ alloc_inv n (mkAllocState (allocator_ w) live);
  mi_heap p : p ∈ conn_slabs w -> p + size <= heap_next w;
  mi_reserved base : reserved_space_ (allocator_ w) = Some base ->
    base + reserved_space_size_ (allocator_ w) <= heap_next w;
  mi_client c x : clients w !! c = Some x -> c < next_id w /\ block_ok size (cl_buffer_ x);
  mi_backend b x : backends w !! b = Some x -> b < next_id w /\ block_ok size (buffer_ x)
}.

Definition keeps_mem (size : Z) (n : nat) (w w' : World) : Prop := mem_inv size n w -> mem_inv size n w'.

#[global] Instance keeps_mem_preorder size n : PreOrder (keeps_mem size n).
Proof. split; [by intros w H|]. intros w1 w2 w3 H12 H23 H. by apply H23, H12. Qed.

(** ** Slabs of a map of connections *)
Section slabs.
Context {A : Type} (f : A -> Z).
Implicit Type m : gmap Z A.

Lemma slabs_delete m c x :
  m !! c = Some x -> f <$> (map_to_list m).*2 ≡ₚ f x :: (f <$> (map_to_list (delete c m)).*2).
Proof. intros Hx. by rewrite <- (map_to_list_delete m c x Hx). Qed.
Lemma slabs_insert m c x :
  m !! c = None -> f <$> (map_to_list (<[c := x]> m)).*2 ≡ₚ f x :: (f <$> (map_to_list m).*2).
Proof. intros Hx. by rewrite map_to_list_insert. Qed.
Lemma slabs_update m c x x' :
  m !! c = Some x -> f x' = f x -> f <$> (map_to_list (<[c := x']> m)).*2 ≡ₚ f <$> (map_to_list m).*2.
Proof.
  intros Hx Hf. rewrite (slabs_delete m c x Hx), (slabs_delete (<[c := x']> m) c x') by apply lookup_insert_eq.
  by rewrite Hf, delete_insert_eq.
Qed.
Lemma slabs_elem m c x : m !! c = Some x -> f x ∈ f <$> (map_to_list m).*2.
Proof. intros Hx. rewrite (slabs_delete m c x Hx). apply list_elem_of_here. Qed.
Lemma slabs_distinct m c d x y :
  NoDup (f <$> (map_to_list m).*2) -> m !! c = Some x -> m !! d = Some y -> c <> d -> f x <> f y.
Proof.
  intros Hnd Hx Hy Hne Hf. rewrite (slabs_delete m c x Hx) in Hnd. apply NoDup_cons in Hnd as [Hn _].
  apply Hn. rewrite Hf. apply (slabs_elem _ d). by rewrite lookup_delete_ne.
Qed.
End slabs.

Lemma block_ok_same size b b' : same_block b b' -> block_ok size b -> block_ok size b'.
Proof. intros [H1 H2] [H3 H4]. split; congruence. Qed.

Section mem.
Context (size : Z) (n : nat).
Abbreviation mem := (mem_inv size n).

(** The slabs and the sizes of the connections are what matters. *)
Lemma mem_frame w w' :
  allocator_ w' = allocator_ w -> heap_next w' = heap_next w -> conn_slabs w' ≡ₚ conn_slabs w ->
  (forall c x', clients w' !! c = Some x' ->
     exists x, clients w !! c = Some x /\ same_block (cl_buffer_ x) (cl_buffer_ x')) ->
  (forall b x', backends w' !! b = Some x' ->
     exists x, backends w !! b = Some x /\ same_block (buffer_ x) (buffer_ x')) ->
  next_id w <= next_id w' -> keeps_mem size n w w'.
Proof.
  intros Ha Hh Hs Hc Hb Hn [H1 [live [Hl H2]] H3 H4 H5 H6]. split; rewrite ?Ha, ?Hh; try done.
  - exists live. by rewrite Hs.
  - intros p. rewrite Hs. apply H3.
  - intros c x' (x & Hx & Hbl)%Hc. destruct (H5 c x Hx). split; [lia|by eapply block_ok_same].
  - intros b x' (x & Hx & Hbl)%Hb. destruct (H6 b x Hx). split; [lia|by eapply block_ok_same].
Qed.

Lemma mem_same w w' :
  allocator_ w' = allocator_ w -> heap_next w' = heap_next w -> clients w' = clients w ->
  backends w' = backends w -> next_id w <= next_id w' -> keeps_mem size n w w'.
Proof.
  intros Ha Hh Hc Hb Hn. apply mem_frame; [done|done| | |..|done]; unfold conn_slabs; rewrite ?Hc, ?Hb; [done|..];
    intros i x Hx; by exists x.
Qed.

Lemma mem_set_client w c x x' :
  clients w !! c = Some x -> same_place x x' -> keeps_mem size n w (w_clients (<[c := x']> (clients w)) w).
Proof.
  intros Hx [Hs Hb]. apply mem_frame; cbn; [done..| | |intros b y Hy; by exists y|done].
  - unfold conn_slabs. cbn. by rewrite (slabs_update cl_slab_ (clients w) c x x').
  - intros d y. rewrite lookup_insert_Some. intros [[<- <-]|[_ Hy]]; [by exists x|by exists y].
Qed.
Lemma mem_set_backend w b x x' :
  backends w !! b = Some x -> same_conn x x' -> keeps_mem size n w (w_backends (<[b := x']> (backends w)) w).
Proof.
  intros Hx (_ & Hs & Hb). apply mem_frame; cbn; [done..| |intros c y Hy; by exists y| |done].
  - unfold conn_slabs. cbn. by rewrite (slabs_update slab_ (backends w) b x x').
  - intros d y. rewrite lookup_insert_Some. intros [[<- <-]|[_ Hy]]; [by exists x|by exists y].
Qed.

(** A connection goes away, its slab is released. *)
Lemma Release_sizes a slab :
  al_buffer_size_ (Allocator.Release a slab) = al_buffer_size_ a /\
  reserved_space_ (Allocator.Release a slab) = reserved_space_ a /\
  reserved_space_size_ (Allocator.Release a slab) = reserved_space_size_ a.
Proof. unfold Allocator.Release. by case_match. Qed.

Lemma mem_dtor w w' slab :
  conn_slabs w ≡ₚ slab :: conn_slabs w' -> allocator_ w' = Allocator.Release (allocator_ w) slab ->
  heap_next w' = heap_next w -> next_id w' = next_id w -> clients w' ⊆ clients w ->
  backends w' ⊆ backends w -> keeps_mem size n w w'.
Proof.
  intros Hs Ha Hh Hn Hc Hb [H1 [live [Hl H2]] H3 H4 H5 H6].
  destruct (Release_sizes (allocator_ w) slab) as (Hz & Hr & Hrs). rewrite <- Ha in Hz, Hr, Hrs.
  split; rewrite ?Hz, ?Hr, ?Hrs, ?Hh, ?Hn; try done.
  - assert (slab ∈ live) as (l1 & l2 & ->)%list_elem_of_split by (rewrite Hl, Hs; set_solver).
    exists (l1 ++ l2). split; [|rewrite Ha; by apply (alloc_inv_release n (mkAllocState (allocator_ w) (l1 ++ slab :: l2)))].
    apply (Permutation_cons_inv (a := slab)). by rewrite Permutation_middle, Hl.
  - intros p Hp. apply H3. rewrite Hs. set_solver.
  - intros c x Hx. apply H5. by eapply lookup_weaken.
  - intros b x Hx. apply H6. by eapply lookup_weaken.
Qed.

(** A new slab, for a connection that is to be made *)
Record new_slab (w w1 : World) (slab : Z) (storage : bytes) : Prop := {
  ns_clients : clients w1 = clients w;
  ns_backends : backends w1 = backends w;
  ns_next : next_id w1 = next_id w;
  ns_size : al_buffer_size_ (allocator_ w1) = size;
  ns_alloc : exists live, live ≡ₚ conn_slabs w /\ alloc_inv n (mkAllocState (allocator_ w1) (slab :: live));
  ns_heap p : p ∈ slab :: conn_slabs w -> p + size <= heap_next w1;
  ns_reserved base : reserved_space_ (allocator_ w1) = Some base ->
    base + reserved_space_size_ (allocator_ w1) <= heap_next w1;
  ns_storage : zlen storage = size
}.

Lemma Alloc_sizes a p :
  al_buffer_size_ (Alloc a p).2 = al_buffer_size_ a /\
  reserved_space_ (Alloc a p).2 = reserved_space_ a /\
  reserved_space_size_ (Alloc a p).2 = reserved_space_size_ a.
Proof. unfold Alloc. by destruct (free_slabs_ a) as [|[? ?] ?]. Qed.

(** A slab is the heap's next block or lies below it. *)
Lemma Alloc_place s p :
  alloc_inv n s ->
  (forall base, reserved_space_ (st_alloc s) = Some base -> base + reserved_space_size_ (st_alloc s) <= p) ->
  (Alloc (st_alloc s) p).1 = p \/
  (Alloc (st_alloc s) p).1 + al_buffer_size_ (st_alloc s) <= p.
Proof.
  intros Hi Hr. pose proof (ai_size n s Hi) as Hsz. unfold Alloc.
  destruct (free_slabs_ (st_alloc s)) as [|[slab []] rest] eqn:Hf; [by left|right]. cbn [fst].
  destruct (reserved_space_ (st_alloc s)) as [base|] eqn:Hb; [|by rewrite (ai_none n s Hi Hb) in Hf].
  assert (slab ∈ free_list (st_alloc s)) as Hin by (unfold free_list; rewrite Hf; set_solver).
  apply (free_addrs n s base slab Hi Hb), slab_addrs_in_range in Hin; [|done].
  destruct (ai_block n s Hi base Hb) as [Hn _]. specialize (Hr base eq_refl). lia.
Qed.

Lemma mem_heap_block w live :
  mem w -> live ≡ₚ conn_slabs w -> heap_block (mkAllocState (allocator_ w) live) (heap_next w).
Proof.
  intros [H1 _ H3 H4 _ _] Hl. split; cbn.
  - intros base Hb. right. by apply H4.
  - intros q. rewrite Hl. intros Hq. right. rewrite H1. by apply H3.
Qed.

Lemma alloc_slab_new w slab storage w1 :
  mem w -> alloc_slab w = Ok ((slab, storage), w1) -> new_slab w w1 slab storage.
Proof.
  intros Hm H. pose proof Hm as [H1 [live [Hl H2]] H3 H4 _ _].
  pose proof (alloc_inv_alloc n _ _ H2 (mem_heap_block w live Hm Hl)) as Hi. cbn in Hi.
  pose proof (Alloc_place _ (heap_next w) H2 H4) as Hpl. cbn in Hpl.
  destruct (Alloc_sizes (allocator_ w) (heap_next w)) as (Hz & Hr & Hrs).
  pose proof (ai_size n _ H2) as Hsz. cbn in Hsz.
  unfold alloc_slab, get, mbind, M_bind in H. destruct (Alloc (allocator_ w) (heap_next w)) as [slab' a].
  cbn in *. rewrite H1 in *. unfold when, modify, mret, M_ret in H.
  case_bool_decide as Hp; injection H as <- <- <-;
    (split; cbn; [done..|congruence|by exists live| | |unfold zlen; rewrite length_fmap, length_seqZ; lia]).
  - intros p [->|Hin%H3]%elem_of_cons; lia.
  - intros base. rewrite Hr, Hrs. intros Hb. specialize (H4 base Hb). lia.
  - intros p [->|Hin%H3]%elem_of_cons; lia.
  - intros base. rewrite Hr, Hrs. apply H4.
Qed.

(** The connection that gets the slab *)
Lemma mem_new_conn w w1 w' slab storage :
  mem w -> new_slab w w1 slab storage -> allocator_ w' = allocator_ w1 -> heap_next w' = heap_next w1 ->
  next_id w' = next_id w1 + 1 -> conn_slabs w' ≡ₚ slab :: conn_slabs w1 ->
  (forall c x, clients w' !! c = Some x ->
     clients w1 !! c = Some x \/ c = next_id w1 /\ cl_buffer_ x = RB.ctor storage size) ->
  (forall b x, backends w' !! b = Some x ->
     backends w1 !! b = Some x \/ b = next_id w1 /\ buffer_ x = RB.ctor storage size) ->
  mem w'.
Proof.
  intros Hm [N1 N2 N3 N4 [live [Hl N5]] N6 N7 N8] Ha Hh Hn Hs Hc Hb. destruct Hm as [_ _ _ _ H5 H6].
  assert (conn_slabs w1 = conn_slabs w) as Heq by (unfold conn_slabs; by rewrite N1, N2).
  split; rewrite ?Ha, ?Hh, ?Hn; [done| | |done|..].
  - exists (slab :: live). split; [by rewrite Hs, Heq, Hl|done].
  - intros p. rewrite Hs, Heq. apply N6.
  - intros c x [Hx|[-> ->]]%Hc; [|split; [lia|done]]. rewrite N1 in Hx. destruct (H5 c x Hx). split; [lia|done].
  - intros b x [Hx|[-> ->]]%Hb; [|split; [lia|done]]. rewrite N2 in Hx. destruct (H6 b x Hx). split; [lia|done].
Qed.
End mem.

(** ** The pool *)
Lemma Close_conn x : same_conn x (BC.Close x).
Proof. unfold BC.Close. by destruct (aborted_ x). Qed.
Lemma Reset_conn x y : BC.Reset x = Ok y -> same_conn x y.
Proof. unfold BC.Reset. intros H. inv_bind H. by ok_inv. Qed.

Section pool.
Context (size : Z) (n : nat).

Lemma fresh_backend w w1 slab storage :
  mem_inv size n w -> new_slab size n w w1 slab storage -> backends w1 !! next_id w1 = None.
Proof.
  intros Hm N. destruct (backends w1 !! next_id w1) as [x|] eqn:Hx; [|done].
  rewrite (ns_backends _ _ _ _ _ _ N) in Hx. apply (mi_backend _ _ _ Hm) in Hx as [Hx _].
  rewrite (ns_next _ _ _ _ _ _ N) in Hx. lia.
Qed.
Lemma fresh_client w w1 slab storage :
  mem_inv size n w -> new_slab size n w w1 slab storage -> clients w1 !! next_id w1 = None.
Proof.
  intros Hm N. destruct (clients w1 !! next_id w1) as [x|] eqn:Hx; [|done].
  rewrite (ns_clients _ _ _ _ _ _ N) in Hx. apply (mi_client _ _ _ Hm) in Hx as [Hx _].
  rewrite (ns_next _ _ _ _ _ _ N) in Hx. lia.
Qed.

Lemma BackendConn_ctor_keeps_mem ep : respects (keeps_mem size n) (BackendConn_ctor ep).
Proof.
  intros w b w' ([slab storage] & w1 & H1 & H)%M_bind_Ok Hm.
  pose proof (alloc_slab_new size n w slab storage w1 Hm H1) as N. pose proof (fresh_backend _ _ _ _ Hm N) as Hf.
  unfold get, fresh_id, set_backend, on_stats, modify, mret, M_ret, mbind, M_bind in H. injection H as <- <-.
  apply (mem_new_conn size n w w1 _ slab storage Hm N); [done..| | |].
  - unfold conn_slabs. cbn. rewrite (slabs_insert slab_ _ _ _ Hf). cbn. by rewrite Permutation_middle.
  - intros c x Hx. by left.
  - intros b x. cbn. intros [[<- <-]|[_ Hx]]%lookup_insert_Some; [right|by left].
    split; [done|]. cbn. by rewrite (ns_size _ _ _ _ _ _ N).
Qed.

Lemma Client_ctor_keeps_mem : respects (keeps_mem size n) Client.ctor.
Proof.
  intros w b w' ([slab storage] & w1 & H1 & H)%M_bind_Ok Hm.
  pose proof (alloc_slab_new size n w slab storage w1 Hm H1) as N. pose proof (fresh_client _ _ _ _ Hm N) as Hf.
  unfold get, fresh_id, set_client, on_stats, modify, mret, M_ret, mbind, M_bind in H. injection H as <- <-.
  apply (mem_new_conn size n w w1 _ slab storage Hm N); [done..| | |].
  - unfold conn_slabs. cbn. by rewrite (slabs_insert cl_slab_ _ _ _ Hf).
  - intros c x. cbn. intros [[<- <-]|[_ Hx]]%lookup_insert_Some; [right|by left].
    split; [done|]. cbn. by rewrite (ns_size _ _ _ _ _ _ N).
  - intros c x Hx. by left.
Qed.

Lemma modify_keeps_mem f :
  (forall w, allocator_ (f w) = allocator_ w /\ heap_next (f w) = heap_next w /\ clients (f w) = clients w /\
     backends (f w) = backends w /\ next_id w <= next_id (f w)) ->
  respects (keeps_mem size n) (modify f).
Proof. intros Hf. apply respects_modify. intros w. destruct (Hf w) as (? & ? & ? & ? & ?). by apply mem_same. Qed.

Lemma Allocate_keeps_mem ep : respects (keeps_mem size n) (Allocate ep).
Proof.
  unfold Allocate, idle_or_new. pose proof (BackendConn_ctor_keeps_mem ep). respects_tac;
    by apply modify_keeps_mem.
Qed.

Lemma Release_keeps_mem b : respects (keeps_mem size n) (Release b).
Proof.
  intros w u w' H Hp. unfold Release in H. apply M_bind_Ok in H as (v & w1 & [= <- <-] & H).
  destruct (sm_find b (active_conns_ w)) as [ep|] eqn:Hf; [|by injection H as <- <-].
  apply M_bind_Ok in H as (u1 & w1 & [= <- <-] & H).
  set (w1 := w_active_conns _ w) in *. assert (mem_inv size n w1) as Hm by (revert Hp; by apply mem_same). clear Hp.
  apply M_bind_Ok in H as (x & w2 & [-> Hx]%backend_Ok & H).
  assert (forall y, same_conn x y -> mem_inv size n (w_backends (<[b := y]> (backends w1)) w1)) as Hset
    by (intros y Hy; revert Hm; by apply (mem_set_backend size n w1 b x)).
  assert (forall y idle, BC.Reset x = Ok y -> mem_inv size n
    (w_conn_map (sm_set ep idle (conn_map_ w)) (w_backends (<[b := y]> (backends w1)) w1))) as Hpark.
  { intros y idle Hr%Reset_conn. specialize (Hset y Hr). revert Hset. by apply mem_same. }
  pose proof (Hset _ (Close_conn x)) as Hclose.
  destruct (negb (BC.recyclable x)); [by injection H as <- <-|].
  destruct (sm_find ep (conn_map_ w)) as [idle|] eqn:Hidle; [case_match; [by injection H as <- <-|]|];
    apply M_bind_Ok in H as (y & w3 & [-> Hr]%lift_Ok & H);
    apply M_bind_Ok in H as (u2 & w4 & [= <- <-] & [= <- <-]); by apply Hpark.
Qed.

#[global] Instance keeps_mem_stable : Stable (keeps_mem size n).
Proof.
  split; [apply _|..]; intros; try (apply mem_same; cbn; reflexivity || lia).
  - by eapply mem_set_client.
  - apply (mem_dtor size n w _ (cl_slab_ x)); cbn; try done; [|apply delete_subseteq].
    unfold conn_slabs. cbn. by rewrite (slabs_delete cl_slab_ (clients w) c x).
  - by eapply mem_set_backend.
  - apply (mem_dtor size n w _ (slab_ x)); cbn; try done; [|apply delete_subseteq].
    unfold conn_slabs. cbn. rewrite (slabs_delete slab_ (backends w) b x) by done. by rewrite Permutation_middle.
  - apply Allocate_keeps_mem.
  - apply Release_keeps_mem.
Qed.

Lemma push_command_keeps_mem c cmd : respects (keeps_mem size n) (push_command c cmd).
Proof. intros w u w' (x & w1 & [-> Hx]%client_Ok & [= <- <-])%M_bind_Ok. by eapply mem_set_client. Qed.

#[global] Instance keeps_mem_queue : StableQueue (keeps_mem size n).
Proof.
  split; [apply _|intros; by eapply mem_set_client|].
  intros c w a w'. apply process_unparsed_stable; [apply _|]. intros cmd w1 w2. apply push_command_keeps_mem.
Qed.

#[global] Instance keeps_mem_io : StableIO (keeps_mem size n).
Proof. split; [apply _|]. intros. by apply mem_same. Qed.

Lemma init_mem config heap uninit now w :
  buffer_size_conf_ (worker config) = size -> reserved_buffer_space_ (worker config) = Z.of_nat n * size ->
  0 < size -> WorkerContext_ctor config heap uninit now = Ok w -> mem_inv size n w.
Proof.
  intros Hs Hr Hpos H. unfold WorkerContext_ctor in H. rewrite Hs, Hr in H. clear Hs Hr. inv_bind H. ok_inv.
  match goal with H : Allocator_ctor _ _ _ = Ok ?a |- _ => rename H into Ha; set (al := a) in * end.
  pose proof (Allocator_ctor_inv size n heap al Hpos Ha) as Hi.
  assert (al_buffer_size_ al = size /\ forall base, reserved_space_ al = Some base ->
    base + reserved_space_size_ al <= heap + Z.of_nat n * size) as [Hsz Hres].
  { unfold Allocator_ctor in Ha. repeat case_match; try done; injection Ha as Ha; rewrite <- Ha; (split; [done|]); cbn; [done|].
    intros base [= <-]. lia. }
  split; cbn; [done|by exists []|set_solver|done|..]; intros i x; by rewrite lookup_empty.
Qed.
End pool.

Lemma reachable_mem config (n : nat) w :
  let size := buffer_size_conf_ (worker config) in
  0 < size -> reserved_buffer_space_ (worker config) = Z.of_nat n * size -> reachable config w ->
  mem_inv size n w.
Proof.
  intros size Hpos Hres Hr. apply (reachable_invariant config (mem_inv size n) w); [..|done].
  - exact (keeps_mem_io size n).
  - intros heap uninit now w0. by apply init_mem.
  - intros w1 i. by apply mem_same.
  - intros w1 u w2 Hp (c & w3 & H1%(Client_ctor_keeps_mem size n) & [= <- <-])%M_bind_Ok.
    apply (mem_same size n w3); [done..|by apply H1].
Qed.

(** ** The result *)

(** A connection is a client or a backend; the address of its buffer *)
Definition slab_of (w : World) (k : Z + Z) : option Z :=
  match k with inl c => cl_slab_ <$> clients w !! c | inr b => slab_ <$> backends w !! b end.
Definition buffer_of (w : World) (k : Z + Z) : option ReadBuffer :=
  match k with inl c => cl_buffer_ <$> clients w !! c | inr b => buffer_ <$> backends w !! b end.

Lemma slab_of_elem w k p : slab_of w k = Some p -> p ∈ conn_slabs w.
Proof.
  destruct k as [c|b]; cbn; intros (x & Hx & ->)%fmap_Some; apply elem_of_app; [left|right];
    by eapply slabs_elem.
Qed.

Lemma slab_of_distinct w k1 k2 p q :
  NoDup (conn_slabs w) -> slab_of w k1 = Some p -> slab_of w k2 = Some q -> k1 <> k2 -> p <> q.
Proof.
  intros (H1 & H2 & H3)%NoDup_app. destruct k1 as [c|b], k2 as [d|e]; cbn;
    intros (x & Hx & ->)%fmap_Some (y & Hy & ->)%fmap_Some Hne.
  - eapply slabs_distinct; [done..|congruence].
  - intros Heq. eapply H2; [by eapply slabs_elem|]. rewrite Heq. by eapply slabs_elem.
  - intros Heq. eapply H2; [by eapply slabs_elem|]. rewrite <- Heq. by eapply slabs_elem.
  - eapply slabs_distinct; [done..|congruence].
Qed.

(** What is live is pairwise disjoint, so no address occurs twice. *)
Lemma live_NoDup n s : alloc_inv n s -> NoDup (live s).
Proof.
  intros Hi. apply NoDup_alt. intros i j p H1 H2. destruct (decide (i = j)); [done|].
  pose proof (ai_size n s Hi). destruct (ai_disjoint n s Hi i j p p H1 H2); [done|lia..].
Qed.
Lemma live_disjoint n s p q :
  alloc_inv n s -> p ∈ live s -> q ∈ live s -> p <> q -> overlap_free (al_buffer_size_ (st_alloc s)) p q.
Proof.
  intros Hi [i Hp]%list_elem_of_lookup [j Hq]%list_elem_of_lookup Hne.
  eapply (ai_disjoint n s Hi); [done..|congruence].
Qed.

(** C8: with a reserved block of a whole number of buffers, in every state a worker
    reaches: the buffer of every connection, of a client or to a backend, has the
    configured size; the buffers of two different connections do not overlap; and
    none overlaps a slab that is free.  Whatever is received for one connection is
    never in the storage of another. *)
Theorem storage_is_exclusive config (n : nat) w :
  let size := buffer_size_conf_ (worker config) in
  0 < size -> reserved_buffer_space_ (worker config) = Z.of_nat n * size -> reachable config w ->
  (forall k b, buffer_of w k = Some b -> zlen (data_ b) = size /\ buffer_size_ b = size) /\
  (forall k1 k2 p q, slab_of w k1 = Some p -> slab_of w k2 = Some q -> k1 <> k2 -> overlap_free size p q) /\
  (forall k p q, slab_of w k = Some p -> q ∈ free_list (allocator_ w) -> overlap_free size q p).
Proof.
  intros size Hpos Hres Hr. destruct (reachable_mem config n w Hpos Hres Hr) as [Hz [live [Hl Hi]] _ _ Hc Hb].
  split; [|split].
  - intros [c|b] buf; cbn; intros (x & Hx & ->)%fmap_Some; [by apply (Hc c x)|by apply (Hb b x)].
  - intros k1 k2 p q H1 H2 Hne. unfold size. rewrite <- Hz.
    apply (live_disjoint n (mkAllocState (allocator_ w) live) p q Hi); cbn; rewrite ?Hl; [by eapply slab_of_elem..|].
    eapply slab_of_distinct; [|done..]. rewrite <- Hl. apply (live_NoDup n _ Hi).
  - intros k p q Hk Hq. unfold size. rewrite <- Hz.
    apply (free_live_disjoint n (mkAllocState (allocator_ w) live) q p Hi Hq). cbn. rewrite Hl. by eapply slab_of_elem.
Qed.

(** Three slabs of 128 bytes are reserved: one holds the client's buffer, one the
    backend connection's, one is free. *)
Definition reserving_config : Config :=
  mkConfig (global small_config) (mkWorkerConf 2 128 384 false) (clusters_ small_config) [] [].
Definition reserving_world : World :=
  match WorkerContext_ctor reserving_config 1000 (fun _ _ => NUL) 0 ≫= run get_served with
  | Ok w => w
  | Fault _ => empty_world
  end.

Lemma reserving_reachable : reachable reserving_config reserving_world.
Proof.
  unfold reserving_world.
  destruct (WorkerContext_ctor reserving_config 1000 (fun _ _ => NUL) 0) as [w0|] eqn:H0; [|discriminate H0].
  cbn [mbind result_bind]. destruct (run get_served w0) as [w|] eqn:Hr.
  - eapply run_reachable; [|exact Hr]. by eapply reachable_init.
  - exfalso. revert Hr. injection H0 as <-. vm_compute. discriminate.
Qed.

Lemma storage_is_exclusive_witness :
  slab_of reserving_world (inl 0) = Some 1000 /\ slab_of reserving_world (inr 1) = Some 1128 /\
  free_list (allocator_ reserving_world) = [1256] /\ overlap_free 128 1000 1128 /\ overlap_free 128 1256 1128.
Proof.
  assert (slab_of reserving_world (inl 0) = Some 1000) as Hc by (vm_compute; reflexivity).
  assert (slab_of reserving_world (inr 1) = Some 1128) as Hb by (vm_compute; reflexivity).
  assert (free_list (allocator_ reserving_world) = [1256]) as Hf by (vm_compute; reflexivity).
  destruct (storage_is_exclusive reserving_config 3 reserving_world) as (_ & Hd & Hfree);
    [reflexivity|reflexivity|exact reserving_reachable|].
  split; [exact Hc|]. split; [exact Hb|]. split; [exact Hf|]. split.
  - by apply (Hd (inl 0) (inr 1)).
  - apply (Hfree (inr 1)); [exact Hb|]. rewrite Hf. apply list_elem_of_here.
Defined.
