(* ===== verification/OrderTheorems.v ===== *)
(** * Replies go back in order, one at a time

    What [Order.wf] gives for the states a worker reaches. *)

From S2P Require Import Prelude CString StdMap ErrorCode ReadBuffer Allocator Config.
From S2P Require Import RedisProtocol KeyDistributer KeyLocator QueryParser BackendConn.
From S2P Require Import ReplyParser World BackendPool Lifetime ConnIO Commands CommandQuery.
From S2P Require Import CommandReply Order Worker Logic QueryLogic ReplyLogic Invariants Scenario.

(** C3: pipelined queries are answered in order.  In every state a worker reaches
    the queue of a client lists its commands in the order in which they were
    created; a write to the client's socket that is outstanding is made for a
    command of this client, and while that command is queued it is the first of
    the queue: no reply, not even an error reply or a part of one, is sent before
    those of the earlier queries. *)
Theorem replies_in_order config w c x p n cmd b :
  reachable config w -> clients w !! c = Some x -> ClientWrite c p n cmd b ∈ in_flight w ->
  StronglySorted Z.lt (active_cmd_queue_ x) /\
  (forall k, commands w !! cmd = Some k -> client_conn_ k = c) /\
  (cmd ∈ active_cmd_queue_ x -> head (active_cmd_queue_ x) = Some cmd).
Proof.
  intros Hw%reachable_wf Hx Hop. destruct (wf_client w Hw c x Hx) as [_ Hs].
  destruct (wf_write w Hw c p n cmd b Hop) as (_ & _ & Ho & Ht). split_and!; [done..|].
  intros Hin. by destruct (Ht x Hx).
Qed.

(** C6: a worker never has two writes to one client outstanding, so the bytes of two
    replies do not mix; and where [is_writing_reply_] is false there is none. *)
Theorem one_reply_at_a_time config w c :
  reachable config w ->
  (length (writes w c) <= 1)%nat /\
  forall x, clients w !! c = Some x -> cl_is_writing_reply_ x = false -> writes w c = [].
Proof. intros Hw%reachable_wf. split; [by apply wf_single|by apply wf_idle]. Qed.

(** Three queries in one segment, the third of them an unsupported one; the backend
    of the second answers before that of the first. *)
Definition three_queries : list event :=
  accepted ++
  [EvComplete 0 (Received (concat (replicate 2 (enc_array [str "get"; str "k1"]) ++ [enc_array [str "foo"]])));
   EvComplete 0 Connected; EvComplete 0 Connected; EvComplete 0 (Sent 21); EvComplete 0 (Sent 21);
   EvComplete 1 (Received (enc_bulk (str "second"))); EvComplete 0 (Received (enc_bulk (str "first")))].

Lemma replies_in_order_witness :
  exists x, clients (after three_queries) !! 0 = Some x /\ active_cmd_queue_ x = [2; 4; 5] /\
    in_flight (after three_queries) = [ClientWrite 0 (InBackend 1 0) 11 2 (Some 1)] /\
    StronglySorted Z.lt (active_cmd_queue_ x) /\
    (forall k, commands (after three_queries) !! 2 = Some k -> client_conn_ k = 0) /\
    (2 ∈ active_cmd_queue_ x -> head (active_cmd_queue_ x) = Some 2).
Proof.
  assert (in_flight (after three_queries) = [ClientWrite 0 (InBackend 1 0) 11 2 (Some 1)]) as Hi
    by (vm_compute; reflexivity).
  assert (active_cmd_queue_ <$> clients (after three_queries) !! 0 = Some [2; 4; 5]) as Hq
    by (vm_compute; reflexivity).
  destruct (clients (after three_queries) !! 0) as [x|] eqn:Hx; [|discriminate Hq].
  exists x. split; [reflexivity|]. split; [by injection Hq|]. split; [exact Hi|].
  apply (replies_in_order small_config (after three_queries) 0 x (InBackend 1 0) 11 2 (Some 1));
    [apply after_reachable|exact Hx|rewrite Hi; by apply list_elem_of_here].
Defined.

Lemma one_reply_at_a_time_witness :
  (length (writes (after three_queries) 0) <= 1)%nat /\
  forall x, clients (after three_queries) !! 0 = Some x -> cl_is_writing_reply_ x = false ->
    writes (after three_queries) 0 = [].
Proof. exact (one_reply_at_a_time small_config _ 0 (after_reachable three_queries)). Defined.
