(* ===== verification/Loops.v ===== *)
(** * Bounds of loops

    The loops of the model carry a bound where the recursion is not structural.
    Here the bounds of the loops over bytes are shown to be enough, and with them
    that most functions never use a bound up, whatever the state ([plain]).  The
    loops that go through the state are in [Termination]. *)

From S2P Require Import Prelude CString StdMap ErrorCode ReadBuffer Allocator Config.
From S2P Require Import RedisProtocol KeyDistributer KeyLocator QueryParser BackendConn.
From S2P Require Import ReplyParser World BackendPool Lifetime ConnIO Commands CommandQuery.
From S2P Require Import CommandReply Order Worker.

(** ** Loops over bytes *)
Section bytes.
Implicit Types (m l : bytes).

Lemma read_bytes_fuel m p n : fuel_free (read_bytes m p n).
Proof. unfold read_bytes. fuel_free_tac. Qed.
Lemma memchr_from_fuel l c n : fuel_free (memchr_from l c n).
Proof. revert n. induction l; intros [|n]; simpl; fuel_free_tac. Qed.
Hint Resolve memchr_from_fuel : fuel.
Lemma memchr_fuel m p c n : fuel_free (memchr m p c n).
Proof. unfold memchr. fuel_free_tac. Qed.
Lemma c_string_fuel l : fuel_free (c_string l).
Proof. induction l; simpl; fuel_free_tac. Qed.
Lemma strncmp_eq_fuel l s n : fuel_free (strncmp_eq l s n).
Proof. revert s n. induction l; intros [|c s] [|n]; simpl; fuel_free_tac. Qed.
Lemma mem_write_fuel m p bs : fuel_free (mem_write m p bs).
Proof. unfold mem_write. fuel_free_tac. Qed.
Lemma find_lf_fuel l p : fuel_free (find_lf l p).
Proof. revert p. induction l; intros p; simpl; fuel_free_tac. Qed.
Lemma scan_to_fuel stops l p : fuel_free (scan_to stops l p).
Proof. revert p. induction l; intros p; simpl; fuel_free_tac. Qed.
End bytes.
#[export] Hint Resolve read_bytes_fuel memchr_fuel c_string_fuel strncmp_eq_fuel mem_write_fuel
  find_lf_fuel scan_to_fuel : fuel.

(** *** Bulks and arrays *)
Lemma Bulk_payload_data_fuel m b : fuel_free (Bulk_payload_data m b).
Proof. unfold Bulk_payload_data. fuel_free_tac. Qed.
Lemma Bulk_payload_size_fuel m b : fuel_free (Bulk_payload_size m b).
Proof. unfold Bulk_payload_size. fuel_free_tac. Qed.
Lemma Bulk_absent_size_fuel m b : fuel_free (Bulk_absent_size m b).
Proof. unfold Bulk_absent_size. fuel_free_tac. Qed.
#[export] Hint Resolve Bulk_payload_data_fuel Bulk_payload_size_fuel Bulk_absent_size_fuel : fuel.
Lemma Bulk_completed_fuel m b : fuel_free (Bulk_completed m b).
Proof. unfold Bulk_completed. fuel_free_tac. Qed.
Lemma Bulk_payload_fuel m b : fuel_free (Bulk_payload m b).
Proof. unfold Bulk_payload. fuel_free_tac. Qed.
Lemma Bulk_to_string_fuel m b : fuel_free (Bulk_to_string m b).
Proof. unfold Bulk_to_string. fuel_free_tac. Qed.
Lemma BulkArray_at_fuel ba i : fuel_free (BulkArray_at ba i).
Proof. unfold BulkArray_at. fuel_free_tac. Qed.
Lemma BulkArray_back_fuel ba : fuel_free (BulkArray_back ba).
Proof. unfold BulkArray_back. fuel_free_tac. Qed.
Lemma BulkArray_total_bulks_fuel m ba : fuel_free (BulkArray_total_bulks m ba).
Proof. unfold BulkArray_total_bulks. fuel_free_tac. Qed.
#[export] Hint Resolve Bulk_completed_fuel Bulk_payload_fuel Bulk_to_string_fuel BulkArray_at_fuel
  BulkArray_back_fuel BulkArray_total_bulks_fuel : fuel.
Lemma BulkArray_absent_bulks_fuel m ba : fuel_free (BulkArray_absent_bulks m ba).
Proof. unfold BulkArray_absent_bulks. fuel_free_tac. Qed.
Lemma BulkArray_completed_fuel m ba : fuel_free (BulkArray_completed m ba).
Proof. unfold BulkArray_completed. fuel_free_tac. Qed.
Lemma sum_total_sizes_fuel m items n : fuel_free (sum_total_sizes m items n).
Proof. revert n. induction items; intros n; simpl; fuel_free_tac. Qed.
#[export] Hint Resolve BulkArray_absent_bulks_fuel BulkArray_completed_fuel sum_total_sizes_fuel : fuel.
Lemma BulkArray_total_size_fuel m ba : fuel_free (BulkArray_total_size m ba).
Proof. unfold BulkArray_total_size. fuel_free_tac. Qed.
#[export] Hint Resolve BulkArray_total_size_fuel : fuel.

(** *** Queries *)
Lemma GetRedisCommandType_fuel m b : fuel_free (GetRedisCommandType m b).
Proof. unfold GetRedisCommandType. fuel_free_tac. Qed.
Lemma GetMemcCommandType_fuel m p n : fuel_free (GetMemcCommandType m p n).
Proof. unfold GetMemcCommandType. fuel_free_tac. Qed.
Lemma memc_key_fuel stops m p : fuel_free (memc_key stops m p).
Proof. unfold memc_key. fuel_free_tac. Qed.

(** The scan back to a space ends at the start of the storage at the latest. *)
Lemma back_to_space_fuel fuel m p : p <= Z.of_nat fuel -> fuel_free (back_to_space fuel m p).
Proof.
  revert p. induction fuel as [|fuel IH]; intros p Hp; simpl; (apply fuel_free_bind; [apply rd_fuel|]);
    intros c Hc%rd_nonneg; [lia|]. case_bool_decide; [done|]. apply IH. lia.
Qed.
Lemma memc_body_bytes_fuel m p n : fuel_free (memc_body_bytes m p n).
Proof. unfold memc_body_bytes. fuel_free_tac. apply back_to_space_fuel. lia. Qed.

Lemma scan_to_ge stops l p q : scan_to stops l p = Ok q -> p <= q.
Proof.
  revert p. induction l as [|c l IH]; intros p; simpl; [done|].
  case_bool_decide; [intros [= ->]; lia|]. intros Hq%IH. lia.
Qed.
Lemma memc_get_keys_fuel fuel m p limit : limit - p <= Z.of_nat fuel -> fuel_free (memc_get_keys fuel m p limit).
Proof.
  revert p. induction fuel as [|fuel IH]; intros p Hf; simpl; destruct (Z.ltb_spec p limit); [lia|done| |done].
  apply fuel_free_bind; [apply scan_to_fuel|]. intros q Hq%scan_to_ge.
  apply fuel_free_bind; [apply IH; lia|done].
Qed.
Lemma MemcGet_keys_fuel m p n : fuel_free (MemcGet_keys m p n).
Proof. apply memc_get_keys_fuel. lia. Qed.
Lemma RedisDelPrefix_fuel name n c : fuel_free (RedisDelPrefix name n c).
Proof. unfold RedisDelPrefix. fuel_free_tac. Qed.
Lemma Locate_fuel config kl m key len p : fuel_free (Locate config kl m key len p).
Proof. unfold Locate, KeyNamespace, DefaultNamespace. fuel_free_tac. Qed.

(** Every turn takes one of the missing bulks. *)
Lemma set_parse_loop_fuel n k buf : k <= Z.of_nat n -> fuel_free (set_parse_loop n k buf).
Proof.
  revert k buf. induction n as [|n IH]; intros k buf Hk; simpl; destruct (Z.ltb_spec 0 k); simpl; try done; [lia|].
  case_match; [|done]. fuel_free_tac. apply IH. lia.
Qed.
#[export] Hint Resolve GetRedisCommandType_fuel GetMemcCommandType_fuel memc_key_fuel
  memc_body_bytes_fuel MemcGet_keys_fuel RedisDelPrefix_fuel Locate_fuel : fuel.

(** *** Replies *)
Lemma ParseSimpleReply_fuel p b : fuel_free (ParseSimpleReply p b).
Proof. unfold ParseSimpleReply, ParseRedisSimpleReply, ParseMemcSimpleReply. fuel_free_tac. Qed.
Lemma RedisDel_ParseReply_fuel n b : fuel_free (RedisDel_ParseReply n b).
Proof. unfold RedisDel_ParseReply. fuel_free_tac. Qed.
Lemma mget_take_bulk_fuel s : fuel_free (mget_take_bulk s).
Proof. unfold mget_take_bulk, and_then. fuel_free_tac. Qed.
Lemma mget_take_bulk_front s r s' : mget_take_bulk s = Ok (r, s') -> mp_front s' = mp_front s.
Proof.
  unfold mget_take_bulk. intros H.
  repeat (case_match || (apply bind_Ok in H as (? & ? & H)) || by injection H as <- <-).
Qed.

(** Every turn takes one of the bulks counted at the front of the queue. *)
Lemma mget_loop_fuel fuel s :
  (0 < fuel)%nat -> default 0 (mp_front s) <= Z.of_nat fuel -> fuel_free (mget_loop fuel s).
Proof.
  revert s. induction fuel as [|fuel IH]; intros s Hf Hs; [lia|]. simpl. case_match; [done|].
  apply fuel_free_bind; [apply mget_take_bulk_fuel|].
  intros [[[]|] s'] Hr%mget_take_bulk_front; [|done..]. rewrite <- Hr in Hs.
  destruct (mp_front s') as [n|]; [|done]. simpl in *.
  destruct (Z.ltb_spec 0 n); [|done]. simpl. destruct (Z.eqb_spec (n - 1) 0); [done|].
  apply IH; simpl; lia.
Qed.
Lemma RedisMget_ParseReply_fuel s : fuel_free (RedisMget_ParseReply s).
Proof. unfold RedisMget_ParseReply. case_match; [done|]. apply mget_loop_fuel; lia. Qed.
#[export] Hint Resolve ParseSimpleReply_fuel RedisDel_ParseReply_fuel RedisMget_ParseReply_fuel : fuel.

(** *** Buffers *)
Lemma try_recycle_buffer_fuel b : fuel_free (RB.try_recycle_buffer b).
Proof. unfold RB.try_recycle_buffer, RB.move_to_front. fuel_free_tac. Qed.
#[export] Hint Resolve try_recycle_buffer_fuel : fuel.
Lemma update_processed_bytes_fuel b n : fuel_free (RB.update_processed_bytes b n).
Proof. unfold RB.update_processed_bytes. fuel_free_tac. Qed.
Lemma dec_recycle_lock_fuel b : fuel_free (RB.dec_recycle_lock b).
Proof. unfold RB.dec_recycle_lock. fuel_free_tac. Qed.
Lemma parsed_unprocessed_bytes_fuel b : fuel_free (RB.parsed_unprocessed_bytes b).
Proof. unfold RB.parsed_unprocessed_bytes. fuel_free_tac. Qed.
Lemma SetReplyData_fuel data p b : fuel_free (BC.SetReplyData data p b).
Proof. unfold BC.SetReplyData, RB.push_reply_data. fuel_free_tac. Qed.
Lemma Reset_fuel b : fuel_free (BC.Reset b).
Proof. unfold BC.Reset. fuel_free_tac. Qed.
#[export] Hint Resolve update_processed_bytes_fuel dec_recycle_lock_fuel parsed_unprocessed_bytes_fuel
  SetReplyData_fuel Reset_fuel : fuel.

(** ** Functions that never run out of turns, whatever the state *)
Definition plain {A} (m : M A) : Prop := forall w, m w <> Fault OutOfFuel.

Section plain.
Lemma plain_bind {A B} (m : M A) (k : A -> M B) : plain m -> (forall a, plain (k a)) -> plain (m ≫= k).
Proof.
  intros Hm Hk w. specialize (Hm w). unfold mbind, M_bind. destruct (m w) as [[a w1]|f]; [apply Hk|congruence].
Qed.
Lemma plain_ret {A} (a : A) : plain (mret a).
Proof. done. Qed.
Lemma plain_lift {A} (r : result A) : fuel_free r -> plain (lift r).
Proof. unfold fuel_free, lift. intros Hr w. destruct r; congruence. Qed.
Lemma plain_fault {A} f : f <> OutOfFuel -> plain (fault f : M A).
Proof. intros Hf w. unfold fault. congruence. Qed.
Lemma plain_get : plain get.
Proof. done. Qed.
Lemma plain_modify f : plain (modify f).
Proof. done. Qed.
Lemma plain_for_each {A} (l : list A) f : (forall a, plain (f a)) -> plain (for_each l f).
Proof. intros Hf. induction l; simpl; [done|]. by apply plain_bind. Qed.
End plain.

Create HintDb plain.
#[export] Hint Resolve plain_ret plain_get plain_modify : plain.
Ltac plain_tac :=
  intros; unfold ok;
  repeat first
    [ progress cbv beta iota zeta delta [negb when skip m_assert]
    | solve [eauto with plain]
    | apply plain_bind; [|intros ?]
    | apply plain_for_each; intros ?
    | apply plain_fault; discriminate
    | apply plain_lift; fuel_free_tac
    | case_match ].
(** *** Objects, timers and buffers *)
Lemma plain_client c : plain (client c).
Proof. unfold client. plain_tac. Qed.
Lemma plain_command c : plain (command c).
Proof. unfold command. plain_tac. Qed.
Lemma plain_backend b : plain (backend b).
Proof. unfold backend. plain_tac. Qed.
#[export] Hint Resolve plain_client plain_command plain_backend : plain.
Lemma plain_client_buffer c : plain (client_buffer c).
Proof. unfold client_buffer. plain_tac. Qed.
Lemma plain_backend_buffer b : plain (backend_buffer b).
Proof. unfold backend_buffer. plain_tac. Qed.
Lemma plain_set_client c x : plain (set_client c x).
Proof. apply plain_modify. Qed.
Lemma plain_set_command c x : plain (set_command c x).
Proof. apply plain_modify. Qed.
Lemma plain_set_backend c x : plain (set_backend c x).
Proof. apply plain_modify. Qed.
#[export] Hint Resolve plain_client_buffer plain_backend_buffer plain_set_client plain_set_command
  plain_set_backend : plain.
Lemma plain_update_client c f : plain (update_client c f).
Proof. unfold update_client. plain_tac. Qed.
Lemma plain_update_command c f : plain (update_command c f).
Proof. unfold update_command. plain_tac. Qed.
Lemma plain_update_backend b f : plain (update_backend b f).
Proof. unfold update_backend. plain_tac. Qed.
Lemma plain_on_client_buffer c f : (forall buf, fuel_free (f buf)) -> plain (on_client_buffer c f).
Proof. intros Hf. unfold on_client_buffer. plain_tac. Qed.
Lemma plain_on_backend_buffer b f : (forall buf, fuel_free (f buf)) -> plain (on_backend_buffer b f).
Proof. intros Hf. unfold on_backend_buffer. plain_tac. Qed.
#[export] Hint Resolve plain_update_client plain_update_command plain_update_backend : plain.
#[export] Hint Extern 2 (plain (on_client_buffer _ _)) =>
  apply plain_on_client_buffer; intros ?; unfold ok; fuel_free_tac : plain.
#[export] Hint Extern 2 (plain (on_backend_buffer _ _)) =>
  apply plain_on_backend_buffer; intros ?; unfold ok; fuel_free_tac : plain.
Lemma plain_set_state cmd s : plain (set_state cmd s).
Proof. apply plain_update_command. Qed.
Lemma plain_start op : plain (start op).
Proof. apply plain_modify. Qed.
Lemma plain_cancel_timer t : plain (cancel_timer t).
Proof. apply plain_modify. Qed.
Lemma plain_on_stats f : plain (on_stats f).
Proof. apply plain_modify. Qed.
Lemma plain_release_slab s : plain (release_slab s).
Proof. apply plain_modify. Qed.
Lemma plain_hold h : plain (hold h).
Proof. apply plain_modify. Qed.
Lemma plain_emit o : plain (emit o).
Proof. apply plain_modify. Qed.
#[export] Hint Resolve plain_set_state plain_start plain_cancel_timer plain_on_stats plain_release_slab
  plain_hold plain_emit : plain.
Lemma plain_arm_timer t ec : plain (arm_timer t ec).
Proof. unfold arm_timer. plain_tac. Qed.
Lemma plain_fresh_id : plain fresh_id.
Proof. unfold fresh_id. plain_tac. Qed.
Lemma plain_alloc_slab : plain alloc_slab.
Proof. unfold alloc_slab. plain_tac. Qed.
#[export] Hint Resolve plain_arm_timer plain_fresh_id plain_alloc_slab : plain.
Lemma plain_Allocate ep : plain (Allocate ep).
Proof. unfold Allocate, idle_or_new, BackendConn_ctor. plain_tac. Qed.
Lemma plain_Release b : plain (Release b).
Proof. unfold Release. plain_tac. Qed.
Lemma plain_drop_backend b : plain (drop_backend b).
Proof. unfold drop_backend, BackendConn_dtor. plain_tac. Qed.
Lemma plain_drop_client c : plain (drop_client c).
Proof. unfold drop_client, ClientConnection_dtor. plain_tac. Qed.
#[export] Hint Resolve plain_Allocate plain_Release plain_drop_backend plain_drop_client : plain.
Lemma plain_drop_command c : plain (drop_command c).
Proof.
  unfold drop_command, Command_dtor, command_dtor_body, RedisBasicCommand_dtor, MemcBasicCommand_dtor,
    RedisSetCommand_dtor, MemcSetCommand_dtor, release_replying, MemcGetCommand_dtor,
    RedisMgetCommand_dtor, RedisDelCommand_dtor, RedisMsetCommand_dtor. plain_tac.
Qed.
#[export] Hint Resolve plain_drop_command : plain.
Lemma plain_unhold h : plain (unhold h).
Proof. unfold unhold. plain_tac. Qed.
#[export] Hint Resolve plain_unhold : plain.
Lemma plain_holding {A} h (m : M A) : plain m -> plain (holding h m).
Proof. intros Hm. unfold holding. plain_tac. Qed.

(** *** Connections *)
Lemma plain_SetReplyData b data p : plain (Backend.SetReplyData b data p).
Proof. unfold Backend.SetReplyData. plain_tac. Qed.
Lemma plain_SetReadWriteCallback b cmd : plain (Backend.SetReadWriteCallback b cmd).
Proof. unfold Backend.SetReadWriteCallback. plain_tac. Qed.
Lemma plain_BackendAbort b : plain (Backend.Abort b).
Proof. unfold Backend.Abort. plain_tac. Qed.
Lemma plain_ReadReply b : plain (Backend.ReadReply b).
Proof. unfold Backend.ReadReply. plain_tac. Qed.
Lemma plain_AsyncWrite b p n : plain (Backend.AsyncWrite b p n).
Proof. unfold Backend.AsyncWrite. plain_tac. Qed.
#[export] Hint Resolve plain_SetReplyData plain_SetReadWriteCallback plain_BackendAbort
  plain_ReadReply plain_AsyncWrite : plain.
Lemma plain_TryReadMoreReply b : plain (Backend.TryReadMoreReply b).
Proof. unfold Backend.TryReadMoreReply. plain_tac. Qed.
Lemma plain_WriteQuery b p n : plain (Backend.WriteQuery b p n).
Proof. unfold Backend.WriteQuery. plain_tac. Qed.
Lemma plain_UpdateTimer c t : plain (Client.UpdateTimer c t).
Proof. unfold Client.UpdateTimer. plain_tac. Qed.
#[export] Hint Resolve plain_TryReadMoreReply plain_WriteQuery plain_UpdateTimer : plain.
Lemma plain_AsyncRead c : plain (Client.AsyncRead c).
Proof. unfold Client.AsyncRead. plain_tac. Qed.
#[export] Hint Resolve plain_AsyncRead : plain.
Lemma plain_TryReadMoreQuery c : plain (Client.TryReadMoreQuery c).
Proof. unfold Client.TryReadMoreQuery. plain_tac. Qed.
Lemma plain_IsFirstCommand c cmd : plain (Client.IsFirstCommand c cmd).
Proof. unfold Client.IsFirstCommand. plain_tac. Qed.
Lemma plain_WriteReply c p n cmd b : plain (Client.WriteReply c p n cmd b).
Proof. unfold Client.WriteReply. plain_tac. Qed.
Lemma plain_ClientAbort c : plain (Client.Abort c).
Proof. unfold Client.Abort. plain_tac. Qed.
#[export] Hint Resolve plain_TryReadMoreQuery plain_IsFirstCommand plain_WriteReply plain_ClientAbort : plain.

(** *** Queries *)
Lemma plain_new_command cl p r s : plain (new_command cl p r s).
Proof. unfold new_command. plain_tac. Qed.
Lemma plain_locate_key m key len p : plain (locate_key m key len p).
Proof. unfold locate_key. plain_tac. Qed.
#[export] Hint Resolve plain_new_command plain_locate_key : plain.
Lemma plain_locate_bulk m b : plain (locate_bulk m b).
Proof. unfold locate_bulk. plain_tac. Qed.
#[export] Hint Resolve plain_locate_bulk : plain.
Lemma plain_memc_get_subqueries cl m keys s : plain (memc_get_subqueries cl m keys s).
Proof. revert s. induction keys as [|[p len] keys IH]; simpl; plain_tac. Qed.
Lemma extend_last_fuel n l : fuel_free (extend_last n l).
Proof. unfold extend_last. fuel_free_tac. Qed.
Lemma append_segment_fuel d n l : fuel_free (append_segment d n l).
Proof. unfold append_segment, extend_last. fuel_free_tac. Qed.
Lemma complete_keys_fuel m keys : fuel_free (complete_keys m keys).
Proof. unfold complete_keys. fuel_free_tac. Qed.
#[export] Hint Resolve extend_last_fuel append_segment_fuel complete_keys_fuel : fuel.
Lemma plain_mget_subqueries cl m items ep s q : plain (mget_subqueries cl m items ep s q).
Proof. revert ep s q. induction items as [|b items IH]; simpl; plain_tac. Qed.
Lemma plain_del_push_all cl m keys s : plain (del_push_all cl m keys s).
Proof. revert s. induction keys as [|k keys IH]; simpl; unfold del_PushSubquery; plain_tac. Qed.
Lemma plain_mset_push_all cl m bulks s : plain (mset_push_all cl m bulks s).
Proof.
  enough ((forall s, plain (mset_push_all cl m bulks s)) /\
          (forall k s, plain (mset_push_all cl m (k :: bulks) s))) as [H _] by apply H.
  induction bulks as [|v bulks [IH1 IH2]]; split; [plain_tac..|apply IH2|].
  simpl. unfold mset_PushSubquery. plain_tac.
Qed.
#[export] Hint Resolve plain_memc_get_subqueries plain_mget_subqueries plain_del_push_all
  plain_mset_push_all : plain.
Lemma plain_CreateCommand cl buf size : plain (CreateCommand cl buf size).
Proof.
  unfold CreateCommand, redis_command, memc_command, RedisBasicCommand_ctor, RedisSetCommand_ctor,
    MemcBasicCommand_ctor, MemcSetCommand_ctor, ErrorCommand_ctor, StatsCommand_ctor,
    MemcGetCommand_ctor, RedisMgetCommand_ctor, RedisDelCommand_ctor, RedisMsetCommand_ctor.
  plain_tac.
Qed.
Lemma tail_subquery_fuel s : fuel_free (tail_subquery s).
Proof. unfold tail_subquery. fuel_free_tac. Qed.
#[export] Hint Resolve tail_subquery_fuel : fuel.
Lemma query_recv_complete_fuel c : fuel_free (query_recv_complete c).
Proof. unfold query_recv_complete, RedisMsetCommand_query_recv_complete. fuel_free_tac. Qed.
#[export] Hint Resolve query_recv_complete_fuel : fuel.
Lemma plain_memc_get cmd : plain (memc_get cmd).
Proof. unfold memc_get. plain_tac. Qed.
Lemma plain_redis_mget cmd : plain (redis_mget cmd).
Proof. unfold redis_mget. plain_tac. Qed.
Lemma plain_redis_del cmd : plain (redis_del cmd).
Proof. unfold redis_del. plain_tac. Qed.
Lemma plain_redis_mset cmd : plain (redis_mset cmd).
Proof. unfold redis_mset. plain_tac. Qed.
#[export] Hint Resolve plain_CreateCommand plain_memc_get plain_redis_mget plain_redis_del plain_redis_mset : plain.
Lemma plain_check_query_recv_complete cmd : plain (check_query_recv_complete cmd).
Proof.
  unfold check_query_recv_complete, RedisSetCommand_check_query_recv_complete,
    MemcSetCommand_check_query_recv_complete. plain_tac.
Qed.
Lemma plain_mset_ActivateWaitingSubquery cmd : plain (RedisMsetCommand_ActivateWaitingSubquery cmd).
Proof. unfold RedisMsetCommand_ActivateWaitingSubquery, mset_activate. plain_tac. Qed.
Lemma plain_del_ActivateWaitingSubquery cmd : plain (RedisDelCommand_ActivateWaitingSubquery cmd).
Proof. unfold RedisDelCommand_ActivateWaitingSubquery, del_activate. plain_tac. Qed.
Lemma plain_TryWriteReply cmd b : plain (TryWriteReply cmd b).
Proof. unfold TryWriteReply. plain_tac. Qed.
Lemma plain_write_unprocessed cl b : plain (write_unprocessed cl b).
Proof. unfold write_unprocessed. plain_tac. Qed.
#[export] Hint Resolve plain_check_query_recv_complete plain_mset_ActivateWaitingSubquery
  plain_del_ActivateWaitingSubquery plain_TryWriteReply plain_write_unprocessed : plain.
Lemma plain_StartWriteQuery cmd : plain (StartWriteQuery cmd).
Proof.
  unfold StartWriteQuery, Command_StartWriteQuery, ErrorCommand_StartWriteQuery,
    StatsCommand_StartWriteQuery, MemcGetCommand_StartWriteQuery, RedisMgetCommand_StartWriteQuery,
    RedisDelCommand_StartWriteQuery, RedisMsetCommand_StartWriteQuery, memc_get_start, mget_start,
    ErrorCommand_StartWriteReply, StatsCommand_StartWriteReply, RedisMgetCommand_StartWriteReply.
  plain_tac.
Qed.
Lemma plain_mset_forget cmd b : plain (mset_forget cmd b).
Proof. unfold mset_forget. plain_tac. Qed.
Lemma plain_reply_or_wait cmd b : plain (reply_or_wait cmd b).
Proof. unfold reply_or_wait. plain_tac. Qed.
#[export] Hint Resolve plain_StartWriteQuery plain_mset_forget plain_reply_or_wait : plain.
Lemma plain_ContinueWriteQuery cmd : plain (ContinueWriteQuery cmd).
Proof.
  unfold ContinueWriteQuery, Command_ContinueWriteQuery, RedisMsetCommand_ContinueWriteQuery. plain_tac.
Qed.
Lemma plain_ParseUnparsedPart cmd : plain (ParseUnparsedPart cmd).
Proof.
  unfold ParseUnparsedPart, RedisSetCommand_ParseUnparsedPart. plain_tac. apply set_parse_loop_fuel. lia.
Qed.
Lemma plain_ProcessUnparsedPart cmd : plain (ProcessUnparsedPart cmd).
Proof.
  unfold ProcessUnparsedPart, RedisDelCommand_ProcessUnparsedPart, RedisMsetCommand_ProcessUnparsedPart.
  plain_tac.
Qed.
#[export] Hint Resolve plain_ContinueWriteQuery plain_ParseUnparsedPart plain_ProcessUnparsedPart : plain.
Lemma plain_process_one c : plain (process_one c).
Proof. unfold process_one, push_command. plain_tac. Qed.
#[export] Hint Resolve plain_process_one : plain.

(** *** Replies *)
Lemma plain_pop_command c : plain (pop_command c).
Proof. unfold pop_command. plain_tac. Qed.
Lemma plain_mget_ParseReply cmd b : plain (RedisMgetCommand_ParseReply cmd b).
Proof. unfold RedisMgetCommand_ParseReply. plain_tac. Qed.
#[export] Hint Resolve plain_pop_command plain_mget_ParseReply : plain.
Lemma plain_mget_BackendReadyToReply cmd b : plain (RedisMgetCommand_BackendReadyToReply cmd b).
Proof. unfold RedisMgetCommand_BackendReadyToReply. plain_tac. Qed.
#[export] Hint Resolve plain_mget_BackendReadyToReply : plain.
Lemma plain_mget_NextBackendStartReply cmd : plain (RedisMgetCommand_NextBackendStartReply cmd).
Proof. unfold RedisMgetCommand_NextBackendStartReply. plain_tac. Qed.
Lemma plain_memc_TryMarkLastBackend cmd b : plain (MemcGetCommand_TryMarkLastBackend cmd b).
Proof. unfold MemcGetCommand_TryMarkLastBackend. plain_tac. Qed.
Lemma plain_TryActivateReplyingBackend cmd b : plain (MemcGetCommand_TryActivateReplyingBackend cmd b).
Proof. unfold MemcGetCommand_TryActivateReplyingBackend. plain_tac. Qed.
Lemma plain_BackendErrorRecoverable cmd b : plain (BackendErrorRecoverable cmd b).
Proof. unfold BackendErrorRecoverable. plain_tac. Qed.
Lemma plain_mark_failed b : plain (mark_failed b).
Proof. unfold mark_failed. plain_tac. Qed.
Lemma plain_del_forget cmd b : plain (del_forget cmd b).
Proof. unfold del_forget. plain_tac. Qed.
Lemma plain_SetBackendReplyCount b n : plain (SetBackendReplyCount b n).
Proof. unfold SetBackendReplyCount. plain_tac. Qed.
Lemma plain_try_read_if_unlocked c : plain (try_read_if_unlocked c).
Proof. unfold try_read_if_unlocked. plain_tac. Qed.
Lemma plain_write_segment b l : plain (write_segment b l).
Proof. unfold write_segment. plain_tac. Qed.
Lemma plain_read_more_if_unlocked cmd : plain (read_more_if_unlocked cmd).
Proof. unfold read_more_if_unlocked. plain_tac. Qed.
Lemma plain_dec_client_lock c : plain (dec_client_lock c).
Proof. unfold dec_client_lock. plain_tac. Qed.
Lemma plain_consume_reply b : plain (consume_reply b).
Proof. unfold consume_reply. plain_tac. Qed.
Lemma plain_read_more_bulks c n : plain (read_more_bulks c n).
Proof. unfold read_more_bulks. plain_tac. Qed.
Lemma plain_reply_part_written cmd b : plain (reply_part_written cmd b).
Proof. unfold reply_part_written. plain_tac. Qed.
Lemma plain_Command_ParseReply b p : plain (Command_ParseReply b p).
Proof. unfold Command_ParseReply. plain_tac. Qed.
Lemma plain_del_ParseReply cmd b s : plain (RedisDelCommand_ParseReply cmd b s).
Proof. unfold RedisDelCommand_ParseReply. plain_tac. Qed.
#[export] Hint Resolve plain_mget_NextBackendStartReply plain_memc_TryMarkLastBackend
  plain_TryActivateReplyingBackend plain_BackendErrorRecoverable plain_mark_failed plain_del_forget
  plain_SetBackendReplyCount plain_try_read_if_unlocked plain_write_segment plain_read_more_if_unlocked
  plain_dec_client_lock plain_consume_reply plain_read_more_bulks plain_reply_part_written
  plain_Command_ParseReply plain_del_ParseReply : plain.
Lemma plain_mget_RecoverableError cmd b ec : plain (RedisMgetCommand_OnBackendRecoverableError cmd b ec).
Proof. unfold RedisMgetCommand_OnBackendRecoverableError. plain_tac. Qed.
Lemma plain_del_RecoverableError cmd b ec : plain (RedisDelCommand_OnBackendRecoverableError cmd b ec).
Proof. unfold RedisDelCommand_OnBackendRecoverableError. plain_tac. Qed.
Lemma plain_mset_RecoverableError cmd b ec : plain (RedisMsetCommand_OnBackendRecoverableError cmd b ec).
Proof. unfold RedisMsetCommand_OnBackendRecoverableError. plain_tac. Qed.
Lemma plain_Command_RecoverableError cmd b ec : plain (Command_OnBackendRecoverableError cmd b ec).
Proof. unfold Command_OnBackendRecoverableError. plain_tac. Qed.
Lemma plain_mset_query_part_sent cmd b c i : plain (mset_query_part_sent cmd b c i).
Proof. unfold mset_query_part_sent. plain_tac. Qed.
Lemma plain_source_bytes p n : plain (source_bytes p n).
Proof. unfold source_bytes. plain_tac. Qed.
#[export] Hint Resolve plain_mget_RecoverableError plain_del_RecoverableError
  plain_mset_RecoverableError plain_Command_RecoverableError plain_mset_query_part_sent
  plain_source_bytes : plain.
