(* ===== verification/Termination.v ===== *)
(** * Handlers return

    The loops of the model carry a bound; here the bounds are shown to be enough.
    First the loops over bytes, then [total]: a function never uses a bound up in a
    well-formed state.  Every handler is total but for one: the parser of a
    memcached [get] reply, which a negative value size sends back over bytes it has
    parsed (see [Findings]). *)

From S2P Require Import Prelude CString StdMap ErrorCode ReadBuffer Allocator Config.
From S2P Require Import RedisProtocol KeyDistributer KeyLocator QueryParser BackendConn.
From S2P Require Import ReplyParser World BackendPool Lifetime ConnIO Commands CommandQuery.
From S2P Require Import CommandReply Order Worker Loops Logic QueryLogic ReplyLogic Invariants Scenario OrderTheorems.

#[global] Instance anything_stable_queue : StableQueue anything.
Proof. split; try apply _; done. Qed.
#[global] Instance anything_stable_io : StableIO anything.
Proof. split; [apply _|done]. Qed.

(** ** The loop of [ProcessUnparsedQuery]

    A turn after which the loop goes on has queued a command, and sixteen queued
    commands end it. *)
Lemma queues_same_length w w' c n :
  queues_same w w' -> (forall x, clients w !! c = Some x -> (n <= length (active_cmd_queue_ x))%nat) ->
  forall x, clients w' !! c = Some x -> (n <= length (active_cmd_queue_ x))%nat.
Proof. intros Hs Hn x' Hx. destruct (Hs c x' Hx) as (x & Hx' & ->). by apply Hn. Qed.

Lemma process_one_queues c w w' n :
  wf w -> process_one c w = Ok (true, w') ->
  (forall x, clients w !! c = Some x -> (n <= length (active_cmd_queue_ x))%nat) ->
  wf w' /\ forall x, clients w' !! c = Some x -> (S n <= length (active_cmd_queue_ x))%nat.
Proof.
  intros Hw H Hn.
  destruct (process_one_split [] c w true w' H Hw) as (w0 & w1 & [_ Hc] & _ & Hp & Hw1 & _ & _ & Hr);
    [constructor|].
  destruct (Hr queues_same _ Hw1) as (Hs & Hw' & _); [constructor|]. split; [done|].
  apply (queues_same_length w1 w' c (S n) Hs).
  destruct Hp as [[_ ?]|[cmd Hp]]; [done|]. apply M_bind_Ok in Hp as (y & w2 & [-> Hy]%client_Ok & [= <-]).
  intros x. cbn. rewrite lookup_insert_eq. intros [= <-]. simpl. rewrite length_app. simpl.
  pose proof (queues_same_length w w0 c n Hc Hn y Hy). lia.
Qed.

Lemma process_unparsed_returns fuel c w :
  wf w ->
  (forall x, clients w !! c = Some x -> (kPipelineActiveLimit - fuel <= length (active_cmd_queue_ x))%nat) ->
  process_unparsed fuel c w <> Fault OutOfFuel.
Proof.
  revert w. induction fuel as [|fuel IH]; intros w Hw Hq; simpl;
    unfold client, get, lift, of_option, mbind, M_bind; destruct (clients w !! c) as [x|] eqn:Hx; try done.
  - specialize (Hq x eq_refl). rewrite bool_decide_eq_false_2 by lia. done.
  - destruct (_ && _); [|done].
    destruct (process_one c w) as [[[] w1]|f] eqn:H1; [|done|].
    + rewrite <- Hx in Hq. destruct (process_one_queues c w w1 (kPipelineActiveLimit - S fuel) Hw H1) as [Hw1 Hq1].
      { intros y Hy. apply Hq. by rewrite <- Hy. }
      apply IH; [done|]. intros y Hy%Hq1. lia.
    + pose proof (plain_process_one c w). congruence.
Qed.

(** ** Functions that return from well-formed states *)
Definition total {A} (m : M A) : Prop := forall w, wf w -> m w <> Fault OutOfFuel.

Lemma plain_total {A} (m : M A) : plain m -> total m.
Proof. intros Hm w _. apply Hm. Qed.
Lemma bind_returns {A B} (m : M A) (k : A -> M B) w :
  wf w -> m w <> Fault OutOfFuel -> respects (rel anything []) m -> (forall a, total (k a)) ->
  (m ≫= k) w <> Fault OutOfFuel.
Proof.
  intros Hw Hm Hr Hk. unfold mbind, M_bind. destruct (m w) as [[a w1]|f] eqn:H1; [|congruence].
  destruct (Hr w a w1 H1 Hw) as (_ & Hw1 & _); [constructor|]. by apply Hk.
Qed.
Lemma total_bind {A B} (m : M A) (k : A -> M B) :
  total m -> respects (rel anything []) m -> (forall a, total (k a)) -> total (m ≫= k).
Proof. intros Hm Hr Hk w Hw. apply bind_returns; auto. Qed.

Create HintDb total.
Lemma total_holding {A} h (m : M A) : total m -> total (holding h m).
Proof.
  intros Hm. unfold holding. apply total_bind; [apply plain_total; plain_tac|respects_tac|intros _].
  intros w Hw. specialize (Hm w Hw). unfold mbind, M_bind. destruct (m w) as [[a w1]|f]; [|congruence].
  apply plain_bind; [apply plain_unhold|intros; apply plain_ret].
Qed.
Lemma total_when b m : total m -> total (when b m).
Proof. by destruct b. Qed.
Lemma total_with_command cmd m : total m -> total (with_command cmd m).
Proof.
  intros Hm w Hw. unfold with_command, get, mbind, M_bind. apply total_when; [|done]. by apply total_holding.
Qed.

(** The functions called are total by what is known of them, and keep states well
    formed; only the loops above need the latter. *)
Ltac total_step :=
  match goal with
  | |- total (mbind _ _) =>
      first [apply total_bind; [|solve [respects_tac]|intros ?]|apply plain_total; solve [plain_tac]]
  | |- total (when _ _) => apply total_when
  | |- total (holding _ _) => apply total_holding
  | |- total (with_command _ _) => apply total_with_command
  | |- total (let '_ := ?x in _) => destruct x
  | |- total (match ?x with _ => _ end) => destruct x
  | |- total _ => solve [eauto with total]
  | |- total _ => apply plain_total; solve [plain_tac]
  end.
Ltac total_tac := intros; repeat (cbv beta iota zeta delta [negb]; total_step).

Lemma total_ProcessUnparsedQuery c : total (ProcessUnparsedQuery c).
Proof. intros w Hw. apply process_unparsed_returns; [done|]. intros. lia. Qed.
#[export] Hint Resolve total_ProcessUnparsedQuery : total.

(** ** Rotation

    Every nested call of [RotateReplyingCommand] takes a command off the client's
    queue, every turn of [NextBackendStartReply] a backend off the command's. *)
Lemma set_state_Ok cmd s w a w' :
  set_state cmd s w = Ok (a, w') ->
  exists k, commands w !! cmd = Some k /\
    w' = w_commands (<[cmd := c_command_state s k]> (commands w)) w.
Proof.
  unfold set_state, update_command, command, get, lift, of_option, mbind, M_bind.
  destruct (commands w !! cmd) as [k|] eqn:Hk; [|done]. intros [= <- <-]. by exists k.
Qed.
Lemma set_state_wf cmd s w a w' : wf w -> set_state cmd s w = Ok (a, w') -> wf w'.
Proof. intros Hw H. by destruct (respects_set_state anything [] cmd s w a w' H Hw) as (_ & ? & _). Qed.

Lemma M_bind_fault {A B} (m : M A) (k : A -> M B) w f :
  (m ≫= k) w = Fault f -> m w = Fault f \/ exists a w1, m w = Ok (a, w1) /\ k a w1 = Fault f.
Proof. unfold mbind, M_bind. destruct (m w) as [[a w1]|f']; [right; eauto|left; congruence]. Qed.
Lemma memc_get_Ok cmd w k s w' :
  memc_get cmd w = Ok ((k, s), w') -> w' = w /\ commands w !! cmd = Some k /\ command_state k = CMemcGet s.
Proof.
  unfold memc_get, command, get, lift, of_option, mbind, M_bind.
  destruct (commands w !! cmd) as [k'|]; [|done]. destruct (command_state k') eqn:Hs; try done.
  intros [= <- <- <-]. done.
Qed.

(** [rotate] returns from every state with these queues. *)
Definition rotates (rotate : Z -> M unit) (c : Z) (w : World) : Prop :=
  forall w', wf w' -> queues_same w w' -> rotate c w' <> Fault OutOfFuel.

Lemma rotates_same rotate c w w' : queues_same w w' -> rotates rotate c w -> rotates rotate c w'.
Proof. intros Hs Hr w2 Hw2 Hs2. apply Hr; [done|by etransitivity]. Qed.

Lemma memc_next_returns rotate fuel cmd w :
  wf w ->
  (forall k s, commands w !! cmd = Some k -> command_state k = CMemcGet s ->
     (length (mg_waiting_reply_queue s) <= fuel)%nat) ->
  (forall k, commands w !! cmd = Some k -> rotates rotate (client_conn_ k) w) ->
  memc_next rotate fuel cmd w <> Fault OutOfFuel.
Proof.
  revert w. induction fuel as [|fuel IH]; intros w Hw Hq Hr H; cbn [memc_next] in H;
    apply M_bind_fault in H as [H|([k s] & w1 & H1 & H)]; try (by apply plain_memc_get in H);
    apply memc_get_Ok in H1 as (-> & Hk & Hs); specialize (Hq k s Hk Hs); specialize (Hr k Hk);
    destruct (mg_waiting_reply_queue s) as [|next rest]; try (by apply plain_update_command in H);
    [simpl in Hq; lia|].
  apply M_bind_fault in H as [H|([] & w1 & H1 & H)]; [by apply plain_set_state in H|].
  pose proof (set_state_wf _ _ _ _ _ Hw H1) as Hw1. apply set_state_Ok in H1 as (k1 & Hk1 & ->). simplify_eq.
  apply M_bind_fault in H as [H|(x & w1 & [-> Hx]%backend_Ok & H)]; [by apply plain_backend in H|].
  destruct (BC.finished x).
  2:{ revert H. apply (plain_bind (TryWriteReply cmd next)); [apply plain_TryWriteReply|intros _].
      apply plain_update_command. }
  apply M_bind_fault in H as [H|([] & w1 & H1 & H)]; [by apply plain_set_state in H|].
  pose proof (set_state_wf _ _ _ _ _ Hw1 H1) as Hw2. apply set_state_Ok in H1 as (k2 & Hk2 & ->).
  cbn in Hk2. rewrite lookup_insert_eq in Hk2. injection Hk2 as <-.
  destruct (_ <? _).
  - revert H. apply IH; [done|..]; cbn; rewrite lookup_insert_eq.
    + intros k' s' [= <-] [= <-]. simpl in *. lia.
    + intros k' [= <-]. revert Hr. by apply rotates_same, queues_same_clients.
  - revert H. apply Hr; [done|by apply queues_same_clients].
Qed.

Lemma start_write_reply_returns rotate cmd w :
  wf w -> (forall k, commands w !! cmd = Some k -> rotates rotate (client_conn_ k) w) ->
  start_write_reply rotate cmd w <> Fault OutOfFuel.
Proof.
  intros Hw Hr H. unfold start_write_reply in H.
  apply M_bind_fault in H as [H|(k & w1 & H1 & H)]; [by apply plain_command in H|].
  assert (w1 = w) as -> by (unfold command in H1; apply M_bind_Ok in H1 as (? & ? & [= <- <-] & [-> _]%lift_Ok); done).
  revert H. destruct (command_state k);
    try (solve [apply plain_total; [|done];
         unfold Command_StartWriteReply, ErrorCommand_StartWriteReply, StatsCommand_StartWriteReply,
           RedisMgetCommand_StartWriteReply; plain_tac]).
  intros Hn. apply M_bind_fault in Hn as [Hn|([k' s'] & w1 & H2 & Hn)]; [by apply plain_memc_get in Hn|].
  apply memc_get_Ok in H2 as (-> & Hk & Hs). revert Hn. apply memc_next_returns; [done| |done].
  intros k2 s2 Hk2 Hs2. rewrite Hk in Hk2. injection Hk2 as <-. rewrite Hs in Hs2. by injection Hs2 as <-.
Qed.

Lemma pop_command_queue c w a w' :
  wf w -> pop_command c w = Ok (a, w') ->
  exists x first rest, clients w !! c = Some x /\ active_cmd_queue_ x = first :: rest /\
    wf w' /\ forall x', clients w' !! c = Some x' -> active_cmd_queue_ x' = rest.
Proof.
  intros Hw H.
  destruct (respects_pop_command anything [] c w a w' H Hw) as (_ & Hw' & _); [constructor|].
  apply M_bind_Ok in H as (x & w1 & [-> Hx]%client_Ok & H).
  destruct (active_cmd_queue_ x) as [|first rest] eqn:Hq; [done|]. exists x, first, rest.
  split_and!; [done..|]. intros x' Hx'. apply M_bind_Ok in H as (u & w1 & [= _ <-] & H).
  apply calm_drop_command in H as [_ Hc]. destruct (Hc c x' Hx') as (y & Hy & ->).
  cbn in Hy. rewrite lookup_insert_eq in Hy. by injection Hy as <-.
Qed.

Lemma rotate_command_returns fuel c w :
  wf w -> (forall x, clients w !! c = Some x -> (length (active_cmd_queue_ x) <= fuel)%nat) ->
  rotate_command fuel c w <> Fault OutOfFuel.
Proof.
  revert c w. induction fuel as [|fuel IH]; intros c w Hw Hq H; cbn [rotate_command] in H;
    (apply M_bind_fault in H as [H|(x0 & w1 & [-> Hx0]%client_Ok & H)]; [by apply plain_client in H|]);
    (apply M_bind_fault in H as [H|([] & w1 & H1 & H)]; [revert H; apply plain_total; [plain_tac|done]|]);
    assert (rel queues_same [] w w1) as Hr1 by (by_respects H1);
    destruct (Hr1 Hw) as (Hs1 & Hw1 & _); try constructor;
    (apply M_bind_fault in H as [H|([] & w2 & H2 & H)]; [by apply plain_pop_command in H|]);
    destruct (pop_command_queue c w1 _ w2 Hw1 H2) as (x1 & first & rest & Hx1 & Hq1 & Hw2 & Hrest);
    destruct (Hs1 c x1 Hx1) as (x & Hx & Hqx); specialize (Hq x Hx); rewrite <- Hqx, Hq1 in Hq; simpl in Hq; [lia|];
    (apply M_bind_fault in H as [H|(x2 & w3 & [-> Hx2]%client_Ok & H)]; [by apply plain_client in H|]).
  pose proof (Hrest x2 Hx2) as Hq2. rewrite Hq2 in H. destruct rest as [|next rest]; [done|].
  destruct (wf_queued w2 Hw2 c x2 next Hx2) as [Hn Ho]; [rewrite Hq2; set_solver|].
  apply M_bind_fault in H as [H|([] & w3 & H3 & H)].
  - revert H. apply start_write_reply_returns; [done|]. intros k Hk. rewrite (Ho k Hk).
    intros w' Hw' Hs'. apply IH; [done|]. intros y Hy. destruct (Hs' c y Hy) as (z & Hz & ->).
    simplify_eq. rewrite Hq2. simpl in *. lia.
  - destruct (respects_start_write_reply anything [Turn c next; Own next c] (rotate_command fuel) next)
      with w2 () w3 as (_ & Hw3 & _); [intros; apply respects_rotate_command, _| |done|done| |].
    + exists c. set_solver.
    + constructor; [split; [done|]|by constructor]. intros y Hy. simplify_eq. left. by rewrite Hq2.
    + revert H. generalize Hw3. generalize w3.
      change (total (x ← client c; back ← lift (of_option NullDeref (last (active_cmd_queue_ x)));
        k ← command back; complete ← lift (query_recv_complete k);
        if negb complete then when (negb (RB.recycle_locked (cl_buffer_ x))) (Client.TryReadMoreQuery c)
        else ProcessUnparsedQuery c)). total_tac.
Qed.

Lemma total_RotateReplyingCommand c : total (RotateReplyingCommand c).
Proof.
  intros w Hw H. apply M_bind_fault in H as [H|(x & w1 & [-> Hx]%client_Ok & H)]; [by apply plain_client in H|].
  revert H. apply rotate_command_returns; [done|]. intros y Hy. by simplify_eq.
Qed.
#[export] Hint Resolve total_RotateReplyingCommand : total.
Lemma total_memc_NextBackendStartReply cmd :
  total (MemcGetCommand_NextBackendStartReply RotateReplyingCommand cmd).
Proof.
  intros w Hw H. apply M_bind_fault in H as [H|([k s] & w1 & (-> & Hk & Hs)%memc_get_Ok & H)];
    [by apply plain_memc_get in H|].
  revert H. apply memc_next_returns; [done|..].
  - intros k2 s2 Hk2 Hs2. rewrite Hk in Hk2. injection Hk2 as <-. rewrite Hs in Hs2. by injection Hs2 as <-.
  - intros k2 _ w' Hw' _. by apply total_RotateReplyingCommand.
Qed.
#[export] Hint Resolve total_memc_NextBackendStartReply : total.
Lemma total_RotateReplyingBackend cmd : total (RotateReplyingBackend cmd).
Proof.
  unfold RotateReplyingBackend, Command_RotateReplyingBackend, MemcGetCommand_RotateReplyingBackend,
    RedisMgetCommand_RotateReplyingBackend. total_tac.
Qed.
#[export] Hint Resolve total_RotateReplyingBackend : total.

(** ** Callbacks *)
Lemma total_memc_BackendReadyToReply cmd b : total (MemcGetCommand_BackendReadyToReply cmd b).
Proof. unfold MemcGetCommand_BackendReadyToReply, MemcGetCommand_TryActivateReplyingBackend. total_tac. Qed.
#[export] Hint Resolve total_memc_BackendReadyToReply : total.
Lemma total_memc_RecoverableError cmd b ec : total (MemcGetCommand_OnBackendRecoverableError cmd b ec).
Proof. unfold MemcGetCommand_OnBackendRecoverableError. total_tac. Qed.
#[export] Hint Resolve total_memc_RecoverableError : total.
Lemma total_OnBackendRecoverableError cmd b ec : total (OnBackendRecoverableError cmd b ec).
Proof. unfold OnBackendRecoverableError. total_tac. Qed.
#[export] Hint Resolve total_OnBackendRecoverableError : total.
Lemma total_OnWriteQueryFinished cmd b ec : total (OnWriteQueryFinished cmd b ec).
Proof.
  unfold OnWriteQueryFinished, Command_OnWriteQueryFinished, MemcGetCommand_OnWriteQueryFinished,
    RedisMgetCommand_OnWriteQueryFinished, RedisDelCommand_OnWriteQueryFinished,
    RedisMsetCommand_OnWriteQueryFinished. total_tac.
Qed.
Lemma total_OnWriteReplyFinished cmd b ec : total (OnWriteReplyFinished cmd b ec).
Proof.
  unfold OnWriteReplyFinished, Command_OnWriteReplyFinished, ErrorCommand_OnWriteReplyFinished,
    StatsCommand_OnWriteReplyFinished, RedisMgetCommand_OnWriteReplyFinished, reply_part_written.
  total_tac.
Qed.
Lemma total_reply_error cmd b ec : total (reply_error cmd b ec).
Proof. unfold reply_error. total_tac. Qed.
#[export] Hint Resolve total_OnWriteQueryFinished total_OnWriteReplyFinished total_reply_error : total.

(** *** A reply is received

    Parsing it returns unless it is a reply to a memcached [get]. *)
Definition is_memc_get (w : World) (cmd : Z) : bool :=
  match commands w !! cmd with
  | Some k => match command_state k with CMemcGet _ => true | _ => false end
  | None => false
  end.

Lemma command_bind {A} cmd (k : Command -> M A) w :
  (command cmd ≫= k) w = match commands w !! cmd with Some x => k x w | None => Fault NullDeref end.
Proof. unfold command, get, lift, of_option, mbind, M_bind. by destruct (commands w !! cmd). Qed.

Lemma parse_if_ok_returns cmd b ec w :
  (ec = E_SUCCESS -> is_memc_get w cmd = false) -> parse_if_ok cmd b ec w <> Fault OutOfFuel.
Proof.
  intros Hec. unfold parse_if_ok. case_bool_decide; [|done]. unfold is_memc_get in Hec.
  intros H1. apply M_bind_fault in H1 as [H1|(good & w1 & _ & H1)]; [|done].
  revert H1. unfold ParseReply. rewrite (command_bind cmd). destruct (commands w !! cmd) as [k|]; [|done].
  destruct (command_state k); try (by specialize (Hec ltac:(done)));
    first [apply plain_Command_ParseReply|apply plain_mget_ParseReply|apply plain_del_ParseReply|done].
Qed.
Lemma total_parse_if_failed cmd b ec : ec <> E_SUCCESS -> total (parse_if_ok cmd b ec).
Proof. intros Hec w _. apply parse_if_ok_returns. done. Qed.

Lemma OnBackendReplyReceived_returns cmd b ec w :
  wf w -> (ec = E_SUCCESS -> is_memc_get w cmd = false) ->
  OnBackendReplyReceived cmd b ec w <> Fault OutOfFuel.
Proof.
  intros Hw Hec. pose proof (parse_if_ok_returns cmd b ec w Hec) as Hp. unfold is_memc_get in Hec.
  unfold OnBackendReplyReceived. rewrite (command_bind cmd). destruct (commands w !! cmd) as [k|]; [|done].
  destruct (command_state k) eqn:Hs; try done;
    unfold Command_OnBackendReplyReceived, MemcGetCommand_OnBackendReplyReceived,
      RedisMgetCommand_OnBackendReplyReceived, RedisDelCommand_OnBackendReplyReceived,
      RedisMsetCommand_OnBackendReplyReceived;
    try (apply bind_returns; [done|done|eauto with respects typeclass_instances|intros ec'; total_tac]).
  - assert (ec <> E_SUCCESS) as Hne by (intros ->; by specialize (Hec eq_refl)).
    revert w Hw Hp Hec. enough (total (MemcGetCommand_OnBackendReplyReceived cmd b ec)) as Ht by (intros; by apply Ht).
    unfold MemcGetCommand_OnBackendReplyReceived. total_tac. by apply total_parse_if_failed.
  - revert w Hw Hp Hec. enough (total (RedisMgetCommand_OnBackendReplyReceived cmd b ec)) as Ht by (intros; by apply Ht).
    unfold RedisMgetCommand_OnBackendReplyReceived. total_tac.
Qed.

(** ** Handlers *)
Lemma total_query_sent_callback b ec : total (query_sent_callback b ec).
Proof. unfold query_sent_callback. total_tac. Qed.
Lemma total_reply_written_callback cmd b ec : total (reply_written_callback cmd b ec).
Proof. unfold reply_written_callback. total_tac. Qed.
#[export] Hint Resolve total_query_sent_callback total_reply_written_callback : total.
Lemma total_reply_received_failed b ec : ec <> E_SUCCESS -> total (reply_received_callback b ec).
Proof.
  intros Hec. assert (forall cmd, total (OnBackendReplyReceived cmd b ec)) as Ht
    by (intros cmd w Hw; by apply OnBackendReplyReceived_returns).
  unfold reply_received_callback. total_tac.
Qed.
#[export] Hint Extern 1 (total (reply_received_callback _ _)) =>
  apply total_reply_received_failed; discriminate : total.
Lemma total_Backend_HandleWrite b p n e k : total (Backend_HandleWrite b p n e k).
Proof. unfold Backend_HandleWrite, stop_write_timer. total_tac. Qed.
Lemma total_Backend_HandleConnect b p n e : total (Backend_HandleConnect b p n e).
Proof. unfold Backend_HandleConnect, stop_write_timer. total_tac. Qed.
Lemma total_Backend_OnTimeout b ec : total (Backend_OnTimeout b ec).
Proof. unfold Backend_OnTimeout. total_tac. Qed.
Lemma total_Backend_HandleRead_failed b n : total (Backend_HandleRead b true n).
Proof. unfold Backend_HandleRead. total_tac. Qed.
Lemma total_Client_process c cmd : total (Client_process c cmd).
Proof. unfold Client_process. total_tac. Qed.
#[export] Hint Resolve total_Client_process : total.
Lemma total_Client_received c n : total (Client_received c n).
Proof. unfold Client_received. total_tac. Qed.
#[export] Hint Resolve total_Client_received : total.
Lemma total_Client_HandleRead c o : total (Client_HandleRead c o).
Proof. unfold Client_HandleRead. total_tac. Qed.
Lemma total_Client_OnTimeout c r : total (Client_OnTimeout c r).
Proof. unfold Client_OnTimeout. total_tac. Qed.
Lemma total_HandleAccept c e : total (HandleAccept c e).
Proof. unfold HandleAccept, Client.StartRead. total_tac. Qed.
#[export] Hint Resolve total_Backend_HandleWrite total_Backend_HandleConnect total_Backend_OnTimeout
  total_Backend_HandleRead_failed total_Client_HandleRead total_Client_OnTimeout total_HandleAccept : total.

(** *** The end of a write: its operation is no longer outstanding. *)
Lemma Client_HandleWrite_returns c p n cmd b e k w :
  wf w -> writes w c = [] -> Client_HandleWrite c p n cmd b e k w <> Fault OutOfFuel.
Proof.
  intros Hw Hn H. unfold Client_HandleWrite in H.
  apply M_bind_fault in H as [H|([] & w1 & [= <-] & H)]; [done|].
  set (w1 := w_armed _ w) in *. assert (shrinks w w1) as Hs1 by (by apply quiet_shrinks).
  destruct (shrinks_keeps [] _ _ Hs1 Hw) as (Hw1 & _); [constructor|].
  apply M_bind_fault in H as [H|([] & w2 & H2 & H)]; [by destruct e|].
  assert (quiet w1 w2) as Hq2 by (destruct e; by injection H2 as <-).
  destruct (shrinks_keeps [] _ _ (quiet_shrinks _ _ Hq2) Hw1) as (Hw2 & _); [constructor|].
  assert (writes w2 c = []) as Hn2 by (destruct Hq2 as (_ & _ & Hi & _); unfold writes; by rewrite Hi).
  destruct (_ && _); [by apply plain_WriteReply in H|].
  apply M_bind_fault in H as [H|([] & w3 & H3 & H)]; [by apply plain_update_client in H|].
  apply M_bind_Ok in H3 as (x & w4 & [-> Hx]%client_Ok & [= <-]).
  destruct (keeps_written [] c x w2 Hx Hn2 Hw2) as (Hw3 & _); [constructor|].
  by apply total_reply_written_callback in H.
Qed.

(** *** The end of a read: whose reply it is does not change before the callback *)
Definition same_target (b : Z) (w w' : World) : Prop :=
  commands w' = commands w /\ callback_ <$> backends w' !! b = callback_ <$> backends w !! b.

#[global] Instance same_target_preorder b : PreOrder (same_target b).
Proof. split; [done|]. intros w1 w2 w3 [H1 H1'] [H2 H2']. split; congruence. Qed.

Lemma same_target_modify b f :
  (forall w, commands (f w) = commands w) -> (forall w, backends (f w) = backends w) ->
  respects (same_target b) (modify f).
Proof. intros Hc Hb. apply respects_modify. intros w. split; [done|by rewrite Hb]. Qed.
Lemma same_target_set w b x y :
  backends w !! b = Some x -> callback_ y = callback_ x ->
  same_target b w (w_backends (<[b := y]> (backends w)) w).
Proof. intros Hx Hy. split; [done|]. cbn. rewrite lookup_insert_eq, Hx. simpl. congruence. Qed.
Lemma same_target_update b f :
  (forall x, callback_ (f x) = callback_ x) -> respects (same_target b) (update_backend b f).
Proof. intros Hf w a w' (x & w1 & [-> Hx]%backend_Ok & [= _ <-])%M_bind_Ok. by eapply same_target_set. Qed.
Lemma same_target_buffer b f : respects (same_target b) (on_backend_buffer b f).
Proof.
  intros w a w' (x & w1 & [-> Hx]%backend_Ok & (buf & w2 & [-> _]%lift_Ok & [= _ <-])%M_bind_Ok)%M_bind_Ok.
  by eapply same_target_set.
Qed.
#[export] Hint Resolve same_target_buffer : respects.
#[export] Hint Extern 2 (respects (same_target _) (update_backend _ _)) =>
  apply same_target_update; reflexivity : respects.
#[export] Hint Extern 2 (respects (same_target _) _) => apply same_target_modify; reflexivity : respects.

(** The command a reply from [b] goes to is not a memcached [get]. *)
Definition parses_simply (b : Z) (w : World) : Prop :=
  forall x cmd, backends w !! b = Some x -> callback_ x = Some cmd -> is_memc_get w cmd = false.

Lemma parses_simply_same b w w' : same_target b w w' -> parses_simply b w -> parses_simply b w'.
Proof.
  intros [Hc Hb] Hp x' cmd Hx' Hcmd. rewrite Hx' in Hb. simpl in Hb.
  destruct (backends w !! b) as [x|] eqn:Hx; [|done]. injection Hb as Hb.
  unfold is_memc_get. rewrite Hc. apply (Hp x cmd); [done|congruence].
Qed.

Lemma bind_target {A B} b (m : M A) (k : A -> M B) w :
  plain m -> respects (rel anything []) m -> respects (same_target b) m -> wf w -> parses_simply b w ->
  (forall a w', wf w' -> parses_simply b w' -> k a w' <> Fault OutOfFuel) ->
  (m ≫= k) w <> Fault OutOfFuel.
Proof.
  intros Hm Hr Ht Hw Hp Hk. specialize (Hm w). unfold mbind, M_bind.
  destruct (m w) as [[a w1]|f] eqn:H1; [|congruence].
  destruct (Hr w a w1 H1 Hw) as (_ & Hw1 & _); [constructor|].
  apply Hk; [done|]. by eapply parses_simply_same; [eapply Ht|].
Qed.
Ltac bind_target :=
  eapply bind_target; [plain_tac|respects_tac| |done|eassumption|]; [respects_tac|]; clear;
  intros ? w Hw Hp; simpl.

Lemma reply_received_returns b ec w :
  wf w -> parses_simply b w -> reply_received_callback b ec w <> Fault OutOfFuel.
Proof.
  intros Hw Hp H. apply M_bind_fault in H as [H|(x & w1 & [-> Hx]%backend_Ok & H)]; [by apply plain_backend in H|].
  apply M_bind_fault in H as [H|(cmd & w1 & [-> Hcmd%of_option_Ok]%lift_Ok & H)];
    [revert H; by apply plain_lift, fuel_free_of_option|].
  specialize (Hp x cmd Hx Hcmd). apply M_bind_fault in H as [H|(v & w1 & [= <- <-] & H)]; [done|].
  unfold when in H. destruct (bool_decide (is_Some (commands w !! cmd))); [|done]. unfold holding in H.
  apply M_bind_fault in H as [H|([] & w1 & [= <-] & H)]; [done|].
  set (w1 := w_holders _ w) in *. assert (shrinks w w1) as Hs1 by (by apply quiet_shrinks).
  destruct (shrinks_keeps [] _ _ Hs1 Hw) as (Hw1 & _); [constructor|].
  apply M_bind_fault in H as [H|(a & w2 & _ & H)]; [|revert H; apply plain_bind; plain_tac].
  revert H. by apply OnBackendReplyReceived_returns.
Qed.
Lemma Backend_HandleRead_returns b n w :
  wf w -> parses_simply b w -> Backend_HandleRead b false n w <> Fault OutOfFuel.
Proof.
  intros Hw Hp. unfold Backend_HandleRead. bind_target. destruct (aborted_ _); [done|].
  do 7 bind_target. by apply reply_received_returns.
Qed.

(** ** Events *)

(** Bytes arrive from a backend that answers a memcached [get]. *)
Definition memc_get_reply (w : World) (e : event) : bool :=
  match e with
  | EvComplete i (Received _) =>
      match in_flight w !! i with
      | Some (BackendRead b _ _) =>
          existsb (fun cmd => is_memc_get w cmd)
            (option_list (backends w !! b ≫= callback_))
      | _ => false
      end
  | _ => false
  end.

Lemma total_complete_op op o :
  is_write op = false -> (forall b p n bs, op = BackendRead b p n -> o <> Received bs) -> total (complete_op op o).
Proof.
  intros Hop Ho. destruct op as [| | | | |b p n|]; try done; [..|destruct o; try (by edestruct Ho)|];
    unfold complete_op; total_tac.
Qed.
Lemma complete_write_returns c p n cmd b o w :
  wf w -> writes w c = [] -> complete_op (ClientWrite c p n cmd b) o w <> Fault OutOfFuel.
Proof.
  intros Hw Hn H. unfold complete_op, holding in H.
  apply M_bind_fault in H as [H|([] & w1 & [= <-] & H)]; [done|].
  set (w1 := w_holders _ w) in *. assert (shrinks w w1) as Hs1 by (by apply quiet_shrinks).
  destruct (shrinks_keeps [] _ _ Hs1 Hw) as (Hw1 & _); [constructor|].
  apply M_bind_fault in H as [H|(a & w2 & _ & H)]; [|revert H; apply plain_bind; plain_tac].
  apply M_bind_fault in H as [H|([] & w2 & H2 & H)]; [revert H; destruct o; apply plain_total; done || plain_tac|].
  assert (writes w2 c = []) as Hn2.
  { transitivity (writes w1 c); [|done]. apply calm_writes. revert H2.
    destruct o; try by intros [= <-]. apply (respects_bind calm); [apply calm_source_bytes|].
    intros bs. unfold emit. by apply calm_modify. }
  assert (rel anything [] w1 w2) as Hr2 by (by_respects H2). destruct (Hr2 Hw1) as (_ & Hw2 & _); [constructor|].
  revert H. by apply Client_HandleWrite_returns.
Qed.
Lemma complete_read_returns b p n bs w :
  wf w -> parses_simply b w -> complete_op (BackendRead b p n) (Received bs) w <> Fault OutOfFuel.
Proof.
  intros Hw Hp H. unfold complete_op, holding in H. revert H. bind_target.
  intros H. apply M_bind_fault in H as [H|(a' & w2 & _ & H)]; [|revert H; apply plain_bind; plain_tac].
  revert H. bind_target. by apply Backend_HandleRead_returns.
Qed.

(** C10: every handler returns.  In no state a worker reaches does the handling of an
    event (a completion, a timeout, a new client or a new key locator) loop for
    ever, whatever has been received: the loop over pipelined queries ends within
    sixteen turns, the rotation to the next command and to the next backend of a
    command takes one off a queue with every call, and the parsers advance with
    every turn.  The one exception are the replies to a memcached [get]. *)
Theorem handlers_return config w e :
  reachable config w -> memc_get_reply w e = false -> handle e w <> Fault OutOfFuel.
Proof.
  intros Hw%reachable_wf Hm H. unfold handle in H.
  apply M_bind_fault in H as [H|(v & w1 & [= <- <-] & H)]; [done|]. destruct e as [|i o|i|i|kl].
  - revert H. unfold StartAccept, Client.ctor. apply plain_total; [plain_tac|done].
  - apply M_bind_fault in H as [H|(op & w1 & [-> Hop%of_option_Ok]%lift_Ok & H)];
      [revert H; by apply plain_lift, fuel_free_of_option|].
    apply M_bind_fault in H as [H|([] & w1 & [= <-] & H)]; [done|].
    destruct (shrinks_keeps [] _ _ (shrinks_finish w i) Hw) as (Hw1 & _); [constructor|].
    destruct (is_write op) eqn:Hwr.
    { destruct op as [| |c p n cmd b| | | |]; try done.
      destruct (finished_write w i c p n cmd b Hw Hop) as (_ & _ & Hn). revert H. by apply complete_write_returns. }
    cbn in Hm. rewrite Hop in Hm.
    destruct op as [| | | | |b p n|], o as [| | | |bs]; try done; try (revert H; by apply total_complete_op).
    revert H. apply complete_read_returns; [done|]. intros x cmd Hx Hcmd. cbn in Hx. rewrite Hx in Hm. simpl in Hm.
    rewrite Hcmd in Hm. simpl in Hm. by rewrite orb_false_r in Hm.
  - revert H. apply plain_total; [plain_tac|done].
  - apply M_bind_fault in H as [H|(t & w1 & [-> Ht]%lift_Ok & H)]; [revert H; by apply plain_lift, fuel_free_of_option|].
    apply M_bind_fault in H as [H|([] & w1 & [= <-] & H)]; [done|].
    assert (total (timer_handler t.1 t.2)) as Htot by (unfold timer_handler; total_tac).
    revert H. apply Htot. destruct (shrinks_keeps [] w (w_expired (delete i (expired w)) w)) as (? & _);
      [by apply quiet_shrinks|done|constructor|done].
  - done.
Qed.

(** The answer to the first of three pipelined queries: the connection is turned to the
    second command, which has its reply, and the last one. *)
Lemma handlers_return_witness :
  reachable small_config (after three_queries) /\
  memc_get_reply (after three_queries) (EvComplete 0 (Sent 11)) = false /\
  handle (EvComplete 0 (Sent 11)) (after three_queries) <> Fault OutOfFuel.
Proof.
  split; [apply after_reachable|]. split; [vm_compute; reflexivity|].
  apply (handlers_return small_config (after three_queries) (EvComplete 0 (Sent 11)));
    [apply after_reachable|vm_compute; reflexivity].
Defined.
