(* ===== verification/ReplyTheorems.v ===== *)
(** * Replies arrive in pieces

    A reply may be split over any number of reads.  The parsers of
    [ReplyParser] recognise its end exactly when its last byte has arrived. *)

From S2P Require Import Prelude CString ErrorCode ReadBuffer RedisProtocol KeyDistributer.
From S2P Require Import BackendConn ReplyParser.

(** A completed read, then the parser; a rejected reply stops. *)
Fixpoint feed (parse : BackendConn -> result (bool * BackendConn)) (chunks : list bytes)
    (b : BackendConn) : result (bool * BackendConn) :=
  match chunks with
  | [] => Ok (true, b)
  | chunk :: chunks' =>
      buf ← RB.receive (buffer_ b) chunk;
      '(good, b) ← parse (BC.set_buffer buf b);
      if good : bool then feed parse chunks' b else Ok (false, b)
  end.

(** The replies a redis server gives to a single-key command, as a first line
    without LF, the LF, and what follows it *)
Inductive redis_reply : bytes -> bytes -> Prop :=
| line_reply c text :
    c ∈ [":"%char; "+"%char; "-"%char] -> LF ∉ text -> redis_reply (c :: text) []
| bulk_reply v : zlen v < 2 ^ 30 -> redis_reply (str "$" ++ dec (zlen v) ++ [CR]) (v ++ crlf)
| nil_reply : redis_reply (str "$-1" ++ [CR]) [].

Definition whole (h t : bytes) : bytes := h ++ LF :: t.

Lemma bulk_reply_whole v : whole (str "$" ++ dec (zlen v) ++ [CR]) (v ++ crlf) = enc_bulk v.
Proof. unfold whole, enc_bulk. by rewrite <- !app_assoc. Qed.

(** ** The state after [n] bytes of the reply [h ++ LF :: t]

    The reply begins at the offset [off] of the storage. *)
Record reply_progress (off : Z) (h t : bytes) (n : Z) (b : BackendConn) : Prop := {
  rp_off : 0 <= off;
  rp_n : 0 <= n <= zlen (whole h t);
  rp_fits : off + zlen (whole h t) <= zlen (storage b) < 2 ^ 31;
  rp_bytes : slice (storage b) off (off + n) = take (Z.to_nat n) (whole h t);
  rp_received : received_offset_ (buffer_ b) = off + n;
  rp_parsed : parsed_offset_ (buffer_ b) = if zlen h <? n then off + zlen (whole h t) else off;
  rp_complete : reply_recv_complete_ b = (n =? zlen (whole h t))
}.

(** After the next [zlen chunk] bytes have been received and before they are
    parsed *)
Record reply_received (off : Z) (h t : bytes) (n k : Z) (b : BackendConn) : Prop := {
  rr_off : 0 <= off;
  rr_n : 0 <= n < k;
  rr_k : k <= zlen (whole h t);
  rr_fits : off + k <= zlen (storage b) < 2 ^ 31;
  rr_whole : zlen (whole h t) < 2 ^ 31;
  rr_bytes : slice (storage b) off (off + k) = take (Z.to_nat k) (whole h t);
  rr_received : received_offset_ (buffer_ b) = off + k;
  rr_parsed : parsed_offset_ (buffer_ b) = if zlen h <? n then off + zlen (whole h t) else off;
  rr_complete : reply_recv_complete_ b = false
}.

Lemma at_ptr_slice m off k :
  0 <= off -> 0 <= k -> off + k <= zlen m ->
  at_ptr m off = slice m off (off + k) ++ at_ptr m (off + k).
Proof.
  intros Ho Hk Hm. unfold at_ptr, slice. rewrite !(proj2 (Z.ltb_ge _ _)) by lia.
  rewrite <- (take_drop (Z.to_nat k) (drop (Z.to_nat off) m)) at 1. rewrite drop_drop.
  repeat f_equal; lia.
Qed.

Lemma at_ptr_to_end m p : 0 <= p -> at_ptr m p = slice m p (zlen m).
Proof.
  intros Hp. unfold at_ptr, slice. rewrite (proj2 (Z.ltb_ge _ _)) by lia.
  rewrite take_ge; [done|]. rewrite length_drop. unfold zlen. lia.
Qed.

(** The next bytes of a text that is written from the offset [off] on *)
Lemma receive_extends text off n buf chunk :
  0 <= off -> 0 <= n <= zlen text -> off + zlen text <= zlen (data_ buf) < 2 ^ 31 ->
  received_offset_ buf = off + n -> slice (data_ buf) off (off + n) = take (Z.to_nat n) text ->
  chunk `prefix_of` drop (Z.to_nat n) text ->
  exists m, RB.receive buf chunk = Ok (RB.set_offsets (RB.set_data buf m) (processed_offset_ buf)
                                         (off + (n + zlen chunk)) (parsed_offset_ buf)) /\
    n + zlen chunk <= zlen text /\ zlen m = zlen (data_ buf) /\
    slice m off (off + (n + zlen chunk)) = take (Z.to_nat (n + zlen chunk)) text /\
    at_ptr m (off + zlen text) = at_ptr (data_ buf) (off + zlen text).
Proof.
  intros Ho Hn Hf Hr Hb [rest Hpre]. pose proof (zlen_nonneg chunk).
  assert (n + zlen chunk <= zlen text) as Hle.
  { apply (f_equal length) in Hpre. rewrite length_drop, length_app in Hpre. unfold zlen in *. lia. }
  unfold RB.receive, RB.free_space_begin. rewrite Hr.
  assert (exists m, mem_write (data_ buf) (off + n) chunk = Ok m) as [m Hw]
    by (rewrite mem_write_Ok by lia; eauto).
  pose proof (zlen_mem_write _ _ _ _ Hw) as Hl. rewrite Hw. exists m. split_and!; [|done|done|..].
  - unfold RB.update_received_bytes. simpl. rewrite Hr, u64_small by lia. by rewrite Z.add_assoc.
  - rewrite Z.add_assoc, (slice_mem_write_extend (data_ buf) off (off + n) chunk m Hw), Hb by lia.
    replace (Z.to_nat (n + zlen chunk)) with (Z.to_nat n + length chunk)%nat by (unfold zlen; lia).
    by rewrite <- take_take_drop, Hpre, take_app_length.
  - rewrite !at_ptr_to_end, Hl by lia. apply (slice_mem_write_disjoint _ _ _ _ _ _ Hw); lia.
Qed.

Lemma receive_progress off h t n b chunk :
  reply_progress off h t n b -> chunk <> [] ->
  chunk `prefix_of` drop (Z.to_nat n) (whole h t) ->
  exists buf, RB.receive (buffer_ b) chunk = Ok buf /\
    reply_received off h t n (n + zlen chunk) (BC.set_buffer buf b) /\ zlen (data_ buf) = zlen (storage b).
Proof.
  intros [Ho Hn Hf Hb Hr Hp Hc] Hne Hpre.
  assert (0 < zlen chunk) as Hpos
    by (destruct chunk; [done|]; rewrite zlen_cons; pose proof (zlen_nonneg chunk); lia).
  destruct (receive_extends (whole h t) off n (buffer_ b) chunk) as (m & -> & Hle & Hl & Hs & _); try done.
  eexists. split; [reflexivity|]. unfold storage in *.
  split; [|done]. split; cbn; unfold storage; cbn; try lia; try done. rewrite Hc. lia.
Qed.

(** What a parser must do in the three situations *)
Record recognises (parse : BackendConn -> result (bool * BackendConn)) (h t : bytes) : Prop := {
  rec_head off n k b :
    reply_received off h t n k b -> n <= zlen h ->
    parse b = Ok (true, if zlen h <? k
                        then parsed (zlen (whole h t)) (if k =? zlen (whole h t)
                                                        then BC.set_reply_recv_complete b else b)
                        else b);
  rec_tail off n k b :
    reply_received off h t n k b -> zlen h < n ->
    parse b = Ok (true, if k =? zlen (whole h t) then BC.set_reply_recv_complete b else b)
}.

Lemma zlen_whole h t : zlen (whole h t) = zlen h + 1 + zlen t.
Proof. unfold whole. rewrite zlen_app, zlen_cons. lia. Qed.

Lemma recognises_step parse off h t n k b :
  recognises parse h t -> reply_received off h t n k b -> off + zlen (whole h t) <= zlen (storage b) ->
  exists b', parse b = Ok (true, b') /\ reply_progress off h t k b'.
Proof.
  intros [Hh Ht] Hr Hroom. pose proof Hr as [Ho Hn Hk Hf Hwl Hb Hrec Hp Hc].
  pose proof (zlen_whole h t). pose proof (zlen_nonneg t).
  destruct (Z.le_gt_cases n (zlen h)) as [Hle|Hgt].
  - rewrite (Hh off n k b Hr Hle). eexists. split; [reflexivity|].
    rewrite (proj2 (Z.ltb_ge _ _)) in Hp by lia.
    destruct (Z.ltb_spec (zlen h) k), (Z.eqb_spec k (zlen (whole h t)));
      split; cbn; unfold storage in *; cbn; try done; try lia;
      rewrite ?Hp, ?u64_small, ?(proj2 (Z.ltb_lt _ _)), ?(proj2 (Z.ltb_ge _ _)) by lia;
      try lia; try (rewrite Hc; lia).
  - rewrite (Ht off n k b Hr Hgt). eexists. split; [reflexivity|].
    rewrite (proj2 (Z.ltb_lt _ _)) in Hp by lia.
    destruct (Z.eqb_spec k (zlen (whole h t)));
      split; cbn; unfold storage in *; cbn; try done; try lia;
      rewrite ?(proj2 (Z.ltb_lt _ _)) by lia; try done; try (rewrite Hc; lia); lia.
Qed.

Lemma feed_recognises parse h t chunks : forall off n b,
  recognises parse h t -> reply_progress off h t n b -> Forall (fun c => c <> []) chunks ->
  concat chunks `prefix_of` drop (Z.to_nat n) (whole h t) ->
  exists b', feed parse chunks b = Ok (true, b') /\
    reply_progress off h t (n + zlen (concat chunks)) b'.
Proof.
  induction chunks as [|c chunks IH]; intros off n b Hrec Hp Hne Hpre; simpl.
  - exists b. split; [done|]. by rewrite zlen_nil, Z.add_0_r.
  - inversion_clear Hne as [|?? Hc Hne']. simpl in Hpre.
    assert (c `prefix_of` drop (Z.to_nat n) (whole h t)) as Hcp
      by (etransitivity; [|exact Hpre]; by apply prefix_app_r).
    destruct (receive_progress off h t n b c Hp Hc Hcp) as (buf & -> & Hrr & Hl). rewrite bind_Ok_l.
    pose proof (rp_fits _ _ _ _ _ Hp) as Hfits.
    destruct (recognises_step parse off h t n _ _ Hrec Hrr) as (b' & -> & Hp');
      [unfold storage in *; cbn; lia|]. rewrite bind_Ok_l.
    rewrite zlen_app, Z.add_assoc. apply IH; try done.
    pose proof (rp_n _ _ _ _ _ Hp). pose proof (zlen_nonneg c).
    replace (Z.to_nat (n + zlen c)) with (Z.to_nat n + length c)%nat by (unfold zlen in *; lia).
    rewrite <- drop_drop. destruct Hpre as [rest ->]. rewrite <- app_assoc, drop_app_length.
    by apply prefix_app_r.
Qed.

(** ** Lines *)

(** The first [k] bytes of a line and what follows it: the end of the line is found when
    it is among them. *)
Lemma memchr_line m pos h t k :
  0 <= pos -> 0 <= k <= zlen (whole h t) -> pos + k <= zlen m -> LF ∉ h ->
  slice m pos (pos + k) = take (Z.to_nat k) (whole h t) ->
  memchr m pos LF k = Ok (if zlen h <? k then Some (pos + zlen h) else None).
Proof.
  intros Ho Hk Hm Hlf Hb. unfold memchr. rewrite (at_ptr_slice m pos k), Hb by lia. unfold whole.
  assert (length (take (Z.to_nat k) (h ++ LF :: t)) = Z.to_nat k) as Hlen.
  { rewrite length_take, length_app. simpl. rewrite zlen_whole in Hk. unfold zlen in *. lia. }
  destruct (Z.ltb_spec (zlen h) k) as [Hlt|Hge].
  - rewrite take_app_ge by (unfold zlen in *; lia).
    destruct (Z.to_nat k - length h)%nat as [|j] eqn:Hj; [unfold zlen in *; lia|]. simpl.
    rewrite <- app_assoc. simpl. rewrite memchr_from_app_found; [done|done|unfold zlen in *; lia].
  - rewrite take_app_le by (unfold zlen in *; lia).
    rewrite take_app_le in Hlen by (unfold zlen in *; lia).
    rewrite memchr_from_absent; [done|rewrite length_app; lia|].
    rewrite take_app_le, take_ge by lia. intros Hin. apply Hlf.
    apply elem_of_take in Hin as (i & Hi & _). by eapply list_elem_of_lookup_2.
Qed.

Section received.
Context (off : Z) (h t : bytes) (n k : Z) (b : BackendConn) (Hr : reply_received off h t n k b).

Lemma received_memory :
  at_ptr (storage b) off = take (Z.to_nat k) (whole h t) ++ at_ptr (storage b) (off + k).
Proof. pose proof Hr as [Ho Hn Hk Hf _ Hb _ _ _]. rewrite <- Hb. apply at_ptr_slice; lia. Qed.

Lemma received_first c h' : h = c :: h' -> rd (storage b) off = Ok c.
Proof.
  intros Hh. pose proof Hr as [Ho Hn Hk _ _ _ _ _ _]. rewrite rd_at_ptr, received_memory, Hh by lia.
  destruct (Z.to_nat k) eqn:Hz; [lia|]. done.
Qed.

Lemma received_memchr :
  LF ∉ h -> memchr (storage b) off LF k = Ok (if zlen h <? k then Some (off + zlen h) else None).
Proof. intros Hlf. pose proof Hr as [Ho Hn Hk Hf _ Hb _ _ _]. by apply (memchr_line _ _ _ t); [lia..| |]. Qed.

Lemma received_unparsed :
  RB.unparsed_bytes (buffer_ b) = (if zlen h <? n then 0 else k) /\
  RB.unparsed_data (buffer_ b) = (if zlen h <? n then off + zlen (whole h t) else off).
Proof.
  pose proof Hr as [Ho Hn Hk _ _ _ Hrec Hp _].
  unfold RB.unparsed_bytes, RB.unparsed_data. rewrite Hp, Hrec. split; [|done].
  destruct (Z.ltb_spec (zlen h) n).
  - by rewrite (proj2 (Z.ltb_ge _ _)) by lia.
  - rewrite (proj2 (Z.ltb_lt _ _)) by lia. lia.
Qed.

Lemma received_unreceived :
  zlen h < n -> (RB.parsed_unreceived_bytes (buffer_ b) =? 0) = (k =? zlen (whole h t)).
Proof.
  intros Hlt. pose proof Hr as [Ho Hn Hk _ _ _ Hrec Hp _]. unfold RB.parsed_unreceived_bytes.
  rewrite Hp, Hrec, (proj2 (Z.ltb_lt (zlen h) n)) by lia.
  destruct (Z.ltb_spec (off + k) (off + zlen (whole h t))); lia.
Qed.
End received.

Lemma memc_recognises_line h : LF ∉ h -> recognises ParseMemcSimpleReply h [].
Proof.
  intros Hlf. split; intros off n k b Hr Hn.
  - destruct (received_unparsed off h [] n k b Hr) as [Hu Hd].
    rewrite (proj2 (Z.ltb_ge _ _)) in Hu, Hd by lia. unfold ParseMemcSimpleReply.
    rewrite Hu, Hd, (received_memchr off h [] n k b Hr Hlf), bind_Ok_l.
    pose proof (rr_k _ _ _ _ _ _ Hr) as Hk. pose proof (zlen_whole h []) as Hw. rewrite zlen_nil in Hw.
    destruct (Z.ltb_spec (zlen h) k); [|done].
    rewrite (proj2 (Z.eqb_eq _ _)) by lia. by replace (off + zlen h - off + 1) with (zlen (whole h [])) by lia.
  - pose proof (rr_k _ _ _ _ _ _ Hr). pose proof (rr_n _ _ _ _ _ _ Hr).
    pose proof (zlen_whole h []) as Hw. rewrite zlen_nil in Hw. lia.
Qed.

(** ** Redis replies *)
Lemma redis_reply_no_lf h t : redis_reply h t -> LF ∉ h.
Proof.
  intros [c text Hc Htext|v Hv|]; [|..].
  - apply not_elem_of_cons. split; [|done]. intros <-. revert Hc. decide_goal.
  - apply not_elem_of_app. split; [decide_goal|]. apply not_elem_of_app. split; [|decide_goal].
    apply digits_no_special; [apply dec_digits; apply zlen_nonneg|done].
  - decide_goal.
Qed.

Lemma redis_reply_head h t :
  redis_reply h t -> exists c h', h = c :: h' /\ c ∈ [":"%char; "+"%char; "-"%char; "$"%char].
Proof.
  intros [c text Hc _|v _|]; [exists c, text; split; [done|set_solver]|..];
    eexists _, _; (split; [reflexivity|decide_goal]).
Qed.

Section redis_bulk.
Context (off : Z) (v : bytes) (n k : Z) (b : BackendConn) (Hv : zlen v < 2 ^ 30).
Abbreviation h := (str "$" ++ dec (zlen v) ++ [CR]).
Context (Hr : reply_received off h (v ++ crlf) n k b) (Hk : zlen h < k).

Lemma bulk_sizes : zlen (bulk_header (zlen v)) = zlen h + 1 /\
  zlen (whole h (v ++ crlf)) = zlen (bulk_header (zlen v)) + zlen v + 2.
Proof.
  rewrite zlen_whole, zlen_bulk_header, !zlen_app.
  change (zlen (str "$")) with 1. change (zlen [CR]) with 1. change (zlen crlf) with 2. lia.
Qed.

Lemma bulk_memory : exists rest, at_ptr (storage b) off = bulk_header (zlen v) ++ rest.
Proof.
  rewrite (received_memory off h (v ++ crlf) n k b Hr).
  assert (whole h (v ++ crlf) = bulk_header (zlen v) ++ v ++ crlf) as ->
    by (unfold whole, bulk_header; by rewrite <- !app_assoc).
  pose proof bulk_sizes as [Hs _]. rewrite take_app_ge by (unfold zlen in *; lia).
  rewrite <- app_assoc. eauto.
Qed.

Lemma bulk_parse :
  Bulk_ctor (storage b) off k = Ok (mkBulk off k) /\
  Bulk_completed (storage b) (mkBulk off k) = Ok (k =? zlen (whole h (v ++ crlf))) /\
  Bulk_total_size (storage b) (mkBulk off k) = Ok (zlen (whole h (v ++ crlf))).
Proof.
  destruct bulk_memory as [rest Hm]. pose proof bulk_sizes as [Hs1 Hs2].
  pose proof Hr as [Ho Hn Hkk Hf Hwl _ _ _ _]. pose proof (zlen_nonneg v).
  assert (small_payload (zlen v)) as Hsmall by (unfold small_payload; lia).
  pose proof (Bulk_total_size_header (storage b) off Ho (zlen v) Hsmall rest k Hm) as Ht.
  rewrite <- Hs2 in Ht. split; [|split; [|done]].
  - rewrite (Bulk_ctor_header (storage b) off Ho (zlen v) Hsmall rest) by (done || lia).
    do 2 f_equal. lia.
  - unfold Bulk_completed, Bulk_absent_size. cbn [present_size_]. rewrite (proj2 (Z.ltb_lt _ _)) by lia.
    rewrite Ht, !bind_Ok_l, u64_small by lia. f_equal.
    destruct (Z.leb_spec (zlen (whole h (v ++ crlf))) k); lia.
Qed.
End redis_bulk.

Lemma redis_recognises h t : redis_reply h t -> recognises ParseRedisSimpleReply h t.
Proof.
  intros Hrep. pose proof (redis_reply_no_lf h t Hrep) as Hlf.
  destruct (redis_reply_head h t Hrep) as (c & h' & Hh & Hc).
  split; intros off n k b Hr Hn; destruct (received_unparsed off h t n k b Hr) as [Hu Hd];
    unfold ParseRedisSimpleReply; rewrite Hu, Hd; pose proof (rr_n _ _ _ _ _ _ Hr) as Hnk.
  2: { rewrite (proj2 (Z.ltb_lt _ _)) by lia. cbn [Z.eqb].
       by rewrite (received_unreceived off h t n k b Hr Hn). }
  rewrite (proj2 (Z.ltb_ge _ _)) by lia. rewrite (proj2 (Z.eqb_neq _ _)) by lia.
  rewrite (received_first off h t n k b Hr c h' Hh), bind_Ok_l, bool_decide_false by tauto.
  rewrite (received_memchr off h t n k b Hr Hlf), bind_Ok_l.
  pose proof (rr_k _ _ _ _ _ _ Hr) as Hk. pose proof (zlen_whole h t) as Hw.
  destruct (Z.ltb_spec (zlen h) k) as [Hlt|]; [|done].
  destruct Hrep as [c0 text Hc0 _|v Hv|]; [injection Hh as <- <-|injection Hh as <- _..].
  - rewrite bool_decide_false by (intros ->; revert Hc0; decide_goal). rewrite zlen_nil in Hw.
    rewrite (proj2 (Z.eqb_eq _ _)) by lia.
    by replace (off + zlen (c0 :: text) - off + 1) with (zlen (whole (c0 :: text) [])) by lia.
  - rewrite bool_decide_true by done.
    destruct (bulk_parse off v n k b Hv Hr Hlt) as (-> & Hcomp & Htot). rewrite bind_Ok_l. cbn [present_size_].
    rewrite (proj2 (Z.ltb_ge _ _)), (proj2 (Z.eqb_neq _ _)) by lia. by rewrite Hcomp, Htot, !bind_Ok_l.
  - rewrite bool_decide_true by done.
    assert (k = 5) as -> by (cbn in Hlt, Hk; unfold zlen in Hlt, Hk; cbn in Hlt, Hk; lia).
    pose proof (received_memory off _ _ n 5 b Hr) as Hm. pose proof (rr_off _ _ _ _ _ _ Hr) as Ho.
    set (m := storage b) in *. set (rest := at_ptr m (off + 5)) in *. cbn in Hm.
    assert (Bulk_ctor m off 5 = Ok (mkBulk off 5) /\ Bulk_total_size m (mkBulk off 5) = Ok 5) as [Hb Ht].
    { pose proof Hm as Hm'. unfold Bulk_ctor, Bulk_total_size. cbn [Z.ltb raw_data_].
      apply at_ptr_cons in Hm as [-> Hm]; [|lia]. apply at_ptr_cons in Hm as [-> Hm]; [|lia].
      replace (off + 1 + 1) with (off + 2) in Hm by lia.
      apply at_ptr_cons in Hm as [-> Hm]; [|lia]. replace (off + 2 + 1) with (off + 3) in Hm by lia.
      apply at_ptr_cons in Hm as [-> Hm]; [|lia]. replace (off + 3 + 1) with (off + 4) in Hm by lia.
      apply at_ptr_cons in Hm as [-> Hm]; [|lia]. split; reflexivity. }
    rewrite Hb, bind_Ok_l. cbn [present_size_ Z.ltb Z.eqb Z.compare].
    unfold Bulk_completed, Bulk_absent_size. cbn [present_size_ Z.ltb Z.compare]. by rewrite Ht.
Qed.

(** ** Properties *)

(** A reply to a single-key command: of a redis server as above, of a memcached
    server one line *)
Definition server_reply (protocol : ProtocolType) (h t : bytes) : Prop :=
  match protocol with
  | REDIS => redis_reply h t
  | _ => t = [] /\ LF ∉ h
  end.

Lemma simple_recognises protocol h t :
  server_reply protocol h t -> recognises (ParseSimpleReply protocol) h t.
Proof.
  destruct protocol; simpl; [|apply redis_recognises|];
    intros [-> Hlf]; exact (memc_recognises_line h Hlf).
Qed.

(** C12: the reply of a server to a single-key command (for redis a status, error
    or integer line, a bulk string or nil; for memcached a line), received in any
    number of pieces of any size and at any place of the buffer: no piece is
    rejected, the reply counts as complete exactly when its last byte has arrived,
    and the bytes to forward are then the reply. *)
Theorem simple_reply_in_any_pieces protocol h t chunks rest off b :
  server_reply protocol h t -> reply_progress off h t 0 b -> Forall (fun c => c <> []) chunks ->
  concat chunks ++ rest = whole h t ->
  exists b', feed (ParseSimpleReply protocol) chunks b = Ok (true, b') /\
    reply_recv_complete_ b' = bool_decide (rest = []) /\
    received_offset_ (buffer_ b') = off + zlen (concat chunks) /\
    slice (storage b') off (received_offset_ (buffer_ b')) = concat chunks /\
    (rest = [] -> parsed_offset_ (buffer_ b') = received_offset_ (buffer_ b')).
Proof.
  intros Hrep Hp Hne Heq.
  destruct (feed_recognises (ParseSimpleReply protocol) h t chunks off 0 b) as (b' & Hfeed & Hp');
    [by apply simple_recognises|done|done|by exists rest|].
  exists b'. split; [exact Hfeed|]. destruct Hp' as [Ho Hn Hf Hb Hr Hpar Hc]. rewrite Z.add_0_l in *.
  assert (zlen (whole h t) = zlen (concat chunks) + zlen rest) as Hw by (by rewrite <- Heq, zlen_app).
  pose proof (zlen_nonneg (concat chunks)). pose proof (zlen_nonneg rest).
  split; [|split; [done|split]].
  - rewrite Hc. case_bool_decide as Hrest; [subst rest; rewrite zlen_nil in Hw; lia|].
    apply Z.eqb_neq. intros Hz. apply Hrest, zlen_0. lia.
  - rewrite Hr, Hb, <- Heq. unfold zlen. by rewrite Nat2Z.id, take_app_length.
  - intros ->. rewrite zlen_nil in Hw. rewrite Hpar, Hr, (proj2 (Z.ltb_lt _ _)); [lia|].
    rewrite zlen_whole in Hw. pose proof (zlen_nonneg t). lia.
Qed.

(** A connection whose buffer is empty and not yet written *)
Definition fresh_conn (size : Z) : BackendConn :=
  BC.ctor 0 (replicate (Z.to_nat size) "x"%char) size (2130706433, 6379).

Lemma simple_reply_in_any_pieces_witness :
  exists b', feed (ParseSimpleReply REDIS)
      [str "$"; str "5" ++ [CR]; LF :: str "hel"; str "lo" ++ [CR]; [LF]] (fresh_conn 64) = Ok (true, b') /\
    reply_recv_complete_ b' = true.
Proof.
  destruct (simple_reply_in_any_pieces REDIS (str "$5" ++ [CR]) (str "hello" ++ crlf)
    [str "$"; str "5" ++ [CR]; LF :: str "hel"; str "lo" ++ [CR]; [LF]] [] 0 (fresh_conn 64))
    as (b' & Hf & Hc & _).
  - exact (bulk_reply (str "hello") eq_refl).
  - split; by_compute.
  - repeat constructor; discriminate.
  - reflexivity.
  - exists b'. split; [exact Hf|]. rewrite Hc. reflexivity.
Defined.
