(* ===== verification/ReplyStream.v ===== *)
(** * A reply on its way through the buffer of a backend connection

    The reply to a single-key command is received in pieces, parsed after every
    piece, and handed on while more of it arrives; the buffer may be much smaller
    than the reply and is recycled on the way.  [stream n pn f x] says how far the
    connection [x] is: [n] bytes received, [pn] of them seen by the parser, [f]
    handed on. *)

From S2P Require Import Prelude CString ErrorCode ReadBuffer RedisProtocol KeyDistributer.
From S2P Require Import BackendConn ReplyParser ReplyTheorems.

(** The members a parser leaves alone *)
Record same_flags (x y : BackendConn) : Prop := {
  sf_slab : slab_ y = slab_ x;
  sf_endpoint : remote_endpoint_ y = remote_endpoint_ x;
  sf_open : socket_open_ y = socket_open_ x;
  sf_callback : callback_ y = callback_ x;
  sf_no_recycle : no_recycle_ y = no_recycle_ x;
  sf_aborted : aborted_ y = aborted_ x;
  sf_reading : is_reading_reply_ y = is_reading_reply_ x
}.
(** The same bytes at the same place, under the same locks *)
Record same_bytes (a b : ReadBuffer) : Prop := {
  sb_data : data_ b = data_ a;
  sb_processed : processed_offset_ b = processed_offset_ a;
  sb_received : received_offset_ b = received_offset_ a;
  sb_lock : recycle_lock_count_ b = recycle_lock_count_ a
}.

Section stream.
Context (protocol : ProtocolType) (h t : bytes).
Abbreviation R := (whole h t).
Abbreviation T := (zlen (whole h t)).
Context (Hrep : server_reply protocol h t) (Hsmall : T < 2 ^ 31).

Record stream (n pn f : Z) (x : BackendConn) : Prop := {
  st_wf : rb_wf (buffer_ x);
  st_n : 0 <= f <= n /\ n <= T;
  st_pn : 0 <= pn <= n;
  st_bytes : q_bytes (abs (buffer_ x)) = slice R f n;
  st_parsed : q_parsed (abs (buffer_ x)) = if zlen h <? pn then T - f else 0;
  st_head : pn <= zlen h -> f = 0 /\ processed_offset_ (buffer_ x) = 0;
  st_complete : reply_recv_complete_ x = (pn =? T)
}.

Lemma whole_length : T = zlen h + 1 + zlen t.
Proof. apply zlen_whole. Qed.

Lemma stream_length n pn f x :
  stream n pn f x -> received_offset_ (buffer_ x) - processed_offset_ (buffer_ x) = n - f.
Proof.
  intros [Hwf Hn _ Hb _ _ _]. pose proof (wf_bounds _ Hwf). pose proof (wf_len _ Hwf).
  apply (f_equal zlen) in Hb. unfold abs in Hb. cbn in Hb. rewrite !zlen_slice in Hb by lia. lia.
Qed.

Lemma stream_ext n pn f x y :
  stream n pn f x -> rb_wf (buffer_ y) -> abs (buffer_ y) = abs (buffer_ x) ->
  processed_offset_ (buffer_ y) = processed_offset_ (buffer_ x) ->
  reply_recv_complete_ y = reply_recv_complete_ x -> stream n pn f y.
Proof. intros [] Hwf Ha Hp Hc. split; rewrite ?Ha, ?Hp, ?Hc; done. Qed.
Lemma stream_flags n pn f x y :
  stream n pn f x -> buffer_ y = buffer_ x -> reply_recv_complete_ y = reply_recv_complete_ x -> stream n pn f y.
Proof. intros Hs Hb Hc. pose proof (st_wf _ _ _ _ Hs). by apply (stream_ext n pn f x); rewrite ?Hb. Qed.
Lemma inc_lock_wf buf :
  rb_wf buf -> recycle_lock_count_ buf < 2 ^ 31 ->
  rb_wf (RB.inc_recycle_lock buf) /\ recycle_lock_count_ (RB.inc_recycle_lock buf) = recycle_lock_count_ buf + 1.
Proof.
  intros Hwf Hl. pose proof (wf_bounds _ Hwf). unfold RB.inc_recycle_lock. cbn. rewrite u64_small by lia.
  split; [|done]. destruct Hwf. split; cbn; lia.
Qed.

Lemma stream_unprocessed n f x :
  stream n n f x -> RB.unprocessed_bytes (buffer_ x) = if zlen h <? n then n - f else 0.
Proof.
  intros Hs. pose proof (stream_length _ _ _ _ Hs). destruct Hs as [Hwf Hn _ _ Hp _ _].
  rewrite (unprocessed_bytes_eq _ Hwf). unfold abs in Hp. cbn in Hp. destruct (zlen h <? n); lia.
Qed.

(** A piece arrives. *)
Lemma stream_receive n f x chunk :
  stream n n f x -> chunk <> [] -> chunk `prefix_of` drop (Z.to_nat n) R ->
  zlen chunk <= RB.free_space_size (buffer_ x) ->
  exists m, mem_write (data_ (buffer_ x)) (received_offset_ (buffer_ x)) chunk = Ok m /\
    n < n + zlen chunk /\ zlen m = zlen (data_ (buffer_ x)) /\
    (forall i j, 0 <= i <= j -> j <= received_offset_ (buffer_ x) ->
       slice m i j = slice (data_ (buffer_ x)) i j) /\
    stream (n + zlen chunk) n f
      (BC.set_buffer (RB.update_received_bytes (RB.set_data (buffer_ x) m) (zlen chunk)) x).
Proof.
  intros Hs Hne [rest Hpre] Hroom. pose proof (stream_length _ _ _ _ Hs) as Hlen.
  destruct Hs as [Hwf Hn Hpn Hb Hp Hh Hc]. pose proof (wf_bounds _ Hwf) as Hw.
  pose proof (wf_len _ Hwf) as Hwl. pose proof Hroom as Hroom'. rewrite (free_space_size_eq _ Hwf) in Hroom'.
  destruct (receive_Ok _ chunk Hwf Hroom) as (m & _ & Hm).
  destruct (rb_exec_refines (OpReceive chunk) _ Hwf Hroom) as (b' & Hx & Hwf' & Habs & _). cbn in Hx.
  unfold RB.receive, RB.free_space_begin in Hx. rewrite Hm in Hx. injection Hx as <-.
  assert (0 < zlen chunk) as Hpos
    by (destruct chunk; [done|]; rewrite zlen_cons; pose proof (zlen_nonneg chunk); lia).
  assert (n + zlen chunk <= T) as Hle.
  { apply (f_equal length) in Hpre. rewrite length_drop, length_app in Hpre. unfold zlen in *. lia. }
  exists m. split; [done|]. split; [lia|]. split; [by eapply zlen_mem_write|]. split.
  { intros i j Hi Hj. apply (slice_mem_write_disjoint _ _ _ _ _ _ Hm); lia. }
  split; cbn -[abs]; try done; try lia.
  - rewrite Habs. cbn -[abs]. rewrite Hb. rewrite (slice_split R f n (n + zlen chunk)) by lia. f_equal.
    unfold slice. replace (Z.to_nat (n + zlen chunk - n)) with (length chunk) by (unfold zlen; lia).
    by rewrite Hpre, take_app_length.
Qed.

(** A lock goes away. *)
Lemma stream_unlock n pn f x :
  stream n pn f x -> 0 < n -> 0 < recycle_lock_count_ (buffer_ x) ->
  exists buf, RB.dec_recycle_lock (buffer_ x) = Ok buf /\ stream n pn f (BC.set_buffer buf x) /\
    recycle_lock_count_ buf = recycle_lock_count_ (buffer_ x) - 1 /\
    (1 < recycle_lock_count_ (buffer_ x) -> buf = RB.set_lock (buffer_ x) (recycle_lock_count_ (buffer_ x) - 1)) /\
    (recycle_lock_count_ (buffer_ x) = 1 -> f = n -> RB.has_much_free_space buf = true).
Proof.
  intros Hs Hpos Hl. pose proof (stream_length _ _ _ _ Hs) as Hlen.
  destruct Hs as [Hwf Hn Hpn Hb Hp Hh Hc]. pose proof (wf_bounds _ Hwf) as Hw.
  destruct (rb_exec_refines OpUnlock _ Hwf Hl) as (buf & Hx & Hwf' & Habs & _). cbn in Hx, Habs.
  assert (recycle_lock_count_ buf = recycle_lock_count_ (buffer_ x) - 1 /\
    (1 < recycle_lock_count_ (buffer_ x) -> buf = RB.set_lock (buffer_ x) (recycle_lock_count_ (buffer_ x) - 1)))
    as [Hlk Hsame].
  { unfold RB.dec_recycle_lock, res_assert in Hx. rewrite (proj2 (Z.ltb_lt _ _)) in Hx by lia.
    rewrite bind_Ok_l in Hx. set (b1 := RB.set_lock _ _) in *.
    assert (rb_wf b1) as Hwf1 by (destruct Hwf; split; cbn; lia).
    destruct (try_recycle_Ok b1 Hwf1) as (b2 & H2 & _ & _ & _ & Hk). rewrite Hx in H2. injection H2 as <-.
    split; [exact Hk|]. intros Hgt. apply (try_recycle_locked b1 buf Hx). rewrite Hk. cbn. lia. }
  exists buf. split; [exact Hx|]. split; [|split; [exact Hlk|split; [exact Hsame|]]].
  - split; cbn -[abs]; try done; [by rewrite Habs..|]. intros Hpre. destruct (Hh Hpre) as [Hf Hpo].
    split; [done|]. subst f. apply (f_equal q_bytes) in Habs.
    destruct (Z.eq_dec (recycle_lock_count_ (buffer_ x)) 1) as [H1|H1]; [|rewrite Hsame by lia; done].
    clear Hsame. unfold RB.dec_recycle_lock, res_assert in Hx. rewrite H1 in Hx. cbn in Hx.
    unfold RB.try_recycle_buffer in Hx. cbn in Hx. rewrite Hpo in Hx.
    change (1 - 1 =? 0) with true in Hx. cbv iota in Hx.
    rewrite (proj2 (Z.eqb_neq 0 _)) in Hx by lia.
    rewrite (proj2 (Z.ltb_ge _ _)) in Hx; [by injection Hx as <-|].
    unfold RB.free_space_size, u64. apply Z.mod_pos_bound. lia.
  - intros H1 ->. destruct (dec_lock_makes_room (buffer_ x) Hwf H1) as (b2 & H2 & _ & Hm).
    rewrite Hx in H2. injection H2 as <-. apply Hm. lia.
Qed.

(** The parser looks at what has arrived. *)
Lemma redis_tail x :
  received_offset_ (buffer_ x) <= parsed_offset_ (buffer_ x) ->
  ParseRedisSimpleReply x =
  Ok (true, if received_offset_ (buffer_ x) =? parsed_offset_ (buffer_ x) then BC.set_reply_recv_complete x else x).
Proof.
  intros Hle. unfold ParseRedisSimpleReply, RB.unparsed_bytes, RB.parsed_unreceived_bytes.
  rewrite (proj2 (Z.ltb_ge _ _)) by lia. cbn. do 2 f_equal.
  destruct (Z.ltb_spec (received_offset_ (buffer_ x)) (parsed_offset_ (buffer_ x))),
    (Z.eqb_spec (received_offset_ (buffer_ x)) (parsed_offset_ (buffer_ x))); try lia; [|done].
  by rewrite (proj2 (Z.eqb_neq _ _)) by lia.
Qed.

(** In the head of the reply *)
Lemma stream_received n pn f x :
  stream n pn f x -> pn < n -> pn <= zlen h -> reply_received 0 h t pn n x.
Proof.
  intros Hs Hlt Hle. pose proof (stream_length _ _ _ _ Hs) as Hlen.
  destruct Hs as [Hwf Hn Hpn Hb Hp Hh Hc]. destruct (Hh Hle) as [-> Hpo].
  pose proof (wf_bounds _ Hwf) as Hw. pose proof (wf_len _ Hwf) as Hwl. pose proof whole_length.
  pose proof (zlen_nonneg t). unfold abs in *. cbn in *. rewrite Hpo in *.
  rewrite (proj2 (Z.ltb_ge _ _)) in Hp by lia.
  split; unfold storage; rewrite ?Z.add_0_l; try lia.
  - replace (received_offset_ (buffer_ x)) with n in Hb by lia. rewrite Hb. unfold slice.
    rewrite Z.sub_0_r. done.
  - rewrite (proj2 (Z.ltb_ge _ _)) by lia. lia.
  - rewrite Hc. lia.
Qed.

Lemma stream_parse_head n pn f x :
  stream n pn f x -> pn < n -> pn <= zlen h ->
  exists y, ParseSimpleReply protocol x = Ok (true, y) /\ stream n n f y /\ same_flags x y /\
    same_bytes (buffer_ x) (buffer_ y).
Proof.
  intros Hs Hlt Hle. pose proof (stream_received _ _ _ _ Hs Hlt Hle) as Hr.
  rewrite (rec_head _ _ _ (simple_recognises protocol h t Hrep) 0 pn n x Hr Hle).
  destruct Hs as [Hwf Hn Hpn Hb Hp Hh Hc]. destruct (Hh Hle) as [-> Hpo].
  pose proof (wf_bounds _ Hwf) as Hw. pose proof whole_length. pose proof (zlen_nonneg t).
  rewrite (proj2 (Z.ltb_ge _ _)) in Hp by lia. unfold abs in Hp. cbn in Hp.
  eexists. split; [done|]. destruct (Z.ltb_spec (zlen h) n); [|].
  - assert (rb_wf (RB.update_parsed_bytes (buffer_ x) T)) as Hwf'.
    { unfold RB.update_parsed_bytes. rewrite u64_small by lia. apply set_offsets_wf; [done|lia..]. }
    assert (q_parsed (abs (RB.update_parsed_bytes (buffer_ x) T)) = T) as Hq
      by (unfold abs, RB.update_parsed_bytes; cbn; rewrite u64_small; lia).
    destruct (Z.eqb_spec n T) as [->|Hne]; (split; [|split; split; done]);
      split; cbn -[abs RB.update_parsed_bytes]; try done; try lia;
      rewrite ?Hq, ?(proj2 (Z.ltb_lt (zlen h) _)), ?Z.eqb_refl, ?Z.sub_0_r by lia; try done.
    rewrite Hc, !(proj2 (Z.eqb_neq _ _)) by lia. done.
  - split; [|split; split; done]. split; cbn -[abs]; try done; try lia.
    + unfold abs. cbn. rewrite (proj2 (Z.ltb_ge _ _)) by lia. lia.
    + rewrite Hc, !(proj2 (Z.eqb_neq _ _)) by lia. done.
Qed.

Lemma stream_parse_tail n pn f x :
  stream n pn f x -> pn < n -> zlen h < pn ->
  exists y, ParseSimpleReply protocol x = Ok (true, y) /\ stream n n f y /\ same_flags x y /\
    same_bytes (buffer_ x) (buffer_ y).
Proof.
  intros Hs Hlt Hgt. pose proof (stream_length _ _ _ _ Hs) as Hlen.
  destruct Hs as [Hwf Hn Hpn Hb Hp Hh Hc]. pose proof whole_length as Hw.
  destruct (decide (protocol = REDIS)) as [->|Hpr].
  2: { assert (t = []) as -> by (destruct protocol; [|done|]; by destruct Hrep). rewrite zlen_nil in Hw. lia. }
  unfold ParseSimpleReply. rewrite bool_decide_true by done.
  rewrite (proj2 (Z.ltb_lt _ _)) in Hp by lia. unfold abs in Hp. cbn in Hp.
  rewrite redis_tail by lia. eexists. split; [done|].
  assert ((received_offset_ (buffer_ x) =? parsed_offset_ (buffer_ x)) = (n =? T)) as -> by lia.
  destruct (Z.eqb_spec n T) as [->|Hne]; (split; [|split; split; done]); split; cbn -[abs]; try done; try lia;
    try (unfold abs; cbn; rewrite (proj2 (Z.ltb_lt _ _)) by lia; lia).
  rewrite Hc, !(proj2 (Z.eqb_neq _ _)) by lia. done.
Qed.

Lemma stream_parse n pn f x :
  stream n pn f x -> pn < n ->
  exists y, ParseSimpleReply protocol x = Ok (true, y) /\ stream n n f y /\ same_flags x y /\
    same_bytes (buffer_ x) (buffer_ y).
Proof.
  intros Hs Hlt. destruct (Z.le_gt_cases pn (zlen h)); [by eapply stream_parse_head|].
  by eapply stream_parse_tail.
Qed.

(** What has been parsed is handed on; the lock of the write is taken before. *)
Lemma stream_process n f x :
  stream n n f x -> zlen h < n -> recycle_lock_count_ (buffer_ x) < 2 ^ 31 ->
  exists buf, RB.update_processed_bytes (RB.inc_recycle_lock (buffer_ x)) (n - f) = Ok buf /\
    stream n n n (BC.set_buffer buf x) /\ data_ buf = data_ (buffer_ x) /\
    processed_offset_ buf = processed_offset_ (buffer_ x) + (n - f) /\
    received_offset_ buf = received_offset_ (buffer_ x) /\
    recycle_lock_count_ buf = recycle_lock_count_ (buffer_ x) + 1.
Proof.
  intros Hs Hgt Hlk. pose proof (stream_length _ _ _ _ Hs) as Hlen. pose proof (stream_unprocessed _ _ _ Hs) as Hu.
  rewrite (proj2 (Z.ltb_lt _ _)) in Hu by lia.
  destruct Hs as [Hwf Hn Hpn Hb Hp Hh Hc]. pose proof (wf_bounds _ Hwf) as Hw.
  destruct (rb_exec_refines OpLock _ Hwf) as (b1 & H1 & Hwf1 & Habs1 & _); [cbn; lia|].
  injection H1 as <-.
  destruct (rb_exec_refines (OpProcess (n - f)) _ Hwf1) as (buf & Hx & Hwf2 & Habs2 & _); [cbn; unfold RB.unprocessed_bytes in *; cbn; lia|].
  cbn in Hx. exists buf. split; [exact Hx|].
  assert (buf = RB.set_offsets (RB.inc_recycle_lock (buffer_ x)) (processed_offset_ (buffer_ x) + (n - f))
    (received_offset_ (buffer_ x)) (parsed_offset_ (buffer_ x))) as Hbuf.
  { unfold RB.update_processed_bytes, RB.update_processed_offset in Hx. cbn in Hx. rewrite u64_small in Hx by lia.
    unfold RB.try_recycle_buffer in Hx. cbn in Hx. rewrite (u64_small (_ + 1)) in Hx by lia.
    rewrite (proj2 (Z.eqb_neq _ _)) in Hx by lia. by injection Hx as <-. }
  split; [|rewrite Hbuf; cbn; rewrite u64_small by lia; done].
  split; cbn -[abs]; try done; try lia.
  - rewrite Habs2. cbn -[abs]. rewrite Habs1. cbn -[abs]. rewrite Hb, drop_slice by lia.
    by replace (f + (n - f)) with n by lia.
  - rewrite Habs2. cbn -[abs]. rewrite Habs1. cbn -[abs]. rewrite Hp, (proj2 (Z.ltb_lt _ _)) by lia. lia.
Qed.
End stream.
