(* ===== verification/Exchange.v ===== *)
(** * One client, one command, one backend

    Symbolic execution of handlers in the part of a worker that concerns one
    exchange: the client [c], its command [cmd], the backend connection [b] the
    command is answered from, the operations outstanding between them, and what
    was written to the client and to the backend, and the part of the rest ([aside])
    that the end of a command depends on.  [does m v a v']: from every state that looks like
    [v], [m] returns [a] without a fault in a state that looks like [v']. *)

From S2P Require Import Prelude CString StdMap ErrorCode ReadBuffer Allocator Config.
From S2P Require Import RedisProtocol KeyDistributer KeyLocator QueryParser BackendConn.
From S2P Require Import ReplyParser World BackendPool Lifetime ConnIO Commands CommandQuery.
From S2P Require Import CommandReply Order Worker Logic QueryLogic ReplyLogic Invariants Scenario.

(** What an exchange leaves alone: the configuration, the rings, the pool, and the other clients *)
Record aside := mkAside {
  a_config : Config;
  a_locator : option KeyLocator;
  a_active : smap Z Endpoint;
  a_idle : smap Endpoint (list Z);
  a_others : gmap Z ClientConnection
}.
Definition aside_of (c : Z) (w : World) : aside :=
  mkAside (config w) (key_locator_ w) (active_conns_ w) (conn_map_ w) (delete c (clients w)).

Record view := mkView {
  v_client : ClientConnection;
  v_command : Command;
  v_backend : BackendConn;
  v_ops : list io_op;
  v_out : bytes;
  v_sent : bytes;
  v_aside : aside
}.

Definition u_client (x : ClientConnection) (v : view) : view :=
  mkView x (v_command v) (v_backend v) (v_ops v) (v_out v) (v_sent v) (v_aside v).
Definition u_command (x : Command) (v : view) : view :=
  mkView (v_client v) x (v_backend v) (v_ops v) (v_out v) (v_sent v) (v_aside v).
Definition u_backend (x : BackendConn) (v : view) : view :=
  mkView (v_client v) (v_command v) x (v_ops v) (v_out v) (v_sent v) (v_aside v).
Definition u_ops (x : list io_op) (v : view) : view :=
  mkView (v_client v) (v_command v) (v_backend v) x (v_out v) (v_sent v) (v_aside v).
Definition u_out (x : bytes) (v : view) : view :=
  mkView (v_client v) (v_command v) (v_backend v) (v_ops v) x (v_sent v) (v_aside v).
Definition u_sent (x : bytes) (v : view) : view :=
  mkView (v_client v) (v_command v) (v_backend v) (v_ops v) (v_out v) x (v_aside v).

Create HintDb does.

Section exchange.
Context (c cmd b : Z).

(** What is outstanding on the connection to the backend, and the writes to the
    client *)
Definition mine (op : io_op) : bool :=
  match op with
  | BackendRead b' _ _ | BackendConnect b' _ _ | BackendWrite b' _ _ => bool_decide (b' = b)
  | ClientWrite c' _ _ _ _ => bool_decide (c' = c)
  | _ => false
  end.

Record sees (w : World) (v : view) : Prop := {
  sees_client : clients w !! c = Some (v_client v);
  sees_command : commands w !! cmd = Some (v_command v);
  sees_backend : backends w !! b = Some (v_backend v);
  sees_ops : filter (fun op => mine op = true) (in_flight w) ≡ₚ v_ops v;
  sees_out : client_output c w = v_out v;
  sees_sent : backend_output b w = v_sent v;
  sees_aside : aside_of c w = v_aside v
}.

Definition does {A} (m : M A) (v : view) (a : A) (v' : view) : Prop :=
  forall w, sees w v -> exists w', m w = Ok (a, w') /\ sees w' v' /\ holders w' = holders w.

(** ** Rules *)
Lemma does_ret {A} (a : A) v : does (mret a) v a v.
Proof. intros w Hs. by exists w. Qed.
Lemma does_bind {A B} (m : M A) (k : A -> M B) v a v1 r v2 :
  does m v a v1 -> does (k a) v1 r v2 -> does (m ≫= k) v r v2.
Proof.
  intros Hm Hk w Hs. destruct (Hm w Hs) as (w1 & H1 & Hs1 & Hh1). destruct (Hk w1 Hs1) as (w2 & H2 & Hs2 & Hh2).
  exists w2. split; [unfold mbind, M_bind; by rewrite H1|]. split; [done|congruence].
Qed.
Lemma does_eq {A} (m : M A) v a v1 v2 : does m v a v1 -> v1 = v2 -> does m v a v2.
Proof. by intros H <-. Qed.
(** [m] comes to what is left to do, [m']. *)
Definition comes {A} (m : M A) (v : view) (m' : M A) (v' : view) : Prop :=
  forall w, sees w v -> exists w', m w = m' w' /\ sees w' v' /\ holders w' = holders w.

Lemma comes_here {A} (m : M A) v : comes m v m v.
Proof. intros w Hs. by exists w. Qed.
Lemma comes_step {A B} (m : M A) (k : A -> M B) v a v1 m' v' :
  does m v a v1 -> comes (k a) v1 m' v' -> comes (m ≫= k) v m' v'.
Proof.
  intros Hm Hk w Hs. destruct (Hm w Hs) as (w1 & H1 & Hs1 & Hh1). destruct (Hk w1 Hs1) as (w2 & H2 & Hs2 & Hh2).
  exists w2. split; [unfold mbind, M_bind; by rewrite H1|]. split; [done|congruence].
Qed.
Lemma comes_bind {A B} (m m' : M A) (k : A -> M B) v v' :
  comes m v m' v' -> comes (m ≫= k) v (m' ≫= k) v'.
Proof. intros Hm w Hs. destruct (Hm w Hs) as (w1 & H1 & Hs1). exists w1. unfold mbind, M_bind. by rewrite H1. Qed.
Lemma comes_get {B} (k : World -> M B) v m' v' :
  (forall w, sees w v -> comes (k w) v m' v') -> comes (get ≫= k) v m' v'.
Proof. intros Hk w Hs. by apply (Hk w Hs). Qed.
Lemma comes_does {A} (m m' : M A) v v1 a v2 : comes m v m' v1 -> does m' v1 a v2 -> does m v a v2.
Proof.
  intros Hm Hd w Hs. destruct (Hm w Hs) as (w1 & H1 & Hs1 & Hh1). destruct (Hd w1 Hs1) as (w2 & H2 & Hs2 & Hh2).
  exists w2. rewrite H1. split; [done|]. split; [done|congruence].
Qed.

Lemma does_get {B} (k : World -> M B) v r v' :
  (forall w, sees w v -> does (k w) v r v') -> does (get ≫= k) v r v'.
Proof. intros Hk w Hs. by apply (Hk w Hs). Qed.
Lemma does_modify f v v' :
  (forall w, holders (f w) = holders w) -> (forall w, sees w v -> sees (f w) v') -> does (modify f) v tt v'.
Proof. intros Hh Hf w Hs. exists (f w). split; [done|]. split; [by apply Hf|apply Hh]. Qed.
Lemma does_lift {A} (r : result A) a v : r = Ok a -> does (lift r) v a v.
Proof. intros -> w Hs. by exists w. Qed.
Lemma does_assert p v : p = true -> does (m_assert p) v tt v.
Proof. intros ->. by apply does_lift. Qed.

(** Updates of what is not looked at *)
Lemma does_frame f v :
  (forall w, clients (f w) = clients w /\ commands (f w) = commands w /\ backends (f w) = backends w /\
     in_flight (f w) = in_flight w /\ trace (f w) = trace w /\ holders (f w) = holders w /\
     aside_of c (f w) = aside_of c w) ->
  does (modify f) v tt v.
Proof.
  intros Hf. apply does_modify; [apply Hf|]. intros w [H1 H2 H3 H4 H5 H6 H7].
  destruct (Hf w) as (E1 & E2 & E3 & E4 & E5 & _ & E6).
  split; unfold client_output, backend_output in *; rewrite ?E1, ?E2, ?E3, ?E4, ?E5, ?E6; done.
Qed.
Lemma does_cancel_timer t v : does (cancel_timer t) v tt v.
Proof. by apply does_frame. Qed.
Lemma does_arm_timer t ec v : does (arm_timer t ec) v tt v.
Proof. eapply does_bind; [apply does_cancel_timer|by apply does_frame]. Qed.
Lemma does_on_stats f v : does (on_stats f) v tt v.
Proof. by apply does_frame. Qed.
(** *** The three objects *)
Lemma does_client v : does (client c) v (v_client v) v.
Proof. intros w Hs. exists w. split; [|done]. unfold client, get, mbind, M_bind. by rewrite (sees_client _ _ Hs). Qed.
Lemma does_command v : does (command cmd) v (v_command v) v.
Proof. intros w Hs. exists w. split; [|done]. unfold command, get, mbind, M_bind. by rewrite (sees_command _ _ Hs). Qed.
Lemma does_backend v : does (backend b) v (v_backend v) v.
Proof. intros w Hs. exists w. split; [|done]. unfold backend, get, mbind, M_bind. by rewrite (sees_backend _ _ Hs). Qed.
Lemma does_backend_buffer v : does (backend_buffer b) v (buffer_ (v_backend v)) v.
Proof. eapply does_bind; [apply does_backend|apply does_ret]. Qed.
Lemma does_set_client x v : does (set_client c x) v tt (u_client x v).
Proof. apply does_modify; [done|]. intros w []. split; cbn; try done; [apply lookup_insert_eq|].
  unfold aside_of in *. cbn. by rewrite delete_insert_eq. Qed.
Lemma does_set_command x v : does (set_command cmd x) v tt (u_command x v).
Proof. apply does_modify; [done|]. intros w []. split; cbn; try done. apply lookup_insert_eq. Qed.
Lemma does_set_backend x v : does (set_backend b x) v tt (u_backend x v).
Proof. apply does_modify; [done|]. intros w []. split; cbn; try done. apply lookup_insert_eq. Qed.
Lemma does_update_client f v : does (update_client c f) v tt (u_client (f (v_client v)) v).
Proof. eapply does_bind; [apply does_client|apply does_set_client]. Qed.
Lemma does_update_command f v : does (update_command cmd f) v tt (u_command (f (v_command v)) v).
Proof. eapply does_bind; [apply does_command|apply does_set_command]. Qed.
Lemma does_update_backend f v : does (update_backend b f) v tt (u_backend (f (v_backend v)) v).
Proof. eapply does_bind; [apply does_backend|apply does_set_backend]. Qed.
Lemma does_on_backend_buffer f buf v :
  f (buffer_ (v_backend v)) = Ok buf ->
  does (on_backend_buffer b f) v tt (u_backend (BC.set_buffer buf (v_backend v)) v).
Proof.
  intros Hf. eapply does_bind; [apply does_backend|]. eapply does_bind; [by apply does_lift|].
  apply does_set_backend.
Qed.
Lemma does_client_buffer v : does (client_buffer c) v (cl_buffer_ (v_client v)) v.
Proof. eapply does_bind; [apply does_client|apply does_ret]. Qed.
Lemma does_on_client_buffer f buf v :
  f (cl_buffer_ (v_client v)) = Ok buf ->
  does (on_client_buffer c f) v tt (u_client (l_buffer buf (v_client v)) v).
Proof.
  intros Hf. eapply does_bind; [apply does_client|]. eapply does_bind; [by apply does_lift|].
  apply does_set_client.
Qed.
Lemma does_start op v : mine op = true -> does (start op) v tt (u_ops (v_ops v ++ [op]) v).
Proof.
  intros Ho. apply does_modify; [done|]. intros w [H1 H2 H3 H4 H5 H6 H7]. split; cbn; try done.
  rewrite filter_app, H4, filter_cons_True, filter_nil by done. done.
Qed.
Lemma does_emit bs v : does (emit (ToClient c bs)) v tt (u_out (v_out v ++ bs) v).
Proof.
  apply does_modify; [done|]. intros w [H1 H2 H3 H4 H5 H6 H7].
  split; cbn; try done; unfold client_output, backend_output in *; cbn; rewrite omap_app, concat_app, ?H5, ?H6; cbn.
  - rewrite decide_True by done. cbn. by rewrite app_nil_r.
  - by rewrite app_nil_r.
Qed.
Lemma does_emit_query bs v : does (emit (ToBackend b bs)) v tt (u_sent (v_sent v ++ bs) v).
Proof.
  apply does_modify; [done|]. intros w [H1 H2 H3 H4 H5 H6 H7].
  split; cbn; try done; unfold client_output, backend_output in *; cbn; rewrite omap_app, concat_app, ?H5, ?H6; cbn.
  - by rewrite app_nil_r.
  - rewrite decide_True by done. cbn. by rewrite app_nil_r.
Qed.

(** *** References: the three objects refer to each other *)
Record linked (v : view) : Prop := {
  lk_command : client_conn_ (v_command v) = c;
  lk_queue : cmd ∈ active_cmd_queue_ (v_client v);
  lk_backend : replying_backend_ (v_command v) = Some b
}.

Lemma does_drop {A} (P : World -> bool) (Q : World -> option A) (m : M unit) v :
  (forall w, sees w v -> P w = true) ->
  does (w ← get; when (bool_decide (is_Some (Q w)) && negb (P w)) m) v tt v.
Proof. intros HP. apply does_get. intros w Hs. rewrite (HP w Hs), andb_false_r. apply does_ret. Qed.

Lemma does_drop_backend v : linked v -> does (drop_backend b) v tt v.
Proof.
  intros [_ _ Hl]. apply (does_drop (fun w => backend_held w b)). intros w Hs.
  unfold backend_held. rewrite !orb_true_iff. left. right. apply existsb_exists. exists (cmd, v_command v).
  split; [apply list_elem_of_In, elem_of_map_to_list, (sees_command _ _ Hs)|].
  apply bool_decide_eq_true. unfold command_backends. cbn. rewrite Hl. set_solver.
Qed.
Lemma does_drop_command v : linked v -> does (drop_command cmd) v tt v.
Proof.
  intros [_ Hl _]. apply (does_drop (fun w => command_held w cmd)). intros w Hs.
  unfold command_held. rewrite !orb_true_iff. right. apply existsb_exists. exists (c, v_client v).
  split; [apply list_elem_of_In, elem_of_map_to_list, (sees_client _ _ Hs)|]. by apply bool_decide_eq_true.
Qed.
Lemma does_drop_client v : linked v -> does (drop_client c) v tt v.
Proof.
  intros [Hl _ _]. apply (does_drop (fun w => client_held w c)). intros w Hs.
  unfold client_held. rewrite !orb_true_iff. left. right. apply existsb_exists. exists (cmd, v_command v).
  split; [apply list_elem_of_In, elem_of_map_to_list, (sees_command _ _ Hs)|]. by apply bool_decide_eq_true.
Qed.
Definition held_here (hd : holder) : Prop :=
  hd = HoldClient c \/ hd = HoldCommand cmd \/ hd = HoldBackend b.
(** The reference of a local variable goes away. *)
Lemma sees_holders w v l : sees w v -> sees (w_holders l w) v.
Proof. by intros []. Qed.
Lemma sees_unhold hd v w :
  held_here hd -> linked v -> sees w v ->
  exists w', unhold hd w = Ok (tt, w') /\ sees w' v /\ holders w' = remove_one hd (holders w).
Proof.
  intros Hh Hl Hs. unfold unhold, mbind, M_bind, modify.
  pose proof (sees_holders w v (remove_one hd (holders w)) Hs) as Hs1.
  destruct Hh as [->|[->| ->]];
    [apply (does_drop_client v Hl _ Hs1)|apply (does_drop_command v Hl _ Hs1)|apply (does_drop_backend v Hl _ Hs1)].
Qed.
Lemma remove_one_head hd l : remove_one hd (hd :: l) = l.
Proof. cbn. by rewrite decide_True. Qed.
Lemma does_holding {A} hd (m : M A) v a v' :
  held_here hd -> linked v' -> does m v a v' -> does (holding hd m) v a v'.
Proof.
  intros Hh Hl Hm w Hs. destruct (Hm (w_holders (hd :: holders w) w)) as (w1 & H1 & Hs1 & E1); [by apply sees_holders|].
  destruct (sees_unhold hd v' w1 Hh Hl Hs1) as (w2 & H2 & Hs2 & E2). exists w2.
  split; [unfold holding, hold, modify, mbind, M_bind; by rewrite H1, H2|]. split; [done|].
  rewrite E2, E1. apply remove_one_head.
Qed.
Lemma does_with_command (m : M unit) v v' :
  linked v' -> does m v tt v' -> does (with_command cmd m) v tt v'.
Proof.
  intros Hl Hm. apply does_get. intros w Hs. rewrite (sees_command _ _ Hs), bool_decide_true by done.
  apply does_holding; [right; by left|done..].
Qed.
End exchange.

#[export] Hint Resolve does_ret does_cancel_timer does_arm_timer does_on_stats does_client
  does_command does_backend does_backend_buffer does_client_buffer does_set_client does_set_command does_set_backend
  does_update_client does_update_command does_update_backend : does.

(** Executes the next statement. *)
Ltac does_step :=
  first [eapply does_bind|eapply comes_step]; [solve [eauto with does]|]; cbv beta.
