(* ===== verification/Forward.v ===== *)
(** * A request is served

    The whole way of a single-key request: the query goes to the backend, the reply
    comes back.  Operations on the connection and writes to the client complete in
    any order, the reply arrives in pieces of any size and may be larger than the
    buffer it passes through.  What the client has been sent is always a prefix of
    what the backend has sent, there is always an operation outstanding until all of
    it is sent, and the two ends agree. *)

From S2P Require Import Prelude CString StdMap ErrorCode ReadBuffer Allocator Config.
From S2P Require Import RedisProtocol KeyDistributer KeyLocator QueryParser BackendConn.
From S2P Require Import ReplyParser World BackendPool Lifetime ConnIO Commands CommandQuery.
From S2P Require Import CommandReply Order Worker Logic QueryLogic ReplyLogic Invariants Scenario.
From S2P Require Import ReplyTheorems ReplyStream Exchange.

Section functions.
Context (c cmd b : Z).
Abbreviation does := (does c cmd b).

Lemma does_WriteReply p n bo v :
  cl_is_writing_reply_ (v_client v) = false -> cl_aborted_ (v_client v) = false ->
  does (Client.WriteReply c p n cmd bo) v tt
    (u_ops (v_ops v ++ [ClientWrite c p n cmd bo]) (u_client (l_is_writing_reply true (v_client v)) v)).
Proof.
  intros Hw Ha. unfold Client.WriteReply. does_step.
  eapply does_bind; [apply does_assert; by rewrite Hw|]. does_step.
  eapply does_bind.
  { unfold Client.UpdateTimer. does_step. cbn. rewrite Ha. apply does_arm_timer. }
  refine (does_start c cmd b (ClientWrite c p n cmd bo) (u_client _ v) _). by apply bool_decide_eq_true.
Qed.

(** A part of the reply is handed to the client's socket. *)
Lemma does_TryWriteReply v buf len :
  linked c cmd b v -> cmd_is_writing_reply_ (v_command v) = false ->
  cl_is_writing_reply_ (v_client v) = false -> cl_aborted_ (v_client v) = false ->
  RB.unprocessed_bytes (buffer_ (v_backend v)) = len -> 0 < len ->
  RB.update_processed_bytes (RB.inc_recycle_lock (buffer_ (v_backend v))) len = Ok buf ->
  does (TryWriteReply cmd b) v tt
    (mkView (l_is_writing_reply true (v_client v))
       (c_has_written_some_reply true (c_cmd_is_writing_reply true (v_command v)))
       (BC.set_buffer buf (v_backend v))
       (v_ops v ++ [ClientWrite c (InBackend b (processed_offset_ (buffer_ (v_backend v)))) len cmd (Some b)])
       (v_out v) (v_sent v) (v_aside v)).
Proof.
  intros [Hc _ _] Hw Hcw Ha Hu Hpos Hp. unfold TryWriteReply. does_step. does_step.
  rewrite Hu, Hw, (proj2 (Z.ltb_lt _ _)) by done. cbn [andb negb when].
  does_step. eapply does_bind; [by apply does_on_backend_buffer|]. rewrite Hc.
  eapply does_bind; [by apply does_WriteReply|].
  eapply does_eq; [apply does_on_backend_buffer; exact Hp|reflexivity].
Qed.
Lemma does_TryWriteReply_skip v :
  cmd_is_writing_reply_ (v_command v) = true \/ RB.unprocessed_bytes (buffer_ (v_backend v)) = 0 ->
  does (TryWriteReply cmd b) v tt v.
Proof.
  intros Hw. unfold TryWriteReply. does_step. does_step.
  assert (negb (cmd_is_writing_reply_ (v_command v)) &&
          (0 <? RB.unprocessed_bytes (buffer_ (v_backend v))) = false) as ->.
  { destruct Hw as [->| ->]; [done|]. apply andb_false_r. }
  apply does_ret.
Qed.

Definition reading (x : BackendConn) : BackendConn :=
  BC.set_read_timer_canceled false
    (BC.set_buffer (RB.inc_recycle_lock (buffer_ x)) (BC.set_is_reading_reply true x)).
Definition read_op (x : BackendConn) : io_op :=
  BackendRead b (RB.free_space_begin (buffer_ x)) (RB.free_space_size (buffer_ x)).

Lemma does_ReadReply v :
  does (Backend.ReadReply b) v tt
    (u_ops (v_ops v ++ [read_op (v_backend v)]) (u_backend (reading (v_backend v)) v)).
Proof.
  unfold Backend.ReadReply. does_step. eapply does_bind; [by apply does_on_backend_buffer|].
  does_step. does_step. does_step.
  refine (does_start c cmd b (read_op (v_backend v)) (u_backend (reading (v_backend v)) v) _). by apply bool_decide_eq_true.
Qed.
Lemma does_TryReadMoreReply v :
  does (Backend.TryReadMoreReply b) v tt
    (if reply_recv_complete_ (v_backend v) || is_reading_reply_ (v_backend v) ||
        negb (RB.has_much_free_space (buffer_ (v_backend v)))
     then v else u_ops (v_ops v ++ [read_op (v_backend v)]) (u_backend (reading (v_backend v)) v)).
Proof.
  unfold Backend.TryReadMoreReply. does_step. destruct (_ || _); [apply does_ret|apply does_ReadReply].
Qed.
End functions.

(** ** The state of an exchange *)
Definition simple_state (s : CommandState) : bool :=
  match s with CRedisBasic | CMemcBasic | CRedisSet _ _ | CMemcSet _ => true | _ => false end.

Section forward.
Context (c cmd b : Z) (protocol : ProtocolType) (h t : bytes).
Context (Hrep : server_reply protocol h t) (Hsmall : zlen (whole h t) < 2 ^ 31).
(** What the client had been sent before, and all the backend has been sent *)
Context (base sent : bytes).
(** The client but for the flag that a write is outstanding, and the rest *)
Context (x0 : ClientConnection) (asd : aside).
Abbreviation R := (whole h t).
Abbreviation T := (zlen (whole h t)).
Abbreviation does := (does c cmd b).
Abbreviation linked := (linked c cmd b).

Definition write_op (p len : Z) : io_op := ClientWrite c (InBackend b p) len cmd (Some b).

(** What does not change on the way *)
Record kept (v : view) : Prop := {
  kp_client : l_is_writing_reply false (v_client v) = x0;
  kp_whole : query_recv_complete (v_command v) = Ok true;
  kp_recycle : no_recycle_ (v_backend v) = false;
  kp_aside : v_aside v = asd
}.

(** [rd]: a read from the backend is outstanding; [wr]: a write to the client of
    the bytes at [wr]; [s] bytes are sent, [n] received, [f] handed on. *)
Record relay (rd : bool) (wr : option Z) (s n f : Z) (v : view) : Prop := {
  re_linked : linked v;
  re_first : head (active_cmd_queue_ (v_client v)) = Some cmd;
  re_open : cl_aborted_ (v_client v) = false;
  re_client_writing : cl_is_writing_reply_ (v_client v) = bool_decide (is_Some wr);
  re_simple : simple_state (command_state (v_command v)) = true;
  re_protocol : cmd_protocol_ (v_command v) = protocol;
  re_writing : cmd_is_writing_reply_ (v_command v) = bool_decide (is_Some wr);
  re_alive : aborted_ (v_backend v) = false;
  re_callback : callback_ (v_backend v) = Some cmd;
  re_reading : is_reading_reply_ (v_backend v) = rd;
  re_size : 3 * zlen h < 2 * buffer_size_ (buffer_ (v_backend v));
  re_stream : stream h t n n f (v_backend v);
  re_lock : recycle_lock_count_ (buffer_ (v_backend v)) = Z.b2z rd + Z.b2z (bool_decide (is_Some wr));
  re_ops : v_ops v ≡ₚ (if rd then [read_op b (v_backend v)] else []) ++
                      match wr with Some p => [write_op p (f - s)] | None => [] end;
  re_out : v_out v = base ++ slice R 0 s /\ v_sent v = sent;
  re_sent : match wr with
            | Some p => 0 <= s < f /\ 0 <= p /\ p + (f - s) <= processed_offset_ (buffer_ (v_backend v)) /\
                        slice (data_ (buffer_ (v_backend v))) p (p + (f - s)) = slice R s f
            | None => s = f
            end;
  re_kept : kept v
}.

(** Between two events nothing that could be sent waits, and something is
    outstanding. *)
Definition settled (rd : bool) (wr : option Z) (s n f : Z) : Prop :=
  (wr = None -> zlen h < n -> f = n) /\ (s < T -> rd = true \/ is_Some wr) /\ (rd = true -> n < T).

Lemma relay_bounds rd wr s n f v : relay rd wr s n f v -> 0 <= s <= f /\ f <= n /\ n <= T.
Proof.
  intros Hr. pose proof (st_n _ _ _ _ _ _ (re_stream _ _ _ _ _ _ Hr)).
  pose proof (re_sent _ _ _ _ _ _ Hr) as Hs. destruct wr; lia.
Qed.

Lemma relay_idle rd wr s n f v : relay rd wr s n f v -> wr = None -> s = f.
Proof. intros Hr ->. exact (re_sent _ _ _ _ _ _ Hr). Qed.

(** [TryWriteReply] *)
Lemma relay_try_write rd wr s n f v :
  relay rd wr s n f v ->
  exists wr' f' v', does (TryWriteReply cmd b) v tt v' /\ relay rd wr' s n f' v' /\
    (wr' = None -> zlen h < n -> f' = n) /\ (is_Some wr -> is_Some wr') /\
    (zlen h < n -> f < n -> is_Some wr') /\
    reply_recv_complete_ (v_backend v') = reply_recv_complete_ (v_backend v) /\
    RB.has_much_free_space (buffer_ (v_backend v')) = RB.has_much_free_space (buffer_ (v_backend v)).
Proof.
  intros Hr. pose proof (relay_bounds _ _ _ _ _ _ Hr) as Hb.
  pose proof (stream_unprocessed h t n f _ (re_stream _ _ _ _ _ _ Hr)) as Hu.
  destruct wr as [p|].
  { exists (Some p), f, v. split; [|split; [done|split; [done|split; [by eauto|split; [by eauto|done]]]]].
    apply does_TryWriteReply_skip. left. apply (re_writing _ _ _ _ _ _ Hr). }
  pose proof (relay_idle _ _ _ _ _ _ Hr eq_refl) as ->.
  destruct (decide (zlen h < n /\ f < n)) as [[Hh Hf]|Hno].
  2: { exists None, f, v.
       split; [apply does_TryWriteReply_skip; right; rewrite Hu; destruct (Z.ltb_spec (zlen h) n); lia|].
       split; [done|]. split; [intros; lia|]. split; [by intros []|]. split; [intros; lia|done]. }
  rewrite (proj2 (Z.ltb_lt _ _)) in Hu by lia. destruct Hr as [R1 R2 R3 R4 R5 R6 R7 R8 R9 R10 R11 R12 R13 R14 R15 R16 R17].
  destruct (stream_process h t Hsmall n f (v_backend v)) as (buf & Hp & Hst & Hd & Hpo & Hre & Hlk);
    [done|done|rewrite R13; destruct rd; cbn; lia|].
  pose proof (block_update_processed _ _ _ Hp) as [_ Hsz]. cbn in Hsz.
  exists (Some (processed_offset_ (buffer_ (v_backend v)))), n. eexists.
  split; [apply (does_TryWriteReply c cmd b v buf (n - f)); by first [done|lia]|].
  pose proof (st_wf _ _ _ _ _ _ R12) as Hwf. pose proof (wf_bounds _ Hwf).
  pose proof (stream_length _ _ _ _ _ _ R12). pose proof (st_bytes _ _ _ _ _ _ R12) as Hby.
  split; [|split; [done|split; [by eauto|split; [by eauto|]]]].
  - destruct R1. split; cbn -[write_op]; try done.
    + rewrite Hsz. done.
    + rewrite Hlk, R13. destruct rd; done.
    + rewrite R14. unfold read_op, RB.free_space_begin, RB.free_space_size. cbn. rewrite Hre, Hsz. by destruct rd.
    + split; [lia|]. split; [lia|]. split; [lia|]. rewrite Hd.
      unfold abs in Hby. cbn in Hby. rewrite <- Hby. f_equal. lia.
    + destruct R17. by split.
  - split; [done|]. unfold RB.has_much_free_space. cbn. by rewrite Hre, Hsz.
Qed.

(** [TryReadMoreReply] *)
Lemma relay_try_read rd wr s n f v :
  relay rd wr s n f v ->
  exists rd' v', does (Backend.TryReadMoreReply b) v tt v' /\ relay rd' wr s n f v' /\
    (rd = true -> rd' = true) /\ (rd' = true -> rd = true \/ n < T) /\
    (n < T -> RB.has_much_free_space (buffer_ (v_backend v)) = true -> rd' = true).
Proof.
  intros Hr. pose proof (relay_bounds _ _ _ _ _ _ Hr) as Hb. pose proof (does_TryReadMoreReply c cmd b v) as Hd.
  pose proof (re_reading _ _ _ _ _ _ Hr) as Hrd. pose proof (st_complete _ _ _ _ _ _ (re_stream _ _ _ _ _ _ Hr)) as Hc.
  destruct (_ || _ || _) eqn:Hskip.
  - exists rd, v. split; [done|]. split; [done|]. split; [done|]. split; [by left|]. intros Hlt Hm.
    rewrite Hc, Hrd, Hm, orb_false_r, (proj2 (Z.eqb_neq _ _)) in Hskip by lia. done.
  - apply orb_false_iff in Hskip as [[Hcf Hrf]%orb_false_iff _]. assert (rd = false) as -> by congruence.
    rewrite Hc in Hcf. apply Z.eqb_neq in Hcf.
    exists true. eexists. split; [exact Hd|]. split; [|split; [done|split; [right; lia|done]]].
    destruct Hr as [R1 R2 R3 R4 R5 R6 R7 R8 R9 R10 R11 R12 R13 R14 R15 R16 R17].
    destruct (inc_lock_wf (buffer_ (v_backend v)) (st_wf _ _ _ _ _ _ R12)) as [Hwf Hlk];
      [rewrite R13; destruct wr; cbn; lia|].
    destruct R1. split; cbn -[write_op reading read_op]; try done.
    + by apply (stream_ext h t n n f (v_backend v)).
    + etransitivity; [exact Hlk|]. rewrite R13. destruct wr; cbn; lia.
    + rewrite R14. cbn -[write_op]. by rewrite Permutation_app_comm.
    + destruct R17. by split.
Qed.

(** *** A read completes *)

(** After the piece has been stored and parsed *)
Lemma relay_received wr s n f v chunk :
  relay true wr s n f v -> chunk <> [] -> chunk `prefix_of` drop (Z.to_nat n) R ->
  zlen chunk <= RB.free_space_size (buffer_ (v_backend v)) ->
  exists m buf y, let k := n + zlen chunk in let x := v_backend v in
    mem_write (data_ (buffer_ x)) (received_offset_ (buffer_ x)) chunk = Ok m /\
    RB.dec_recycle_lock (RB.update_received_bytes (RB.set_data (buffer_ x) m) (zlen chunk)) = Ok buf /\
    ParseSimpleReply protocol (BC.set_buffer buf (BC.set_has_read_some_reply true
      (BC.set_is_reading_reply false (BC.set_read_timer_canceled true x)))) = Ok (true, y) /\
    n < k /\
    relay false wr s k f (u_ops (match wr with Some p => [write_op p (f - s)] | None => [] end) (u_backend y v)).
Proof.
  intros Hr Hne Hpre Hroom. pose proof (relay_bounds _ _ _ _ _ _ Hr) as Hb.
  destruct Hr as [R1 R2 R3 R4 R5 R6 R7 R8 R9 R10 R11 R12 R13 R14 R15 R16 R17]. set (x := v_backend v) in *.
  destruct (stream_receive h t n f x chunk R12 Hne Hpre Hroom) as (m & Hm & Hlt & Hlen & Hkeep & Hs1).
  set (x1 := BC.set_buffer (RB.update_received_bytes (RB.set_data (buffer_ x) m) (zlen chunk)) x) in *.
  destruct (stream_unlock h t _ _ _ x1 Hs1) as (buf & Hd & Hs2 & Hlk & Hsame & _); [lia|cbn; rewrite R13; destruct wr; cbn; lia|].
  set (x2 := BC.set_buffer buf (BC.set_has_read_some_reply true
      (BC.set_is_reading_reply false (BC.set_read_timer_canceled true x)))).
  assert (stream h t (n + zlen chunk) n f x2) as Hs3 by (by apply (stream_flags h t _ _ _ _ _ Hs2)).
  destruct (stream_parse protocol h t Hrep Hsmall _ _ _ x2 Hs3 Hlt) as (y & Hp & Hs4 & Hfl & Hby).
  exists m, buf, y. split; [exact Hm|]. split; [exact Hd|]. split; [exact Hp|]. split; [exact Hlt|].
  pose proof (block_dec_lock _ _ Hd) as [_ Hsz]. pose proof (ParseSimpleReply_conn _ _ _ _ Hp) as (_ & _ & _ & Hsz').
  cbn in Hlk, Hsz, Hsz'.
  destruct R1. split; cbn -[write_op]; try done.
  - by rewrite (sf_aborted _ _ Hfl).
  - by rewrite (sf_callback _ _ Hfl).
  - by rewrite (sf_reading _ _ Hfl).
  - rewrite Hsz', Hsz. done.
  - rewrite (sb_lock _ _ Hby). cbn. rewrite Hlk, R13. destruct wr; cbn; lia.
  - destruct wr as [p|]; [|done]. destruct R16 as (Hs & Hp0 & Hpo & Hsl).
    rewrite (sb_data _ _ Hby), (sb_processed _ _ Hby). cbn. rewrite Hsame by (cbn; rewrite R13; cbn; lia). cbn.
    pose proof (stream_length _ _ _ _ _ _ R12). split; [done|]. split; [done|]. split; [done|].
    rewrite Hkeep; [done|lia|]. lia.
  - destruct R17. split; try done. cbn. by rewrite (sf_no_recycle _ _ Hfl).
Qed.

(** [OnBackendReplyReceived] of a command that is answered from one backend *)
Lemma does_reply_received v v1 y v' :
  linked v -> simple_state (command_state (v_command v)) = true -> cmd_protocol_ (v_command v) = protocol ->
  head (active_cmd_queue_ (v_client v)) = Some cmd -> callback_ (v_backend v) = Some cmd ->
  ParseSimpleReply protocol (v_backend v) = Ok (true, y) ->
  does (TryWriteReply cmd b) (u_backend y v) tt v1 -> does (Backend.TryReadMoreReply b) v1 tt v' -> linked v' ->
  does (reply_received_callback b E_SUCCESS) v tt v'.
Proof.
  intros [Hc _ _] Hs Hpr Hq Hcb Hp Hw Hrd Hl. unfold reply_received_callback. does_step.
  rewrite Hcb. eapply does_bind; [by apply does_lift|]. apply does_with_command; [done|].
  unfold OnBackendReplyReceived. does_step.
  assert (does (Command_OnBackendReplyReceived cmd b E_SUCCESS) v tt v') as Hgo;
    [|by destruct (command_state (v_command v))].
  unfold Command_OnBackendReplyReceived.
  eapply (does_bind _ _ _ _ _ _ E_SUCCESS (u_backend y v)).
  { unfold parse_if_ok. rewrite bool_decide_true by done. eapply (does_bind _ _ _ _ _ _ true (u_backend y v)); [|apply does_ret].
    unfold ParseReply. does_step.
    assert (does (Command_ParseReply b (cmd_protocol_ (v_command v))) v true (u_backend y v)) as Hgo;
      [|by destruct (command_state (v_command v))].
    unfold Command_ParseReply. rewrite Hpr. does_step. eapply does_bind; [apply does_lift; exact Hp|].
    does_step. apply does_ret. }
  cbn -[TryWriteReply]. does_step. eapply (does_bind _ _ _ _ _ _ true (u_backend y v)).
  { unfold Client.IsFirstCommand. cbn. rewrite Hc. does_step. cbn.
    destruct (active_cmd_queue_ (v_client v)) as [|q qs]; [done|]. injection Hq as ->.
    rewrite bool_decide_true by done. apply does_ret. }
  eapply does_bind; [exact Hw|exact Hrd].
Qed.

Definition write_ops (wr : option Z) (len : Z) : list io_op :=
  match wr with Some p => [write_op p len] | None => [] end.

(** The head of a reply leaves room for more of it. *)
Lemma relay_head_room rd wr s n f v :
  relay rd wr s n f v -> n <= zlen h -> RB.has_much_free_space (buffer_ (v_backend v)) = true.
Proof.
  intros Hr Hn. pose proof (re_stream _ _ _ _ _ _ Hr) as Hs. pose proof (re_size _ _ _ _ _ _ Hr) as Hsz.
  pose proof (stream_length _ _ _ _ _ _ Hs). destruct (st_head _ _ _ _ _ _ Hs) as [-> Hp]; [done|].
  pose proof (wf_bounds _ (st_wf _ _ _ _ _ _ Hs)). unfold RB.has_much_free_space.
  rewrite !u64_small by lia. apply Z.ltb_lt. lia.
Qed.

Lemma whole_after_head : zlen h < T.
Proof. rewrite (zlen_whole h t). pose proof (zlen_nonneg t). lia. Qed.

Lemma relay_read wr s n f v chunk :
  relay true wr s n f v -> settled true wr s n f -> chunk <> [] -> chunk `prefix_of` drop (Z.to_nat n) R ->
  zlen chunk <= RB.free_space_size (buffer_ (v_backend v)) ->
  exists rd' wr' f' v',
    does (complete_op (read_op b (v_backend v)) (Received chunk)) (u_ops (write_ops wr (f - s)) v) tt v' /\
    relay rd' wr' s (n + zlen chunk) f' v' /\ settled rd' wr' s (n + zlen chunk) f'.
Proof.
  intros Hr [Hset _] Hne Hpre Hroom.
  destruct (relay_received wr s n f v chunk Hr Hne Hpre Hroom) as (m & buf & y & Hm & Hd & Hp & Hlt & Hr1).
  destruct (relay_try_write _ _ _ _ _ _ Hr1) as (wr' & f' & v1 & Hw & Hr2 & Hset2 & Hsome & Hnew & _ & Hroom2).
  destruct (relay_try_read _ _ _ _ _ _ Hr2) as (rd' & v2 & Hrd & Hr3 & _ & Hmore & Hread).
  exists rd', wr', f', v2. split; [|split; [exact Hr3|]].
  - pose proof (re_linked _ _ _ _ _ _ Hr3) as Hl. unfold complete_op, read_op.
    apply does_holding; [right; by right|done|]. unfold RB.free_space_begin.
    eapply does_bind; [apply does_on_backend_buffer; cbn; by rewrite Hm|].
    unfold Backend_HandleRead. does_step. cbn. rewrite (re_alive _ _ _ _ _ _ Hr).
    do 3 does_step. do 2 does_step.
    eapply does_bind; [by apply does_on_backend_buffer|].
    eapply does_bind; [apply does_on_backend_buffer; exact Hd|].
    pose proof (re_linked _ _ _ _ _ _ Hr) as [L1 L2 L3].
    apply (does_reply_received _ v1 y); [done|apply Hr|apply Hr|apply Hr|apply Hr|exact Hp|exact Hw|exact Hrd|done].
  - split; [done|]. split; [|intros Hrd'; by destruct (Hmore Hrd')].
    intros Hst. pose proof (relay_bounds _ _ _ _ _ _ Hr) as Hb. pose proof whole_after_head.
    destruct (Z.le_gt_cases (n + zlen chunk) (zlen h)) as [Hh|Hh].
    + left. apply Hread; [lia|]. by apply (relay_head_room _ _ _ _ _ _ Hr2).
    + right. destruct wr as [p|]; [by apply Hsome|]. apply Hnew; lia.
Qed.

(** *** A write completes *)
Definition part_written (buf : ReadBuffer) (s f : Z) (v : view) : view :=
  mkView (l_is_writing_reply false (v_client v)) (c_cmd_is_writing_reply false (v_command v))
    (BC.set_buffer buf (v_backend v)) (v_ops v) (base ++ slice R 0 f) (v_sent v) (v_aside v).

Lemma slice_sent s f : 0 <= s <= f -> f <= T -> slice R 0 s ++ slice R s f = slice R 0 f.
Proof. intros Hs Hf. symmetry. apply slice_split; lia. Qed.

Lemma relay_written p rd s n f v :
  relay rd (Some p) s n f v ->
  exists buf, RB.dec_recycle_lock (buffer_ (v_backend v)) = Ok buf /\
    relay rd None f n f (part_written buf s f (u_ops (if rd then [read_op b (v_backend v)] else []) v)) /\
    (rd = false -> f = n -> RB.has_much_free_space buf = true).
Proof.
  intros Hr. pose proof (relay_bounds _ _ _ _ _ _ Hr) as Hb.
  destruct Hr as [R1 R2 R3 R4 R5 R6 R7 R8 R9 R10 R11 R12 R13 R14 R15 (Hs & Hp & _ & _) R17].
  destruct (stream_unlock h t _ _ _ _ R12) as (buf & Hd & Hst & Hlk & Hsame & Hm); [lia|rewrite R13; destruct rd; cbn; lia|].
  exists buf. split; [done|]. pose proof (block_dec_lock _ _ Hd) as [_ Hsz]. split.
  - destruct R1. split; cbn -[read_op]; try done.
    + rewrite Hsz. done.
    + rewrite Hlk, R13. destruct rd; done.
    + destruct rd; [|done]. rewrite (Hsame ltac:(rewrite R13; cbn; lia)). done.
    + split; [done|apply R15].
    + destruct R17. by split.
  - intros -> ->. apply Hm; [rewrite R13; done|done].
Qed.

Lemma relay_not_finished n f x :
  stream h t n n f x -> f < T -> zlen h < n -> BC.finished x = false.
Proof.
  intros Hs Hf Hh. unfold BC.finished. rewrite (st_complete _ _ _ _ _ _ Hs), (stream_unprocessed h t n f x Hs).
  rewrite (proj2 (Z.ltb_lt _ _)) by done. destruct (Z.eqb_spec n T); [|done]. cbn. lia.
Qed.

(** The bytes of the write are sent, the callback of the command is due. *)
Definition write_done (rd : bool) (f : Z) (v : view) : view :=
  mkView (l_is_writing_reply false (v_client v)) (v_command v) (v_backend v)
    (if rd then [read_op b (v_backend v)] else []) (base ++ slice R 0 f) (v_sent v) (v_aside v).

Lemma write_sent_comes p rd s n f v :
  relay rd (Some p) s n f v ->
  comes c cmd b ((bs ← source_bytes (InBackend b p) (f - s); emit (ToClient c bs));;
         Client_HandleWrite c (InBackend b p) (f - s) cmd (Some b) false (f - s))
    (u_ops (if rd then [read_op b (v_backend v)] else []) v)
    (with_command cmd (holding (HoldBackend b) (OnWriteReplyFinished cmd (Some b) E_SUCCESS)))
    (write_done rd f v).
Proof.
  intros Hr. pose proof (relay_bounds _ _ _ _ _ _ Hr) as Hb.
  destruct Hr as [R1 R2 R3 R4 R5 R6 R7 R8 R9 R10 R11 R12 R13 R14 R15 (Hs & Hp & Hpo & Hsl) R17].
  pose proof (wf_bounds _ (st_wf _ _ _ _ _ _ R12)). pose proof (wf_len _ (st_wf _ _ _ _ _ _ R12)).
  eapply comes_step.
  { eapply (does_bind _ _ _ _ _ _ (slice R s f)); [|apply does_emit]. does_step. apply does_lift. cbn.
    rewrite read_bytes_slice by lia. by rewrite Hsl. }
  unfold Client_HandleWrite. does_step. cbn -[read_op]. does_step.
  rewrite Z.ltb_irrefl. does_step. cbn -[read_op]. unfold reply_written_callback. apply comes_get. intros w Hw.
  rewrite (sees_backend _ _ _ _ _ Hw), bool_decide_true by (cbn; by eauto).
  unfold write_done. rewrite (proj1 R15), <- app_assoc, slice_sent by lia. apply comes_here.
Qed.

Lemma does_write_sent p rd s n f v v' :
  relay rd (Some p) s n f v -> linked v' ->
  does (OnWriteReplyFinished cmd (Some b) E_SUCCESS) (write_done rd f v) tt v' ->
  does (complete_op (write_op p (f - s)) (Sent (f - s)))
    (u_ops (if rd then [read_op b (v_backend v)] else []) v) tt v'.
Proof.
  intros Hr Hl Hgo. apply does_holding; [by left|done|].
  eapply comes_does; [|apply does_with_command; [done|apply does_holding; [right; by right|done|exact Hgo]]].
  cbn [failed sent_bytes]. exact (write_sent_comes p rd s n f v Hr).
Qed.

(** The rest of [Command_OnWriteReplyFinished] *)
Definition after_part : M unit :=
  x ← backend b;
  if BC.finished x then
    m_assert (negb (RB.recycle_locked (buffer_ x)));;
    k ← command cmd;
    complete ← lift (query_recv_complete k);
    m_assert complete;;
    RotateReplyingBackend cmd
  else
    Backend.TryReadMoreReply b;;
    TryWriteReply cmd b.

Lemma part_written_comes p rd s n f v buf :
  relay rd (Some p) s n f v -> RB.dec_recycle_lock (buffer_ (v_backend v)) = Ok buf ->
  comes c cmd b (OnWriteReplyFinished cmd (Some b) E_SUCCESS) (write_done rd f v) after_part
    (part_written buf s f (u_ops (if rd then [read_op b (v_backend v)] else []) v)).
Proof.
  intros [R1 R2 R3 R4 R5 R6 R7 R8 R9 R10 R11 R12 R13 R14 R15 _ R17] Hd.
  unfold OnWriteReplyFinished. does_step. cbn -[read_op].
  match goal with |- comes _ _ _ _ ?u _ ?w =>
    assert (comes c cmd b (Command_OnWriteReplyFinished cmd (Some b) E_SUCCESS) u after_part w) as Hgo end;
    [|by destruct (command_state (v_command v))].
  unfold Command_OnWriteReplyFinished. does_step. cbn -[read_op]. eapply comes_step; [by apply does_lift|].
  eapply comes_step; [|apply comes_here].
  unfold reply_part_written. does_step. eapply does_bind; [apply does_assert; cbn; by rewrite R7|].
  does_step. eapply does_eq; [apply does_on_backend_buffer; exact Hd|done].
Qed.

Lemma relay_write p rd s n f v :
  relay rd (Some p) s n f v -> f < T -> zlen h < n -> (rd = true -> n < T) ->
  exists rd' wr' f' v',
    does (complete_op (write_op p (f - s)) (Sent (f - s)))
      (u_ops (if rd then [read_op b (v_backend v)] else []) v) tt v' /\
    relay rd' wr' f n f' v' /\ settled rd' wr' f n f'.
Proof.
  intros Hr Hf Hh Hlt. pose proof (relay_bounds _ _ _ _ _ _ Hr) as Hb.
  destruct (relay_written p rd s n f v Hr) as (buf & Hd & Hr1 & Hm1). set (v1 := part_written _ _ _ _) in *.
  destruct (relay_try_read _ _ _ _ _ _ Hr1) as (rd' & v2 & Hrd & Hr2 & Hstay & Hmore & Hread).
  destruct (relay_try_write _ _ _ _ _ _ Hr2) as (wr' & f' & v3 & Hw & Hr3 & Hset3 & _ & Hnew & _).
  exists rd', wr', f', v3. split; [|split; [exact Hr3|split; [done|]]].
  - apply (does_write_sent p rd s n f v v3 Hr); [apply Hr3|].
    eapply comes_does; [exact (part_written_comes p rd s n f v buf Hr Hd)|]. unfold after_part.
    eapply (does_bind _ _ _ _ _ _ (v_backend v1) v1); [apply does_backend|].
    rewrite (relay_not_finished n f (v_backend v1) (re_stream _ _ _ _ _ _ Hr1) Hf Hh).
    eapply does_bind; [exact Hrd|exact Hw].
  - split; [|intros Hrd'; destruct (Hmore Hrd'); auto].
    intros _. destruct (Z.eq_dec f n) as [->|Hne]; [left|right; apply Hnew; lia].
    destruct rd; [by apply Hstay|]. apply Hread; [lia|by apply Hm1].
Qed.
End forward.

(** ** The query is sent *)
Section sending.
Context (c cmd b : Z) (protocol : ProtocolType) (head_size : Z) (Q base sent : bytes).
Context (xq : ClientConnection) (asd : aside).
Abbreviation does := (does c cmd b).
Abbreviation linked := (linked c cmd b).

(** The command [cmd] at the head of client [c]'s pipeline has handed its query [Q],
    which is in the client's buffer as a whole, to the connection [b], whose buffer
    is empty and large enough for the first line of the reply ([head_size] bytes);
    [op], to connect or to write the query, is outstanding. *)
Record querying (op : io_op) (v : view) : Prop := {
  qu_linked : linked v;
  qu_first : head (active_cmd_queue_ (v_client v)) = Some cmd;
  qu_open : cl_aborted_ (v_client v) = false;
  qu_client_writing : cl_is_writing_reply_ (v_client v) = false;
  qu_locked : rb_wf (cl_buffer_ (v_client v)) /\ 0 < recycle_lock_count_ (cl_buffer_ (v_client v));
  qu_simple : simple_state (command_state (v_command v)) = true;
  qu_protocol : cmd_protocol_ (v_command v) = protocol;
  qu_writing : cmd_is_writing_reply_ (v_command v) = false;
  qu_whole : query_recv_complete (v_command v) = Ok true;
  qu_alive : aborted_ (v_backend v) = false;
  qu_callback : callback_ (v_backend v) = Some cmd;
  qu_reading : is_reading_reply_ (v_backend v) = false;
  qu_complete : reply_recv_complete_ (v_backend v) = false;
  qu_buffer : exists data size, buffer_ (v_backend v) = mkReadBuffer data size 0 0 0 0 /\
    zlen data = size /\ 0 < size < 2 ^ 31 /\ 3 * head_size < 2 * size;
  qu_ops : v_ops v ≡ₚ [op];
  qu_out : v_out v = base /\ v_sent v = sent;
  qu_op : exists p, (op = BackendConnect b (InClient c p) (zlen Q) \/ op = BackendWrite b (InClient c p) (zlen Q)) /\
    0 <= p /\ p + zlen Q <= zlen (data_ (cl_buffer_ (v_client v))) /\
    slice (data_ (cl_buffer_ (v_client v))) p (p + zlen Q) = Q;
  qu_client : v_client v = xq;
  qu_recycle : no_recycle_ (v_backend v) = false;
  qu_aside : v_aside v = asd
}.

(** The query is sent: the client's buffer may be reused. *)
Definition unlocked (x : ClientConnection) : ClientConnection :=
  match RB.dec_recycle_lock (cl_buffer_ x) with
  | Ok buf => l_is_writing_reply false (l_buffer buf x)
  | Fault _ => x
  end.

Lemma querying_connected p v :
  querying (BackendConnect b (InClient c p) (zlen Q)) v ->
  exists v', does (complete_op (BackendConnect b (InClient c p) (zlen Q)) Connected) (u_ops [] v) tt v' /\
    querying (BackendWrite b (InClient c p) (zlen Q)) v'.
Proof.
  intros Hq. destruct Hq as [Q1 Q2 Q3 Q4 Q5 Q6 Q7 Q8 Q9 Q10 Q11 Q12 Q13 Q14 Q15 Q16 Q17 Q18 Q19 Q20].
  eexists. split.
  - unfold complete_op. apply does_holding; [right; by right| |].
    2: { unfold Backend_HandleConnect. does_step. cbn. rewrite Q10. unfold stop_write_timer.
         eapply does_bind; [eapply does_bind; [apply does_cancel_timer|apply does_update_backend]|]. cbn.
         unfold Backend.AsyncWrite. does_step. does_step.
         eapply does_start. cbn. by apply bool_decide_eq_true. }
    destruct Q1. by split.
  - destruct Q1. destruct Q17 as (p' & Hp & Hrest).
    split; cbn; try done. exists p. split; [by right|]. destruct Hp as [[= ->]|Hp]; done.
Qed.
End sending.

Section sent.
Context (c cmd b : Z) (protocol : ProtocolType) (h t : bytes) (Q base sent : bytes).
Context (xq : ClientConnection) (asd : aside).
Abbreviation does := (does c cmd b).

Lemma querying_sent p v :
  querying c cmd b protocol (zlen h) Q base sent xq asd (BackendWrite b (InClient c p) (zlen Q)) v ->
  exists v', does (complete_op (BackendWrite b (InClient c p) (zlen Q)) (Sent (zlen Q))) (u_ops [] v) tt v' /\
    relay c cmd b protocol h t base (sent ++ Q) (unlocked xq) asd true None 0 0 0 v'.
Proof.
  intros [Q1 Q2 Q3 Q4 [Q5 Q5'] Q6 Q7 Q8 Q9 Q10 Q11 Q12 Q13 (data & size & Q14 & Hd & Hsz & Hh) Q15 [Q16 Q16'] Q17 Q18 Q19 Q20].
  destruct Q17 as (p' & [Hp|[= <-]] & Hp0 & Hpn & Hsl); [done|]. pose proof (zlen_nonneg h). pose proof (zlen_nonneg Q).
  destruct (rb_exec_refines OpUnlock _ Q5 Q5') as (buf & Hx & _). cbn in Hx.
  eexists. split.
  - unfold complete_op. apply does_holding; [right; by right| |]; cycle 1.
    { eapply does_bind.
      { eapply (does_bind _ _ _ _ _ _ Q); [|apply does_emit_query]. does_step. apply does_lift. cbn.
        rewrite read_bytes_slice by lia. by rewrite Hsl. }
      unfold Backend_HandleWrite. does_step. cbn. rewrite Q10. unfold stop_write_timer.
      eapply does_bind; [eapply does_bind; [apply does_cancel_timer|apply does_update_backend]|].
      does_step. rewrite Z.ltb_irrefl. unfold query_sent_callback. does_step. cbn. rewrite Q11.
      eapply does_bind; [by apply does_lift|]. apply does_with_command; cycle 1.
      { unfold OnWriteQueryFinished. does_step. cbn.
        match goal with |- does _ ?u tt ?w => assert (does (Command_OnWriteQueryFinished cmd b E_SUCCESS) u tt w) as Hgo end;
          [|destruct (command_state (v_command v)); try exact Hgo; done].
        unfold Command_OnWriteQueryFinished. does_step. cbn. rewrite (lk_command _ _ _ _ Q1).
        eapply does_bind; [apply does_on_client_buffer; exact Hx|].
        eapply does_bind; [apply does_lift; exact Q9|]. apply does_ReadReply. }
      destruct Q1. by split. }
    destruct Q1. by split.
  - destruct Q1. split; cbn; rewrite ?Q14; cbn; try done; try lia.
    + pose proof (zlen_nonneg (whole h t)). split; cbn; rewrite ?Q14; cbn; try done; try lia; [split; cbn; rewrite ?u64_small; lia|..].
      * rewrite (proj2 (Z.ltb_ge _ _)); lia.
      * rewrite Q13. pose proof (whole_after_head h t). destruct (zlen (whole h t)); [lia|done..].
    + unfold slice. cbn. by rewrite app_nil_r, Q16, Q16'.
    + split; cbn; try done. unfold unlocked. by rewrite <- Q18, Hx.
Qed.
End sent.

(** ** What the handlers do not write *)
Definition same_trace (w w' : World) : Prop := trace w' = trace w.
#[global] Instance same_trace_preorder : PreOrder same_trace := proj_preorder trace.

Lemma same_trace_modify f : (forall w, trace (f w) = trace w) -> respects same_trace (modify f).
Proof. intros Hf. by apply respects_modify. Qed.
Lemma same_trace_fresh_id : respects same_trace fresh_id.
Proof. by intros w a w' [= _ <-]. Qed.
#[export] Hint Resolve same_trace_fresh_id : respects.
Lemma same_trace_Allocate ep : respects same_trace (Allocate ep).
Proof.
  unfold Allocate, idle_or_new, BackendConn_ctor, alloc_slab, set_backend, on_stats. respects_tac;
    by apply same_trace_modify.
Qed.
Lemma same_trace_Release b : respects same_trace (Release b).
Proof. unfold Release, set_backend. respects_tac; by apply same_trace_modify. Qed.

#[global] Instance same_trace_stable : Stable same_trace.
Proof.
  split; try apply _; try (intros; reflexivity); [apply same_trace_Allocate|apply same_trace_Release].
Qed.
#[global] Instance same_trace_queue : StableQueue same_trace.
Proof.
  split; [apply _|intros; reflexivity|]. intros c w a w'. apply process_unparsed_stable; [apply _|].
  intros cmd w1 w2 (x & w3 & [-> Hx]%client_Ok & [= <-])%M_bind_Ok. reflexivity.
Qed.

(** A write that completes puts its bytes, and nothing else, on the wire. *)
Lemma complete_write_trace w i c p n cmd b bs x w' :
  wf w -> in_flight w !! i = Some (ClientWrite c (InBackend b p) n cmd (Some b)) ->
  backends w !! b = Some x -> read_bytes (data_ (buffer_ x)) p n = Ok bs ->
  handle (EvComplete i (Sent n)) w = Ok (tt, w') -> trace w' = trace w ++ [ToClient c bs].
Proof.
  intros Hw Hop Hx Hbs H. destruct (finished_write w i _ _ _ _ _ Hw Hop) as (Ht & Ho & Hn).
  set (S := [Turn c cmd; Own cmd c]). assert (Forall (holds w) S) as Hf by (constructor; [exact Ht|constructor; [exact Ho|constructor]]).
  destruct (shrinks_keeps S _ _ (shrinks_finish w i) Hw Hf) as (Hw1 & Hf1 & _).
  unfold handle in H. apply M_bind_Ok in H as (v & w1 & [= <- <-] & H). rewrite Hop in H.
  apply M_bind_Ok in H as (op & w1 & [-> [= <-]]%lift_Ok & H). apply M_bind_Ok in H as (u & w1 & [= <- <-] & H).
  set (w1 := w_in_flight _ w) in *. unfold complete_op, holding in H.
  apply M_bind_Ok in H as (u & w2 & [= <- <-] & H). set (w2 := w_holders _ w1) in *.
  assert (wf w2 /\ Forall (holds w2) S) as [Hw2 Hf2]
    by (destruct (respects_hold same_trace S (HoldClient c) w1 tt w2 eq_refl Hw1 Hf1) as (_ & ? & ? & _); done).
  apply M_bind_Ok in H as (u & w5 & H & H5).
  apply M_bind_Ok in H as (u1 & w4 & H4 & H). apply M_bind_Ok in H4 as (bs' & w3 & H3 & [= <- <-]).
  assert (w3 = w2 /\ bs' = bs) as [-> ->].
  { unfold source_bytes in H3. apply M_bind_Ok in H3 as (buf & w6 & H6 & [-> H3]%lift_Ok).
    apply M_bind_Ok in H6 as (y & w7 & [-> Hy]%backend_Ok & [= <- <-]). cbn in Hy. split; [done|]. congruence. }
  set (w4 := w_trace _ w2) in *.
  assert (wf w4 /\ Forall (holds w4) S) as [Hw4 Hf4] by (split; [by destruct Hw2|done]).
  assert (rel same_trace S w4 w5) as Hrel
    by (eapply (rel_Client_HandleWrite same_trace S); [..|exact H]; [set_solver|set_solver|done]).
  destruct (Hrel Hw4 Hf4) as (Htr & Hw5 & Hf5 & _).
  assert (respects (rel same_trace S) (unhold (HoldClient c) ;; mret u)) as Hun by respects_tac.
  destruct (Hun _ _ _ H5 Hw5 Hf5) as (Htr' & _). unfold same_trace in *. by rewrite Htr', Htr.
Qed.

(** ** The exchange *)

(** The query of the client [x] has been handed to the connection. *)
Definition query_handed (c cmd b : Z) (protocol : ProtocolType) (head_size : Z) (Q : bytes)
    (x : ClientConnection) (w : World) : Prop :=
  exists op v, sees c cmd b w v /\
    querying c cmd b protocol head_size Q (client_output c w) (backend_output b w) x (aside_of c w) op v.
Definition query_started (c cmd b : Z) (protocol : ProtocolType) (head_size : Z) (Q : bytes) (w : World) : Prop :=
  exists x, query_handed c cmd b protocol head_size Q x w.

Definition read_by (o : outcome) : bytes := match o with Received bs => bs | _ => [] end.

(** Operations on [b] and writes to [c] succeed, until [len] bytes are sent to the
    client; [bs] is what has been read from the backend. *)
Inductive exchange (c b len : Z) (w0 : World) : bytes -> World -> Prop :=
| exchange_start : exchange c b len w0 [] w0
| exchange_step bs w i op o w' :
    exchange c b len w0 bs w -> zlen (client_output c w) < zlen (client_output c w0) + len ->
    in_flight w !! i = Some op -> mine c b op = true -> failed o = false ->
    step w (EvComplete i o) w' -> exchange c b len w0 (bs ++ read_by o) w'.

(** The ways in which an operation of the exchange succeeds; the backend sends the
    reply [R]. *)
Definition completes (R bs : bytes) (op : io_op) (o : outcome) : Prop :=
  match op, o with
  | BackendConnect _ _ _, Connected => True
  | BackendWrite _ _ n, Sent m => m = n
  | BackendRead _ _ size, Received chunk =>
      chunk <> [] /\ bs ++ chunk `prefix_of` R /\ zlen chunk <= size
  | ClientWrite _ _ n _ _, Sent m => m = n
  | _, _ => False
  end.
(** The last write to the client, which ends the command, excepted *)
Definition succeeds (R bs out : bytes) (op : io_op) (o : outcome) : Prop :=
  completes R bs op o /\ match op with ClientWrite _ _ n _ _ => zlen out + n < zlen R | _ => True end.

Section completion.
Context (c cmd b : Z).
Abbreviation sees := (sees c cmd b).

(** An operation that completes is taken out of the list. *)
Lemma sees_complete w v i op :
  sees w v -> in_flight w !! i = Some op -> mine c b op = true ->
  op ∈ v_ops v /\ forall rest, v_ops v ≡ₚ op :: rest ->
    sees (w_in_flight (delete i (in_flight w)) w) (u_ops rest v).
Proof.
  intros [H1 H2 H3 H4 H5 H6 H7] Hop Hm.
  assert (filter (fun op => mine c b op = true) (in_flight w) ≡ₚ
          op :: filter (fun op => mine c b op = true) (delete i (in_flight w))) as Hperm
    by (rewrite (delete_Permutation _ _ _ Hop) at 1; by rewrite filter_cons_True).
  split; [rewrite <- H4, Hperm; set_solver|]. intros rest Hrest. split; cbn; try done.
  apply (Permutation_cons_inv (a := op)). by rewrite <- Hperm, H4.
Qed.

Lemma handle_complete w v i op o rest v' :
  sees w v -> in_flight w !! i = Some op -> mine c b op = true -> v_ops v ≡ₚ op :: rest ->
  does c cmd b (complete_op op o) (u_ops rest v) tt v' ->
  exists w', handle (EvComplete i o) w = Ok (tt, w') /\ sees w' v' /\ holders w' = holders w.
Proof.
  intros Hs Hop Hm Hr Hd. destruct (sees_complete w v i op Hs Hop Hm) as [_ Hdel].
  destruct (Hd _ (Hdel rest Hr)) as (w' & H & Hs' & Hh). exists w'. split; [|done].
  unfold handle, get, modify, lift, of_option, mbind, M_bind. by rewrite Hop.
Qed.

Lemma mine_read off size : mine c b (BackendRead b off size) = true.
Proof. cbn. by apply bool_decide_eq_true. Qed.
Lemma mine_write p n cmd' bo : mine c b (ClientWrite c p n cmd' bo) = true.
Proof. cbn. by apply bool_decide_eq_true. Qed.

End completion.

Section exchanges.
Context (c cmd b : Z) (protocol : ProtocolType) (h t Q : bytes).
Context (Hrep : server_reply protocol h t) (Hsmall : zlen (whole h t) < 2 ^ 31).
Context (config : Config) (w0 : World) (Hw0 : reachable config w0).
Context (xq : ClientConnection) (Hstart : query_handed c cmd b protocol (zlen h) Q xq w0).
Abbreviation R := (whole h t).
Abbreviation T := (zlen (whole h t)).
Abbreviation base := (client_output c w0).
Abbreviation sent := (backend_output b w0).
Abbreviation sees := (sees c cmd b).
Abbreviation querying := (querying c cmd b protocol (zlen h) Q base sent xq (aside_of c w0)).
Abbreviation relay := (relay c cmd b protocol h t base (sent ++ Q) (unlocked xq) (aside_of c w0)).

(** The reply is under way. *)
Definition under_way (bs : bytes) (w : World) : Prop :=
  exists rd wr s f v, sees w v /\ relay rd wr s (zlen bs) f v /\ settled h t rd wr s (zlen bs) f /\ s < T /\
    holders w = holders w0.
(** The query is not yet sent. *)
Definition being_sent (w : World) : Prop := exists op v, sees w v /\ querying op v /\ holders w = holders w0.

Lemma exchange_reachable bs w : exchange c b T w0 bs w -> reachable config w.
Proof. induction 1; [done|by eapply reachable_step]. Qed.

Lemma prefix_rest {A} (bs chunk l : list A) : bs ++ chunk `prefix_of` l -> chunk `prefix_of` drop (length bs) l.
Proof. intros [rest ->]. rewrite <- app_assoc, drop_app_length. by apply prefix_app_r. Qed.

Lemma under_way_read bs w i off size chunk :
  under_way bs w -> in_flight w !! i = Some (BackendRead b off size) -> chunk <> [] ->
  bs ++ chunk `prefix_of` R -> zlen chunk <= size ->
  exists w', handle (EvComplete i (Received chunk)) w = Ok (tt, w') /\ under_way (bs ++ chunk) w'.
Proof.
  intros (rd & wr & s & f & v & Hs & Hr & Hset & Hlt & Hhold) Hop Hne Hpre Hsz.
  destruct (sees_complete c cmd b w v i _ Hs Hop (mine_read c b off size)) as [Hin _].
  pose proof (re_ops _ _ _ _ _ _ _ _ _ _ _ _ _ _ _ _ Hr) as Hops. rewrite Hops in Hin.
  apply elem_of_app in Hin as [Hin|Hin]; [|destruct wr; [apply list_elem_of_singleton in Hin; discriminate|set_solver]].
  destruct rd; [apply list_elem_of_singleton in Hin|set_solver].
  destruct (relay_read c cmd b protocol h t Hrep Hsmall base (sent ++ Q) (unlocked xq) (aside_of c w0) wr s (zlen bs) f v chunk)
    as (rd' & wr' & f' & v' & Hd & Hr' & Hset'); [done|done|done|..].
  { unfold zlen. rewrite Nat2Z.id. by apply prefix_rest. }
  { unfold read_op in Hin. injection Hin as _ <-. done. }
  destruct (handle_complete c cmd b w v i _ (Received chunk) (write_ops c cmd b wr (f - s)) v' Hs Hop (mine_read c b off size))
    as (w' & H & Hs' & Hh'); [by rewrite Hops, Hin|by rewrite Hin|].
  exists w'. split; [done|]. rewrite <- zlen_app in *. exists rd', wr', s, f', v'. split_and!; try done. congruence.
Qed.

Lemma relay_needs_head rd p s n f v : relay rd (Some p) s n f v -> zlen h < n.
Proof.
  intros Hr. pose proof (re_sent _ _ _ _ _ _ _ _ _ _ _ _ _ _ _ _ Hr) as (Hs & _).
  destruct (Z.le_gt_cases n (zlen h)) as [Hle|]; [|done].
  destruct (st_head _ _ _ _ _ _ (re_stream _ _ _ _ _ _ _ _ _ _ _ _ _ _ _ _ Hr) Hle) as [-> _]. lia.
Qed.

Lemma under_way_write bs w i p n cmd' bo :
  under_way bs w -> wf w -> in_flight w !! i = Some (ClientWrite c p n cmd' bo) ->
  exists s, client_output c w = base ++ slice R 0 s /\ 0 <= s /\ 0 < n /\ s + n <= zlen bs /\
    (s + n < T -> exists w', handle (EvComplete i (Sent n)) w = Ok (tt, w') /\ under_way bs w') /\
    (s + n = T -> forall w', handle (EvComplete i (Sent n)) w = Ok (tt, w') -> 
      client_output c w' = base ++ R /\ backend_output b w' = sent ++ Q).
Proof.
  intros (rd & wr & s & f & v & Hs & Hr & Hset & Hlt & Hhold) Hw Hop.
  destruct (sees_complete c cmd b w v i _ Hs Hop (mine_write c b p n cmd' bo)) as [Hin _].
  pose proof (re_ops _ _ _ _ _ _ _ _ _ _ _ _ _ _ _ _ Hr) as Hops. rewrite Hops in Hin.
  apply elem_of_app in Hin as [Hin|Hin]; [destruct rd; [apply list_elem_of_singleton in Hin; discriminate|set_solver]|].
  destruct wr as [q|]; [apply list_elem_of_singleton in Hin|set_solver].
  pose proof (relay_bounds _ _ _ _ _ _ _ _ _ _ _ _ _ _ _ _ Hr) as Hb.
  pose proof (re_sent _ _ _ _ _ _ _ _ _ _ _ _ _ _ _ _ Hr) as (Hsf & Hq0 & Hq & Hsl).
  pose proof (proj1 (re_out _ _ _ _ _ _ _ _ _ _ _ _ _ _ _ _ Hr)) as Hout. rewrite <- (sees_out _ _ _ _ _ Hs) in Hout.
  unfold write_op in Hin. injection Hin as -> -> -> ->.
  exists s. split; [done|]. split; [lia|]. split; [lia|]. split; [lia|]. split.
  - intros Hf. destruct (relay_write c cmd b protocol h t Hsmall base (sent ++ Q) (unlocked xq) (aside_of c w0) q rd s (zlen bs) f v Hr) as (rd' & wr' & f' & v' & Hd & Hr' & Hset');
      [lia|by eapply relay_needs_head|apply Hset|].
    destruct (handle_complete c cmd b w v i _ (Sent (f - s)) (if rd then [read_op b (v_backend v)] else []) v' Hs Hop
      (mine_write c b _ _ _ _)) as (w' & H & Hs' & Hh'); [by rewrite Hops, Permutation_app_comm|exact Hd|].
    exists w'. split; [done|]. exists rd', wr', f, f', v'. split; [done|]. split; [done|]. split; [done|]. split; [lia|congruence].
  - intros Hf w' H. pose proof (re_stream _ _ _ _ _ _ _ _ _ _ _ _ _ _ _ _ Hr) as Hst.
    pose proof (wf_bounds _ (st_wf _ _ _ _ _ _ Hst)). pose proof (wf_len _ (st_wf _ _ _ _ _ _ Hst)).
    assert (read_bytes (data_ (buffer_ (v_backend v))) q (f - s) = Ok (slice R s f)) as Hrb
      by (rewrite read_bytes_slice by lia; by rewrite Hsl).
    pose proof (complete_write_trace w i c q (f - s) cmd b _ _ w' Hw Hop (sees_backend _ _ _ _ _ Hs) Hrb H) as Htr.
    pose proof (sees_sent _ _ _ _ _ Hs) as Hsent. rewrite (proj2 (re_out _ _ _ _ _ _ _ _ _ _ _ _ _ _ _ _ Hr)) in Hsent.
    split; [|unfold backend_output in *; rewrite Htr, omap_app, concat_app, Hsent; cbn; by rewrite app_nil_r].
    unfold client_output in Hout |- * at 1. rewrite Htr, omap_app, concat_app, Hout. cbn.
    rewrite decide_True by done. cbn. rewrite app_nil_r, <- app_assoc, slice_sent by lia.
    replace f with T by lia. unfold slice. rewrite Z.sub_0_r. unfold zlen. by rewrite Nat2Z.id, firstn_all.
Qed.

Lemma being_sent_handled w i op :
  being_sent w -> in_flight w !! i = Some op -> mine c b op = true ->
  (exists p, op = BackendConnect b (InClient c p) (zlen Q) /\
     exists w', handle (EvComplete i Connected) w = Ok (tt, w') /\ being_sent w') \/
  (exists p, op = BackendWrite b (InClient c p) (zlen Q) /\
     exists w', handle (EvComplete i (Sent (zlen Q))) w = Ok (tt, w') /\ under_way [] w').
Proof.
  intros (op' & v & Hs & Hq & Hhold) Hop Hm. destruct (sees_complete c cmd b w v i op Hs Hop Hm) as [Hin _].
  pose proof (qu_ops _ _ _ _ _ _ _ _ _ _ _ _ Hq) as Hops. rewrite Hops in Hin.
  apply list_elem_of_singleton in Hin as <-. pose proof (qu_op _ _ _ _ _ _ _ _ _ _ _ _ Hq) as (p & [Hp|Hp] & _); subst op.
  - left. exists p. split; [done|]. destruct (querying_connected _ _ _ _ _ _ _ _ _ _ p v Hq) as (v' & Hd & Hq').
    destruct (handle_complete c cmd b w v i _ Connected [] v' Hs Hop Hm Hops Hd) as (w' & H & Hs' & Hh').
    exists w'. split; [done|]. eexists _, v'. split; [done|]. split; [done|congruence].
  - right. exists p. split; [done|]. destruct (querying_sent c cmd b protocol h t Q base sent xq (aside_of c w0) p v Hq) as (v' & Hd & Hr).
    destruct (handle_complete c cmd b w v i _ (Sent (zlen Q)) [] v' Hs Hop Hm Hops Hd) as (w' & H & Hs' & Hh').
    exists w'. split; [done|]. exists true, None, 0, 0, v'. pose proof (whole_after_head h t). pose proof (zlen_nonneg h).
    split; [done|]. split; [done|]. split; [|split; [lia|congruence]].
    split; [intros; rewrite zlen_nil in *; lia|]. split; [by left|rewrite zlen_nil; lia].
Qed.

(** How far the exchange is *)
Definition progress (bs : bytes) (w : World) : Prop :=
  being_sent w /\ bs = [] \/ under_way bs w \/
  client_output c w = base ++ R /\ backend_output b w = sent ++ Q /\ bs = R.

Lemma progress_sending w i op o w' :
  being_sent w -> in_flight w !! i = Some op -> mine c b op = true -> failed o = false ->
  step w (EvComplete i o) w' -> read_by o = [] /\ progress [] w'.
Proof.
  intros Hs Hop Hm Ho [He H]. cbn in He. rewrite Hop in He.
  destruct (being_sent_handled w i op Hs Hop Hm) as [(p & -> & w1 & H1 & Hw1)|(p & -> & w1 & H1 & Hw1)].
  - destruct o; try done. split; [done|]. left. split; [congruence|done].
  - destruct o as [| | |n|]; try done. apply Z.eqb_eq in He as ->. split; [done|].
    right. left. congruence.
Qed.

Lemma under_way_ops bs w i op :
  under_way bs w -> in_flight w !! i = Some op -> mine c b op = true ->
  (exists off size, op = BackendRead b off size) \/ exists p n bo, op = ClientWrite c p n cmd bo.
Proof.
  intros (rd & wr & s & f & v & Hs & Hr & _) Hop Hm. destruct (sees_complete c cmd b w v i op Hs Hop Hm) as [Hin _].
  pose proof (re_ops _ _ _ _ _ _ _ _ _ _ _ _ _ _ _ _ Hr) as Hops. rewrite Hops in Hin.
  apply elem_of_app in Hin as [Hin|Hin].
  - destruct rd; [apply list_elem_of_singleton in Hin as ->; left; unfold read_op; eauto|set_solver].
  - destruct wr; [apply list_elem_of_singleton in Hin as ->; right; unfold write_op; eauto|set_solver].
Qed.

Lemma progress_relaying bs w i op o w' :
  under_way bs w -> wf w -> in_flight w !! i = Some op -> mine c b op = true -> failed o = false ->
  step w (EvComplete i o) w' -> bs ++ read_by o `prefix_of` R -> progress (bs ++ read_by o) w'.
Proof.
  intros Hu Hw Hop Hm Ho [He H] Hpre. cbn in He. rewrite Hop in He. right.
  destruct (under_way_ops bs w i op Hu Hop Hm) as [(off & size & ->)|(p & n & bo & ->)].
  - destruct o as [| | | |chunk]; try done. cbn [read_by] in *.
    apply andb_true_iff in He as [H0%Z.ltb_lt Hle%Z.leb_le].
    destruct (under_way_read bs w i off size chunk Hu Hop) as (w1 & H1 & Hu1); [by intros ->|done..|].
    left. congruence.
  - destruct o as [| | |m|]; try done. apply Z.eqb_eq in He as ->. cbn [read_by] in *.
    rewrite app_nil_r in *.
    destruct (under_way_write bs w i p n cmd bo Hu Hw Hop) as (s' & _ & H0 & Hn & Hle & Hmore & Hlast).
    destruct (Z.eq_dec (s' + n) T) as [Heq|Hne].
    + right. destruct (Hlast Heq w' H) as [Hc Hb]. split; [done|]. split; [done|]. destruct Hpre as [rest Hrest].
      assert (zlen R = zlen bs + zlen rest) as Hz by (by rewrite Hrest, zlen_app).
      pose proof (zlen_nonneg rest). rewrite (zlen_0 rest), app_nil_r in Hrest by lia. done.
    + assert (zlen bs <= T) by (destruct Hpre as [rest ->]; rewrite zlen_app; pose proof (zlen_nonneg rest); lia).
      destruct Hmore as (w1 & Hw1 & Hu1); [lia|]. left. congruence.
Qed.

Lemma exchange_progress bs w : exchange c b T w0 bs w -> bs `prefix_of` R -> progress bs w.
Proof.
  induction 1 as [|bs w i op o w' Hex IH Hlt Hop Hm Ho Hst]; intros Hpre.
  { left. split; [|done]. destruct Hstart as (op & v & Hs & Hq). by exists op, v. }
  destruct IH as [[Hs ->]|[Hu|(Hc & _)]]; [etransitivity; [by apply prefix_app_r|done]|..].
  - destruct (progress_sending w i op o w' Hs Hop Hm Ho Hst) as [-> Hp]. done.
  - eapply progress_relaying; eauto. by eapply reachable_wf, exchange_reachable.
  - rewrite Hc, zlen_app in Hlt. lia.
Qed.

(** *** What the two ends see *)
Lemma sees_outstanding w v : sees w v -> v_ops v <> [] -> exists op, op ∈ in_flight w /\ mine c b op = true.
Proof.
  intros Hs Hne. destruct (v_ops v) as [|op ops] eqn:Hv; [done|]. exists op.
  assert (op ∈ filter (fun op => mine c b op = true) (in_flight w)) as [Hm Hin]%list_elem_of_filter
    by (rewrite (sees_ops _ _ _ _ _ Hs), Hv; set_solver). done.
Qed.

Lemma being_sent_served w :
  being_sent w -> client_output c w = base /\ backend_output b w = sent /\
  exists op, op ∈ in_flight w /\ mine c b op = true.
Proof.
  intros (op & v & Hs & Hq & _). pose proof (qu_out _ _ _ _ _ _ _ _ _ _ _ _ Hq) as [Ho Hb].
  rewrite (sees_out _ _ _ _ _ Hs), (sees_sent _ _ _ _ _ Hs). split; [done|]. split; [done|].
  apply (sees_outstanding w v Hs). intros Hnil. pose proof (qu_ops _ _ _ _ _ _ _ _ _ _ _ _ Hq) as Hops.
  rewrite Hnil in Hops. by apply Permutation_nil_l in Hops.
Qed.

Lemma under_way_served bs w :
  under_way bs w -> bs `prefix_of` R ->
  exists out, client_output c w = base ++ out /\ backend_output b w = sent ++ Q /\ out `prefix_of` bs /\
    exists op, op ∈ in_flight w /\ mine c b op = true.
Proof.
  intros (rd & wr & s & f & v & Hs & Hr & (_ & Hprog & _) & Hlt & _) Hpre.
  pose proof (relay_bounds _ _ _ _ _ _ _ _ _ _ _ _ _ _ _ _ Hr) as Hb.
  pose proof (re_out _ _ _ _ _ _ _ _ _ _ _ _ _ _ _ _ Hr) as [Ho Hq].
  exists (slice R 0 s). rewrite (sees_out _ _ _ _ _ Hs), (sees_sent _ _ _ _ _ Hs).
  split; [done|]. split; [done|]. split.
  - destruct Hpre as [rest Hrest]. unfold slice. rewrite Z.sub_0_r, Hrest. change (Z.to_nat 0) with O.
    rewrite drop_0, take_app_le by (unfold zlen in *; lia). apply prefix_take.
  - apply (sees_outstanding w v Hs). intros Hnil.
    pose proof (re_ops _ _ _ _ _ _ _ _ _ _ _ _ _ _ _ _ Hr) as Hops. rewrite Hnil in Hops.
    apply Permutation_nil_l in Hops. destruct (Hprog Hlt) as [->|[p ->]]; [done|].
    symmetry in Hops. by apply app_nil in Hops as [_ ?].
Qed.

Lemma under_way_handled bs w out :
  under_way bs w -> wf w -> client_output c w = base ++ out ->
  forall i op o, in_flight w !! i = Some op -> mine c b op = true -> succeeds R bs out op o ->
    exists w', handle (EvComplete i o) w = Ok (tt, w').
Proof.
  intros Hu Hw Hout i op o Hop Hm Ho. pose proof (under_way_ops bs w i op Hu Hop Hm) as [(off & size & ->)|(p & n & bo & ->)].
  - destruct o; try by destruct Ho. destruct Ho as ((Hne & Hp & Hsz) & _).
    destruct (under_way_read bs w i off size bs0 Hu Hop Hne Hp Hsz) as (w' & H & _). by exists w'.
  - destruct o as [| | |m|]; try by destruct Ho. destruct Ho as [-> Hn].
    destruct (under_way_write bs w i p n cmd bo Hu Hw Hop) as (s & Hs & H0 & Hn0 & Hle & Hmore & _).
    rewrite Hs in Hout. apply app_inv_head in Hout as <-.
    pose proof Hu as (rd & wr & s1 & f & v & _ & Hr & _). pose proof (relay_bounds _ _ _ _ _ _ _ _ _ _ _ _ _ _ _ _ Hr).
    rewrite zlen_slice in Hn by lia. destruct Hmore as (w' & H1 & _); [lia|]. by exists w'.
Qed.
End exchanges.

(** C5: a single-key request is served.  Take a reachable state in which the query of the
    client's first command, received whole, has been handed to a backend connection
    (which may not be connected yet) whose buffer is empty and on which nothing else is
    outstanding, and a reply of the server to such a command (a redis status, error or
    integer line, bulk string or nil; a memcached line) of less than 2^31 bytes whose
    FIRST LINE IS SHORTER THAN TWO THIRDS OF THE CONNECTION'S BUFFER.  (The bound is
    needed: with a longer line the connection can stall,
    [long_reply_line_stalls].)  Let the operations on the connection and the writes to
    the client succeed in any order, the reply being read in pieces of any size; behind
    its first line it may be larger than the buffer.  Then the backend is sent the query
    and nothing else, before anything is read from it; what the client is sent is a prefix
    of what has been read; and as long as it is not all of the reply, an operation of the
    exchange is outstanding, and its success is handled without a fault (the last write to
    the client, which ends the command, excepted: other commands may wait behind it). *)
Theorem request_is_served c cmd b protocol h t Q config w0 bs w :
  server_reply protocol h t -> zlen (whole h t) < 2 ^ 31 -> reachable config w0 ->
  query_started c cmd b protocol (zlen h) Q w0 ->
  exchange c b (zlen (whole h t)) w0 bs w -> bs `prefix_of` whole h t ->
  exists out, client_output c w = client_output c w0 ++ out /\ out `prefix_of` bs /\
    (backend_output b w = backend_output b w0 ++ Q \/ backend_output b w = backend_output b w0 /\ bs = []) /\
    (out = whole h t \/
     (exists op, op ∈ in_flight w /\ mine c b op = true) /\
     (forall i op o, in_flight w !! i = Some op -> mine c b op = true -> succeeds (whole h t) bs out op o ->
        exists w', handle (EvComplete i o) w = Ok (tt, w'))).
Proof.
  intros Hrep Hsmall Hw0 [x Hst] Hex Hpre.
  destruct (exchange_progress c cmd b protocol h t Q Hrep Hsmall config w0 Hw0 x Hst bs w Hex Hpre)
    as [[Hs ->]|[Hu|(Hc & Hb & ->)]].
  - exists []. destruct (being_sent_served c cmd b protocol h t Q Hrep Hsmall config w0 Hw0 x Hst w Hs) as (Hc & Hb & Hop).
    rewrite app_nil_r. split; [done|]. split; [done|]. split; [by right|]. right. split; [done|].
    intros i op o Hi Hm Ho.
    destruct (being_sent_handled c cmd b protocol h t Q w0 x w i op Hs Hi Hm) as [(p & -> & w' & H & _)|(p & -> & w' & H & _)];
      destruct Ho as [Ho _]; destruct o; try done; cbn in Ho; subst; eauto.
  - destruct (under_way_served c cmd b protocol h t Q Hrep Hsmall config w0 Hw0 x Hst bs w Hu Hpre) as (out & Ho & Hb & Hp & Hop).
    exists out. split; [done|]. split; [done|]. split; [by left|]. right. split; [done|].
    apply (under_way_handled c cmd b protocol h t Q Hrep Hsmall config w0 Hw0 x Hst bs w out Hu); [|done].
    by eapply reachable_wf, (exchange_reachable c b h t config w0 Hw0).
  - exists (whole h t). split; [done|]. split; [done|]. split; by left.
Qed.

(** A redis [get] on a new connection; the reply comes in two pieces, and the first
    one is being written to the client when the second arrives. *)
Definition get_started : list event :=
  accepted ++ [EvComplete 0 (Received (enc_array [str "get"; str "k1"]))].
Definition answered : list event :=
  [EvComplete 0 Connected; EvComplete 0 (Sent 21);
   EvComplete 0 (Received (str "$5" ++ crlf ++ str "va")); EvComplete 1 (Received (str "lue" ++ crlf));
   EvComplete 0 (Sent 6); EvComplete 0 (Sent 5)].
Definition answering (n : nat) : World := after (get_started ++ take n answered).
Definition value_reply : bytes := whole (str "$5" ++ [CR]) (str "value" ++ crlf).

Lemma answering_started : query_started 0 2 1 REDIS 3 (enc_array [str "get"; str "k1"]) (answering 0).
Proof.
  eexists. exists (BackendConnect 1 (InClient 0 0) 21). eexists (mkView _ _ _ _ _ _ _).
  split; [split; vm_compute; reflexivity|].
  split; [| | | | | | | | | | | | |do 2 eexists|reflexivity| |exists 0; split; [by left|]|reflexivity| |reflexivity]; cbn -[client_output backend_output];
    try reflexivity.
  - split; [reflexivity|left|reflexivity].
  - split; [split|]; by_compute.
  - split; [reflexivity|by_compute].
  - by_compute.
  - by_compute.
Qed.

Lemma answering_exchange : exchange 0 1 11 (answering 0) value_reply (answering 5).
Proof.
  change value_reply with (((([] ++ read_by Connected) ++ read_by (Sent 21)) ++
    read_by (Received (str "$5" ++ crlf ++ str "va"))) ++ read_by (Received (str "lue" ++ crlf))
    ++ read_by (Sent 6)).
  rewrite app_assoc.
  eapply (exchange_step _ _ _ _ _ (answering 4) 0); [|by_compute..].
  eapply (exchange_step _ _ _ _ _ (answering 3) 1); [|by_compute..].
  eapply (exchange_step _ _ _ _ _ (answering 2) 0); [|by_compute..].
  eapply (exchange_step _ _ _ _ _ (answering 1) 0); [|by_compute..].
  eapply (exchange_step _ _ _ _ _ (answering 0) 0); [constructor|by_compute..].
Qed.

Lemma request_is_served_witness :
  exists out, client_output 0 (answering 5) = client_output 0 (answering 0) ++ out /\
    out `prefix_of` value_reply /\
    backend_output 1 (answering 5) = backend_output 1 (answering 0) ++ enc_array [str "get"; str "k1"].
Proof.
  destruct (request_is_served 0 2 1 REDIS (str "$5" ++ [CR]) (str "value" ++ crlf)
    (enc_array [str "get"; str "k1"]) small_config (answering 0) value_reply (answering 5))
    as (out & Ho & Hp & [Hb|[_ Hb]] & _).
  - exact (bulk_reply (str "value") eq_refl).
  - reflexivity.
  - apply after_reachable.
  - exact answering_started.
  - exact answering_exchange.
  - reflexivity.
  - exists out. split; [exact Ho|]. split; [exact Hp|exact Hb].
  - discriminate Hb.
Defined.
