(* ===== verification/Stall.v ===== *)
(** * A connection that stalls

    [TryReadMoreReply] reads on only while [has_much_free_space()] holds, and as long as
    the first line of a reply is not complete nothing is parsed and nothing can be sent
    on.  A reply line that fills two thirds of the buffer before its line feed arrives
    therefore stops the connection: nothing is read, nothing is written, and the timers of
    the connection are cancelled. *)

From S2P Require Import Prelude CString StdMap ErrorCode ReadBuffer Allocator Config.
From S2P Require Import RedisProtocol KeyDistributer KeyLocator QueryParser BackendConn.
From S2P Require Import ReplyParser World BackendPool Lifetime ConnIO Commands CommandQuery.
From S2P Require Import CommandReply Order Worker Logic QueryLogic ReplyLogic Invariants Scenario.
From S2P Require Import ReplyTheorems ReplyStream Exchange Forward.

Section stall.
Context (c cmd b : Z) (protocol : ProtocolType) (h t : bytes).
Context (Hrep : server_reply protocol h t) (Hsmall : zlen (whole h t) < 2 ^ 31).

(** The first command of client [c] waits for the reply from [b]: its query has been sent,
    the read is outstanding, nothing has been received. *)
Record awaiting (size : Z) (v : view) : Prop := {
  aw_linked : linked c cmd b v;
  aw_first : head (active_cmd_queue_ (v_client v)) = Some cmd;
  aw_simple : simple_state (command_state (v_command v)) = true;
  aw_protocol : cmd_protocol_ (v_command v) = protocol;
  aw_alive : aborted_ (v_backend v) = false;
  aw_callback : callback_ (v_backend v) = Some cmd;
  aw_complete : reply_recv_complete_ (v_backend v) = false;
  aw_sent : write_timer_canceled_ (v_backend v) = true;
  aw_buffer : exists data, buffer_ (v_backend v) = mkReadBuffer data size 0 0 0 1 /\ zlen data = size /\ 0 < size < 2 ^ 31;
  aw_ops : v_ops v ≡ₚ [BackendRead b 0 size]
}.

(** What is left of it *)
Record stalled (v v' : view) : Prop := {
  sl_linked : linked c cmd b v';
  sl_ops : v_ops v' = [];
  sl_out : v_out v' = v_out v /\ v_sent v' = v_sent v;
  sl_client : v_client v' = v_client v /\ v_command v' = v_command v;
  sl_timers : read_timer_canceled_ (v_backend v') = true /\ write_timer_canceled_ (v_backend v') = true;
  sl_incomplete : aborted_ (v_backend v') = false /\ reply_recv_complete_ (v_backend v') = false
}.

Lemma awaiting_stream size v : awaiting size v -> stream h t 0 0 0 (v_backend v).
Proof.
  intros [_ _ _ _ _ _ Hc _ (data & Hb & Hl & Hs) _]. pose proof (zlen_whole h t) as HT.
  pose proof (zlen_nonneg h). pose proof (zlen_nonneg t).
  assert ((0 =? zlen (whole h t)) = false) as HE by (apply Z.eqb_neq; lia).
  split; rewrite ?Hb; cbn; try lia; try done.
  - split; cbn; lia.
  - rewrite (proj2 (Z.ltb_ge _ _)) by lia. done.
  - rewrite Hc. symmetry. exact HE.
Qed.

Lemma awaiting_read size v chunk :
  awaiting size v -> chunk <> [] -> chunk `prefix_of` h -> zlen chunk <= size -> 2 * size <= 3 * zlen chunk ->
  exists v', does c cmd b (complete_op (BackendRead b 0 size) (Received chunk)) (u_ops [] v) tt v' /\ stalled v v'.
Proof.
  intros Ha Hne [h' Hh] Hfit Hmuch. pose proof (awaiting_stream size v Ha) as Hs0.
  destruct Ha as [A1 A2 A3 A4 A5 A6 A7 A8 (data & Hb & Hl & Hsz) A10]. set (x := v_backend v) in *.
  assert (zlen chunk <= zlen h) as Hch by (rewrite Hh, zlen_app; pose proof (zlen_nonneg h'); lia).
  destruct (stream_receive h t 0 0 x chunk Hs0 Hne) as (m & Hm & Hlt & Hlen & _ & Hs1).
  { rewrite Z2Nat.inj_0, drop_0. unfold whole. rewrite Hh, <- app_assoc. by apply prefix_app_r. }
  { rewrite (free_space_size_eq _ (st_wf _ _ _ _ _ _ Hs0)), Hb. cbn. lia. }
  set (x1 := BC.set_buffer (RB.update_received_bytes (RB.set_data (buffer_ x) m) (zlen chunk)) x) in *.
  destruct (stream_unlock h t _ _ _ x1 Hs1) as (buf & Hd & Hs2 & _); [lia|cbn; rewrite Hb; cbn; lia|].
  set (x2 := BC.set_buffer buf (BC.set_has_read_some_reply true
      (BC.set_is_reading_reply false (BC.set_read_timer_canceled true x)))).
  assert (stream h t (0 + zlen chunk) 0 0 x2) as Hs3 by (by apply (stream_flags h t _ _ _ _ _ Hs2)).
  assert (ParseSimpleReply protocol x2 = Ok (true, x2)) as Hp.
  { pose proof (stream_received h t Hsmall (0 + zlen chunk) 0 0 x2 Hs3 Hlt (zlen_nonneg h)) as Hr.
    rewrite (rec_head _ _ _ (simple_recognises protocol h t Hrep) 0 0 (0 + zlen chunk) x2 Hr (zlen_nonneg h)).
    by rewrite (proj2 (Z.ltb_ge _ _)) by lia. }
  pose proof (block_dec_lock _ _ Hd) as [_ Hsz1]. cbn in Hsz1. rewrite Hb in Hsz1. cbn in Hsz1.
  assert (RB.unprocessed_bytes (buffer_ x2) = 0) as Hun.
  { pose proof (st_parsed _ _ _ _ _ _ Hs3) as Hpa. destruct (st_head _ _ _ _ _ _ Hs3 (zlen_nonneg h)) as [_ Hpo].
    pose proof (wf_bounds _ (st_wf _ _ _ _ _ _ Hs3)). rewrite (unprocessed_bytes_eq _ (st_wf _ _ _ _ _ _ Hs3)).
    rewrite (proj2 (Z.ltb_ge _ _)) in Hpa by (apply zlen_nonneg).
    change (parsed_offset_ (buffer_ x2) - processed_offset_ (buffer_ x2) = 0) in Hpa. lia. }
  assert (RB.has_much_free_space (buffer_ x2) = false) as Hfull.
  { pose proof (stream_length _ _ _ _ _ _ Hs3) as Hlen3. destruct (st_head _ _ _ _ _ _ Hs3 (zlen_nonneg h)) as [_ Hpo].
    unfold RB.has_much_free_space. cbn in Hlen3, Hpo |- *. rewrite Hsz1, !u64_small by lia. apply Z.ltb_ge. lia. }
  exists (u_backend x2 (u_ops [] v)). split.
  - unfold complete_op. apply does_holding; [right; by right|by destruct A1|].
    assert (received_offset_ (buffer_ x) = 0) as Hr0 by (by rewrite Hb). rewrite Hr0 in Hm.
    eapply does_bind; [apply does_on_backend_buffer; cbn; fold x; by rewrite Hm|].
    unfold Backend_HandleRead. does_step. cbn. fold x. rewrite A5.
    do 3 does_step. do 2 does_step.
    eapply does_bind; [by apply does_on_backend_buffer|].
    eapply does_bind; [apply does_on_backend_buffer; exact Hd|].
    apply (does_reply_received c cmd b protocol _ (u_backend x2 (u_ops [] v)) x2);
      [by destruct A1|done|done|done|done|exact Hp| | |by destruct A1].
    + apply does_TryWriteReply_skip. by right.
    + pose proof (does_TryReadMoreReply c cmd b (u_backend x2 (u_ops [] v))) as Hrd. cbn -[x2] in Hrd.
      rewrite Hfull, orb_true_r in Hrd. exact Hrd.
  - split; try done; by destruct A1.
Qed.
End stall.

(** C37: a reply line that is too long leaves its request with nothing to wait for.  Take a state in
    which a single-key command, the first of its client, waits for its reply on a connection
    that was not aborted: its query has been sent, the read into an empty buffer is outstanding and is the only operation on the connection or write to
    the client.  Let the read deliver a beginning of the first line of a proper reply that
    fills at least two thirds of the buffer but does not have the line feed yet (the reply and
    the buffer have less than 2^31 bytes).  It is
    handled without a fault, and afterwards no operation on the connection and no write to
    the client is outstanding, both timers of the connection are cancelled, nothing has been
    sent to the client, and the command is still the first of its client, unanswered. *)
Theorem long_reply_line_stalls c cmd b protocol h t size v w i chunk :
  server_reply protocol h t -> zlen (whole h t) < 2 ^ 31 ->
  sees c cmd b w v -> awaiting c cmd b protocol size v -> in_flight w !! i = Some (BackendRead b 0 size) ->
  chunk <> [] -> chunk `prefix_of` h -> zlen chunk <= size -> 2 * size <= 3 * zlen chunk ->
  exists w' x, handle (EvComplete i (Received chunk)) w = Ok (tt, w') /\
    Forall (fun op => mine c b op = false) (in_flight w') /\
    backends w' !! b = Some x /\ read_timer_canceled_ x = true /\ write_timer_canceled_ x = true /\
    client_output c w' = client_output c w /\
    clients w' !! c = clients w !! c /\ commands w' !! cmd = commands w !! cmd /\
    head (active_cmd_queue_ (v_client v)) = Some cmd.
Proof.
  intros Hrep Hsmall Hs Ha Hi Hne Hpre Hfit Hmuch.
  destruct (awaiting_read c cmd b protocol h t Hrep Hsmall size v chunk Ha Hne Hpre Hfit Hmuch) as (v' & Hd & [_ S2 S3 S4 S5 _]).
  destruct (handle_complete c cmd b w v i _ (Received chunk) [] v' Hs Hi (mine_read c b 0 size) (aw_ops _ _ _ _ _ _ Ha) Hd)
    as (w' & H & [W1 W2 W3 W4 W5 _ _] & _).
  exists w', (v_backend v'). split; [exact H|]. split.
  { rewrite S2 in W4. apply Permutation_nil_r in W4. apply Forall_forall. intros op Hin. apply not_true_iff_false. intros Hm.
    apply (not_elem_of_nil op). rewrite <- W4. by apply list_elem_of_filter. }
  split; [exact W3|]. split; [apply S5|]. split; [apply S5|].
  split; [rewrite W5, (proj1 S3); symmetry; apply Hs|].
  split; [rewrite W1, (proj1 S4); symmetry; apply Hs|]. split; [rewrite W2, (proj2 S4); symmetry; apply Hs|].
  exact (aw_first _ _ _ _ _ _ Ha).
Qed.

(** A redis [get] on a connection with a buffer of 128 bytes; the reply begins with 91
    bytes of a status line. *)
Definition long_line : bytes := str "+" ++ replicate 90 "x"%char.

Lemma long_reply_line_stalls_witness :
  exists w' x, handle (EvComplete 0 (Received long_line)) (answering 2) = Ok (tt, w') /\
    Forall (fun op => mine 0 1 op = false) (in_flight w') /\
    backends w' !! 1 = Some x /\ read_timer_canceled_ x = true /\ write_timer_canceled_ x = true /\
    client_output 0 w' = client_output 0 (answering 2) /\ in_flight w' = [] /\ armed w' = [].
Proof.
  destruct (long_reply_line_stalls 0 2 1 REDIS (long_line ++ [CR]) [] 128
    (mkView (default (mkClientConnection (RB.ctor [] 0) 0 false [] false false false) (clients (answering 2) !! 0))
       (default (mkCommand 0 REDIS None false false CRedisBasic) (commands (answering 2) !! 2))
       (default (BC.ctor 0 [] 0 any_endpoint) (backends (answering 2) !! 1))
       [BackendRead 1 0 128] (client_output 0 (answering 2)) (backend_output 1 (answering 2))
       (aside_of 0 (answering 2)))
    (answering 2) 0 long_line) as (w' & x & H & Hops & Hx & Hr & Hw & Ho & _).
  - apply line_reply; decide_goal.
  - reflexivity.
  - split; vm_compute; reflexivity.
  - split; try (vm_compute; reflexivity).
    + split; [vm_compute; reflexivity| |vm_compute; reflexivity]. vm_compute. left.
    + eexists. split; [vm_compute; reflexivity|]. by_compute.
  - vm_compute. reflexivity.
  - discriminate.
  - by apply prefix_app_r.
  - by_compute.
  - by_compute.
  - exists w', x. split; [exact H|]. split; [exact Hops|]. split; [exact Hx|]. split; [exact Hr|]. split; [exact Hw|].
    split; [exact Ho|]. vm_compute in H. injection H as <-. split; reflexivity.
Defined.
