(* ===== verification/Request.v ===== *)
(** * A request arrives

    From the bytes of a single-key redis command in a client's socket to the query
    on its way to a backend: the read completes, the command is parsed and created,
    its key is located, a connection is taken from the pool and the query handed to
    it.  [Forward] follows it from there. *)

From S2P Require Import Prelude CString StdMap ErrorCode ReadBuffer Allocator Config.
From S2P Require Import RedisProtocol KeyDistributer KeyLocator QueryParser BackendConn.
From S2P Require Import ReplyParser World BackendPool Lifetime ConnIO Commands CommandQuery.
From S2P Require Import CommandReply Order Worker Logic QueryLogic ReplyLogic Invariants Scenario.
From S2P Require Import PoolInvariant ReplyTheorems ReplyStream Exchange Forward.

(** ** Handlers that touch one client only *)

(** What the part of a handler that concerns only a client leaves alone *)
Record near (w w' : World) : Prop := {
  nr_config : config w' = config w;
  nr_allocator : allocator_ w' = allocator_ w;
  nr_heap : heap_next w' = heap_next w;
  nr_uninit : uninit w' = uninit w;
  nr_locator : key_locator_ w' = key_locator_ w;
  nr_idle : conn_map_ w' = conn_map_ w;
  nr_active : active_conns_ w' = active_conns_ w;
  nr_next_id : next_id w' = next_id w;
  nr_commands : commands w' = commands w;
  nr_backends : backends w' = backends w;
  nr_in_flight : in_flight w' = in_flight w;
  nr_holders : holders w' = holders w;
  nr_trace : trace w' = trace w
}.
#[global] Instance near_preorder : PreOrder near.
Proof. split; [by split|]. intros w1 w2 w3 [] []. split; congruence. Qed.

Section client.
Context (c : Z).

Definition doesc {A} (m : M A) (x : ClientConnection) (a : A) (x' : ClientConnection) : Prop :=
  forall w, clients w !! c = Some x ->
    exists w', m w = Ok (a, w') /\ clients w' !! c = Some x' /\ near w w'.

Lemma doesc_ret {A} (a : A) x : doesc (mret a) x a x.
Proof. intros w Hx. by exists w. Qed.
Lemma doesc_bind {A B} (m : M A) (k : A -> M B) x a x1 r x2 :
  doesc m x a x1 -> doesc (k a) x1 r x2 -> doesc (m ≫= k) x r x2.
Proof.
  intros Hm Hk w Hx. destruct (Hm w Hx) as (w1 & H1 & Hx1 & Hn1). destruct (Hk w1 Hx1) as (w2 & H2 & Hx2 & Hn2).
  exists w2. split; [unfold mbind, M_bind; by rewrite H1|]. split; [done|by etransitivity].
Qed.
Lemma doesc_lift {A} (r : result A) a x : r = Ok a -> doesc (lift r) x a x.
Proof. intros -> w Hx. by exists w. Qed.
Lemma doesc_frame f x : (forall w, clients (f w) = clients w /\ near w (f w)) -> doesc (modify f) x tt x.
Proof. intros Hf w Hx. destruct (Hf w) as [Hc Hn]. exists (f w). by rewrite Hc. Qed.
Lemma doesc_cancel_timer t x : doesc (cancel_timer t) x tt x.
Proof. by apply doesc_frame. Qed.
Lemma doesc_on_stats f x : doesc (on_stats f) x tt x.
Proof. by apply doesc_frame. Qed.
Lemma doesc_client x : doesc (client c) x x x.
Proof. intros w Hx. exists w. split; [|done]. unfold client, get, mbind, M_bind. by rewrite Hx. Qed.
Lemma doesc_set_client y x : doesc (set_client c y) x tt y.
Proof. intros w Hx. eexists. split; [done|]. split; [apply lookup_insert_eq|done]. Qed.
Lemma doesc_update_client f x : doesc (update_client c f) x tt (f x).
Proof. eapply doesc_bind; [apply doesc_client|apply doesc_set_client]. Qed.
Lemma doesc_client_buffer x : doesc (client_buffer c) x (cl_buffer_ x) x.
Proof. eapply doesc_bind; [apply doesc_client|apply doesc_ret]. Qed.
Lemma doesc_on_client_buffer f buf x :
  f (cl_buffer_ x) = Ok buf -> doesc (on_client_buffer c f) x tt (l_buffer buf x).
Proof.
  intros Hf. eapply doesc_bind; [apply doesc_client|]. eapply doesc_bind; [by apply doesc_lift|].
  apply doesc_set_client.
Qed.

(** [m] comes to what is left to do, [m']. *)
Definition leads {A} (m : M A) (x : ClientConnection) (m' : M A) (x' : ClientConnection) : Prop :=
  forall w, clients w !! c = Some x ->
    exists w', m w = m' w' /\ clients w' !! c = Some x' /\ near w w'.

Lemma leads_here {A} (m : M A) x : leads m x m x.
Proof. intros w Hx. by exists w. Qed.
Lemma leads_step {A B} (m : M A) (k : A -> M B) x a x1 m' x' :
  doesc m x a x1 -> leads (k a) x1 m' x' -> leads (m ≫= k) x m' x'.
Proof.
  intros Hm Hk w Hx. destruct (Hm w Hx) as (w1 & H1 & Hx1 & Hn1). destruct (Hk w1 Hx1) as (w2 & H2 & Hx2 & Hn2).
  exists w2. split; [unfold mbind, M_bind; by rewrite H1|]. split; [done|by etransitivity].
Qed.
End client.

(** ** The command is created *)
Lemma lift_step {A B} (r : result A) (k : A -> M B) a w : r = Ok a -> (lift r ≫= k) w = k a w.
Proof. by intros ->. Qed.
Lemma bind_step {A B} (m : M A) (k : A -> M B) w a w' : m w = Ok (a, w') -> (m ≫= k) w = k a w'.
Proof. intros H. unfold mbind, M_bind. by rewrite H. Qed.

Lemma strncmp_star l : strncmp_eq (str "*" ++ l) (str "*") 1 = Ok true.
Proof. cbn. by destruct l. Qed.

Section creation.
Context (name key : bytes) (more : list bytes) (rest : bytes).
Abbreviation args := (name :: key :: more).
Abbreviation Q := (enc_array args).
Context (Hname : name_type (tolower <$> name) redis_command_names RCT_UNSUPPORTED = RCT_BASIC).
Context (Hnul : NUL ∈ rest) (Hsmall : zlen Q < 2 ^ 30).
Abbreviation m := (Q ++ rest).

Definition name_at : Z := zlen (array_header (zlen args)).
Definition key_at : Z := name_at + zlen (enc_bulk name).
(** What stands before and after the key in the storage *)
Definition before_key : bytes := array_header (zlen args) ++ enc_bulk name ++ bulk_header (zlen key).
Definition after_key : bytes := crlf ++ enc_items more ++ rest.

Lemma request_layout : m = before_key ++ key ++ after_key.
Proof.
  unfold before_key, after_key. rewrite enc_array_split, !enc_items_cons, (enc_bulk_header key).
  by rewrite <- !app_assoc.
Qed.

Lemma request_sizes :
  0 <= name_at /\ zlen (enc_bulk name) < 2 ^ 30 /\ zlen (enc_bulk key) < 2 ^ 30 /\ name_at <= key_at.
Proof.
  pose proof Hsmall as Hs. rewrite enc_array_split, !enc_items_cons, !zlen_app in Hs.
  pose proof (zlen_nonneg (array_header (zlen args))). pose proof (zlen_nonneg (enc_items more)).
  pose proof (zlen_nonneg (enc_bulk name)). pose proof (zlen_nonneg (enc_bulk key)).
  unfold key_at, name_at. lia.
Qed.

Lemma name_bulk_at : at_ptr m name_at = enc_bulk name ++ (enc_bulk key ++ enc_items more ++ rest).
Proof.
  rewrite enc_array_split, !enc_items_cons, <- !app_assoc. unfold name_at. apply at_ptr_app.
Qed.
Lemma key_bulk_at : at_ptr m key_at = enc_bulk key ++ (enc_items more ++ rest).
Proof.
  pose proof request_sizes as (H0 & _). unfold key_at. by apply at_ptr_app_skip; [|apply name_bulk_at].
Qed.

Lemma request_starts_redis : exists lf, memchr m 0 LF (zlen Q) = Ok (Some lf).
Proof.
  assert (Q = whole (str "*" ++ dec (zlen args) ++ [CR]) (enc_items args)) as He
    by (rewrite enc_array_split; unfold array_header, whole; by rewrite <- !app_assoc).
  pose proof (zlen_nonneg rest).
  rewrite (memchr_line m 0 (str "*" ++ dec (zlen args) ++ [CR]) (enc_items args) (zlen Q)).
  - rewrite (proj2 (Z.ltb_lt _ _)) by (rewrite He, zlen_whole; pose proof (zlen_nonneg (enc_items args)); lia). eauto.
  - done.
  - rewrite <- He. pose proof (zlen_nonneg Q). lia.
  - rewrite zlen_app. lia.
  - apply not_elem_of_app. split; [decide_goal|]. apply not_elem_of_app. split; [|decide_goal].
    apply digits_no_special; [apply dec_digits; apply zlen_nonneg|done].
  - rewrite <- He. unfold slice, zlen. rewrite Z.add_0_l, Z.sub_0_r, Nat2Z.id. change (Z.to_nat 0) with O.
    rewrite drop_0. rewrite take_app_length. symmetry. apply firstn_all.
Qed.

(** The checks of [CreateCommand] lead to the constructor. *)
Lemma CreateCommand_basic c x w :
  clients w !! c = Some x -> data_ (cl_buffer_ x) = m ->
  CreateCommand c 0 (zlen Q) w =
  ((ep ← locate_key m (zlen before_key) (zlen key) REDIS;
    b ← Allocate ep;
    cmd ← new_command c REDIS (Some b) CRedisBasic;
    mret (zlen Q, Some cmd)) : M (Z * option Z)) w.
Proof.
  intros Hx Hm. destruct request_starts_redis as [lf Hlf]. pose proof request_sizes as (H0 & Hn & Hk & H1).
  pose proof name_bulk_at as Hna. pose proof key_bulk_at as Hka.
  pose proof (zlen_nonneg more) as Hmore.
  pose proof (BulkArray_ctor_complete m 0 args rest (zlen Q) ltac:(done) (at_ptr_0 _) ltac:(lia)) as Hba.
  destruct (BulkArray_complete_methods m 0 args rest) as (Htb & Hc & Ht); [done|apply at_ptr_0|done|done|done|].
  set (ba := mkBulkArray _ _ _) in Hba, Htb, Hc, Ht.
  assert (BulkArray_at ba 0 = Ok (mkBulk name_at (zlen (enc_bulk name)))) as Hb0 by done.
  assert (BulkArray_at ba 1 = Ok (mkBulk key_at (zlen (enc_bulk key)))) as Hb1 by done.
  assert (BulkArray_present_bulks ba =? 0 = false) as Hpb.
  { apply Z.eqb_neq. unfold ba, BulkArray_present_bulks. cbn [items_ bulk_items]. rewrite !zlen_cons.
    match goal with |- context [bulk_items ?p more] => pose proof (zlen_nonneg (bulk_items p more)) end. lia. }
  clearbody ba.
  assert (strncmp_eq m (str "*") 1 = Ok true) as Hstar
    by (rewrite enc_array_split; unfold array_header; rewrite <- !app_assoc; apply strncmp_star).
  pose proof (complete_absent_size m name_at name _ H0 Hn Hna) as Hab.
  assert (GetRedisCommandType m (mkBulk name_at (zlen (enc_bulk name))) = Ok RCT_BASIC) as Hty.
  { unfold GetRedisCommandType. rewrite (complete_payload m name_at name _ H0 Hn Hna) by set_solver.
    rewrite bind_Ok_l. by rewrite Hname. }
  pose proof (Bulk_payload_data_header m key_at ltac:(lia) _ (enc_bulk_small key Hk) _ (zlen (enc_bulk key))
    (enc_bulk_at m key_at key _ Hka)) as Hkd.
  pose proof (Bulk_payload_size_header m key_at ltac:(lia) _ (enc_bulk_small key Hk) _ (zlen (enc_bulk key))
    (enc_bulk_at m key_at key _ Hka) ltac:(set_solver)) as Hks.
  unfold CreateCommand. rewrite (bind_step get _ w w w) by done.
  rewrite (bind_step (client c) _ w x w) by (unfold client, get, lift, mbind, M_bind; by rewrite Hx).
  rewrite Hm, (lift_step _ _ _ _ Hlf). cbv zeta beta iota. rewrite at_ptr_0.
  rewrite (lift_step _ _ _ _ Hstar). unfold redis_command.
  rewrite (lift_step _ _ _ _ Hba), (lift_step _ _ _ _ Htb).
  rewrite (proj2 (Z.eqb_neq (zlen args) 0)) by (rewrite !zlen_cons; lia). rewrite Hpb.
  rewrite (lift_step _ _ _ _ Hb0), (lift_step _ _ _ _ Hab). cbn [Z.ltb Z.compare].
  rewrite (lift_step _ _ _ _ Hty), (lift_step _ _ _ _ Hc). cbn [negb].
  unfold RedisBasicCommand_ctor, locate_bulk, mbind, M_bind, lift. rewrite Hb1, Hkd, Hks, Ht.
  replace (key_at + zlen (bulk_header (zlen key))) with (zlen before_key)
    by (unfold before_key, key_at, name_at; rewrite !zlen_app; lia).
  destruct (locate_key _ _ _ _ _) as [[ep w1]|]; [|done]. destruct (Allocate ep w1) as [[b w2]|]; [|done].
  by destruct (new_command _ _ _ _ w2) as [[cmd w3]|].
Qed.
End creation.

(** ** A connection is taken from the pool *)

(** What [Allocate] leaves alone *)
Record pool_step (w w' : World) : Prop := {
  ps_config : config w' = config w;
  ps_locator : key_locator_ w' = key_locator_ w;
  ps_clients : clients w' = clients w;
  ps_commands : commands w' = commands w;
  ps_in_flight : in_flight w' = in_flight w;
  ps_holders : holders w' = holders w;
  ps_trace : trace w' = trace w
}.

(** Ready for a query, with room for [head_size] bytes and as much again by half *)
Record clean (head_size : Z) (y : BackendConn) : Prop := {
  cn_alive : aborted_ y = false;
  cn_reading : is_reading_reply_ y = false;
  cn_complete : reply_recv_complete_ y = false;
  cn_recycle : no_recycle_ y = false;
  cn_buffer : exists data size, buffer_ y = mkReadBuffer data size 0 0 0 0 /\
    zlen data = size /\ 0 < size < 2 ^ 31 /\ 3 * head_size < 2 * size
}.

(** The connection [b] that [Allocate] will hand out for [ep]: the longest idle one,
    which is clean, or a new one *)
Definition available (head_size : Z) (ep : Endpoint) (w : World) (b : Z) : Prop :=
  match sm_find ep (conn_map_ w) with
  | Some (b' :: _) => b' = b /\ exists y, backends w !! b = Some y /\ clean head_size y
  | _ => b = next_id w /\ 0 < al_buffer_size_ (allocator_ w) < 2 ^ 31 /\
         3 * head_size < 2 * al_buffer_size_ (allocator_ w)
  end.

Lemma BackendConn_ctor_new head_size ep w b w' :
  0 < al_buffer_size_ (allocator_ w) < 2 ^ 31 -> 3 * head_size < 2 * al_buffer_size_ (allocator_ w) ->
  BackendConn_ctor ep w = Ok (b, w') ->
  b = next_id w /\ pool_step w w' /\ exists y, backends w' !! b = Some y /\ clean head_size y.
Proof.
  intros Hsz Hhd H. unfold BackendConn_ctor in H. apply M_bind_Ok in H as ([slab st] & w1 & H1 & H).
  assert (pool_step w w1 /\ next_id w1 = next_id w /\ zlen st = al_buffer_size_ (allocator_ w) /\
          al_buffer_size_ (allocator_ w1) = al_buffer_size_ (allocator_ w)) as (Hs & Hn & Hz & Ha).
  { revert H1. unfold alloc_slab, get, when, modify, mret, M_ret, mbind, M_bind.
    assert (al_buffer_size_ (Alloc (allocator_ w) (heap_next w)).2 = al_buffer_size_ (allocator_ w)) as Ha
      by (unfold Alloc; by destruct (free_slabs_ _) as [|[]]).
    destruct (Alloc _ _) as [sl a]. cbn in Ha. assert (zlen (uninit w (next_id w) <$> seqZ sl (al_buffer_size_ (allocator_ w))) =
      al_buffer_size_ (allocator_ w)) as Hl by (unfold zlen; rewrite length_fmap, length_seqZ; lia).
    case_bool_decide; intros [= _ <- <-]; done. }
  apply M_bind_Ok in H as (v & w2 & [= <- <-] & H).
  apply M_bind_Ok in H as (id & w3 & H3 & H).
  apply M_bind_Ok in H3 as (v & w4 & [= <- <-] & H3).
  apply M_bind_Ok in H3 as (u & w5 & [= <- <-] & [= <- <-]).
  apply M_bind_Ok in H as (u' & w6 & [= <- <-] & H).
  apply M_bind_Ok in H as (u'' & w7 & [= <- <-] & [= <- <-]).
  split; [done|]. split; [destruct Hs; by split|]. eexists. cbn. rewrite lookup_insert_eq. split; [done|].
  split; cbn; try done. rewrite Ha. exists st, (al_buffer_size_ (allocator_ w)). done.
Qed.

(** [b] is in use, and there is room for it among the idle connections to [ep]. *)
Record in_use (ep : Endpoint) (w : World) (b : Z) : Prop := {
  iu_active : sm_find b (active_conns_ w) = Some ep;
  iu_room : match sm_find ep (conn_map_ w) with
            | Some idle => zlen idle < worker_max_idle_backends_ (worker (config w))
            | None => True
            end
}.

Lemma in_use_aside c ep w w' b : aside_of c w' = aside_of c w -> in_use ep w b -> in_use ep w' b.
Proof. intros [= E1 _ E2 E3 _] [H1 H2]. split; [by rewrite E2|]. by rewrite E3, E1. Qed.

Lemma BackendConn_ctor_config ep w b w' : BackendConn_ctor ep w = Ok (b, w') -> config w' = config w.
Proof.
  unfold BackendConn_ctor, alloc_slab, set_backend, on_stats, fresh_id, get, when, modify, mret, M_ret, mbind, M_bind.
  destruct (Alloc _ _). by case_bool_decide; intros [= _ <-].
Qed.

Lemma idle_or_new_room ep w b w' :
  pool_inv w -> 0 < worker_max_idle_backends_ (worker (config w)) -> idle_or_new ep w = Ok (b, w') ->
  active_conns_ w' = active_conns_ w /\
  match sm_find ep (conn_map_ w') with
  | Some idle => zlen idle < worker_max_idle_backends_ (worker (config w'))
  | None => True
  end.
Proof.
  intros Hp Hmax H. unfold idle_or_new in H. apply M_bind_Ok in H as (v & w2 & [= <- <-] & H).
  pose proof (pool_idle_sorted _ Hp) as Hso. destruct (sm_find ep (conn_map_ w)) as [[|b2 idle]|] eqn:Hf.
  2: { apply M_bind_Ok in H as (u2 & w2 & [= <- <-] & [= <- <-]). cbn. rewrite sm_find_set by done.
       apply sm_find_elem in Hf; [|done]. pose proof (proj2 (pool_idle_list _ Hp _ _ Hf)) as Hl.
       unfold max_idle in Hl. rewrite zlen_cons in Hl. split; [done|lia]. }
  all: pose proof (BackendConn_ctor_config ep w b w' H) as ->;
    destruct (BackendConn_ctor_spec ep w b w' Hp H) as (_ & _ & _ & _ & -> & ->); by rewrite Hf.
Qed.

Lemma Allocate_in_use ep w b w' :
  pool_inv w -> 0 < worker_max_idle_backends_ (worker (config w)) -> Allocate ep w = Ok (b, w') -> in_use ep w' b.
Proof.
  intros Hp Hmax H. apply M_bind_Ok in H as (b1 & w1 & H1 & H).
  destruct (idle_or_new_room ep w b1 w1 Hp Hmax H1) as [Ha Hroom].
  apply M_bind_Ok in H as (v & w2 & [= <- <-] & H). apply M_bind_Ok in H as (u & w3 & [-> Hn]%lift_Ok & H).
  unfold res_assert in Hn. case_bool_decide as Hn'; [|done].
  apply M_bind_Ok in H as (u' & w4 & [= <- <-] & [= <- <-]). split; cbn; [|done].
  apply sm_find_emplace; [|done]. rewrite Ha. apply (pool_active_sorted _ Hp).
Qed.

Lemma Allocate_available head_size ep w b :
  pool_inv w -> available head_size ep w b ->
  exists w' y, Allocate ep w = Ok (b, w') /\ pool_step w w' /\
    backends w' !! b = Some y /\ clean head_size y /\ remote_endpoint_ y = ep.
Proof.
  intros Hp Hav. destruct (Allocate_spec ep w Hp) as (b' & w' & H & _ & (y & Hy & Hep) & _).
  unfold Allocate in H. pose proof H as Hal. apply M_bind_Ok in H as (b1 & w1 & H1 & H).
  apply M_bind_Ok in H as (v & w2 & [= <- <-] & H). apply M_bind_Ok in H as (u & w3 & [-> _]%lift_Ok & H).
  apply M_bind_Ok in H as (u' & w4 & [= <- <-] & [= -> <-]).
  exists (w_active_conns (sm_emplace b' ep (active_conns_ w1)) w1), y.
  assert (b' = b /\ pool_step w w1 /\ clean head_size y) as (-> & Hs & Hcl); [|by destruct Hs; split_and!].
  unfold idle_or_new in H1. apply M_bind_Ok in H1 as (v & w2 & [= <- <-] & H1). unfold available in Hav.
  destruct (sm_find ep (conn_map_ w)) as [[|b1 idle]|].
  - destruct Hav as (-> & Hsz & Hhd). destruct (BackendConn_ctor_new head_size ep w b' w1 Hsz Hhd H1) as (-> & Hs & y' & Hy' & Hcl).
    cbn in Hy. assert (y' = y) as -> by congruence. done.
  - destruct Hav as (-> & y' & Hy' & Hcl). apply M_bind_Ok in H1 as (u2 & w2 & [= <- <-] & [= -> <-]).
    cbn in Hy. assert (y' = y) as -> by congruence. split; [done|]. by split.
  - destruct Hav as (-> & Hsz & Hhd). destruct (BackendConn_ctor_new head_size ep w b' w1 Hsz Hhd H1) as (-> & Hs & y' & Hy' & Hcl).
    cbn in Hy. assert (y' = y) as -> by congruence. done.
Qed.

(** ** From the socket to the backend *)
Section request.
Context (c : Z) (Q : bytes) (HQ : 0 < zlen Q < 2 ^ 30).

(** A client that waits for a query, with an empty buffer *)
Record waiting (x : ClientConnection) (data : bytes) (size : Z) : Prop := {
  wt_queue : active_cmd_queue_ x = [];
  wt_alive : cl_aborted_ x = false;
  wt_writing : cl_is_writing_reply_ x = false;
  wt_buffer : cl_buffer_ x = mkReadBuffer data size 0 0 0 1;
  wt_size : zlen data = size /\ 0 < size < 2 ^ 31
}.

Lemma store_request (data : bytes) :
  zlen Q <= zlen data -> mem_write data 0 Q = Ok (Q ++ drop (length Q) data).
Proof.
  intros Hl. rewrite mem_write_Ok by lia. cbn [Z.to_nat take app].
  rewrite Z.add_0_l. unfold zlen. by rewrite Nat2Z.id.
Qed.

Lemma unlock_received (m : bytes) size n :
  0 < n < 2 ^ 30 ->
  RB.dec_recycle_lock (RB.update_received_bytes (mkReadBuffer m size 0 0 0 1) n) = Ok (mkReadBuffer m size 0 n 0 0).
Proof.
  intros Hn. unfold RB.update_received_bytes. cbn [received_offset_ RB.set_offsets processed_offset_ parsed_offset_].
  rewrite Z.add_0_l, u64_small by lia. unfold RB.dec_recycle_lock, RB.try_recycle_buffer.
  cbn [recycle_lock_count_ RB.set_lock RB.set_offsets processed_offset_ received_offset_ Z.ltb Z.compare res_assert].
  rewrite bind_Ok_l. cbn -[Z.eqb Z.ltb RB.free_space_size]. rewrite (proj2 (Z.eqb_neq 0 n)) by lia.
  by rewrite (proj2 (Z.ltb_ge _ 0)) by (apply u64_range).
Qed.

Definition received (x : ClientConnection) (data : bytes) (size : Z) : ClientConnection :=
  l_buffer (mkReadBuffer (Q ++ drop (length Q) data) size 0 (zlen Q) 0 0) (l_is_reading_query false x).

(** The handler up to [ProcessUnparsedQuery] *)
Lemma request_received x data size :
  waiting x data size -> zlen Q <= size ->
  leads c (on_client_buffer c (fun buf => m ← mem_write (data_ buf) 0 Q; Ok (RB.set_data buf m));;
           Client_HandleRead c (Received Q)) x
    (ProcessUnparsedQuery c) (received x data size).
Proof.
  intros [W1 W2 W3 W4 [W5 W6]] Hfit. 
  eapply leads_step.
  { apply doesc_on_client_buffer. rewrite W4. cbn [data_]. rewrite store_request by lia. reflexivity. }
  unfold Client_HandleRead. eapply leads_step; [apply doesc_cancel_timer|].
  eapply leads_step; [apply doesc_client|]. cbn. rewrite W2.
  eapply leads_step; [apply doesc_update_client|]. unfold Client_received.
  eapply leads_step; [apply doesc_on_stats|].
  eapply leads_step; [by apply doesc_on_client_buffer|].
  eapply leads_step.
  { apply doesc_on_client_buffer. cbn -[RB.dec_recycle_lock RB.update_received_bytes].
    exact (unlock_received _ size (zlen Q) HQ). }
  eapply leads_step; [apply doesc_client|]. cbn. rewrite W1. cbn. unfold Client_process.
  eapply leads_step; [apply doesc_client_buffer|]. eapply leads_step; [by apply doesc_lift|]. cbn.
  apply leads_here.
Qed.
End request.

Section forwarding.
Context (c : Z) (name key : bytes) (more : list bytes) (rest : bytes).
Abbreviation args := (name :: key :: more).
Abbreviation Q := (enc_array args).
Context (Hname : name_type (tolower <$> name) redis_command_names RCT_UNSUPPORTED = RCT_BASIC).
Context (Hnul : NUL ∈ rest) (Hsmall : zlen Q < 2 ^ 30).
Context (head_size : Z) (kl kl' : KeyLocator) (ep : Endpoint) (b : Z).

Definition basic_command : Command := mkCommand c REDIS (Some b) false false CRedisBasic.

Lemma request_created w x :
  clients w !! c = Some x -> data_ (cl_buffer_ x) = Q ++ rest -> pool_inv w ->
  key_locator_ w = Some kl ->
  (forall pre post, Locate (config w) kl (pre ++ key ++ post) (zlen pre) (zlen key) REDIS = Ok (ep, kl')) ->
  available head_size ep w b -> Forall (fun op => mine c b op = false) (in_flight w) ->
  exists cmd w' y, CreateCommand c 0 (zlen Q) w = Ok ((zlen Q, Some cmd), w') /\
    clean head_size y /\ remote_endpoint_ y = ep /\
    sees c cmd b w' (mkView x basic_command y [] (client_output c w) (backend_output b w) (aside_of c w')) /\
    holders w' = HoldCommand cmd :: holders w /\
    (0 < worker_max_idle_backends_ (worker (config w)) -> in_use ep w' b).
Proof.
  intros Hx Hd Hp Hkl Hloc Hav Hops.
  rewrite (CreateCommand_basic name key more rest Hname Hnul Hsmall c x w Hx Hd).
  set (w1 := w_key_locator (Some kl') w).
  assert (locate_key (Q ++ rest) (zlen (before_key name key more)) (zlen key) REDIS w = Ok (ep, w1)) as H1.
  { unfold locate_key, get, modify, lift, mbind, M_bind, mret, M_ret. rewrite Hkl. cbn [of_option].
    by rewrite (request_layout name key more rest), Hloc. }
  assert (pool_inv w1) as Hp1 by (revert Hp; by apply pool_inv_frame).
  destruct (Allocate_available head_size ep w1 b Hp1 Hav) as (w2 & y & H2 & [P1 P2 P3 P4 P5 P6 P7] & Hy & Hcl & Hep).
  exists (next_id w2). eexists. exists y. rewrite (bind_step _ _ _ _ _ H1), (bind_step _ _ _ _ _ H2).
  split; [reflexivity|]. split; [done|]. split; [done|].
  split; [|split; [cbn; by rewrite P6|intros Hmax; destruct (Allocate_in_use ep w1 b w2 Hp1 Hmax H2); by split]].
  split; cbn; unfold client_output, backend_output; cbn; rewrite ?P3, ?P5, ?P7; try done.
  - apply lookup_insert_eq.
  - cbn. clear - Hops. induction Hops as [|op ops Hop Hops IH]; [done|]. rewrite filter_cons_False; [done|]. by rewrite Hop.
Qed.

End forwarding.

(** The rest of a turn of the loop in [ProcessUnparsedQuery], after the command has
    been created, and the end of its local variable *)
Definition turn_rest (cl parsed_bytes : Z) (created : option Z) : M bool :=
  if parsed_bytes =? 0 then Client.TryReadMoreQuery cl;; mret false
  else
    on_client_buffer cl (ok (fun buf => RB.update_parsed_bytes buf parsed_bytes));;
    cmd ← lift (of_option NullDeref created);
    push_command cl cmd;;
    no_callback ← StartWriteQuery cmd;
    on_client_buffer cl (fun buf => RB.update_processed_bytes buf (RB.unprocessed_bytes buf));;
    buf ← client_buffer cl;
    c ← command cmd;
    if (0 <? RB.parsed_unreceived_bytes buf) || negb (query_parsing_complete c)
    then when no_callback (Client.TryReadMoreQuery cl);; mret false
    else mret true.
Definition after_creation (cl parsed_bytes : Z) (created : option Z) : M bool :=
  more ← turn_rest cl parsed_bytes created;
  match created with Some cmd => unhold (HoldCommand cmd) | None => skip end;;
  mret more.

Lemma process_one_created cl :
  process_one cl =
  (buf ← client_buffer cl;
   '(parsed_bytes, created) ← CreateCommand cl (RB.unprocessed_data buf) (RB.received_bytes buf);
   after_creation cl parsed_bytes created).
Proof. reflexivity. Qed.

Section handing.
Context (c cmd b : Z) (Q rest : bytes) (size head_size : Z).
Context (HQ : 0 < zlen Q < 2 ^ 30).
Abbreviation does := (does c cmd b).

Lemma does_WriteQuery data n v :
  aborted_ (v_backend v) = false ->
  exists op y, does (Backend.WriteQuery b data n) v tt (u_ops (v_ops v ++ [op]) (u_backend y v)) /\
    (op = BackendConnect b data n \/ op = BackendWrite b data n) /\
    (clean head_size (v_backend v) -> clean head_size y) /\ callback_ y = callback_ (v_backend v) /\
    remote_endpoint_ y = remote_endpoint_ (v_backend v).
Proof.
  intros Ha. unfold Backend.WriteQuery. destruct (socket_open_ (v_backend v)) eqn:Ho.
  - exists (BackendWrite b data n). eexists. split; [|split; [by right|]].
    + does_step. rewrite Ha, Ho. cbn [negb]. unfold Backend.AsyncWrite. does_step. does_step.
      apply (does_start c cmd b (BackendWrite b data n) (u_backend _ v)). cbn. by apply bool_decide_eq_true.
    + split; [|done]. intros []. by split.
  - exists (BackendConnect b data n). eexists. split; [|split; [by left|]].
    + does_step. rewrite Ha, Ho. cbn [negb]. does_step. does_step. does_step.
      apply (does_start c cmd b (BackendConnect b data n) (u_backend _ v)). cbn. by apply bool_decide_eq_true.
    + split; [|done]. intros []. by split.
Qed.

Definition handed (x : ClientConnection) : ClientConnection :=
  l_buffer (mkReadBuffer (Q ++ rest) size (zlen Q) (zlen Q) (zlen Q) 1) (l_active_cmd_queue [cmd] x).

Lemma does_StartWriteQuery x y out sent asd :
  clean head_size y ->
  cl_buffer_ x = mkReadBuffer (Q ++ rest) size 0 (zlen Q) (zlen Q) 0 -> active_cmd_queue_ x = [cmd] ->
  exists op y', does (StartWriteQuery cmd) (mkView x (basic_command c b) y [] out sent asd) false
      (mkView (l_buffer (mkReadBuffer (Q ++ rest) size 0 (zlen Q) (zlen Q) 1) x) (basic_command c b) y' [op] out sent asd) /\
    (op = BackendConnect b (InClient c 0) (zlen Q) \/ op = BackendWrite b (InClient c 0) (zlen Q)) /\
    clean head_size y' /\ callback_ y' = Some cmd /\ remote_endpoint_ y' = remote_endpoint_ y.
Proof.
  intros Hcl Hb Hq.
  set (v1 := mkView (l_buffer (mkReadBuffer (Q ++ rest) size 0 (zlen Q) (zlen Q) 1) x) (basic_command c b)
    (BC.set_callback (Some cmd) y) [] out sent asd).
  destruct (does_WriteQuery (InClient c 0) (zlen Q) v1) as (op & y' & Hd & Hop & Hcl' & Hcb & Hep);
    [apply (cn_alive _ _ Hcl)|].
  exists op, y'. split; [|split; [done|split; [apply Hcl'; by destruct Hcl|done]]].
  unfold StartWriteQuery. does_step. cbn -[Backend.WriteQuery]. unfold Command_StartWriteQuery.
  eapply does_bind; [by apply does_lift|].
  eapply does_bind; [unfold check_query_recv_complete; does_step; apply does_ret|].
  unfold Backend.SetReadWriteCallback. does_step. unfold write_unprocessed.
  eapply does_bind; [|apply does_ret].
  eapply does_bind; [apply does_on_client_buffer; cbn; rewrite Hb; reflexivity|]. does_step.
  assert (forall n, RB.unprocessed_bytes (mkReadBuffer (Q ++ rest) size 0 (zlen Q) (zlen Q) n) = zlen Q) as Hu
    by (intros n; unfold RB.unprocessed_bytes; cbn; rewrite Z.min_id, Z.sub_0_r, u64_small; lia).
  match goal with |- _ (Backend.WriteQuery _ _ ?n) _ _ _ => assert (n = zlen Q) as -> by exact (Hu 1) end.
  exact Hd.
Qed.

Lemma hand_over :
  let buf := mkReadBuffer (Q ++ rest) size 0 (zlen Q) (zlen Q) 1 in
  RB.update_processed_bytes buf (RB.unprocessed_bytes buf) =
  Ok (mkReadBuffer (Q ++ rest) size (zlen Q) (zlen Q) (zlen Q) 1).
Proof.
  cbn. unfold RB.update_processed_bytes, RB.try_recycle_buffer, RB.update_processed_offset, RB.unprocessed_bytes. cbn.
  by rewrite Z.min_id, Z.sub_0_r, (u64_small (zlen Q)), Z.add_0_l, (u64_small (zlen Q)) by lia.
Qed.

Lemma does_turn_rest x y out sent asd :
  clean head_size y -> cl_buffer_ x = mkReadBuffer (Q ++ rest) size 0 (zlen Q) 0 0 -> active_cmd_queue_ x = [] ->
  exists op y', does (turn_rest c (zlen Q) (Some cmd)) (mkView x (basic_command c b) y [] out sent asd) true
      (mkView (handed x) (basic_command c b) y' [op] out sent asd) /\
    (op = BackendConnect b (InClient c 0) (zlen Q) \/ op = BackendWrite b (InClient c 0) (zlen Q)) /\
    clean head_size y' /\ callback_ y' = Some cmd /\ remote_endpoint_ y' = remote_endpoint_ y.
Proof.
  intros Hcl Hb Hq.
  set (x1 := l_active_cmd_queue [cmd] (l_buffer (mkReadBuffer (Q ++ rest) size 0 (zlen Q) (zlen Q) 0) x)).
  destruct (does_StartWriteQuery x1 y out sent asd Hcl eq_refl eq_refl) as (op & y' & Hd & Hop & Hrest).
  exists op, y'. split; [|by split]. unfold turn_rest. rewrite (proj2 (Z.eqb_neq _ _)) by lia.
  eapply does_bind; [apply does_on_client_buffer; cbn; rewrite Hb; reflexivity|].
  eapply does_bind; [by apply does_lift|]. unfold push_command. does_step.
  eapply does_bind.
  { eapply does_eq; [|reflexivity]. cbn. rewrite Hq. cbn. unfold RB.update_parsed_bytes. cbn.
    rewrite Z.add_0_l, u64_small by lia. exact Hd. }
  eapply does_bind.
  { apply does_on_client_buffer. exact hand_over. }
  does_step. does_step. cbn. unfold RB.parsed_unreceived_bytes. cbn. rewrite Z.ltb_irrefl. cbn. apply does_ret.
Qed.
End handing.

(** ** The theorem *)
Lemma pool_inv_near w w' : near w w' -> pool_inv w -> pool_inv w'.
Proof. intros [] Hp. revert Hp. apply pool_inv_frame; try done. lia. Qed.
Lemma available_near head_size ep w w' b : near w w' -> available head_size ep w b -> available head_size ep w' b.
Proof. intros [] Hav. unfold available in *. by rewrite nr_idle0, nr_backends0, nr_next_id0, nr_allocator0. Qed.

Lemma client_step c w x : clients w !! c = Some x -> client c w = Ok (x, w).
Proof. intros Hx. unfold client, get, lift, mbind, M_bind. by rewrite Hx. Qed.
Lemma process_unparsed_turn n cl :
  process_unparsed (S n) cl =
  (x ← client cl;
   if bool_decide (length (active_cmd_queue_ x) < kPipelineActiveLimit)%nat &&
      (0 <? RB.unparsed_received_bytes (cl_buffer_ x))
   then (more ← process_one cl; if more : bool then process_unparsed n cl else skip)
   else skip).
Proof. reflexivity. Qed.

Section arrival.
Context (c : Z) (name key : bytes) (more : list bytes).
Abbreviation args := (name :: key :: more).
Abbreviation Q := (enc_array args).
Context (Hname : name_type (tolower <$> name) redis_command_names RCT_UNSUPPORTED = RCT_BASIC).
Context (Hsmall : zlen Q < 2 ^ 30).
Context (head_size : Z) (kl kl' : KeyLocator) (ep : Endpoint) (b : Z).

Lemma request_nonempty : 0 < zlen Q.
Proof.
  rewrite enc_array_split, zlen_app, zlen_array_header. pose proof (zlen_nonneg (dec (zlen args))).
  pose proof (zlen_nonneg (enc_items args)). lia.
Qed.

(** What a worker in state [w] has for the request: the ring of the key, and a
    connection nothing is outstanding on *)
Record serves (w : World) : Prop := {
  sv_locator : key_locator_ w = Some kl;
  sv_located pre post :
    Locate (config w) kl (pre ++ key ++ post) (zlen pre) (zlen key) REDIS = Ok (ep, kl');
  sv_available : available head_size ep w b;
  sv_quiet : Forall (fun op => mine c b op = false) (in_flight w)
}.

Lemma serves_near w w' : near w w' -> serves w -> serves w'.
Proof.
  intros Hn [S1 S2 S3 S4]. pose proof Hn as []. split; [congruence| |by eapply available_near|congruence].
  intros pre post. by rewrite nr_config0.
Qed.

(** [ProcessUnparsedQuery] on a complete request *)
Lemma request_processed w x data size :
  waiting x data size -> zlen Q <= size -> NUL ∈ drop (length Q) data ->
  clients w !! c = Some (received Q x data size) -> pool_inv w -> serves w ->
  exists cmd op v w', ProcessUnparsedQuery c w = Ok (tt, w') /\ sees c cmd b w' v /\
    querying c cmd b REDIS head_size Q (client_output c w) (backend_output b w)
      (handed cmd Q (drop (length Q) data) size (received Q x data size)) (aside_of c w') op v /\
    remote_endpoint_ (v_backend v) = ep /\ holders w' = holders w /\
    (0 < worker_max_idle_backends_ (worker (config w)) -> in_use ep w' b).
Proof.
  intros [W1 W2 W3 W4 [W5 W6]] Hfit Hnul Hx Hp [S1 S2 S3 S4]. pose proof request_nonempty as Hpos.
  set (rest := drop (length Q) data) in *.
  assert (zlen (Q ++ rest) = size) as Hsz.
  { rewrite zlen_app. unfold rest, zlen in *. rewrite length_drop. lia. }
  destruct (request_created c name key more rest Hname Hnul Hsmall head_size kl kl' ep b w _ Hx eq_refl Hp S1 S2 S3 S4)
    as (cmd & w1 & y & Hcr & Hcl & Hep & Hs & Hh1 & Huse).
  destruct (does_turn_rest c cmd b Q rest size head_size ltac:(lia)
    (received Q x data size) y (client_output c w) (backend_output b w) (aside_of c w1) Hcl) as (op & y' & Hd & Hop & Hcl' & Hcb & Hep');
    [done|done|].
  destruct (Hd w1 Hs) as (w2' & H2' & Hs2' & Hh2). clear Hd.
  match type of Hs2' with sees _ _ _ _ ?v =>
    destruct (sees_unhold c cmd b (HoldCommand cmd) v w2' (or_intror (or_introl eq_refl)))
      as (w2 & H2u & Hs2 & Hh3); [split; [done|left|done]|exact Hs2'|] end. rewrite Hh2, Hh1, remove_one_head in Hh3.
  assert (after_creation c (zlen Q) (Some cmd) w1 = Ok (true, w2)) as H2
    by (unfold after_creation; by rewrite (bind_step _ _ _ _ _ H2'), (bind_step _ _ _ _ _ H2u)).
  pose proof (sees_aside _ _ _ _ _ Hs2) as Has.
  exists cmd, op. eexists _, w2. split; [|split; [exact Hs2|]].
  - unfold ProcessUnparsedQuery. change kPipelineActiveLimit with 16%nat.
    rewrite process_unparsed_turn, (bind_step _ _ _ _ _ (client_step c w _ Hx)).
    cbn [received l_buffer active_cmd_queue_ l_is_reading_query cl_buffer_]. rewrite W1.
    unfold RB.unparsed_received_bytes. cbn [parsed_offset_ received_offset_].
    rewrite (proj2 (Z.ltb_lt _ _) Hpos), Z.sub_0_r, (proj2 (Z.ltb_lt _ _) Hpos).
    cbn [length andb]. rewrite bool_decide_true by (unfold kPipelineActiveLimit; lia). cbn [andb].
    rewrite (bind_step (process_one c) _ w true w2).
    { rewrite process_unparsed_turn, (bind_step _ _ _ _ _ (client_step c w2 _ (sees_client _ _ _ _ _ Hs2))).
      cbn [v_client handed l_buffer active_cmd_queue_ cl_buffer_ l_active_cmd_queue].
      unfold RB.unparsed_received_bytes. cbn [parsed_offset_ received_offset_]. rewrite Z.ltb_irrefl. by rewrite andb_false_r. }
    rewrite process_one_created, (bind_step (client_buffer c) _ w (cl_buffer_ (received Q x data size)) w)
      by (unfold client_buffer; by rewrite (bind_step _ _ _ _ _ (client_step c w _ Hx))).
    unfold RB.unprocessed_data, RB.received_bytes.
    cbn [received l_buffer cl_buffer_ processed_offset_ received_offset_]. rewrite Z.sub_0_r, u64_small by lia.
    rewrite (bind_step _ _ _ _ _ Hcr). exact H2.
  - split; [|split; [by rewrite <- Hep|split; [done|intros Hmax; by eapply in_use_aside, Huse]]].
    destruct Hcl'. split; cbn -[Q]; try done.
    + split; [done|left|done].
    + split; [|lia]. split; cbn [data_ buffer_size_ processed_offset_ received_offset_ parsed_offset_ recycle_lock_count_]; lia.
    + exists 0. split; [done|]. split; [done|]. split; [rewrite zlen_app; pose proof (zlen_nonneg rest); lia|].
      unfold slice, zlen. rewrite Z.add_0_l, Z.sub_0_r, Nat2Z.id. change (Z.to_nat 0) with O.
      by rewrite drop_0, take_app_length.
Qed.
End arrival.

(** The one command of client [x] is [cmd]; its query, which is all that was received
    (the client's storage is [data]), has been handed to the connection [b]. *)
Record asking (c cmd b : Z) (protocol : ProtocolType) (head_size : Z) (Q data : bytes)
    (x : ClientConnection) (w : World) : Prop := {
  ak_handed : query_handed c cmd b protocol head_size Q x w;
  ak_queue : active_cmd_queue_ x = [cmd];
  ak_reading : is_reading_query_ x = false;
  ak_buffer : cl_buffer_ x = mkReadBuffer data (zlen data) (zlen Q) (zlen Q) (zlen Q) 1;
  ak_size : 0 < zlen data < 2 ^ 31
}.

Lemma asking_started c cmd b protocol head_size Q data x w :
  asking c cmd b protocol head_size Q data x w -> query_started c cmd b protocol head_size Q w.
Proof. intros []. by exists x. Qed.

(** A single-key redis request that arrives is forwarded.  In any reachable state
    of a worker, let the read of a client that waits with an empty buffer complete
    with a whole request (the name of a single-key command in any case, the key,
    any further arguments).  If the worker serves the key, the handler runs
    without a fault, and the query is on its way to the backend the key is located
    at: on the longest idle connection to it, or on a new one which is being
    connected.  Nothing has been written yet.  (The storage behind the request has a
    NUL, on which [std::stoi] relies.) *)
Lemma request_is_forwarded config w i c x data size name key more head_size kl kl' ep b :
  reachable config w -> in_flight w !! i = Some (ClientRead c 0 size) ->
  clients w !! c = Some x -> waiting x data size ->
  name_type (tolower <$> name) redis_command_names RCT_UNSUPPORTED = RCT_BASIC ->
  let Q := enc_array (name :: key :: more) in
  zlen Q < 2 ^ 30 -> zlen Q <= size -> NUL ∈ drop (length Q) data ->
  serves c key head_size kl kl' ep b w ->
  exists cmd w', handle (EvComplete i (Received Q)) w = Ok (tt, w') /\
    (exists x', asking c cmd b REDIS head_size Q (Q ++ drop (length Q) data) x' w') /\ connects w' b ep /\
    (0 < worker_max_idle_backends_ (worker (World.config w)) -> in_use ep w' b) /\ holders w' = holders w /\
    client_output c w' = client_output c w /\ backend_output b w' = backend_output b w.
Proof.
  intros Hr Hop Hx Hwt Hname Q Hsmall Hfit Hnul Hsv.
  set (w1 := w_in_flight (delete i (in_flight w)) w).
  set (w2 := w_holders (HoldClient c :: holders w1) w1). pose proof (request_nonempty name key more) as Hpos.
  destruct (request_received c Q ltac:(subst Q; lia) x data size Hwt Hfit w2 Hx) as (w3 & H3 & Hx3 & Hn3).
  assert (pool_inv w3) as Hp3 by (apply (pool_inv_near w2); [done|]; apply (pool_inv_frame w); [done..|by eapply reachable_pool]).
  assert (serves c key head_size kl kl' ep b w3) as Hsv3.
  { apply (serves_near _ _ _ _ _ _ _ w2 w3 Hn3). destruct Hsv as [S1 S2 S3 S4]. split; try done. by apply Forall_delete. }
  destruct (request_processed c name key more Hname Hsmall head_size kl kl' ep b w3 x data size Hwt Hfit Hnul Hx3 Hp3 Hsv3)
    as (cmd & op & v & w4 & H4 & Hs4 & Hq4 & Hep & Hh4 & Huse).
  destruct (sees_unhold c cmd b (HoldClient c) v w4 (or_introl eq_refl) (qu_linked _ _ _ _ _ _ _ _ _ _ _ _ Hq4) Hs4)
    as (w5 & H5 & Hs5 & Hh5). rewrite Hh4, (nr_holders _ _ Hn3) in Hh5.
  change (holders w2) with (HoldClient c :: holders w) in Hh5. rewrite remove_one_head in Hh5.
  pose proof (qu_out _ _ _ _ _ _ _ _ _ _ _ _ Hq4) as [Ho Hb].
  assert (aside_of c w5 = aside_of c w4) as Ha5 by (by rewrite (sees_aside _ _ _ _ _ Hs5), (sees_aside _ _ _ _ _ Hs4)).
  assert (client_output c w3 = client_output c w /\ backend_output b w3 = backend_output b w) as [Hc3 Hb3]
    by (unfold client_output, backend_output; by rewrite (nr_trace _ _ Hn3)).
  exists cmd, w5. split; [|split; [|split; [|split; [|split; [done|]]]]].
  - unfold handle. rewrite (bind_step get _ w w w) by done. rewrite Hop. cbn [of_option].
    rewrite (lift_step _ _ _ _ eq_refl), (bind_step _ _ w tt w1) by done. unfold complete_op, holding.
    rewrite (bind_step _ _ w1 tt w2) by done. rewrite (bind_step _ _ w2 tt w4) by (by rewrite <- H4).
    by rewrite (bind_step _ _ _ _ _ H5).
  - pose proof Hwt as [W1 W2 W3 W4 [W5 W6]].
    assert (zlen (Q ++ drop (length Q) data) = size) as Hsz by (rewrite zlen_app; unfold zlen in *; rewrite length_drop; lia).
    exists (handed cmd Q (drop (length Q) data) size (received Q x data size)).
    split; [exists op, v; split; [done|]|done|done|by rewrite Hsz|lia].
    rewrite (sees_out _ _ _ _ _ Hs5), (sees_sent _ _ _ _ _ Hs5), Ho, Hb, Ha5. exact Hq4.
  - exists (v_backend v). split; [apply (sees_backend _ _ _ _ _ Hs5)|done].
  - intros Hmax. eapply in_use_aside; [exact Ha5|]. apply Huse. by rewrite (nr_config _ _ Hn3).
  - by rewrite (sees_out _ _ _ _ _ Hs5), (sees_sent _ _ _ _ _ Hs5), Ho, Hb.
Qed.

(** A worker serves a client that has just connected. *)
Lemma accepted_serves :
  exists ep, serves 0 (str "k1") 3 small_locator small_locator ep 1 (after accepted).
Proof.
  assert (match sm_find (ProtocolNs REDIS ++ str "/" ++
                  namespace_of (max_namespace_length_ (global small_config)) (str "k1")) small_locator with
          | Some (Some _) => true | _ => false end = true) as Hf by (vm_compute; reflexivity).
  destruct (sm_find _ _) as [[kd|]|] eqn:Hkd; [|discriminate..]. exists (LocateCacheNode kd (str "k1")). split.
  - vm_compute. reflexivity.
  - intros pre post. assert (World.config (after accepted) = small_config) as -> by (vm_compute; reflexivity).
    apply Locate_found; [by_compute|by_compute|exact Hkd].
  - unfold available. assert (conn_map_ (after accepted) = []) as -> by (vm_compute; reflexivity). cbn [sm_find].
    by_compute.
  - assert (in_flight (after accepted) = [ClientRead 0 0 128]) as -> by (vm_compute; reflexivity). by repeat constructor.
Qed.
