(* ===== verification/Finish.v ===== *)
(** * A request is finished

    The end of the way that [Request] and [Forward] follow: the last write to the
    client completes, the command is taken off the pipeline and destroyed, its
    connection goes back to the pool, and the client waits for its next request. *)

From S2P Require Import Prelude CString StdMap ErrorCode ReadBuffer Allocator Config.
From S2P Require Import RedisProtocol KeyDistributer KeyLocator QueryParser BackendConn.
From S2P Require Import ReplyParser World BackendPool Lifetime ConnIO Commands CommandQuery.
From S2P Require Import CommandReply Order Worker Logic QueryLogic ReplyLogic Invariants Scenario.
From S2P Require Import PoolInvariant ReplyTheorems ReplyStream Exchange Forward Request.

(** ** References that remain *)
Lemma drop_held {A} (P : World -> bool) (Q : World -> option A) (m : M unit) w :
  P w = true -> (w ← get; when (bool_decide (is_Some (Q w)) && negb (P w)) m) w = Ok (tt, w).
Proof. intros HP. unfold get, mbind, M_bind. by rewrite HP, andb_false_r. Qed.
Lemma drop_backend_held w b : backend_held w b = true -> drop_backend b w = Ok (tt, w).
Proof. apply (drop_held (fun w => backend_held w b)). Qed.
Lemma drop_client_held w c : client_held w c = true -> drop_client c w = Ok (tt, w).
Proof. apply (drop_held (fun w => client_held w c)). Qed.
Lemma drop_command_held w cmd : command_held w cmd = true -> drop_command cmd w = Ok (tt, w).
Proof. apply (drop_held (fun w => command_held w cmd)). Qed.

Lemma held_by_pool w b : is_Some (sm_find b (active_conns_ w)) -> sm_sorted (active_conns_ w) -> backend_held w b = true.
Proof.
  intros [ep He] Hs. apply sm_find_elem in He; [|done]. unfold backend_held. rewrite !orb_true_iff. do 3 left. right.
  apply bool_decide_eq_true, list_elem_of_fmap. by exists (b, ep).
Qed.
Lemma held_while_idle w b ep idle : (ep, idle) ∈ conn_map_ w -> b ∈ idle -> backend_held w b = true.
Proof.
  intros He Hb. unfold backend_held. rewrite !orb_true_iff. do 2 left. right. apply existsb_exists.
  exists (ep, idle). split; [by apply list_elem_of_In|by apply bool_decide_eq_true].
Qed.
Lemma held_by_read w c p n : ClientRead c p n ∈ in_flight w -> client_held w c = true.
Proof.
  intros Hin. unfold client_held. rewrite !orb_true_iff. right. apply existsb_exists.
  exists (ClientRead c p n). split; [by apply list_elem_of_In|by apply bool_decide_eq_true].
Qed.
Lemma held_by_handler w c : HoldClient c ∈ holders w -> client_held w c = true.
Proof. intros Hin. unfold client_held. by rewrite bool_decide_true. Qed.

(** Nobody else has the command. *)
Lemma command_unheld w c x cmd :
  HoldCommand cmd ∉ holders w -> clients w !! c = Some x -> cmd ∉ active_cmd_queue_ x ->
  (forall c' x', delete c (clients w) !! c' = Some x' -> cmd ∉ active_cmd_queue_ x') -> command_held w cmd = false.
Proof.
  intros Hh Hx Hq Ho. unfold command_held. rewrite bool_decide_false by done. cbn [orb].
  apply not_true_iff_false. intros ([c' x'] & Hin & Hb)%existsb_exists.
  apply bool_decide_eq_true in Hb. apply list_elem_of_In, elem_of_map_to_list in Hin. cbn in Hb.
  destruct (decide (c' = c)) as [->|Hne]; [congruence|]. apply (Ho c' x'); [|done].
  by rewrite lookup_delete_ne.
Qed.

(** ** The connection goes back to the pool *)
Definition reset (y : BackendConn) : BackendConn :=
  mkBackendConn (RB.Reset (buffer_ y)) (slab_ y) (remote_endpoint_ y) (socket_open_ y)
    (callback_ y) (no_recycle_ y) (aborted_ y) false false false false false.
Definition parked (ep : Endpoint) (b : Z) (y : BackendConn) (w : World) : World :=
  w_conn_map (sm_set ep (default [] (sm_find ep (conn_map_ w)) ++ [b]) (conn_map_ w))
    (w_backends (<[b := reset y]> (backends w)) (w_active_conns (sm_erase b (active_conns_ w)) w)).

Lemma Release_parks ep w b y :
  in_use ep w b -> backends w !! b = Some y -> BC.recyclable y = true ->
  Release b w = Ok (tt, parked ep b y w).
Proof.
  intros [Ha Hroom] Hy Hrec. unfold Release. rewrite (bind_step get _ w w w) by done. rewrite Ha.
  rewrite (bind_step (modify _) _ w tt (w_active_conns (sm_erase b (active_conns_ w)) w)) by done.
  rewrite (bind_step (backend b) _ _ y (w_active_conns (sm_erase b (active_conns_ w)) w))
    by (unfold backend, get, lift, mbind, M_bind; cbn; by rewrite Hy).
  rewrite Hrec. cbn [negb]. apply andb_true_iff in Hrec as [Hn _].
  assert (BC.Reset y = Ok (reset y)) as Hre by (unfold BC.Reset; by rewrite Hn).
  unfold parked. destruct (sm_find ep (conn_map_ w)) as [idle|]; [rewrite (proj2 (Z.leb_gt _ _)) by done|];
    by rewrite (lift_step _ _ _ _ Hre).
Qed.

(** The command is destroyed. *)
Lemma Command_dtor_parks ep w cmd k b y :
  commands w !! cmd = Some k -> simple_state (command_state k) = true -> replying_backend_ k = Some b ->
  sm_sorted (conn_map_ w) -> in_use ep w b -> backends w !! b = Some y -> BC.recyclable y = true ->
  HoldClient (client_conn_ k) ∈ holders w ->
  Command_dtor cmd w = Ok (tt, w_commands (delete cmd (commands w)) (parked ep b y w)).
Proof.
  intros Hk Hsim Hb Hso Huse Hy Hrec Hhold. unfold Command_dtor.
  rewrite (bind_step (command cmd) _ w k w) by (unfold command, get, lift, mbind, M_bind; by rewrite Hk).
  assert (command_dtor_body k = Release b /\ command_backends k = [b]) as [-> ->].
  { unfold command_dtor_body, RedisBasicCommand_dtor, MemcBasicCommand_dtor, RedisSetCommand_dtor, MemcSetCommand_dtor,
      release_replying, command_backends, state_backends. rewrite Hb. by destruct (command_state k). }
  rewrite (bind_step _ _ _ _ _ (Release_parks ep w b y Huse Hy Hrec)).
  set (w1 := w_commands _ (parked ep b y w)). rewrite (bind_step (modify _) _ _ tt w1) by done.
  rewrite (bind_step _ _ w1 tt w1).
  { by apply drop_client_held, held_by_handler. }
  cbn [for_each]. rewrite (bind_step (drop_backend b) _ w1 tt w1); [done|].
  apply drop_backend_held. eapply held_while_idle.
  - apply sm_find_elem; [by apply sm_set_sorted|]. by apply sm_find_set.
  - set_solver.
Qed.

(** ** The command leaves the pipeline *)
Section rotating.
Context (c cmd b : Z) (data : bytes).
Abbreviation comes := (comes c cmd b).
Abbreviation sees := (sees c cmd b).

(** A client whose pipeline is [cmd] and whose buffer is free *)
Record last_command (x : ClientConnection) : Prop := {
  lc_queue : active_cmd_queue_ x = [cmd];
  lc_alive : cl_aborted_ x = false;
  lc_reading : is_reading_query_ x = false;
  lc_writing : cl_is_writing_reply_ x = false;
  lc_buffer : cl_buffer_ x = mkReadBuffer data (zlen data) 0 0 0 0;
  lc_size : 0 < zlen data < 2 ^ 31
}.
Definition reads_again (x : ClientConnection) : ClientConnection :=
  l_buffer (mkReadBuffer data (zlen data) 0 0 0 1) (l_is_reading_query true x).
Definition next_read : io_op := ClientRead c 0 (zlen data).

Lemma TryReadMoreQuery_comes v :
  last_command (v_client v) ->
  comes (Client.TryReadMoreQuery c) v (start next_read) (u_client (reads_again (v_client v)) v).
Proof.
  intros [L1 L2 L3 L4 L5 L6]. unfold Client.TryReadMoreQuery. does_step. rewrite L3, L5.
  assert (RB.has_much_free_space (mkReadBuffer data (zlen data) 0 0 0 0) = true) as ->.
  { unfold RB.has_much_free_space. cbn [received_offset_ buffer_size_]. rewrite !u64_small by lia. apply Z.ltb_lt. lia. }
  unfold Client.AsyncRead. cbn [orb negb]. does_step.
  eapply comes_step; [apply does_on_client_buffer; cbn; rewrite L5; reflexivity|].
  eapply comes_step; [unfold Client.UpdateTimer; does_step; cbn; rewrite L2; apply does_arm_timer|].
  does_step. cbn. unfold RB.free_space_size. cbn. rewrite Z.sub_0_r, u64_small by lia. apply comes_here.
Qed.

(** [RotateReplyingCommand] after it has started to read *)
Definition rotate_rest : M unit :=
  pop_command c;;
  x ← client c;
  match active_cmd_queue_ x with
  | [] => skip
  | next :: _ =>
      start_write_reply (rotate_command 0) next;;
      x ← client c;
      back ← lift (of_option NullDeref (last (active_cmd_queue_ x)));
      k ← command back;
      complete ← lift (query_recv_complete k);
      if negb complete
      then when (negb (RB.recycle_locked (cl_buffer_ x))) (Client.TryReadMoreQuery c)
      else ProcessUnparsedQuery c
  end.

Lemma rotate_command_comes v :
  last_command (v_client v) ->
  comes (rotate_command 1 c) v (start next_read;; rotate_rest) (u_client (reads_again (v_client v)) v).
Proof.
  intros Hl. change (rotate_command 1 c) with (x ← client c;
    when (bool_decide (length (active_cmd_queue_ x) = 1%nat)) (Client.TryReadMoreQuery c);; rotate_rest).
  does_step. rewrite (lc_queue _ Hl), bool_decide_true by done. cbn [when].
  apply comes_bind. by apply TryReadMoreQuery_comes.
Qed.

Lemma after_part_comes v :
  linked c cmd b v -> simple_state (command_state (v_command v)) = true ->
  query_recv_complete (v_command v) = Ok true -> BC.finished (v_backend v) = true ->
  RB.recycle_locked (buffer_ (v_backend v)) = false -> last_command (v_client v) ->
  comes (after_part cmd b) v (start next_read;; rotate_rest) (u_client (reads_again (v_client v)) v).
Proof.
  intros [Hc _ _] Hsim Hwh Hfin Hlk Hl. unfold after_part. does_step. rewrite Hfin.
  eapply comes_step; [apply does_assert; by rewrite Hlk|]. does_step.
  eapply comes_step; [by apply does_lift|]. eapply comes_step; [by apply does_assert|].
  unfold RotateReplyingBackend. does_step.
  assert (comes (Command_RotateReplyingBackend (v_command v)) v (start next_read;; rotate_rest)
            (u_client (reads_again (v_client v)) v)) as Hgo; [|by destruct (command_state (v_command v))].
  unfold Command_RotateReplyingBackend. eapply comes_step; [by apply does_lift|].
  eapply comes_step; [by apply does_assert|]. rewrite Hc. unfold RotateReplyingCommand. does_step.
  rewrite (lc_queue _ Hl). by apply rotate_command_comes.
Qed.

Lemma rotate_rest_ends w x :
  clients w !! c = Some x -> active_cmd_queue_ x = [cmd] -> HoldCommand cmd ∈ holders w ->
  rotate_rest w = Ok (tt, w_clients (<[c := l_active_cmd_queue [] x]> (clients w)) w).
Proof.
  intros Hx Hq Hh. set (w1 := w_clients _ w). unfold rotate_rest, pop_command.
  rewrite (bind_step _ _ w tt w1).
  - rewrite (bind_step (client c) _ w1 (l_active_cmd_queue [] x) w1) by (apply client_step, lookup_insert_eq). done.
  - rewrite (bind_step _ _ _ _ _ (client_step c w x Hx)), Hq. rewrite (bind_step _ _ w tt w1) by done.
    apply drop_command_held. unfold command_held. by rewrite bool_decide_true.
Qed.
End rotating.

(** ** The handler of the last write *)
Section ending.
Context (c cmd b : Z) (ep : Endpoint) (data : bytes).
Abbreviation sees := (sees c cmd b).
Abbreviation next_read := (next_read c data).
Abbreviation reply_written := (OnWriteReplyFinished cmd (Some b) E_SUCCESS).

(** The state that is left of [w]; [l]: the references still held *)
Definition queue_left (l : list holder) (x : ClientConnection) (w : World) : World :=
  w_holders l (w_clients (<[c := l_active_cmd_queue [] x]> (clients w))
                 (w_in_flight (in_flight w ++ [next_read]) w)).
Definition ended (l : list holder) (v : view) (w : World) : World :=
  w_commands (delete cmd (commands w)) (parked ep b (v_backend v) (queue_left l (v_client v) w)).

(** What the end of the command needs of the state and of what it comes to *)
Record may_end (w : World) (v : view) : Prop := {
  me_pool : sm_sorted (a_active (v_aside v)) /\ sm_sorted (a_idle (v_aside v));
  me_use : in_use ep w b;
  me_aside : aside_of c w = v_aside v;
  me_others c' x' : a_others (v_aside v) !! c' = Some x' -> cmd ∉ active_cmd_queue_ x';
  me_simple : simple_state (command_state (v_command v)) = true;
  me_linked : linked c cmd b v;
  me_queue : active_cmd_queue_ (v_client v) = [cmd];
  me_recyclable : BC.recyclable (v_backend v) = true;
  me_client : HoldClient c ∈ holders w;
  me_command : HoldCommand cmd ∉ holders w
}.

Lemma callback_ends w v v' :
  comes c cmd b reply_written v (start next_read;; rotate_rest c) v' -> sees w v -> may_end w v' ->
  exists w1, sees w1 v' /\
    with_command cmd (holding (HoldBackend b) reply_written) w = Ok (tt, ended (holders w) v' w1).
Proof.
  intros Hc Hs [[M1 M1'] M2 M3 M4 M5 [M6 _ M6'] M7 M8 M9 M10].
  set (w2 := w_holders (HoldBackend b :: HoldCommand cmd :: holders w) w).
  destruct (Hc w2 (sees_holders _ _ _ _ _ _ Hs)) as (w1 & H1 & Hs1 & Hh1). exists w1. split; [done|].
  pose proof (sees_aside _ _ _ _ _ Hs1) as Ha1.
  assert (in_use ep w1 b) as Huse by (eapply in_use_aside; [|exact M2]; by rewrite Ha1).
  rewrite <- Ha1 in M1, M1', M4. cbn in M1, M1', M4.
  set (w3 := queue_left (holders w1) (v_client v') w1).
  assert (reply_written w2 = Ok (tt, w3)) as H3.
  { rewrite H1, (bind_step (start next_read) _ w1 tt (w_in_flight (in_flight w1 ++ [next_read]) w1)) by done.
    rewrite (rotate_rest_ends c cmd _ (v_client v')); [done|apply (sees_client _ _ _ _ _ Hs1)|done|].
    cbn. rewrite Hh1. right. left. }
  set (w4 := queue_left (HoldCommand cmd :: holders w) (v_client v') w1).
  assert (unhold (HoldBackend b) w3 = Ok (tt, w4)) as H4.
  { assert (w4 = w_holders (remove_one (HoldBackend b) (holders w1)) w3) as ->
      by (rewrite Hh1; unfold w2; cbn [holders w_holders]; by rewrite remove_one_head).
    apply drop_backend_held, held_by_pool; cbn; [rewrite (iu_active _ _ _ Huse); eauto|done]. }
  set (w5 := queue_left (holders w) (v_client v') w1).
  assert (unhold (HoldCommand cmd) w4 = Ok (tt, ended (holders w) v' w1)) as H5.
  { assert (w_holders (remove_one (HoldCommand cmd) (holders w4)) w4 = w5) as He
      by (unfold w4, queue_left; cbn [holders w_holders]; by rewrite remove_one_head).
    unfold unhold. rewrite (bind_step (modify _) _ w4 tt w5) by (by rewrite <- He).
    unfold drop_command. rewrite (bind_step get _ w5 w5 w5) by done.
    rewrite (command_unheld w5 c (l_active_cmd_queue [] (v_client v')) cmd);
      [|done|apply lookup_insert_eq|set_solver|cbn; by rewrite delete_insert_eq].
    pose proof (sees_command _ _ _ _ _ Hs1) as Hk. cbn [commands w5 queue_left w_holders w_clients w_in_flight].
    rewrite Hk, bool_decide_true by eauto. cbn [negb andb when].
    refine (Command_dtor_parks ep w5 cmd (v_command v') b (v_backend v') Hk M5 M6' M1' _ _ M8 _).
    - by destruct Huse.
    - apply (sees_backend _ _ _ _ _ Hs1).
    - by rewrite M6. }
  unfold with_command. rewrite (bind_step get _ w w w) by done. rewrite (sees_command _ _ _ _ _ Hs), bool_decide_true by eauto.
  cbn [when]. unfold holding at 1. set (wh := w_holders (HoldCommand cmd :: holders w) w).
  rewrite (bind_step (hold _) _ w tt wh) by done. rewrite (bind_step (holding _ _) _ wh tt w4).
  - by rewrite (bind_step _ _ _ _ _ H5).
  - unfold holding. rewrite (bind_step (hold _) _ wh tt w2) by done.
    by rewrite (bind_step _ _ _ _ _ H3), (bind_step _ _ _ _ _ H4).
Qed.
End ending.

(** The state after a request has been answered: the command is gone, the client
    waits for its next request with its storage [data] free, the connection is the
    youngest idle one to [ep], and nothing is outstanding on it. *)
Record idle_again (c cmd b : Z) (ep : Endpoint) (head_size : Z) (data : bytes) (w : World) : Prop := {
  ia_command : commands w !! cmd = None;
  ia_client : exists x, clients w !! c = Some x /\ waiting x data (zlen data);
  ia_reading : ClientRead c 0 (zlen data) ∈ in_flight w;
  ia_idle : exists idle, sm_find ep (conn_map_ w) = Some (idle ++ [b]);
  ia_clean : exists y, backends w !! b = Some y /\ clean head_size y;
  ia_quiet : Forall (fun op => mine c b op = false) (in_flight w)
}.

Section finishing.
Context (c cmd b : Z) (protocol : ProtocolType) (h t base sent : bytes) (Hsmall : zlen (whole h t) < 2 ^ 31).
Context (x0 : ClientConnection) (asd : aside) (ep : Endpoint) (data : bytes).
Context (Hlast : last_command cmd data x0).
Abbreviation T := (zlen (whole h t)).
Abbreviation relay := (relay c cmd b protocol h t base sent x0 asd).
Abbreviation sees := (sees c cmd b).

(** All is sent. *)
Lemma relay_finished s v :
  relay false None s T T v ->
  v_client v = x0 /\ v_ops v = [] /\ BC.recyclable (v_backend v) = true /\ BC.finished (v_backend v) = true /\
  RB.recycle_locked (buffer_ (v_backend v)) = false /\ clean (zlen h) (reset (v_backend v)).
Proof.
  intros [R1 R2 R3 R4 R5 R6 R7 R8 R9 R10 R11 R12 R13 R14 R15 R16 [K1 K2 K3 K4]]. pose proof (whole_after_head h t).
  assert (BC.finished (v_backend v) = true) as Hfin.
  { unfold BC.finished. rewrite (st_complete _ _ _ _ _ _ R12), Z.eqb_refl, (stream_unprocessed h t T T _ R12).
    rewrite (proj2 (Z.ltb_lt _ _)) by lia. by rewrite Z.sub_diag. }
  pose proof (wf_bounds _ (st_wf _ _ _ _ _ _ R12)). pose proof (wf_len _ (st_wf _ _ _ _ _ _ R12)).
  cbn in R4. split; [|split; [|split; [|split; [done|split]]]].
  - rewrite <- K1. destruct (v_client v). cbn in R4. by subst.
  - by apply Permutation_nil_r in R14.
  - unfold BC.recyclable. by rewrite K3, Hfin.
  - unfold RB.recycle_locked. by rewrite R13.
  - split; cbn; try done. eexists _, _. split; [reflexivity|]. lia.
Qed.

Lemma last_write_comes p s v :
  relay false (Some p) s T T v ->
  exists v', comes c cmd b (OnWriteReplyFinished cmd (Some b) E_SUCCESS)
      (write_done b h t base false T v) (start (next_read c data);; rotate_rest c) v' /\
    linked c cmd b v' /\ simple_state (command_state (v_command v')) = true /\ v_aside v' = asd /\
    v_client v' = reads_again data x0 /\ v_ops v' = [] /\ BC.recyclable (v_backend v') = true /\
    clean (zlen h) (reset (v_backend v')).
Proof.
  intros Hr. pose proof Hr as Hw. eapply relay_written in Hw as (buf & Hd & Hr1 & _).
  set (v1 := part_written _ _ _ _ _ _ _) in *.
  destruct (relay_finished T v1 Hr1) as (Hx & Ho & Hrec & Hfin & Hlk & Hcl).
  pose proof Hr1 as [R1 R2 R3 R4 R5 R6 R7 R8 R9 R10 R11 R12 R13 R14 R15 R16 [K1 K2 K3 K4]].
  exists (u_client (reads_again data (v_client v1)) v1). split.
  2: { rewrite Hx. destruct R1 as [L1 L2 L3]. split; [|done].
       split; [done| |done]. change (cmd ∈ active_cmd_queue_ x0). rewrite (lc_queue _ _ _ Hlast). left. }
  intros w Hs. destruct (part_written_comes _ _ _ _ _ _ _ _ _ _ _ _ _ _ _ _ _ Hr Hd w Hs) as (w1 & H1 & Hs1 & Hh1).
  destruct (after_part_comes c cmd b data v1 R1 R5 K2 Hfin Hlk ltac:(by rewrite Hx) w1 Hs1) as (w2 & H2 & Hs2 & Hh2).
  exists w2. split; [by rewrite H1|]. split; [done|congruence].
Qed.

Lemma ended_idle l l' v w :
  sees w v -> sm_sorted (conn_map_ w) -> v_client v = reads_again data x0 -> v_ops v = [] ->
  clean (zlen h) (reset (v_backend v)) ->
  idle_again c cmd b ep (zlen h) data (w_holders l' (ended c cmd b ep data l v w)).
Proof.
  intros Hs Hso Hx Hops Hcl. destruct Hlast as [L1 L2 L3 L4 L5 L6]. split; cbn.
  - apply lookup_delete_eq.
  - eexists. split; [apply lookup_insert_eq|]. rewrite Hx. split; cbn; try done.
  - set_solver.
  - eexists. by apply sm_find_set.
  - eexists. split; [apply lookup_insert_eq|done].
  - apply Forall_app. split; [|by constructor]. pose proof (sees_ops _ _ _ _ _ Hs) as Ho. rewrite Hops in Ho.
    apply Permutation_nil_r in Ho. apply Forall_forall. intros op Hin. apply not_true_iff_false. intros Hm.
    assert (op ∈ filter (fun op => mine c b op = true) (in_flight w)) as Hf by (by apply list_elem_of_filter).
    rewrite Ho in Hf. set_solver.
Qed.

(** The success of the last write is handled without a fault. *)
Lemma last_write_handled w v i p s :
  sees w v -> relay false (Some p) s T T v -> wf w -> pool_inv w -> in_use ep w b -> HoldCommand cmd ∉ holders w ->
  in_flight w !! i = Some (write_op c cmd b p (T - s)) ->
  exists w', handle (EvComplete i (Sent (T - s))) w = Ok (tt, w') /\ idle_again c cmd b ep (zlen h) data w'.
Proof.
  intros Hs Hr Hw Hp Huse Hnh Hop. pose proof Hr as [R1 R2 R3 R4 R5 R6 R7 R8 R9 R10 R11 R12 R13 R14 R15 R16 [K1 K2 K3 K4]].
  destruct (sees_complete c cmd b w v i _ Hs Hop (mine_write _ _ _ _ _ _)) as [_ Hdel].
  set (w1 := w_in_flight _ w) in Hdel. specialize (Hdel [] ltac:(by rewrite R14)).
  set (w2 := w_holders (HoldClient c :: holders w1) w1).
  pose proof (sees_holders c cmd b w1 _ (HoldClient c :: holders w1) Hdel) as Hs2. fold w2 in Hs2.
  pose proof Hr as Hwc. eapply write_sent_comes in Hwc. destruct (Hwc w2 Hs2) as (w3 & H3 & Hs3 & Hh3).
  destruct (last_write_comes p s v Hr) as (v' & Hc & Hl & Hsim & Ha & Hx & Ho & Hrec & Hcl).
  assert (aside_of c w3 = asd) as Ha3 by (by rewrite (sees_aside _ _ _ _ _ Hs3), <- K4).
  assert (aside_of c w = asd) as Ha0 by (by rewrite (sees_aside _ _ _ _ _ Hs)).
  destruct (callback_ends c cmd b ep data w3 _ v' Hc Hs3) as (w4 & Hs4 & H4).
  { split; try done.
    - rewrite Ha, <- Ha0. destruct Hp. by split.
    - apply (in_use_aside c ep w); [congruence|exact Huse].
    - congruence.
    - intros c' x'. rewrite Ha, <- Ha0. cbn. intros [Hne Hx']%lookup_delete_Some Hin.
      destruct (wf_queued w Hw c' x' cmd Hx' Hin) as [_ Hown].
      specialize (Hown _ (sees_command _ _ _ _ _ Hs)). destruct R1. congruence.
    - rewrite Hx. apply (lc_queue _ _ _ Hlast).
    - rewrite Hh3. left.
    - rewrite Hh3. cbn. set_solver. }
  set (w5 := w_holders (holders w) (ended c cmd b ep data (holders w3) v' w4)).
  assert (unhold (HoldClient c) (ended c cmd b ep data (holders w3) v' w4) = Ok (tt, w5)) as H5.
  { unfold unhold. rewrite (bind_step (modify _) _ _ tt w5).
    - apply drop_client_held, (held_by_read _ c 0 (zlen data)). cbn. set_solver.
    - unfold modify, w5. rewrite Hh3. cbn [holders ended w_commands parked w_conn_map w_backends w_active_conns queue_left w_holders w2].
      by rewrite remove_one_head. }
  exists w5. split.
  - unfold handle. rewrite (bind_step get _ w w w) by done. rewrite Hop. cbn [of_option].
    rewrite (lift_step _ _ _ _ eq_refl), (bind_step _ _ w tt w1) by done. unfold complete_op, write_op, holding.
    rewrite (bind_step _ _ w1 tt w2) by done.
    rewrite (bind_step _ _ w2 tt (ended c cmd b ep data (holders w3) v' w4)) by (by rewrite <- H4, <- H3).
    by rewrite (bind_step _ _ _ _ _ H5).
  - apply ended_idle; try done.
    assert (aside_of c w4 = aside_of c w) as [= _ _ _ -> _] by (rewrite (sees_aside _ _ _ _ _ Hs4); congruence).
    apply (pool_idle_sorted _ Hp).
Qed.
End finishing.

(** ** The exchange to its end *)
Lemma unlocked_last cmd (Q data : bytes) x :
  active_cmd_queue_ x = [cmd] -> cl_aborted_ x = false -> is_reading_query_ x = false ->
  cl_buffer_ x = mkReadBuffer data (zlen data) (zlen Q) (zlen Q) (zlen Q) 1 -> 0 < zlen data < 2 ^ 31 ->
  last_command cmd data (unlocked x).
Proof.
  intros Hq Ha Hr Hb Hsz. unfold unlocked. rewrite Hb.
  assert (RB.dec_recycle_lock (mkReadBuffer data (zlen data) (zlen Q) (zlen Q) (zlen Q) 1) =
          Ok (mkReadBuffer data (zlen data) 0 0 0 0)) as ->; [|by split].
  unfold RB.dec_recycle_lock, RB.try_recycle_buffer. cbn -[zlen].
  by rewrite (Z.eqb_refl (zlen Q)), (Z.sub_diag (zlen Q)).
Qed.

Section answering.
Context (c cmd b : Z) (protocol : ProtocolType) (h t Q : bytes).
Context (Hrep : server_reply protocol h t) (Hsmall : zlen (whole h t) < 2 ^ 31).
Context (config : Config) (w0 : World) (Hw0 : reachable config w0).
Context (x : ClientConnection) (data : bytes) (ep : Endpoint).
Context (Hask : asking c cmd b protocol (zlen h) Q data x w0).
Context (Huse : in_use ep w0 b) (Hfree : HoldCommand cmd ∉ holders w0).
Abbreviation T := (zlen (whole h t)).
Abbreviation base := (client_output c w0).
Abbreviation under_way := (under_way c cmd b protocol h t Q w0 x).
Abbreviation being_sent := (being_sent c cmd b protocol h Q w0 x).
Abbreviation idle_again := (idle_again c cmd b ep (zlen h) data).

Lemma asking_last : last_command cmd data (unlocked x).
Proof.
  destruct Hask as [(op & v & Hs & Hq) A2 A3 A4 A5]. eapply unlocked_last; try done.
  rewrite <- (qu_client _ _ _ _ _ _ _ _ _ _ _ _ Hq). apply (qu_open _ _ _ _ _ _ _ _ _ _ _ _ Hq).
Qed.

Lemma under_way_last bs w i p n cmd' bo :
  under_way bs w -> reachable config w -> in_flight w !! i = Some (ClientWrite c p n cmd' bo) ->
  zlen (client_output c w) + n = zlen base + T ->
  exists w', handle (EvComplete i (Sent n)) w = Ok (tt, w') /\ idle_again w'.
Proof.
  intros (rd & wr & s & f & v & Hs & Hr & (_ & _ & Hrd) & Hlt & Hh) Hw Hop Hn.
  destruct (sees_complete c cmd b w v i _ Hs Hop (mine_write c b _ _ _ _)) as [Hin _].
  pose proof Hr as [R1 R2 R3 R4 R5 R6 R7 R8 R9 R10 R11 R12 R13 R14 [R15 _] R16 [K1 K2 K3 K4]].
  rewrite R14 in Hin.
  apply elem_of_app in Hin as [Hin|Hin]; [destruct rd; [apply list_elem_of_singleton in Hin; discriminate|set_solver]|].
  destruct wr as [q|]; [apply list_elem_of_singleton in Hin|set_solver].
  pose proof (relay_bounds _ _ _ _ _ _ _ _ _ _ _ _ _ _ _ _ Hr) as Hb.
  unfold write_op in Hin. injection Hin as -> -> -> ->.
  rewrite (sees_out _ _ _ _ _ Hs), R15, zlen_app, zlen_slice in Hn by lia.
  assert (f = T) as -> by lia. assert (zlen bs = T) as Hbs by lia. rewrite Hbs in Hr, Hrd.
  destruct rd; [lia|].
  eapply (last_write_handled c cmd b protocol h t); [exact Hsmall|exact asking_last|exact Hs|exact Hr|by eapply reachable_wf|
    by eapply reachable_pool| |by rewrite Hh|exact Hop].
  apply (in_use_aside c ep w0); [|exact Huse]. rewrite (sees_aside _ _ _ _ _ Hs). exact K4.
Qed.

(** As long as the reply is under way, every success is handled. *)
Lemma under_way_completes bs w i op o :
  under_way bs w -> reachable config w -> in_flight w !! i = Some op -> mine c b op = true ->
  completes (whole h t) bs op o ->
  exists w', handle (EvComplete i o) w = Ok (tt, w') /\
    (under_way (bs ++ read_by o) w' \/ idle_again w').
Proof.
  intros Hu Hw Hop Hm Ho. destruct Hask as [Hst _ _ _ _].
  destruct (under_way_ops c cmd b protocol h t Q Hrep Hsmall config w0 Hw0 x Hst bs w i op Hu Hop Hm) as [(off & size & ->)|(p & n & bo & ->)].
  - destruct o as [| | | |chunk]; try done. destruct Ho as (Hne & Hp & Hsz).
    destruct (under_way_read c cmd b protocol h t Q Hrep Hsmall config w0 Hw0 x Hst bs w i off size chunk Hu Hop Hne Hp Hsz)
      as (w' & H & Hu'). exists w'. split; [done|by left].
  - destruct o as [| | |m|]; try done. cbn in Ho. subst m. cbn [read_by]. rewrite app_nil_r.
    destruct (under_way_write c cmd b protocol h t Q Hrep Hsmall config w0 Hw0 x Hst bs w i p n cmd bo Hu
      (reachable_wf _ _ Hw) Hop) as (s & Hs & H0 & Hn & Hle & Hmore & _).
    assert (zlen bs <= T) as Hbs.
    { pose proof Hu as (? & ? & ? & ? & ? & _ & Hr & _). pose proof (relay_bounds _ _ _ _ _ _ _ _ _ _ _ _ _ _ _ _ Hr). lia. }
    destruct (Z.eq_dec (s + n) T) as [Heq|Hne].
    + destruct (under_way_last bs w i p n cmd bo Hu Hw Hop) as (w' & H & Hi).
      { rewrite Hs, zlen_app, zlen_slice by lia. lia. }
      exists w'. split; [done|by right].
    + destruct Hmore as (w' & H & Hu'); [lia|]. exists w'. split; [done|by left].
Qed.

Lemma under_way_step bs w i op o w' :
  under_way bs w -> reachable config w -> in_flight w !! i = Some op -> mine c b op = true -> failed o = false ->
  step w (EvComplete i o) w' -> bs ++ read_by o `prefix_of` whole h t -> under_way (bs ++ read_by o) w' \/ idle_again w'.
Proof.
  intros Hu Hw Hop Hm Ho [He H] Hpre. cbn in He. rewrite Hop in He.
  assert (completes (whole h t) bs op o) as Hc.
  { destruct Hask as [Hst _ _ _ _].
    destruct (under_way_ops c cmd b protocol h t Q Hrep Hsmall config w0 Hw0 x Hst bs w i op Hu Hop Hm)
      as [(off & size & ->)|(p & n & bo & ->)].
    - destruct o as [| | | |chunk]; try done.
      apply andb_true_iff in He as [H0%Z.ltb_lt Hle%Z.leb_le]. split; [by intros ->|done].
    - destruct o as [| | |m|]; try done. by apply Z.eqb_eq in He as ->. }
  destruct (under_way_completes bs w i op o Hu Hw Hop Hm Hc) as (w1 & H1 & Hor).
  rewrite H1 in H. by injection H as <-.
Qed.

Lemma under_way_not_all bs w : under_way bs w -> client_output c w <> base ++ whole h t.
Proof.
  intros (rd & wr & s & f & v & Hs & Hr & _ & Hlt & _) Heq.
  pose proof (relay_bounds _ _ _ _ _ _ _ _ _ _ _ _ _ _ _ _ Hr). apply (f_equal zlen) in Heq.
  rewrite (sees_out _ _ _ _ _ Hs), (proj1 (re_out _ _ _ _ _ _ _ _ _ _ _ _ _ _ _ _ Hr)), !zlen_app, zlen_slice in Heq by lia.
  lia.
Qed.

Lemma exchange_idle bs w :
  exchange c b T w0 bs w -> bs `prefix_of` whole h t -> bs <> [] ->
  client_output c w = base ++ whole h t -> idle_again w.
Proof.
  intros Hex Hpre Hne Hall. destruct Hask as [Hst _ _ _ _].
  destruct Hex as [|bs w i op o w' Hex Hlt Hop Hm Ho Hstep]; [done|].
  assert (reachable config w) as Hw by (by eapply (exchange_reachable c b h t)).
  assert (bs `prefix_of` whole h t) as Hpre' by (etransitivity; [by apply prefix_app_r|done]).
  destruct (exchange_progress c cmd b protocol h t Q Hrep Hsmall config w0 Hw0 x Hst bs w Hex Hpre')
    as [[Hb ->]|[Hu|(Hc & _)]].
  - by destruct (progress_sending c cmd b protocol h t Q w0 x w i op o w' Hb Hop Hm Ho Hstep) as [Hr _].
  - destruct (under_way_step bs w i op o w' Hu Hw Hop Hm Ho Hstep Hpre) as [Hu'|Hi]; [|done].
    by apply under_way_not_all in Hu'.
  - rewrite Hc, zlen_app in Hlt. lia.
Qed.
End answering.

(** As long as the reply is not all sent, an operation of the exchange is outstanding,
    and its success, the last write included, is handled without a fault; in the end
    everything is ready for the next request. *)
Lemma request_is_answered c cmd b protocol h t Q data x ep config w0 bs w :
  server_reply protocol h t -> zlen (whole h t) < 2 ^ 31 -> reachable config w0 ->
  asking c cmd b protocol (zlen h) Q data x w0 -> in_use ep w0 b -> HoldCommand cmd ∉ holders w0 ->
  exchange c b (zlen (whole h t)) w0 bs w -> bs `prefix_of` whole h t ->
  (client_output c w = client_output c w0 ++ whole h t /\ backend_output b w = backend_output b w0 ++ Q /\
   idle_again c cmd b ep (zlen h) data w) \/
  (exists op, op ∈ in_flight w /\ mine c b op = true) /\
  (forall i op o, in_flight w !! i = Some op -> mine c b op = true -> completes (whole h t) bs op o ->
     exists w', handle (EvComplete i o) w = Ok (tt, w')).
Proof.
  intros Hrep Hsmall Hw0 Hask Huse Hfree Hex Hpre. pose proof Hask as [Hst _ _ _ _].
  assert (reachable config w) as Hw by (by eapply (exchange_reachable c b h t)).
  destruct (exchange_progress c cmd b protocol h t Q Hrep Hsmall config w0 Hw0 x Hst bs w Hex Hpre)
    as [[Hs ->]|[Hu|(Hc & Hb & ->)]].
  - right. destruct (being_sent_served c cmd b protocol h t Q Hrep Hsmall config w0 Hw0 x Hst w Hs) as (_ & _ & Hop).
    split; [done|]. intros i op o Hi Hm Ho.
    destruct (being_sent_handled c cmd b protocol h t Q w0 x w i op Hs Hi Hm) as [(p & -> & w' & H & _)|(p & -> & w' & H & _)];
      destruct o; try done; cbn in Ho; subst; eauto.
  - right. split.
    + destruct (under_way_served c cmd b protocol h t Q Hrep Hsmall config w0 Hw0 x Hst bs w Hu Hpre) as (_ & _ & _ & _ & Hop). done.
    + intros i op o Hi Hm Ho.
      destruct (under_way_completes c cmd b protocol h t Q Hrep Hsmall config w0 Hw0 x data ep Hask Huse Hfree bs w i op o Hu Hw Hi Hm Ho)
        as (w' & H & _). by exists w'.
  - left. split; [done|]. split; [done|]. eapply (exchange_idle c cmd b protocol h t Q Hrep Hsmall config w0 Hw0 x data ep); try done.
    pose proof (whole_after_head h t). pose proof (zlen_nonneg h). intros Hnil. apply (f_equal zlen) in Hnil.
    rewrite zlen_nil in Hnil. lia.
Qed.


(** The [get] of [answering], from the first event to the last *)
Lemma answering_all : exchange 0 1 11 (answering 0) value_reply (answering 6).
Proof.
  rewrite <- (app_nil_r value_reply). apply (exchange_step _ _ _ _ _ (answering 5) 0 (ClientWrite 0 (InBackend 1 6) 5 2 (Some 1)) (Sent 5));
    [exact answering_exchange|by_compute..].
Qed.

Lemma run_det {A} (m : M A) (a : A) w w1 w2 : m w = Ok (a, w1) -> m w = Ok (a, w2) -> w1 = w2.
Proof. congruence. Qed.

