(* ===== verification/MemcReply.v ===== *)
(** * Replies to a memcached [get]

    Such a reply is a sequence of values and a line [END].  It may arrive in any
    pieces; of the backends a [get] was sent to, only the last one's [END] is
    forwarded, so that the replies together are one reply. *)

From S2P Require Import Prelude CString ErrorCode ReadBuffer RedisProtocol KeyDistributer.
From S2P Require Import BackendConn ReplyParser ReplyTheorems.

(** ** The text of a reply *)

(** [v_ext] is empty, or a space and the unique number that [gets] asks for. *)
Record value := mkValue { v_key : bytes; v_flags : bytes; v_ext : bytes; v_data : bytes }.

Record value_ok (v : value) : Prop := {
  ok_key : v_key v <> [];
  ok_words : SP ∉ v_key v /\ SP ∉ v_flags v;
  ok_line : LF ∉ v_key v /\ LF ∉ v_flags v /\ LF ∉ v_ext v;
  ok_ext : v_ext v = [] \/ head (v_ext v) = Some SP;
  ok_data : zlen (v_data v) < 2 ^ 30
}.

Definition value_head (v : value) : bytes :=
  str "VALUE " ++ v_key v ++ SP :: v_flags v ++ SP :: dec (zlen (v_data v)) ++ v_ext v ++ [CR].
Definition enc_value (v : value) : bytes := whole (value_head v) (v_data v ++ crlf).
Definition enc_values (vs : list value) : bytes := concat (enc_value <$> vs).
Definition enc_reply (vs : list value) : bytes := enc_values vs ++ END_RN.

(** How much of the reply is parsed when [n] bytes have arrived and the line [END] is
    not among them: the values whose first line is there. *)
Fixpoint parsed_upto (vs : list value) (n : Z) : Z :=
  match vs with
  | [] => 0
  | v :: vs' =>
      if zlen (value_head v) <? n
      then zlen (enc_value v) + parsed_upto vs' (n - zlen (enc_value v)) else 0
  end.

(** What the parser leaves when [k] bytes from the parsed ones on have arrived *)
Definition after_parse (is_last : bool) (vs : list value) (k : Z) (b : BackendConn) : BackendConn :=
  if k =? zlen (enc_reply vs) then
    let b := BC.set_reply_recv_complete (parsed (zlen (enc_values vs)) b) in
    if is_last then parsed 5 b else BC.set_buffer (RB.cut_received_tail (buffer_ b) 5) b
  else parsed (parsed_upto vs k) b.

(** ** Sizes *)
Lemma enc_values_cons v vs : enc_values (v :: vs) = enc_value v ++ enc_values vs.
Proof. reflexivity. Qed.
Lemma enc_reply_cons v vs : enc_reply (v :: vs) = enc_value v ++ enc_reply vs.
Proof. unfold enc_reply. by rewrite enc_values_cons, app_assoc. Qed.
Lemma zlen_enc_value v : zlen (enc_value v) = zlen (value_head v) + 1 + zlen (v_data v) + 2.
Proof. unfold enc_value. rewrite zlen_whole, zlen_app. change (zlen crlf) with 2. lia. Qed.
Lemma zlen_value_head v : 7 <= zlen (value_head v).
Proof.
  unfold value_head. rewrite zlen_app. change (zlen (str "VALUE ")) with 6.
  rewrite zlen_app, zlen_cons. pose proof (zlen_nonneg (v_key v)).
  pose proof (zlen_nonneg (v_flags v ++ SP :: dec (zlen (v_data v)) ++ v_ext v ++ [CR])). lia.
Qed.
Lemma zlen_enc_reply vs : zlen (enc_reply vs) = zlen (enc_values vs) + 5.
Proof. unfold enc_reply. by rewrite zlen_app. Qed.
Lemma parsed_upto_bounds vs n : 0 <= parsed_upto vs n <= zlen (enc_values vs).
Proof.
  revert n. induction vs as [|v vs IH]; intros n; cbn [parsed_upto]; [done|].
  specialize (IH (n - zlen (enc_value v))). rewrite enc_values_cons, zlen_app.
  pose proof (zlen_nonneg (enc_value v)). destruct (_ <? _); lia.
Qed.
Lemma value_head_no_lf v : value_ok v -> LF ∉ value_head v.
Proof.
  intros [_ _ (Hk & Hf & He) _ _]. unfold value_head.
  rewrite !elem_of_app, !elem_of_cons, !elem_of_app, !elem_of_cons, !elem_of_app, list_elem_of_singleton.
  assert (LF ∉ dec (zlen (v_data v))) as Hd
    by (apply digits_no_special; [apply dec_digits, zlen_nonneg|done]).
  intros [H|[H|[H|[H|[H|[H|[H|H]]]]]]]; try done. revert H. decide_goal.
Qed.

(** ** The size of a value *)
Lemma body_scan a l p end_ count :
  SP ∉ a -> p + zlen a < end_ ->
  body_size_loop (a ++ SP :: l) p end_ count =
  if count + 1 =? 2
  then s ← c_string l; v ← of_option StdException (stoi s); Ok (u64 v)
  else body_size_loop l (p + zlen a + 1) end_ (count + 1).
Proof.
  revert p. induction a as [|c a IH]; intros p Hsp Hp; rewrite ?zlen_cons, ?zlen_nil in *; simpl.
  - rewrite (proj2 (Z.eqb_neq _ _)) by lia. by rewrite Z.add_0_r.
  - apply not_elem_of_cons in Hsp as [Hc Ha]. pose proof (zlen_nonneg a).
    rewrite (proj2 (Z.eqb_neq _ _)), bool_decide_eq_false_2 by (done || lia).
    rewrite IH by (done || lia). by replace (p + 1 + zlen a + 1) with (p + (1 + zlen a) + 1) by lia.
Qed.

(** The third word of the line, read by [stoi] behind an optional sign *)
Lemma field_end n ext l :
  0 <= n -> ext = [] \/ head ext = Some SP -> NUL ∈ l ->
  exists c s, c_string (dec n ++ ext ++ CR :: l) = Ok (dec n ++ c :: s) /\ isdigit c = false.
Proof.
  intros Hn He Hl.
  assert (exists c l', ext ++ CR :: l = c :: l' /\ isdigit c = false /\ c <> NUL /\ NUL ∈ l')
    as (c & l' & -> & Hc & Hnul & Hl').
  { destruct ext as [|c ext]; [exists CR, l; by split_and!|]. destruct He as [|[= ->]]; [done|].
    exists SP, (ext ++ CR :: l). split_and!; [done..|set_solver]. }
  destruct (c_string_Ok l' Hl') as [s Hs]. exists c, s. split; [|done].
  rewrite c_string_app by (apply digits_no_special; [by apply dec_digits|done]). simpl.
  by rewrite bool_decide_eq_false_2, Hs by done.
Qed.

Lemma stoi_field n ext l :
  0 <= n < 2 ^ 30 -> ext = [] \/ head ext = Some SP -> NUL ∈ l ->
  exists s, c_string (dec n ++ ext ++ CR :: l) = Ok s /\ stoi s = Some n.
Proof.
  intros Hn He Hl. destruct (field_end n ext l) as (c & s & Hs & Hc); [lia|done..|].
  exists (dec n ++ c :: s). split; [done|]. apply stoi_dec_app; [unfold INT_MAX; lia|done].
Qed.

Lemma stoi_negative_field n ext l :
  0 <= n < 2 ^ 30 -> ext = [] \/ head ext = Some SP -> NUL ∈ l ->
  exists s, c_string ("-"%char :: dec n ++ ext ++ CR :: l) = Ok s /\ stoi s = Some (- n).
Proof.
  intros Hn He Hl. destruct (field_end n ext l) as (c & s & Hs & Hc); [lia|done..|].
  exists ("-"%char :: dec n ++ c :: s). split.
  { change (?c :: ?k) with ([c] ++ k). rewrite c_string_app by decide_goal. by rewrite Hs. }
  pose proof (dec_digits n ltac:(lia)) as Hd. pose proof (dec_not_nil n ltac:(lia)) as Hnil.
  pose proof (digits_val_dec_app n ltac:(lia) c s Hc) as Hv.
  assert (forall d k, isdigit d = true -> strtol ("-"%char :: d :: k) = Some (- digits_val (d :: k) 0)) as Hneg.
  { intros d k Hdig. unfold strtol. simpl skip_space. cbv iota. by rewrite bool_decide_eq_true_2, Hdig. }
  destruct (dec n) as [|d k]; [done|]. inversion_clear Hd as [|?? Hdig _]. cbn [app] in *.
  unfold stoi. rewrite Hneg, Hv by done.
  unfold INT_MIN, INT_MAX in *. by rewrite !(proj2 (Z.leb_le _ _)) by lia.
Qed.

(** [ParseReplyBodySize] on a line of at least three words *)
Lemma ParseReplyBodySize_line key flags l v m pos end_ :
  key <> [] -> SP ∉ key -> SP ∉ flags -> 0 <= pos ->
  at_ptr m pos = str "VALUE " ++ key ++ SP :: flags ++ SP :: l ->
  pos + 6 + zlen key + 1 + zlen flags < end_ ->
  (exists s, c_string l = Ok s /\ stoi s = Some v) ->
  ParseReplyBodySize m pos end_ = Ok (u64 v).
Proof.
  intros Hk Hsk Hsf Hpos Hm Hend (s & Hs & Hv). unfold ParseReplyBodySize.
  destruct key as [|c key]; [done|]. apply not_elem_of_cons in Hsk as [_ Hsk].
  rewrite <- at_ptr_at_ptr, Hm by lia.
  replace (at_ptr _ 7) with (key ++ SP :: flags ++ SP :: l).
  2:{ change 7 with (zlen (str "VALUE " ++ [c])).
      rewrite <- (at_ptr_app (str "VALUE " ++ [c]) (key ++ _)). f_equal. }
  rewrite zlen_cons in Hend. pose proof (zlen_nonneg key). pose proof (zlen_nonneg flags).
  rewrite body_scan by (done || lia). cbn [Z.add Z.eqb Z.compare Pos.eqb].
  rewrite body_scan by (done || lia). cbn [Z.add Z.eqb Z.compare Pos.eqb Pos.add].
  rewrite Hs, bind_Ok_l, Hv. done.
Qed.

Lemma ParseReplyBodySize_value v m pos l :
  value_ok v -> 0 <= pos -> at_ptr m pos = value_head v ++ LF :: l -> NUL ∈ l ->
  ParseReplyBodySize m pos (pos + zlen (value_head v)) = Ok (zlen (v_data v)).
Proof.
  intros [Hk [Hsk Hsf] _ He Hd] Hpos Hm Hnul. pose proof (zlen_nonneg (v_data v)).
  rewrite <- (u64_small (zlen (v_data v))) by lia.
  apply (ParseReplyBodySize_line (v_key v) (v_flags v) (dec (zlen (v_data v)) ++ v_ext v ++ CR :: LF :: l)); try done.
  - rewrite Hm. unfold value_head. by rewrite <- !app_assoc, <- !app_comm_cons, <- !app_assoc, <- !app_comm_cons, <- !app_assoc.
  - unfold value_head. repeat first [rewrite zlen_app|rewrite zlen_cons|rewrite zlen_nil].
    change (zlen (str "VALUE ")) with 6. pose proof (zlen_nonneg (v_ext v)).
    pose proof (zlen_nonneg (dec (zlen (v_data v)))). lia.
  - apply stoi_field; [lia|done|set_solver].
Qed.

(** ** One run of the parser *)
Lemma parsed_parsed i j b :
  0 <= parsed_offset_ (buffer_ b) -> 0 <= i -> 0 <= j -> parsed_offset_ (buffer_ b) + i < 2 ^ 64 ->
  parsed j (parsed i b) = parsed (i + j) b.
Proof.
  intros Hb Hi Hj Hm. unfold parsed, RB.update_parsed_bytes, RB.set_offsets, BC.set_buffer. simpl.
  rewrite (u64_small (_ + i)) by lia. by rewrite Z.add_assoc.
Qed.
Lemma parsed_offset_parsed n b :
  0 <= parsed_offset_ (buffer_ b) + n < 2 ^ 64 ->
  parsed_offset_ (buffer_ (parsed n b)) = parsed_offset_ (buffer_ b) + n.
Proof. intros Hn. unfold parsed. cbn [buffer_ BC.set_buffer RB.update_parsed_bytes RB.set_offsets parsed_offset_]. by apply u64_small. Qed.
Lemma parsed_0 b : 0 <= parsed_offset_ (buffer_ b) < 2 ^ 64 -> parsed 0 b = b.
Proof.
  intros Hb. unfold parsed, RB.update_parsed_bytes, RB.set_offsets, BC.set_buffer.
  rewrite Z.add_0_r, u64_small by lia. by destruct b as [[]].
Qed.

Lemma slice_tail m i j k : 0 <= i <= j -> slice m j k = drop (Z.to_nat (j - i)) (slice m i k).
Proof.
  intros Hij. unfold slice. rewrite skipn_firstn_comm, drop_drop.
  replace (Z.to_nat i + Z.to_nat (j - i))%nat with (Z.to_nat j) by lia. f_equal. lia.
Qed.

(** [k] bytes of the reply [enc_reply vs] have been received, from the first byte that is
    not parsed on; behind the reply there is a NUL. *)
Record received_reply (vs : list value) (k : Z) (b : BackendConn) : Prop := {
  rv_values : Forall value_ok vs;
  rv_pos : 0 <= parsed_offset_ (buffer_ b);
  rv_k : k <= zlen (enc_reply vs);
  rv_received : received_offset_ (buffer_ b) = parsed_offset_ (buffer_ b) + k;
  rv_fits : parsed_offset_ (buffer_ b) + zlen (enc_reply vs) < zlen (storage b) < 2 ^ 31;
  rv_bytes : slice (storage b) (parsed_offset_ (buffer_ b)) (parsed_offset_ (buffer_ b) + k) =
             take (Z.to_nat k) (enc_reply vs);
  rv_nul : NUL ∈ at_ptr (storage b) (parsed_offset_ (buffer_ b) + zlen (enc_reply vs))
}.

Lemma received_unparsed_bytes vs k b : received_reply vs k b -> RB.unparsed_bytes (buffer_ b) = Z.max 0 k.
Proof.
  intros [_ _ _ Hr _ _ _]. unfold RB.unparsed_bytes. rewrite Hr.
  destruct (Z.ltb_spec (parsed_offset_ (buffer_ b)) (parsed_offset_ (buffer_ b) + k)); lia.
Qed.

(** The memory from the first byte that is not parsed on *)
Lemma received_at vs k b :
  received_reply vs k b -> 0 <= k ->
  at_ptr (storage b) (parsed_offset_ (buffer_ b)) =
    take (Z.to_nat k) (enc_reply vs) ++ at_ptr (storage b) (parsed_offset_ (buffer_ b) + k) /\
  NUL ∈ at_ptr (storage b) (parsed_offset_ (buffer_ b) + k).
Proof.
  intros [_ Hp Hk _ Hf Hb Hn] Hk0. split; [rewrite <- Hb; apply at_ptr_slice; lia|].
  rewrite (at_ptr_slice _ _ (zlen (enc_reply vs) - k)) by lia. apply elem_of_app. right.
  by replace (parsed_offset_ (buffer_ b) + k + (zlen (enc_reply vs) - k))
    with (parsed_offset_ (buffer_ b) + zlen (enc_reply vs)) by lia.
Qed.

(** Past the first value *)
Lemma received_next v vs k b :
  received_reply (v :: vs) k b -> 0 <= k ->
  received_reply vs (k - zlen (enc_value v)) (parsed (zlen (enc_value v)) b).
Proof.
  intros [Hv Hp Hk Hr Hf Hb Hn] Hk0. apply Forall_cons in Hv as [_ Hv].
  rewrite enc_reply_cons, zlen_app in *. pose proof (zlen_nonneg (enc_value v)). pose proof (zlen_nonneg (enc_reply vs)).
  pose proof (parsed_offset_parsed (zlen (enc_value v)) b ltac:(lia)) as Hoff.
  split; rewrite ?Hoff; change (storage (parsed _ b)) with (storage b); [done|lia|lia| |lia|..].
  - change (received_offset_ (buffer_ (parsed _ b))) with (received_offset_ (buffer_ b)). lia.
  - rewrite (slice_tail _ (parsed_offset_ (buffer_ b))) by lia.
    replace (parsed_offset_ (buffer_ b) + zlen (enc_value v) + (k - zlen (enc_value v)))
      with (parsed_offset_ (buffer_ b) + k) by lia.
    rewrite Hb, skipn_firstn_comm.
    replace (Z.to_nat (parsed_offset_ (buffer_ b) + zlen (enc_value v) - parsed_offset_ (buffer_ b)))
      with (length (enc_value v)) by (unfold zlen; lia).
    rewrite drop_app_length. f_equal. unfold zlen. lia.
  - by rewrite <- Z.add_assoc.
Qed.

Lemma after_parse_next is_last v vs k b :
  received_reply (v :: vs) k b -> zlen (value_head v) < k ->
  after_parse is_last vs (k - zlen (enc_value v)) (parsed (zlen (enc_value v)) b) =
  after_parse is_last (v :: vs) k b.
Proof.
  intros [_ Hp Hk _ Hf _ _] Hlt. unfold after_parse. cbn [parsed_upto].
  rewrite (proj2 (Z.ltb_lt _ _) Hlt), enc_values_cons, enc_reply_cons in *. rewrite !zlen_app in *.
  pose proof (zlen_nonneg (enc_value v)). pose proof (zlen_nonneg (enc_values vs)).
  pose proof (zlen_nonneg (enc_reply vs)).
  pose proof (parsed_upto_bounds vs (k - zlen (enc_value v))).
  rewrite !parsed_parsed by lia.
  destruct (Z.eqb_spec (k - zlen (enc_value v)) (zlen (enc_reply vs))),
    (Z.eqb_spec k (zlen (enc_value v) + zlen (enc_reply vs))); try lia; done.
Qed.

(** Where the next line is not complete nothing is parsed. *)
Definition first_line (vs : list value) : bytes :=
  match vs with [] => str "END" ++ [CR] | v :: _ => value_head v end.
Definition after_line (vs : list value) : bytes :=
  match vs with [] => [] | v :: vs' => (v_data v ++ crlf) ++ enc_reply vs' end.

Lemma enc_reply_lines vs : enc_reply vs = whole (first_line vs) (after_line vs).
Proof. destruct vs as [|v vs]; [done|]. rewrite enc_reply_cons. unfold enc_value, whole. simpl. by rewrite <- app_assoc. Qed.

Lemma after_parse_same is_last vs k b :
  received_reply vs k b -> k <= zlen (first_line vs) -> after_parse is_last vs k b = b.
Proof.
  intros [_ Hp _ _ Hf _ _] Hk. pose proof (zlen_nonneg (enc_reply vs)). unfold after_parse.
  rewrite (proj2 (Z.eqb_neq _ _)).
  - destruct vs as [|v vs]; cbn [parsed_upto]; rewrite ?(proj2 (Z.ltb_ge _ _)) by done; apply parsed_0; lia.
  - rewrite enc_reply_lines, zlen_whole. pose proof (zlen_nonneg (after_line vs)). lia.
Qed.

Lemma first_line_no_lf vs : Forall value_ok vs -> LF ∉ first_line vs.
Proof. intros [|v vs' Hv _]; simpl; [decide_goal|by apply value_head_no_lf]. Qed.

Lemma received_line vs k b :
  received_reply vs k b -> 0 <= k ->
  memchr (storage b) (parsed_offset_ (buffer_ b)) LF k =
  Ok (if zlen (first_line vs) <? k then Some (parsed_offset_ (buffer_ b) + zlen (first_line vs)) else None).
Proof.
  intros [Hv Hp Hk _ Hf Hb _] Hk0. rewrite enc_reply_lines in *.
  apply (memchr_line _ _ _ (after_line vs)); [lia..|by apply first_line_no_lf|done].
Qed.

(** The complete first line, in the memory *)
Lemma received_line_at vs k b :
  received_reply vs k b -> zlen (first_line vs) < k ->
  exists l, at_ptr (storage b) (parsed_offset_ (buffer_ b)) = first_line vs ++ LF :: l /\ NUL ∈ l.
Proof.
  intros Hr Hk. pose proof (zlen_nonneg (first_line vs)).
  destruct (received_at vs k b Hr ltac:(lia)) as [Hm Hn]. rewrite enc_reply_lines in Hm. unfold whole in Hm.
  rewrite take_app_ge in Hm by (unfold zlen in *; lia).
  destruct (Z.to_nat k - length (first_line vs))%nat eqn:Hj; [unfold zlen in *; lia|].
  rewrite <- app_assoc in Hm. simpl in Hm. eexists. split; [exact Hm|]. apply elem_of_app. by right.
Qed.

Lemma memc_get_loop_values is_last vs : forall fuel k b,
  received_reply vs k b -> (Z.to_nat k < fuel)%nat ->
  memc_get_loop fuel is_last b = Ok (true, after_parse is_last vs k b).
Proof.
  induction vs as [|v vs IH]; intros [|fuel] k b Hr Hfuel; try lia; cbn [memc_get_loop];
    rewrite (received_unparsed_bytes _ _ _ Hr); pose proof Hr as [Hv Hp Hk Hrec Hf Hb Hn];
    change (RB.unparsed_data (buffer_ b)) with (parsed_offset_ (buffer_ b));
    match type of Hr with received_reply ?l _ _ => pose proof (zlen_nonneg (first_line l)) as Hl end;
    (destruct (Z.eqb_spec (Z.max 0 k) 0) as [Hz|Hz]; [by rewrite after_parse_same by (done || lia)|]);
    rewrite Z.max_r, (received_line _ _ _ Hr), bind_Ok_l by lia;
    (match goal with |- context [?i <? k] => destruct (Z.ltb_spec i k) as [Hlt|Hge] end;
     [|by rewrite after_parse_same]);
    destruct (received_line_at _ k b Hr Hlt) as (l & Hm & Hnul).
  - assert (k = 5) as -> by (unfold zlen in *; cbn in *; lia). simpl in Hm.
    apply at_ptr_cons in Hm as Hm'; [|done]. destruct Hm' as [-> _]. rewrite bind_Ok_l, Hm.
    unfold after_parse. change (5 =? zlen (enc_reply [])) with true. change (zlen (enc_values [])) with 0.
    change (zlen (enc_reply [])) with 5 in Hf. rewrite parsed_0, bool_decide_eq_false_2 by (done || lia).
    change END_RN with ["E"; "N"; "D"; CR; LF]%char. cbn [strncmp_eq].
    rewrite !bool_decide_eq_true_2 by done. by destruct l.
  - apply Forall_cons in Hv as [Hok _]. pose proof (ParseReplyBodySize_value v _ _ l Hok Hp Hm Hnul) as Hbody.
    simpl in Hm. apply at_ptr_cons in Hm as Hm'; [|done]. destruct Hm' as [-> _]. rewrite bind_Ok_l.
    change (bool_decide (_ = _)) with true. cbv iota. cbn [first_line] in *. rewrite Hbody, bind_Ok_l.
    pose proof (zlen_enc_value v) as Hlen. pose proof (zlen_nonneg (v_data v)).
    rewrite enc_reply_cons, zlen_app in Hf. pose proof (zlen_nonneg (enc_reply vs)).
    replace (u64 _) with (zlen (enc_value v)) by (rewrite u64_small; lia).
    rewrite (IH fuel (k - zlen (enc_value v))); [|by apply received_next; [|lia]|lia].
    by rewrite after_parse_next.
Qed.

Lemma MemcGet_ParseReply_values is_last vs k b :
  received_reply vs k b -> MemcGet_ParseReply is_last b = Ok (true, after_parse is_last vs k b).
Proof.
  intros Hr. apply memc_get_loop_values; [done|]. rewrite (received_unparsed_bytes _ _ _ Hr). lia.
Qed.

(** ** Pieces *)

(** Between two reads: [n] bytes of the reply have arrived, from the offset [off] on, and
    the last one has not. *)
Record get_progress (off : Z) (vs : list value) (n : Z) (b : BackendConn) : Prop := {
  gp_values : Forall value_ok vs;
  gp_off : 0 <= off;
  gp_n : 0 <= n < zlen (enc_reply vs);
  gp_fits : off + zlen (enc_reply vs) < zlen (storage b) < 2 ^ 31;
  gp_bytes : slice (storage b) off (off + n) = take (Z.to_nat n) (enc_reply vs);
  gp_nul : NUL ∈ at_ptr (storage b) (off + zlen (enc_reply vs));
  gp_received : received_offset_ (buffer_ b) = off + n;
  gp_parsed : parsed_offset_ (buffer_ b) = off + parsed_upto vs n;
  gp_complete : reply_recv_complete_ b = false
}.

(** After the last one: what is to be forwarded *)
Record get_complete (off : Z) (forwarded : bytes) (b : BackendConn) : Prop := {
  gc_received : received_offset_ (buffer_ b) = off + zlen forwarded;
  gc_parsed : parsed_offset_ (buffer_ b) = off + zlen forwarded;
  gc_bytes : slice (storage b) off (off + zlen forwarded) = forwarded;
  gc_complete : reply_recv_complete_ b = true
}.

(** The values that are parsed when [n] bytes have arrived, and those that follow *)
Lemma parsed_split vs n :
  exists vs1 vs2, vs = vs1 ++ vs2 /\ parsed_upto vs n = zlen (enc_values vs1) /\
    forall k, n <= k -> parsed_upto vs k = zlen (enc_values vs1) + parsed_upto vs2 (k - zlen (enc_values vs1)).
Proof.
  revert n. induction vs as [|v vs IH]; intros n; [by exists [], []|]. cbn [parsed_upto].
  destruct (Z.ltb_spec (zlen (value_head v)) n).
  - destruct (IH (n - zlen (enc_value v))) as (vs1 & vs2 & -> & -> & Hk). exists (v :: vs1), vs2.
    rewrite enc_values_cons, zlen_app. split_and!; [done..|]. intros k Hle.
    rewrite (proj2 (Z.ltb_lt _ _)), Hk by lia. by rewrite Z.sub_add_distr, Z.add_assoc.
  - exists [], (v :: vs). split_and!; [done..|]. intros k _. cbn [parsed_upto].
    change (zlen (enc_values [])) with 0. by rewrite Z.sub_0_r, Z.add_0_l.
Qed.

Lemma enc_values_app vs1 vs2 : enc_values (vs1 ++ vs2) = enc_values vs1 ++ enc_values vs2.
Proof. unfold enc_values. by rewrite fmap_app, concat_app. Qed.
Lemma enc_reply_app vs1 vs2 : enc_reply (vs1 ++ vs2) = enc_values vs1 ++ enc_reply vs2.
Proof. unfold enc_reply. by rewrite enc_values_app, app_assoc. Qed.

Lemma get_receive off vs1 vs2 n b chunk :
  get_progress off (vs1 ++ vs2) n b -> parsed_upto (vs1 ++ vs2) n = zlen (enc_values vs1) ->
  chunk `prefix_of` drop (Z.to_nat n) (enc_reply (vs1 ++ vs2)) ->
  exists m, let buf := RB.set_offsets (RB.set_data (buffer_ b) m) (processed_offset_ (buffer_ b))
                         (off + (n + zlen chunk)) (parsed_offset_ (buffer_ b)) in
    RB.receive (buffer_ b) chunk = Ok buf /\ n + zlen chunk <= zlen (enc_reply (vs1 ++ vs2)) /\
    zlen m = zlen (storage b) /\
    slice m off (off + (n + zlen chunk)) = take (Z.to_nat (n + zlen chunk)) (enc_reply (vs1 ++ vs2)) /\
    NUL ∈ at_ptr m (off + zlen (enc_reply (vs1 ++ vs2))) /\
    received_reply vs2 (n + zlen chunk - zlen (enc_values vs1)) (BC.set_buffer buf b).
Proof.
  intros [Hv Ho Hn Hf Hb Hnul Hr Hp Hc] Hup Hpre. unfold storage in *.
  destruct (receive_extends (enc_reply (vs1 ++ vs2)) off n (buffer_ b) chunk) as (m & Hrec & Hle & Hl & Hs & Hend);
    [lia..|done|done|done|].
  exists m. split_and!; [done..|by rewrite Hend|]. rewrite Hup in Hp. pose proof (zlen_nonneg (enc_values vs1)).
  apply Forall_app in Hv as [_ Hv2]. rewrite enc_reply_app, zlen_app in *.
  split; cbn [buffer_ BC.set_buffer parsed_offset_ received_offset_ RB.set_offsets RB.set_data storage data_];
    rewrite ?Hp; unfold storage; cbn [buffer_ BC.set_buffer RB.set_offsets RB.set_data data_]; [done|lia..| |].
  - rewrite (slice_tail _ off) by lia.
    replace (off + zlen (enc_values vs1) + (n + zlen chunk - zlen (enc_values vs1)))
      with (off + (n + zlen chunk)) by lia.
    rewrite Hs, skipn_firstn_comm.
    replace (Z.to_nat (off + zlen (enc_values vs1) - off)) with (length (enc_values vs1)) by (unfold zlen; lia).
    rewrite drop_app_length. f_equal. unfold zlen. lia.
  - rewrite <- Z.add_assoc, Hend. done.
Qed.

(** What the parser makes of the whole reply *)
Lemma complete_after is_last off vs1 vs2 b :
  received_reply vs2 (zlen (enc_reply vs2)) b -> 0 <= off ->
  parsed_offset_ (buffer_ b) = off + zlen (enc_values vs1) ->
  slice (storage b) off (off + zlen (enc_reply (vs1 ++ vs2))) = enc_reply (vs1 ++ vs2) ->
  get_complete off (if is_last : bool then enc_reply (vs1 ++ vs2) else enc_values (vs1 ++ vs2))
    (after_parse is_last vs2 (zlen (enc_reply vs2)) b).
Proof.
  intros [_ Hp _ Hr Hf _ _] Ho Hoff Hs. unfold after_parse. rewrite Z.eqb_refl.
  pose proof (zlen_nonneg (enc_values vs1)). pose proof (zlen_nonneg (enc_values vs2)).
  rewrite zlen_enc_reply in Hr, Hf.
  assert (zlen (enc_values (vs1 ++ vs2)) = zlen (enc_values vs1) + zlen (enc_values vs2)) as Hl
    by (by rewrite enc_values_app, zlen_app).
  pose proof (parsed_offset_parsed (zlen (enc_values vs2)) b ltac:(lia)) as Hpar.
  destruct is_last; split; try done; change (storage (BC.set_buffer _ _)) with (storage b);
    change (storage (parsed _ _)) with (storage b); rewrite ?zlen_enc_reply, ?Hl.
  - cbn [buffer_ parsed BC.set_buffer RB.update_parsed_bytes RB.set_offsets received_offset_ BC.set_reply_recv_complete]. lia.
  - rewrite parsed_offset_parsed; change (buffer_ (BC.set_reply_recv_complete ?x)) with (buffer_ x); rewrite Hpar; lia.
  - cbn [buffer_ parsed BC.set_buffer RB.cut_received_tail RB.set_offsets received_offset_ BC.set_reply_recv_complete].
    rewrite u64_small; cbn [buffer_ parsed BC.set_buffer RB.update_parsed_bytes RB.set_offsets received_offset_]; lia.
  - change (parsed_offset_ (buffer_ (parsed (zlen (enc_values vs2)) b)) = off + (zlen (enc_values vs1) + zlen (enc_values vs2))).
    lia.
  - unfold enc_reply in Hs. rewrite zlen_app, Hl in Hs.
    change (zlen END_RN) with 5 in Hs. set (j := off + (zlen (enc_values vs1) + zlen (enc_values vs2))) in *.
    rewrite (slice_split _ off j) in Hs by lia. pose proof (zlen_slice (storage b) off j) as Hz.
    apply app_inj_1 in Hs as [Hs _]; [done|]. unfold zlen in *. lia.
Qed.

Definition forwarded (is_last : bool) (vs : list value) : bytes :=
  if is_last then enc_reply vs else enc_values vs.

Lemma get_step is_last off vs n b chunk :
  get_progress off vs n b -> chunk `prefix_of` drop (Z.to_nat n) (enc_reply vs) ->
  exists buf b', RB.receive (buffer_ b) chunk = Ok buf /\
    MemcGet_ParseReply is_last (BC.set_buffer buf b) = Ok (true, b') /\
    if n + zlen chunk =? zlen (enc_reply vs) then get_complete off (forwarded is_last vs) b'
    else get_progress off vs (n + zlen chunk) b'.
Proof.
  intros Hg Hpre. destruct (parsed_split vs n) as (vs1 & vs2 & -> & Hup & Hk).
  destruct (get_receive off vs1 vs2 n b chunk Hg Hup Hpre) as (m & Hrec & Hle & Hl & Hs & Hnul & Hr).
  pose proof Hg as [Hv Ho Hn Hf _ _ _ Hp Hc]. pose proof (zlen_nonneg chunk).
  eexists _, _. split; [exact Hrec|]. split; [by apply MemcGet_ParseReply_values|].
  specialize (Hk (n + zlen chunk) ltac:(lia)). rewrite Hup in Hp. unfold storage in *.
  assert (zlen (enc_reply (vs1 ++ vs2)) = zlen (enc_values vs1) + zlen (enc_reply vs2)) as Htot
    by (by rewrite enc_reply_app, zlen_app).
  destruct (Z.eqb_spec (n + zlen chunk) (zlen (enc_reply (vs1 ++ vs2)))) as [Heq|Hne].
  - replace (n + zlen chunk - zlen (enc_values vs1)) with (zlen (enc_reply vs2)) in * by lia.
    apply complete_after; [done|done|done|]. unfold storage. simpl. rewrite <- Heq, Hs, Heq.
    rewrite take_ge; [done|]. unfold zlen. lia.
  - unfold after_parse. rewrite (proj2 (Z.eqb_neq _ _)) by lia.
    pose proof (parsed_upto_bounds vs2 (n + zlen chunk - zlen (enc_values vs1))).
    pose proof (zlen_enc_reply vs2). pose proof (zlen_nonneg (enc_values vs1)).
    split; unfold storage; [done|done|lia|..];
      change (data_ (buffer_ (parsed _ (BC.set_buffer (RB.set_offsets (RB.set_data _ ?m') _ _ _) _)))) with m';
      [lia|done|done|done| |done].
    rewrite parsed_offset_parsed; cbn [buffer_ BC.set_buffer RB.set_offsets RB.set_data parsed_offset_]; lia.
Qed.

Lemma feed_get is_last vs chunks : forall off n rest b,
  get_progress off vs n b -> Forall (fun c => c <> []) chunks ->
  concat chunks ++ rest = drop (Z.to_nat n) (enc_reply vs) ->
  exists b', feed (MemcGet_ParseReply is_last) chunks b = Ok (true, b') /\
    match rest with
    | [] => get_complete off (forwarded is_last vs) b'
    | _ => get_progress off vs (n + zlen (concat chunks)) b'
    end.
Proof.
  induction chunks as [|c chunks IH]; intros off n rest b Hg Hne Heq; simpl in *.
  - pose proof (gp_n _ _ _ _ Hg) as Hn. exists b. split; [done|]. rewrite Z.add_0_r.
    destruct rest; [|done]. apply (f_equal length) in Heq. rewrite length_drop in Heq. unfold zlen in *. simpl in Heq. lia.
  - apply Forall_cons in Hne as [Hc Hne]. rewrite <- app_assoc in Heq. pose proof (gp_n _ _ _ _ Hg) as Hn.
    destruct (get_step is_last off vs n b c Hg) as (buf & b1 & -> & Hparse & Hb1); [by rewrite <- Heq; apply prefix_app_r|].
    rewrite bind_Ok_l, Hparse, bind_Ok_l.
    assert (concat chunks ++ rest = drop (Z.to_nat (n + zlen c)) (enc_reply vs)) as Heq'.
    { replace (Z.to_nat (n + zlen c)) with (Z.to_nat n + length c)%nat by (unfold zlen; lia).
      by rewrite <- drop_drop, <- Heq, drop_app_length. }
    destruct (Z.eqb_spec (n + zlen c) (zlen (enc_reply vs))) as [Hall|Hmore].
    + rewrite drop_ge in Heq' by (unfold zlen in *; lia). apply app_nil in Heq' as [Hnil ->].
      destruct chunks as [|c' chunks]; [by exists b1|]. apply Forall_cons in Hne as [Hc' _].
      by destruct c'.
    + rewrite zlen_app, Z.add_assoc. by apply IH.
Qed.

(** C13: the reply of a server to a memcached [get] or [gets], with any number of values
    of any contents (each of less than 2^30 bytes), received in any number of pieces, into
    a storage in which THE WHOLE REPLY FITS behind the offset it starts at, WITH A NUL BYTE
    SOMEWHERE BEHIND IT (without one [std::stoi] may read beyond the storage; replies that
    outgrow the buffer are not covered here): no piece is rejected, the reply counts as
    complete exactly when its last byte has arrived, and the bytes to forward are then the
    reply; of a backend that is not the last one to answer they are the reply without the
    line [END], so that the replies of all backends make up one reply. *)
Theorem memc_get_reply_in_any_pieces is_last vs chunks rest off b :
  get_progress off vs 0 b -> Forall (fun c => c <> []) chunks -> concat chunks ++ rest = enc_reply vs ->
  exists b', feed (MemcGet_ParseReply is_last) chunks b = Ok (true, b') /\
    reply_recv_complete_ b' = bool_decide (rest = []) /\
    (rest = [] -> received_offset_ (buffer_ b') = parsed_offset_ (buffer_ b') /\
       slice (storage b') off (received_offset_ (buffer_ b')) =
       if is_last : bool then enc_values vs ++ END_RN else enc_values vs).
Proof.
  intros Hg Hne Heq. destruct (feed_get is_last vs chunks off 0 rest b Hg Hne Heq) as (b' & Hf & Hb').
  exists b'. split; [done|]. destruct rest as [|c rest].
  - destruct Hb' as [Hr Hp Hs Hc]. split; [done|]. intros _. rewrite Hr, Hp. split; [done|].
    unfold forwarded, enc_reply in *. by destruct is_last.
  - by destruct Hb' as [_ _ _ _ _ _ _ _ Hc].
Qed.

(** Two values, one of them with line ends in it, from the last backend and from another
    one *)
Definition two_values : list value :=
  [mkValue (str "k1") (str "0") [] (str "a" ++ crlf ++ str "END" ++ crlf);
   mkValue (str "k2") (str "7") (SP :: str "42") (str "bc")].
Definition nul_conn (size : Z) : BackendConn :=
  BC.ctor 0 (replicate (Z.to_nat size) NUL) size (2130706433, 11211).

Lemma memc_get_reply_in_any_pieces_witness :
  exists b', feed (MemcGet_ParseReply false) ((fun c => [c]) <$> enc_reply two_values) (nul_conn 128) = Ok (true, b') /\
    reply_recv_complete_ b' = true /\ received_offset_ (buffer_ b') = zlen (enc_values two_values).
Proof.
  destruct (memc_get_reply_in_any_pieces false two_values ((fun c => [c]) <$> enc_reply two_values) [] 0 (nul_conn 128))
    as (b' & Hf & Hc & Hs).
  - split; [repeat constructor; by_compute || decide_goal|by_compute|by_compute|by_compute| | |by_compute..];
      [vm_compute; reflexivity|decide_goal].
  - decide_goal.
  - vm_compute. reflexivity.
  - exists b'. split; [exact Hf|]. split; [rewrite Hc; reflexivity|].
    vm_compute in Hf. injection Hf as <-. reflexivity.
Defined.

(** ** A reply that is never parsed to its end *)

(** A [VALUE] line (without its LF) that announces the size [-size] *)
Definition negative_head (key flags ext : bytes) (size : Z) : bytes :=
  str "VALUE " ++ key ++ SP :: flags ++ SP :: "-"%char :: dec size ++ ext ++ [CR].

Record negative_line (key flags ext : bytes) (size : Z) : Prop := {
  ng_key : key <> [];
  ng_words : SP ∉ key /\ SP ∉ flags;
  ng_line : LF ∉ key /\ LF ∉ flags /\ LF ∉ ext;
  ng_ext : ext = [] \/ head ext = Some SP;
  ng_size : 0 <= size < 2 ^ 30
}.

Lemma negative_head_no_lf key flags ext size :
  negative_line key flags ext size -> LF ∉ negative_head key flags ext size.
Proof.
  intros [_ _ (Hk & Hf & He) _ Hs]. unfold negative_head.
  rewrite !elem_of_app, !elem_of_cons, !elem_of_app, !elem_of_cons, !elem_of_app, list_elem_of_singleton.
  assert (LF ∉ dec size) as Hd by (apply digits_no_special; [apply dec_digits; lia|done]).
  intros [H|[H|[H|[H|[H|[H|[H|[H|H]]]]]]]]; try done. revert H. decide_goal.
Qed.

(** C38: a backend that announces the value size [-(n + 2)] in a [VALUE] line of [n]
    bytes, line end included, makes [MemcGetCommand::ParseReply] repeat the same turn for
    ever: no number of turns is enough.  The line has any non-empty key and any flags
    (without spaces and line feeds), and may go on with more words; it is at the unparsed
    end of any buffer, has been received whole, with or without bytes behind it, and
    somewhere behind it in the storage there is a NUL byte (without one, [std::stoi] reads
    beyond the storage instead). *)
Theorem negative_value_size_spins key flags ext size l b fuel is_last :
  negative_line key flags ext size ->
  let n := zlen (negative_head key flags ext size) + 1 in
  size = n + 2 ->
  at_ptr (storage b) (parsed_offset_ (buffer_ b)) = negative_head key flags ext size ++ LF :: l -> NUL ∈ l ->
  0 <= parsed_offset_ (buffer_ b) < 2 ^ 63 ->
  parsed_offset_ (buffer_ b) + n <= received_offset_ (buffer_ b) ->
  memc_get_loop fuel is_last b = Fault OutOfFuel.
Proof.
  intros Hline n Hsize Hm Hnul Hp Hr. pose proof (negative_head_no_lf _ _ _ _ Hline) as Hlf.
  destruct Hline as [Hk [Hsk Hsf] _ He Hs]. set (h := negative_head key flags ext size) in *.
  set (entry := parsed_offset_ (buffer_ b)) in *. pose proof (zlen_nonneg h).
  assert (RB.unparsed_bytes (buffer_ b) = received_offset_ (buffer_ b) - entry) as Hu.
  { unfold RB.unparsed_bytes. fold entry. rewrite (proj2 (Z.ltb_lt _ _)) by lia. done. }
  assert (ParseReplyBodySize (storage b) entry (entry + zlen h) = Ok (u64 (- size))) as Hbody.
  { apply (ParseReplyBodySize_line key flags ("-"%char :: dec size ++ ext ++ CR :: LF :: l)); try done; [lia|..].
    - rewrite Hm. unfold h, negative_head.
      by rewrite <- !app_assoc, <- !app_comm_cons, <- !app_assoc, <- !app_comm_cons, <- !app_assoc.
    - unfold h, negative_head. repeat first [rewrite zlen_app|rewrite zlen_cons|rewrite zlen_nil].
      change (zlen (str "VALUE ")) with 6. pose proof (zlen_nonneg ext). pose proof (zlen_nonneg (dec size)). lia.
    - apply stoi_negative_field; [lia|done|set_solver]. }
  assert (rd (storage b) entry = Ok "V"%char) as Hv.
  { rewrite rd_at_ptr, Hm by lia. reflexivity. }
  assert (memchr (storage b) entry LF (received_offset_ (buffer_ b) - entry) = Ok (Some (entry + zlen h))) as Hc.
  { unfold memchr. rewrite Hm, memchr_from_app_found by (done || unfold zlen in *; lia). done. }
  induction fuel as [|fuel IH]; cbn [memc_get_loop]; rewrite Hu, (proj2 (Z.eqb_neq _ _)) by lia; [reflexivity|].
  change (RB.unparsed_data (buffer_ b)) with entry.
  rewrite Hc, bind_Ok_l, Hv, bind_Ok_l, bool_decide_true, Hbody, bind_Ok_l by done.
  replace (u64 (entry + zlen h - entry + 1 + u64 (- size) + 2)) with 0; [by rewrite parsed_0 by lia|].
  replace (entry + zlen h - entry + 1 + u64 (- size) + 2) with (2 ^ 64); [reflexivity|].
  unfold u64. rewrite <- (Z.mod_unique_pos (- size) (2 ^ 64) (-1) (2 ^ 64 - size)); lia.
Qed.

(** 4 bytes of something else behind the line *)
Lemma negative_value_size_spins_witness :
  memc_get_loop 100 true
    (BC.set_buffer (mkReadBuffer (str "VALUE k 0 -17" ++ crlf ++ str "more" ++ replicate 11 NUL) 30 0 19 0 0)
       (nul_conn 30)) = Fault OutOfFuel.
Proof.
  apply (negative_value_size_spins (str "k") (str "0") [] 17 (str "more" ++ replicate 11 NUL)).
  - split; by_compute || decide_goal || (left; reflexivity).
  - reflexivity.
  - reflexivity.
  - decide_goal.
  - by_compute.
  - by_compute.
Defined.
