(* ===== verification/Findings.v ===== *)
(** * A reply the proxy loses

    Two runs of a memcached [get] over two backends that differ in how a reply is cut
    into reads, and in what the client gets. *)

From S2P Require Import Prelude CString StdMap ErrorCode ReadBuffer Allocator Config.
From S2P Require Import RedisProtocol KeyDistributer KeyLocator QueryParser BackendConn.
From S2P Require Import ReplyParser World BackendPool Lifetime ConnIO Commands CommandQuery.
From S2P Require Import CommandReply Order Worker Logic QueryLogic ReplyLogic Invariants Scenario.

(** ** A lost reply *)
Definition get_query : bytes := str "get a foo b" ++ crlf.
Definition value (key data : string) : bytes :=
  str "VALUE " ++ str key ++ str " 0 " ++ dec (zlen (str data)) ++ crlf ++ str data ++ crlf.

(** The query goes out to two backends, one of which has key [a], the other
    [foo] and [b]. *)
Definition get_sent : list event :=
  accepted ++
  [EvComplete 0 (Received get_query); EvComplete 0 Connected; EvComplete 0 Connected;
   EvComplete 0 (Sent 3); EvComplete 0 (Sent 3); EvComplete 0 (Sent 4); EvComplete 0 (Sent 2);
   EvComplete 0 (Sent 2); EvComplete 0 (Sent 2); EvComplete 0 (Sent 2)].

(** The value of [a] arrives and is being written to the client; the other
    backend replies completely; the [END] of the first arrives in a read of its
    own; then the write completes. *)
Definition late_end : list event :=
  [EvComplete 0 (Received (value "a" "1"));
   EvComplete 0 (Received (value "foo" "2" ++ value "b" "3" ++ END_RN));
   EvComplete 1 (Received END_RN);
   EvComplete 0 (Sent (zlen (value "a" "1")))].

(** The same, but the [END] comes with the value. *)
Definition prompt_end : list event :=
  [EvComplete 0 (Received (value "a" "1" ++ END_RN));
   EvComplete 0 (Received (value "foo" "2" ++ value "b" "3" ++ END_RN));
   EvComplete 0 (Sent (zlen (value "a" "1")));
   EvComplete 0 (Sent (zlen (value "foo" "2" ++ value "b" "3" ++ END_RN)))].

(** Two runs of one memcached [get] of three keys that live on two backends.  In the first,
    the [END] of the first backend is read while its value is still being written to the
    client; the run ends with the command gone, the client being read from, and only the
    first backend's value sent: the values of the second backend and the terminating
    [END] are lost.  In the second, the [END] comes in the same read as the value, and
    the client gets everything. *)
Theorem memc_get_drops_second_backend :
  (exists w, run (get_sent ++ late_end) empty_world = Ok w /\
     client_output 0 w = value "a" "1" /\
     commands w = ∅ /\ in_flight w = [ClientRead 0 0 128]) /\
  (exists w, run (get_sent ++ prompt_end) empty_world = Ok w /\
     client_output 0 w = value "a" "1" ++ value "foo" "2" ++ value "b" "3" ++ END_RN /\
     commands w = ∅ /\ in_flight w = [ClientRead 0 0 128]).
Proof.
  split.
  - exists (after (get_sent ++ late_end)). split; [vm_compute; reflexivity|].
    repeat split; vm_compute; reflexivity.
  - exists (after (get_sent ++ prompt_end)). split; [vm_compute; reflexivity|].
    repeat split; vm_compute; reflexivity.
Qed.

(** ** Requests that end a worker *)
Definition send (request : bytes) : list event := accepted ++ [EvComplete 0 (Received request)].

Definition parsed_offset_of (c : Z) (w : World) : option Z :=
  (fun x => parsed_offset_ (cl_buffer_ x)) <$> clients w !! c.

(** Short requests that no check stops.  A redis [get] without a key reads an
    argument the request does not have; a memcached [delete] with an empty key is
    scanned past the end of its line and of the buffer; an [mget] without keys is
    answered with an empty array and then fails an assertion; a memcached [get]
    without keys leaves a command that waits for nothing, with no operation and no
    timer outstanding for the client; an [mset] whose third argument is no bulk
    string moves the parsing offset to 2^64 - 10001. *)
Theorem short_requests_mishandled :
  run (send (enc_array [str "get"])) empty_world = Fault OutOfBounds /\
  run (send (str "delete " ++ crlf)) empty_world = Fault OutOfBounds /\
  run (send (enc_array [str "mget"]) ++ [EvComplete 0 (Sent 4)]) empty_world = Fault AssertFailed /\
  (exists w, run (send (str "get " ++ crlf)) empty_world = Ok w /\
     commands w <> ∅ /\ in_flight w = [] /\ armed w = [] /\ expired w = []) /\
  (exists w, run (send (str "*3" ++ crlf ++ enc_bulk (str "mset") ++ enc_bulk (str "k") ++
                          str "xxxxx" ++ crlf)) empty_world = Ok w /\
     parsed_offset_of 0 w = Some (2 ^ 64 - 10001)).
Proof.
  split; [vm_compute; reflexivity|]. split; [vm_compute; reflexivity|].
  split; [vm_compute; reflexivity|]. split.
  - exists (after (send (str "get " ++ crlf))). split; [vm_compute; reflexivity|].
    split; [|repeat split; vm_compute; reflexivity]. intros He.
    apply (f_equal (fun m : gmap Z Command => bool_decide (m !! 1 = None))) in He. vm_compute in He. done.
  - exists (after (send (str "*3" ++ crlf ++ enc_bulk (str "mset") ++ enc_bulk (str "k") ++
                          str "xxxxx" ++ crlf))).
    split; vm_compute; reflexivity.
Qed.
