(* ===== verification/QueryTheorems.v ===== *)
(** * Splitting a query over backends

    The keys of a memcached [get] line, and the book-keeping of an [MGET], which
    follows the order of its keys. *)

From S2P Require Import Prelude CString StdMap ErrorCode ReadBuffer Allocator Config.
From S2P Require Import RedisProtocol KeyDistributer KeyLocator QueryParser BackendConn.
From S2P Require Import ReplyParser World BackendPool Lifetime ConnIO Commands CommandQuery.
From S2P Require Import CommandReply Order Worker Logic QueryLogic ReplyLogic Invariants Scenario.

(** ** The keys of a memcached [get] *)
Definition spaced (keys : list bytes) : bytes := concat ((cons SP) <$> keys).
Definition get_line (keys : list bytes) : bytes := str "get" ++ spaced keys ++ crlf.

(** No space or control character, and not empty *)
Definition memc_word (key : bytes) : Prop := key <> [] /\ (SP ∉ key) /\ (CR ∉ key).

Fixpoint spans (p : Z) (keys : list bytes) : list (Z * Z) :=
  match keys with
  | [] => []
  | k :: keys' => (p, zlen k) :: spans (p + zlen k + 1) keys'
  end.

Lemma scan_to_app stops l c k p :
  Forall (fun x => x ∉ stops) l -> c ∈ stops -> scan_to stops (l ++ c :: k) p = Ok (p + zlen l).
Proof.
  intros Hl Hc. revert p. induction Hl as [|x l Hx Hl IH]; intros p; simpl.
  - rewrite bool_decide_true by done. by rewrite zlen_nil, Z.add_0_r.
  - rewrite bool_decide_false, IH by done. rewrite zlen_cons. f_equal. lia.
Qed.

Lemma memc_word_scan k : memc_word k -> Forall (fun x => x ∉ [SP; CR]) k.
Proof. intros (_ & H1 & H2). apply Forall_forall. set_solver. Qed.

Lemma spaced_cons k keys : spaced (k :: keys) = SP :: k ++ spaced keys.
Proof. reflexivity. Qed.

(** What follows a key: the next key's space or the end of the line *)
Lemma spaced_next keys post : exists c rest, spaced keys ++ crlf ++ post = c :: rest /\ c ∈ [SP; CR].
Proof. destruct keys; simpl; eexists _, _; (split; [reflexivity|decide_goal]). Qed.

Lemma zlen_spaced keys : zlen (spaced keys) >= zlen keys.
Proof.
  induction keys as [|k keys IH]; [done|]. rewrite spaced_cons, !zlen_cons, zlen_app.
  pose proof (zlen_nonneg k). lia.
Qed.

Lemma memc_get_keys_spans m keys : forall fuel p post,
  Forall memc_word keys -> 0 < p -> at_ptr m (p - 1) = spaced keys ++ crlf ++ post ->
  (length keys <= fuel)%nat ->
  memc_get_keys fuel m p (p - 1 + zlen (spaced keys)) = Ok (spans p keys).
Proof.
  induction keys as [|k keys IH]; intros fuel p post Hw Hp Hm Hf.
  - destruct fuel; cbn [memc_get_keys spans]; change (spaced []) with (@nil ascii); by rewrite zlen_nil, (proj2 (Z.ltb_ge _ _)) by lia.
  - inversion_clear Hw as [|?? Hk Hw']. destruct fuel as [|fuel]; [simpl in Hf; lia|].
    assert (0 < zlen k) by (destruct Hk as [Hne _]; destruct k; [done|]; rewrite zlen_cons;
      pose proof (zlen_nonneg k); lia).
    rewrite spaced_cons in *. rewrite zlen_cons, zlen_app. pose proof (zlen_spaced keys).
    pose proof (zlen_nonneg keys). cbn [memc_get_keys spans]. rewrite (proj2 (Z.ltb_lt _ _)) by lia.
    rewrite <- app_comm_cons in Hm. apply at_ptr_cons in Hm as [_ Hm]; [|lia].
    replace (p - 1 + 1) with p in Hm by lia. rewrite <- app_assoc in Hm.
    destruct (spaced_next keys post) as (c & rest & Hc & Hstop). pose proof Hm as Hm1. rewrite Hc in Hm1.
    rewrite Hm1, scan_to_app by (try done; by apply memc_word_scan). rewrite bind_Ok_l.
    replace (p - 1 + (1 + (zlen k + zlen (spaced keys)))) with (p + zlen k + 1 - 1 + zlen (spaced keys)) by lia.
    rewrite (IH fuel (p + zlen k + 1) post); [|done|lia| |simpl in Hf; lia].
    + rewrite bind_Ok_l. do 2 f_equal. f_equal. lia.
    + replace (p + zlen k + 1 - 1) with (p + zlen k) by lia. by apply at_ptr_app_skip in Hm; [|lia].
Qed.

Lemma read_bytes_at_ptr m p l k :
  0 <= p -> l <> [] -> at_ptr m p = l ++ k -> read_bytes m p (zlen l) = Ok l.
Proof.
  intros Hp Hne Hm. unfold at_ptr in Hm. rewrite (proj2 (Z.ltb_ge _ _)) in Hm by lia.
  assert (p + zlen l <= zlen m).
  { apply (f_equal length) in Hm. rewrite length_drop, length_app in Hm. destruct l; [done|].
    unfold zlen in *. simpl in *. lia. }
  unfold read_bytes. pose proof (zlen_nonneg l). rewrite !(proj2 (Z.ltb_ge _ _)) by lia. simpl.
  rewrite Hm. unfold zlen. by rewrite Nat2Z.id, take_app_length.
Qed.

Lemma spans_read m keys : forall p post,
  at_ptr m p = spaced keys ++ crlf ++ post -> 0 <= p ->
  Forall2 (fun span key => read_bytes m (span.1 - 1) (1 + span.2) = Ok (SP :: key))
    (spans (p + 1) keys) keys.
Proof.
  induction keys as [|k keys IH]; intros p post Hm Hp; cbn [spans]; constructor.
  - cbn [fst snd]. replace (p + 1 - 1) with p by lia. rewrite <- (zlen_cons SP k).
    rewrite spaced_cons, <- app_comm_cons, <- app_assoc in Hm.
    by apply (read_bytes_at_ptr m p (SP :: k) (spaced keys ++ crlf ++ post)).
  - rewrite spaced_cons in Hm. replace (p + 1 + zlen k + 1) with (p + zlen (SP :: k) + 1)
      by (rewrite zlen_cons; lia).
    apply (IH _ post); [|pose proof (zlen_nonneg (SP :: k)); lia].
    apply at_ptr_app_skip; [done|]. by rewrite Hm, <- app_comm_cons, <- app_assoc.
Qed.

(** C26: the keys of a memcached [get] line are found exactly: one per key of the
    line, in order, and the segment that is forwarded for a key is a space and the
    key, wherever the line stands in the buffer. *)
Theorem memc_get_line_splits_into_keys pre keys post :
  Forall memc_word keys ->
  exists found, MemcGet_keys (pre ++ get_line keys ++ post) (zlen pre) (zlen (get_line keys)) = Ok found /\
    Forall2 (fun span key =>
      read_bytes (pre ++ get_line keys ++ post) (span.1 - 1) (1 + span.2) = Ok (SP :: key)) found keys.
Proof.
  intros Hw. set (m := pre ++ get_line keys ++ post). exists (spans (zlen pre + 4) keys).
  pose proof (zlen_nonneg pre). pose proof (zlen_spaced keys).
  assert (zlen (get_line keys) = zlen (spaced keys) + 5) as Hlen
    by (unfold get_line; rewrite !zlen_app; change (zlen (str "get")) with 3;
        change (zlen crlf) with 2; lia).
  assert (at_ptr m (zlen pre + 4 - 1) = spaced keys ++ crlf ++ post) as Hm.
  { replace (zlen pre + 4 - 1) with (zlen (pre ++ str "get")) by
      (rewrite zlen_app; change (zlen (str "get")) with 3; lia).
    unfold m, get_line. rewrite <- !app_assoc, (app_assoc pre), at_ptr_app. done. }
  split.
  - unfold MemcGet_keys. replace (zlen pre + zlen (get_line keys) - 2)
      with (zlen pre + 4 - 1 + zlen (spaced keys)) by lia.
    apply (memc_get_keys_spans m keys _ _ post); [done|lia|done|].
    unfold zlen in *. lia.
  - assert (0 <= zlen pre + 4 - 1) as Hp by lia.
    replace (zlen pre + 4) with (zlen pre + 4 - 1 + 1) by lia.
    revert Hm Hp. generalize (zlen pre + 4 - 1) m. clear. intros p m Hm Hp.
    by apply (spans_read m keys p post).
Qed.

Lemma memc_get_line_splits_into_keys_witness :
  exists found, MemcGet_keys (str "xx" ++ get_line [str "a"; str "key2"] ++ []) 2 12 = Ok found /\
    Forall2 (fun span key =>
      read_bytes (str "xx" ++ get_line [str "a"; str "key2"] ++ []) (span.1 - 1) (1 + span.2) =
      Ok (SP :: key)) found [str "a"; str "key2"].
Proof.
  apply (memc_get_line_splits_into_keys (str "xx") [str "a"; str "key2"] []).
  repeat constructor; try discriminate; decide_goal.
Defined.

(** ** The reply queue of an [MGET] *)

(** Looking a key up changes nothing, unless it fails. *)
Lemma Locate_same config kl m key len p ep kl' :
  Locate config kl m key len p = Ok (ep, kl') -> kl' = kl.
Proof.
  unfold Locate. intros H. apply bind_Ok in H as (ns & _ & H).
  apply bind_Ok in H as ([kd kl1] & H1 & H). apply bind_Ok in H as (kd' & Hkd & H).
  apply of_option_Ok in Hkd. apply bind_Ok in H as (k & _ & [= _ <-]).
  destruct (sm_find ns kl) as [x|]; [by injection H1|].
  apply bind_Ok in H1 as (d & _ & H1). injection H1 as Hd <-.
  destruct (sm_find_emplace_any d None kl) as [Hf Hsame]. rewrite Hf in Hd. simpl in Hd.
  apply Hsame. destruct (sm_find d kl); [eauto|]. simpl in Hd. congruence.
Qed.

Definition routing_same (w w' : World) : Prop :=
  config w' = config w /\ key_locator_ w' = key_locator_ w.
#[global] Instance routing_same_preorder : PreOrder routing_same.
Proof.
  split; [by intros w|]. intros w1 w2 w3 [H1 H2] [H3 H4]. split; congruence.
Qed.

Lemma alloc_slab_routing : respects routing_same alloc_slab.
Proof. unfold alloc_slab. respects_tac; apply respects_modify; intros w; done. Qed.
#[export] Hint Resolve alloc_slab_routing : respects.
Lemma Allocate_routing ep : respects routing_same (Allocate ep).
Proof.
  unfold Allocate, idle_or_new, BackendConn_ctor, fresh_id.
  respects_tac; apply respects_modify; intros w; done.
Qed.
Lemma on_client_buffer_routing c f : respects routing_same (on_client_buffer c f).
Proof. unfold on_client_buffer. respects_tac. apply respects_modify. intros w. done. Qed.
#[export] Hint Resolve Allocate_routing on_client_buffer_routing : respects.

(** Where a key is routed, in the current configuration *)
Definition routed (w : World) (m : bytes) (key : Bulk) (ep : Endpoint) : Prop :=
  exists kl p n, key_locator_ w = Some kl /\ Bulk_payload_data m key = Ok p /\
    Bulk_payload_size m key = Ok n /\ Locate (config w) kl m p n REDIS = Ok (ep, kl).

Lemma routed_same w w' m key ep : routing_same w w' -> routed w' m key ep -> routed w m key ep.
Proof. intros [Hc Hk] (kl & p & n & H). exists kl, p, n. by rewrite <- Hc, <- Hk. Qed.

Lemma locate_bulk_routed m key w ep w' :
  locate_bulk m key w = Ok (ep, w') -> routed w m key ep /\ routing_same w w'.
Proof.
  unfold locate_bulk, locate_key. intros (p & w1 & [-> Hp]%lift_Ok & H)%M_bind_Ok.
  apply M_bind_Ok in H as (n & w1 & [-> Hn]%lift_Ok & H).
  apply M_bind_Ok in H as (v & w1 & [= <- <-] & H).
  apply M_bind_Ok in H as (kl & w1 & [-> Hkl]%lift_Ok & H). apply of_option_Ok in Hkl.
  apply M_bind_Ok in H as ([ep' kl'] & w1 & [-> Hl]%lift_Ok & H).
  apply M_bind_Ok in H as (u & w2 & [= <- <-] & [= <- <-]).
  pose proof (Locate_same _ _ _ _ _ _ _ _ Hl) as ->.
  split; [by exists kl, p, n|]. by split.
Qed.

(** The queue with its counts written out *)
Definition expand (queue : list (Z * Z)) : list Z :=
  concat ((fun e => replicate (Z.to_nat e.2) e.1) <$> queue).
Definition counted (queue : list (Z * Z)) : Prop := Forall (fun e => 0 < e.2) queue.

Lemma expand_app q q' : expand (q ++ q') = expand q ++ expand q'.
Proof. unfold expand. by rewrite fmap_app, concat_app. Qed.

Lemma count_reply_expand b queue :
  counted queue -> expand (count_reply b queue) = expand queue ++ [b] /\ counted (count_reply b queue).
Proof.
  intros Hq. unfold count_reply. destruct (last queue) as [[b' n]|] eqn:Hl.
  - apply last_Some in Hl as [q ->]. apply Forall_app in Hq as [Hq Hn].
    inversion_clear Hn as [|?? Hn' _]. simpl in Hn'. case_bool_decide as Hb.
    + subst b'. rewrite length_app, Nat.add_sub, take_app_length, !expand_app, <- app_assoc. split.
      * f_equal. unfold expand. simpl. rewrite !app_nil_r.
        replace (Z.to_nat (n + 1)) with (Z.to_nat n + 1)%nat by lia. by rewrite replicate_add.
      * apply Forall_app. split; [done|]. constructor; [simpl; lia|constructor].
    + rewrite expand_app. split; [done|]. apply Forall_app. split; [|repeat constructor].
      apply Forall_app. split; [done|]. by constructor.
  - apply last_None in Hl as ->. split; [done|]. repeat constructor.
Qed.

Definition keys_of (ep : Endpoint) (subqueries : smap Endpoint MgetSubquery) : Z :=
  default 0 (key_count_ <$> sm_find ep subqueries).
Definition occurrences (ep : Endpoint) (l : list Endpoint) : Z := zlen (filter (fun e => e = ep) l).

Lemma mget_subqueries_spec cl m items : forall last subs queue w subs' queue' w',
  sm_sorted subs -> counted queue ->
  mget_subqueries cl m items last subs queue w = Ok ((subs', queue'), w') ->
  exists owners bs,
    Forall2 (routed w m) items owners /\ expand queue' = expand queue ++ bs /\
    Forall2 (fun ep b => ms_backend <$> sm_find ep subs' = Some b) owners bs /\
    (forall ep, keys_of ep subs' = keys_of ep subs + occurrences ep owners) /\
    (forall ep q, sm_find ep subs = Some q -> ms_backend <$> sm_find ep subs' = Some (ms_backend q)).
Proof.
  induction items as [|key items IH]; intros last subs queue w subs' queue' w' Hs Hq H.
  - injection H as <- <- <-. exists [], []. rewrite app_nil_r. repeat split; try constructor.
    + intros ep. unfold occurrences. rewrite filter_nil, zlen_nil. lia.
    + by intros ep q ->.
  - cbn [mget_subqueries] in H. apply M_bind_Ok in H as (ep & w1 & H1 & H).
    apply locate_bulk_routed in H1 as [Hr Hs1].
    apply M_bind_Ok in H as (q & w2 & H2 & H).
    assert (routing_same w1 w2 /\ key_count_ q = keys_of ep subs /\
      (forall q0, sm_find ep subs = Some q0 -> q = q0)) as (Hs2 & Hcount & Hq0).
    { unfold keys_of. destruct (sm_find ep subs) as [q0|].
      - injection H2 as <- <-. repeat split. by intros ? [= ->].
      - pose proof H2 as H2'. apply M_bind_Ok in H2' as (u & w3 & _ & H3).
        apply M_bind_Ok in H3 as (b & w4 & _ & [= <- _]). repeat split; [| |done].
        all: revert H2; eapply (respects_bind routing_same); respects_tac. }
    apply M_bind_Ok in H as (total & w3 & [-> _]%lift_Ok & H).
    apply M_bind_Ok in H as (segs & w4 & H4 & H).
    assert (w4 = w2) as -> by (case_bool_decide; [by apply lift_Ok in H4 as [-> _]|by injection H4]).
    set (q' := mkMgetSubquery _ _ _ _ _) in H. set (subs1 := sm_set ep q' subs) in H.
    destruct (count_reply_expand (ms_backend q) queue Hq) as [He Hq'].
    destruct (IH _ _ _ _ _ _ _ (sm_set_sorted ep q' subs Hs) Hq' H)
      as (owners & bs & Hown & Hexp & Hbs & Hkeys & Hkeep).
    exists (ep :: owners), (ms_backend q :: bs). repeat split.
    + constructor; [done|]. eapply Forall2_impl; [exact Hown|]. intros k e Hk.
      eapply routed_same; [|exact Hk]. etransitivity; [exact Hs1|exact Hs2].
    + rewrite Hexp, He, <- app_assoc. done.
    + constructor; [|done]. apply (Hkeep ep q'). by apply sm_find_set.
    + intros ep'. rewrite Hkeys. unfold occurrences. rewrite filter_cons. unfold subs1, keys_of.
      destruct (decide (ep = ep')) as [<-|Hep].
      * rewrite zlen_cons, sm_find_set by done; cbn; rewrite Hcount; unfold keys_of; lia.
      * by rewrite sm_find_set_ne.
    + intros ep' q1 Hq1. destruct (decide (ep' = ep)) as [->|Hne].
      * rewrite (Hkeep ep q') by (by apply sm_find_set). cbn. by rewrite (Hq0 _ Hq1).
      * apply Hkeep. unfold subs1. rewrite sm_find_set_ne; [done|done|congruence].
Qed.

(** C21: the sub-queries of an [MGET] and the order of their replies.  Every key
    is routed by the current configuration; the queue of expected replies names,
    key by key and in the order of the query, the connection that serves the key's
    endpoint; and the number of keys each sub-query announces is the number of
    keys routed to its endpoint. *)
Theorem mget_replies_follow_the_keys cl m items w subs queue w' :
  mget_subqueries cl m items any_endpoint [] [] w = Ok ((subs, queue), w') ->
  exists owners,
    Forall2 (routed w m) items owners /\
    Forall2 (fun ep b => ms_backend <$> sm_find ep subs = Some b) owners (expand queue) /\
    forall ep, keys_of ep subs = occurrences ep owners.
Proof.
  intros H. apply mget_subqueries_spec in H as (owners & bs & Hown & Hexp & Hbs & Hkeys & _);
    [|constructor|constructor].
  exists owners. simpl in Hexp. rewrite Hexp. split; [done|]. split; [done|].
  intros ep. rewrite Hkeys. unfold keys_of. simpl. lia.
Qed.

(** An [mget] of three keys, two of them on one backend; the byte after it is
    zero, as [std::stoi] needs *)
Definition mget_bytes : bytes := enc_array [str "mget"; str "k1"; str "k2"; str "k3"] ++ [NUL].
Definition mget_items : list Bulk :=
  match BulkArray_ctor mget_bytes 0 (zlen mget_bytes - 1) with
  | Ok ba => drop 1 (items_ ba) | Fault _ => [] end.
Definition mget_split :=
  match mget_subqueries 0 mget_bytes mget_items any_endpoint [] [] (after accepted) with
  | Ok ((subs, queue), w) => Some (subs, queue, w)
  | Fault _ => None
  end.

Lemma mget_replies_follow_the_keys_witness :
  match mget_split with
  | Some (subs, queue, w) =>
      length mget_items = 3%nat /\
      exists owners,
        Forall2 (routed (after accepted) mget_bytes) mget_items owners /\
        Forall2 (fun ep b => ms_backend <$> sm_find ep subs = Some b) owners (expand queue) /\
        forall ep, keys_of ep subs = occurrences ep owners
  | None => False
  end.
Proof.
  unfold mget_split.
  assert (match mget_subqueries 0 mget_bytes mget_items any_endpoint [] [] (after accepted) with
          | Ok _ => True | Fault _ => False end) as Hok by (vm_compute; exact I).
  destruct (mget_subqueries 0 mget_bytes mget_items any_endpoint [] [] (after accepted))
    as [[[subs queue] w]|] eqn:H; [|destruct Hok].
  split; [vm_compute; reflexivity|].
  exact (mget_replies_follow_the_keys 0 mget_bytes mget_items (after accepted) subs queue w H).
Defined.
