(* ===== verification/Subqueries.v ===== *)
(** * The sub-queries of [MSET], [DEL], [EXISTS] and [TOUCH]

    The constructors of the commands distribute the arguments of a request over the
    backends: each backend gets a prefix, taken from a static table, and segments of the
    client's buffer.  Here it is shown that what a backend gets is a request of its own,
    with the arguments of its keys in the order of the client's request. *)

From S2P Require Import Prelude CString StdMap ErrorCode ReadBuffer Allocator Config.
From S2P Require Import RedisProtocol KeyDistributer KeyLocator QueryParser BackendConn.
From S2P Require Import ReplyParser World BackendPool Lifetime ConnIO Commands CommandQuery.
From S2P Require Import CommandReply Order Worker Logic QueryLogic ReplyLogic Invariants Scenario.
From S2P Require Import QueryTheorems.

(** ** The static tables *)

(** The tables after any sequence of calls *)
Definition mset_cache_after (calls : list Z) : prefix_cache :=
  foldl (fun cache keys => (RedisMsetPrefix keys cache).2) initial_mset_cache calls.
Definition del_caches_after (calls : list (bytes * Z)) : DelCaches :=
  foldl (fun caches call => match RedisDelPrefix call.1 call.2 caches with Ok r => r.2 | Fault _ => caches end)
    initial_del_caches calls.

(** The head of a request with [args] arguments per key *)
Definition request_head (name : bytes) (args keys : Z) : bytes :=
  array_header (u64 (args * keys + 1)) ++ enc_bulk name.

Definition cache_ok (name : bytes) (args : Z) (cache : prefix_cache) : Prop :=
  sm_sorted cache /\ Forall (fun e => e.2 = request_head name args e.1) cache.

Definition del_caches_ok (c : DelCaches) : Prop :=
  cache_ok (str "del") 1 (del_prefix_cache c) /\ cache_ok (str "exists") 1 (exists_prefix_cache c) /\
  cache_ok (str "touch") 1 (touch_prefix_cache c).

Lemma initial_caches_ok : cache_ok (str "mset") 2 initial_mset_cache /\ del_caches_ok initial_del_caches.
Proof.
  assert (sm_sorted initial_mset_cache /\ sm_sorted (del_prefix_cache initial_del_caches)) as [H1 H2]
    by (split; repeat constructor).
  repeat split; try done; try constructor; repeat (constructor; [vm_compute; reflexivity|]); constructor.
Qed.

(** A lookup that enters what it does not find *)
Lemma cache_find name args cache keys :
  cache_ok name args cache ->
  default (request_head name args keys) (sm_find keys cache) = request_head name args keys /\
  cache_ok name args (sm_emplace keys (request_head name args keys) cache).
Proof.
  intros [Hs Hf]. split; [|split; [by apply sm_emplace_sorted|by apply sm_emplace_Forall]].
  destruct (sm_find keys cache) as [s|] eqn:H; [|done]. apply sm_find_elem in H; [|done].
  by apply (proj1 (Forall_forall _ _) Hf) in H.
Qed.

Lemma mset_prefix_ok keys cache :
  cache_ok (str "mset") 2 cache ->
  (RedisMsetPrefix keys cache).1 = request_head (str "mset") 2 keys /\
  cache_ok (str "mset") 2 (RedisMsetPrefix keys cache).2.
Proof.
  intros Hc. destruct (cache_find _ _ _ keys Hc) as [Hd He]. unfold RedisMsetPrefix.
  destruct (sm_find keys cache) as [s|]; [done|].
  assert (str "*" ++ dec (u64 (keys * 2 + 1)) ++ crlf ++ str "$4" ++ crlf ++ str "mset" ++ crlf =
          request_head (str "mset") 2 keys) as ->; [|done].
  unfold request_head, array_header. rewrite (Z.mul_comm keys). by rewrite <- !app_assoc.
Qed.

Lemma cached_del_prefix_ok name keys cache :
  cache_ok name 1 cache ->
  (cached_del_prefix name keys cache).1 = request_head name 1 keys /\
  cache_ok name 1 (cached_del_prefix name keys cache).2.
Proof.
  intros Hc. destruct (cache_find _ _ _ keys Hc) as [Hd He]. unfold cached_del_prefix.
  destruct (sm_find keys cache) as [s|]; [done|].
  assert (str "*" ++ dec (u64 (keys + 1)) ++ crlf ++ str "$" ++ dec (zlen name) ++ crlf ++ name ++ crlf =
          request_head name 1 keys) as ->; [|done].
  unfold request_head, array_header, enc_bulk. rewrite Z.mul_1_l. by rewrite <- !app_assoc.
Qed.

Definition del_names : list bytes := [str "del"; str "exists"; str "touch"].

Lemma del_prefix_ok name keys caches :
  del_caches_ok caches -> name ∈ del_names ->
  exists caches', RedisDelPrefix name keys caches = Ok (request_head name 1 keys, caches') /\ del_caches_ok caches'.
Proof.
  intros (H1 & H2 & H3) Hin. unfold RedisDelPrefix.
  assert (name = str "del" \/ name = str "exists" \/ name = str "touch") as [-> |[-> | ->]] by (unfold del_names in Hin; set_solver).
  - destruct (cached_del_prefix_ok _ keys _ H1) as [Hp Hc]. rewrite bool_decide_true by done.
    destruct (cached_del_prefix _ _ _) as [s c]. cbn in Hp, Hc. subst s. eexists. split; [reflexivity|]. by split_and!.
  - destruct (cached_del_prefix_ok _ keys _ H2) as [Hp Hc]. rewrite bool_decide_false, bool_decide_true by done.
    destruct (cached_del_prefix _ _ _) as [s c]. cbn in Hp, Hc. subst s. eexists. split; [reflexivity|]. by split_and!.
  - destruct (cached_del_prefix_ok _ keys _ H3) as [Hp Hc]. rewrite !bool_decide_false, bool_decide_true by done.
    destruct (cached_del_prefix _ _ _) as [s c]. cbn in Hp, Hc. subst s. eexists. split; [reflexivity|]. by split_and!.
Qed.

Lemma mset_cache_after_ok calls : cache_ok (str "mset") 2 (mset_cache_after calls).
Proof.
  unfold mset_cache_after. generalize initial_mset_cache (proj1 initial_caches_ok).
  induction calls as [|keys calls IH]; intros cache Hc; [done|]. cbn [foldl]. apply IH. by apply mset_prefix_ok.
Qed.
Lemma del_caches_after_ok calls : del_caches_ok (del_caches_after calls).
Proof.
  unfold del_caches_after. generalize initial_del_caches (proj2 initial_caches_ok).
  induction calls as [|[name keys] calls IH]; intros caches Hc; [done|]. cbn [foldl fst snd]. apply IH.
  destruct (decide (name ∈ del_names)) as [Hin|Hout].
  - destruct (del_prefix_ok name keys caches Hc Hin) as (caches' & -> & ?). done.
  - unfold RedisDelPrefix. rewrite !bool_decide_false; [done|..]; intros ->; apply Hout; unfold del_names; set_solver.
Qed.

(** With the arguments behind it the head makes a whole request. *)
Lemma request_head_args name args keys items :
  zlen items = args * keys -> zlen items < 2 ^ 63 ->
  request_head name args keys ++ enc_items items = enc_array (name :: items).
Proof.
  intros Hn Hs. pose proof (zlen_nonneg items). unfold request_head, enc_array, array_header, enc_items.
  rewrite <- Hn, zlen_cons, u64_small by lia. rewrite <- !app_assoc, (Z.add_comm 1). reflexivity.
Qed.

(** ** Segments of the client's buffer *)

(** What a segment denotes while the buffer of the client has the contents [m] *)
Definition segment_bytes (m : bytes) (s : segment) : bytes :=
  match s with (InClient _ p, n) => slice m p (p + n) | _ => [] end.
Definition segments_bytes (m : bytes) (l : list segment) : bytes := concat (segment_bytes m <$> l).

Definition segment_in (cl : Z) (m : bytes) (s : segment) : Prop :=
  exists p n, s = (InClient cl p, n) /\ 0 <= p /\ 0 <= n /\ p + n <= zlen m.

(** What is pushed: for an endpoint, some arguments, which stand at [p] *)
Record pushed_at (m : bytes) (p : Z) (args : list bytes) : Prop := {
  pa_pos : 0 <= p;
  pa_fits : p + zlen (enc_items args) <= zlen m;
  pa_bytes : slice m p (p + zlen (enc_items args)) = enc_items args
}.

Lemma segments_bytes_app m l l' : segments_bytes m (l ++ l') = segments_bytes m l ++ segments_bytes m l'.
Proof. unfold segments_bytes. by rewrite fmap_app, concat_app. Qed.
Lemma segments_bytes_one m cl p n : segments_bytes m [(InClient cl p, n)] = slice m p (p + n).
Proof. unfold segments_bytes. cbn. by rewrite app_nil_r. Qed.

Lemma append_segment_bytes cl m p args l l' :
  zlen m < 2 ^ 31 -> pushed_at m p args -> Forall (segment_in cl m) l ->
  append_segment (InClient cl p) (zlen (enc_items args)) l = Ok l' ->
  segments_bytes m l' = segments_bytes m l ++ enc_items args /\ Forall (segment_in cl m) l'.
Proof.
  intros Hm [Hp Hf Hb] Hl H. unfold append_segment, extend_last in H. pose proof (zlen_nonneg (enc_items args)) as Hz.
  destruct (last l) as [[src len]|] eqn:Hlast; [|done].
  apply last_Some in Hlast as [l0 ->]. apply Forall_app in Hl as [Hl0 Hl1]. inversion_clear Hl1 as [|?? Hs _].
  destruct Hs as (p0 & n0 & [= -> ->] & Hp0 & Hn0 & Hfit).
  case_bool_decide as Hadj; injection H as <-.
  - injection Hadj as Hadj. rewrite length_app, Nat.add_sub, take_app_length, !segments_bytes_app, !segments_bytes_one.
    rewrite u64_small by lia. split.
    + rewrite <- app_assoc. f_equal. rewrite (slice_split m p0 p (p0 + (n0 + zlen (enc_items args)))) by lia.
      rewrite Hadj. f_equal. rewrite Z.add_assoc, Hadj. exact Hb.
    + apply Forall_app. split; [done|]. constructor; [|constructor]. exists p0, (n0 + zlen (enc_items args)). split_and!; [done|lia..].
  - rewrite !segments_bytes_app, !segments_bytes_one, Hb. split; [done|].
    apply Forall_app. split; [|constructor; [by exists p, (zlen (enc_items args))|constructor]].
    apply Forall_app. split; [done|]. constructor; [|constructor]. by exists p0, n0.
Qed.

(** ** What an endpoint has been given *)

(** The elements of [xs] whose owner is [ep] *)
Definition share {A} (ep : Endpoint) (owners : list Endpoint) (xs : list A) : list A :=
  snd <$> filter (fun e => e.1 = ep) (zip owners xs).

Lemma share_snoc {A} ep owners (xs : list A) ep' x :
  length owners = length xs ->
  share ep (owners ++ [ep']) (xs ++ [x]) = share ep owners xs ++ (if decide (ep' = ep) then [x] else []).
Proof.
  intros Hl. unfold share. rewrite zip_with_app, filter_app, fmap_app by done. f_equal.
  change (zip_with pair [ep'] [x]) with [(ep', x)]. rewrite filter_cons, filter_nil. cbn [fst]. by destruct (decide _).
Qed.

(** A sub-query that counts [keys] pushes and has the segments [l], for the pushes [xs] *)
Record sub_ok (cl : Z) (m : bytes) (xs : list (list bytes)) (keys : Z) (l : list segment) : Prop := {
  so_keys : keys = zlen xs;
  so_bytes : segments_bytes m l = enc_items (concat xs);
  so_segments : Forall (segment_in cl m) l
}.

Lemma enc_items_app l l' : enc_items (l ++ l') = enc_items l ++ enc_items l'.
Proof. unfold enc_items. by rewrite fmap_app, concat_app. Qed.

Lemma sub_first cl m p args : pushed_at m p args -> sub_ok cl m [args] 1 [(InClient cl p, zlen (enc_items args))].
Proof.
  intros [Hp Hf Hb]. split; [done|by rewrite segments_bytes_one, Hb; cbn; rewrite app_nil_r|].
  constructor; [|constructor]. exists p, (zlen (enc_items args)). split_and!; [done|done|apply zlen_nonneg|done].
Qed.
Lemma sub_next cl m xs keys l p args l' :
  zlen m < 2 ^ 31 -> sub_ok cl m xs keys l -> pushed_at m p args ->
  append_segment (InClient cl p) (zlen (enc_items args)) l = Ok l' ->
  sub_ok cl m (xs ++ [args]) (keys + 1) l'.
Proof.
  intros Hm [-> Hb Hs] Hp H. destruct (append_segment_bytes cl m p args l l' Hm Hp Hs H) as [Hb' Hs'].
  split; [by rewrite zlen_app|rewrite Hb', Hb, concat_app, enc_items_app; cbn; by rewrite app_nil_r|done].
Qed.

Lemma pushed_here m p args rest :
  0 <= p -> args <> [] -> at_ptr m p = enc_items args ++ rest -> pushed_at m p args.
Proof.
  intros Hp Hne Hm. assert (0 < zlen (enc_items args)) as Hz.
  { pose proof (zlen_enc_items_ge args) as H. destruct args; [done|]. rewrite zlen_cons in H.
    pose proof (zlen_nonneg args). lia. }
  unfold at_ptr in Hm. rewrite (proj2 (Z.ltb_ge _ _)) in Hm by lia.
  assert (p + zlen (enc_items args) <= zlen m) as Hf.
  { apply (f_equal length) in Hm. rewrite length_drop, length_app in Hm. unfold zlen in *. lia. }
  split; [done|done|]. unfold slice. rewrite Hm.
  replace (Z.to_nat (p + zlen (enc_items args) - p)) with (length (enc_items args)) by (unfold zlen; lia).
  by rewrite take_app_length.
Qed.

(** ** [DEL], [EXISTS] and [TOUCH] *)
Section pushes.
Context (cl : Z) (m : bytes) (Hm31 : zlen m < 2 ^ 31).

Definition sub_given (xs : list (list bytes)) (sub : option (Z * list segment)) : Prop :=
  match sub with
  | None => xs = []
  | Some (keys, l) => xs <> [] /\ sub_ok cl m xs keys l
  end.

(** Another endpoint is given something. *)
Lemma given_other ep ep' owners xs args sub :
  ep' <> ep -> length owners = length xs -> sub_given (share ep owners xs) sub ->
  sub_given (share ep (owners ++ [ep']) (xs ++ [args])) sub.
Proof. intros Hne Hl. rewrite share_snoc, decide_False, app_nil_r by done. done. Qed.

Definition del_view (q : DelSubquery) : Z * list segment := (ds_keys_count q, ds_segments q).

Record del_inv (owners : list Endpoint) (xs : list (list bytes)) (waiting : smap Endpoint DelSubquery) : Prop := {
  di_sorted : sm_sorted waiting;
  di_length : length owners = length xs;
  di_given ep : sub_given (share ep owners xs) (del_view <$> sm_find ep waiting)
}.

Lemma del_push_one ep p args owners xs waiting w waiting' w' :
  del_inv owners xs waiting -> pushed_at m p args ->
  del_PushSubquery cl ep (InClient cl p) (zlen (enc_items args)) waiting w = Ok (waiting', w') ->
  del_inv (owners ++ [ep]) (xs ++ [args]) waiting' /\ routing_same w w'.
Proof using Hm31.
  intros [Hs Hl Hg] Hp H. pose proof (Hg ep) as Hep. unfold del_PushSubquery in H.
  assert (length (owners ++ [ep]) = length (xs ++ [args])) as Hl' by (rewrite !length_app, Hl; done).
  destruct (sm_find ep waiting) as [q|] eqn:Hf.
  - apply M_bind_Ok in H as (l' & w1 & [-> Ha]%lift_Ok & [= <- <-]). split; [|done].
    split; [by apply sm_set_sorted|done|]. intros ep'. destruct (decide (ep = ep')) as [<-|Hne].
    + rewrite sm_find_set, share_snoc, decide_True by done. destruct Hep as [_ Hso]. cbn.
      split; [by destruct (share ep owners xs)|]. by eapply sub_next.
    + rewrite sm_find_set_ne by done. apply given_other; [done|done|apply Hg].
  - pose proof H as H'. apply M_bind_Ok in H as (u & w1 & H1 & H). apply M_bind_Ok in H as (b & w2 & H2 & [= <- <-]).
    split; [|etransitivity; [by eapply on_client_buffer_routing|by eapply Allocate_routing]].
    split; [by apply sm_emplace_sorted|done|]. intros ep'. destruct (decide (ep = ep')) as [<-|Hne].
    + rewrite sm_find_emplace, share_snoc, decide_True by done. cbn in Hep. rewrite Hep. cbn.
      split; [done|by apply sub_first].
    + rewrite sm_find_emplace_ne by done. apply given_other; [done|done|apply Hg].
Qed.

Lemma del_push_all_spec keys : forall p post owners xs waiting w waiting' w',
  0 <= p -> at_ptr m p = enc_items keys ++ post -> del_inv owners xs waiting ->
  del_push_all cl m (bulk_items p keys) waiting w = Ok (waiting', w') ->
  exists owners', Forall2 (routed w m) (bulk_items p keys) owners' /\
    del_inv (owners ++ owners') (xs ++ ((fun k => [k]) <$> keys)) waiting'.
Proof using Hm31.
  induction keys as [|k keys IH]; intros p post owners xs waiting w waiting' w' Hp Hm Hi H.
  - injection H as <- <-. exists []. split; [constructor|]. cbn. by rewrite !app_nil_r.
  - cbn [bulk_items del_push_all raw_data_ present_size_] in H. rewrite enc_items_cons, <- app_assoc in Hm.
    apply M_bind_Ok in H as (ep & w1 & [Hr Hs1]%locate_bulk_routed & H).
    apply M_bind_Ok in H as (waiting1 & w2 & H1 & H).
    assert (enc_items [k] = enc_bulk k) as Hk by (unfold enc_items; cbn; by rewrite app_nil_r).
    assert (pushed_at m p [k]) as Hpa by (eapply pushed_here; [done|done|by rewrite Hk]).
    pose proof (zlen_nonneg (enc_bulk k)). pose proof (pa_fits _ _ _ Hpa) as Hfit. rewrite Hk in Hfit.
    rewrite u64_small, <- Hk in H1 by lia.
    destruct (del_push_one ep p [k] owners xs waiting w1 waiting1 w2 Hi Hpa H1) as [Hi1 Hs2].
    destruct (IH (p + zlen (enc_bulk k)) post (owners ++ [ep]) (xs ++ [[k]]) waiting1 w2 waiting' w') as (owners' & Hown & Hi');
      [lia|by apply at_ptr_app_skip|done|done|].
    exists (ep :: owners'). split.
    + constructor; [done|]. eapply Forall2_impl; [exact Hown|]. intros b e. apply routed_same. by etransitivity.
    + by rewrite <- !app_assoc in Hi'.
Qed.

(** ** [MSET] *)
Definition mset_view (q : MsetSubquery) : Z * list segment := (ts_keys_count q, ts_segments q).

(** The sub-query of an endpoint *)
Definition mset_sub (s : RedisMset) (ep : Endpoint) : option MsetSubquery :=
  sm_find ep (rs_waiting_subqueries s) ≫= fun i => subquery_store_ s !! i.

Record mset_inv (owners : list Endpoint) (xs : list (list bytes)) (s : RedisMset) : Prop := {
  mi_sorted : sm_sorted (rs_waiting_subqueries s);
  mi_length : length owners = length xs;
  mi_stored ep i : sm_find ep (rs_waiting_subqueries s) = Some i -> (i < length (subquery_store_ s))%nat;
  mi_distinct ep ep' i : sm_find ep (rs_waiting_subqueries s) = Some i ->
    sm_find ep' (rs_waiting_subqueries s) = Some i -> ep' = ep;
  mi_given ep : sub_given (share ep owners xs) (mset_view <$> mset_sub s ep)
}.

Lemma mset_push_one ep p args owners xs s w s' w' :
  mset_inv owners xs s -> pushed_at m p args ->
  mset_PushSubquery cl ep (InClient cl p) (zlen (enc_items args)) s w = Ok (s', w') ->
  mset_inv (owners ++ [ep]) (xs ++ [args]) s' /\ routing_same w w' /\ rs_unparsed_bulks s' = rs_unparsed_bulks s.
Proof using Hm31.
  intros [Hs Hl Hst Hd Hg] Hp H. pose proof (Hg ep) as Hep. unfold mset_PushSubquery in H.
  assert (length (owners ++ [ep]) = length (xs ++ [args])) as Hl' by (rewrite !length_app, Hl; done).
  destruct (sm_find ep (rs_waiting_subqueries s)) as [i|] eqn:Hf.
  - apply M_bind_Ok in H as (q & w1 & [-> Hq%of_option_Ok]%lift_Ok & H).
    apply M_bind_Ok in H as (l' & w1 & [-> Ha]%lift_Ok & [= <- <-]). split; [|done].
    unfold mset_sub in Hep. rewrite Hf in Hep. cbn in Hep. rewrite Hq in Hep. destruct Hep as [Hne Hso].
    split; cbn [rs_waiting_subqueries subquery_store_]; [done|done|by intros ??; rewrite length_insert; apply Hst|done|].
    intros ep'. unfold mset_sub. cbn [rs_waiting_subqueries subquery_store_]. destruct (decide (ep = ep')) as [<-|Hnep].
    + rewrite Hf, share_snoc, decide_True by done. cbn. rewrite list_lookup_insert_eq by (by eapply lookup_lt_Some).
      cbn. split; [by destruct (share ep owners xs)|]. by eapply sub_next.
    + apply given_other; [done|done|]. specialize (Hg ep'). unfold mset_sub in Hg.
      destruct (sm_find ep' (rs_waiting_subqueries s)) as [j|] eqn:Hf'; [|done]. cbn in *.
      rewrite list_lookup_insert_ne; [done|]. intros ->. apply Hnep. symmetry. by eapply Hd.
  - apply M_bind_Ok in H as (u & w1 & H1 & H). apply M_bind_Ok in H as (b & w2 & H2 & [= <- <-]).
    split; [|split; [etransitivity; [by eapply on_client_buffer_routing|by eapply Allocate_routing]|done]].
    unfold mset_sub in Hep. rewrite Hf in Hep. cbn in Hep.
    assert (forall ep' i, sm_find ep' (sm_emplace ep (length (subquery_store_ s)) (rs_waiting_subqueries s)) = Some i ->
      ep' = ep /\ i = length (subquery_store_ s) \/ ep' <> ep /\ sm_find ep' (rs_waiting_subqueries s) = Some i) as Hcase.
    { intros ep' i. destruct (decide (ep = ep')) as [<-|Hne].
      - rewrite sm_find_emplace by done. intros [= <-]. by left.
      - rewrite sm_find_emplace_ne by done. by right. }
    split; cbn [rs_waiting_subqueries subquery_store_]; [by apply sm_emplace_sorted|done|..].
    + intros ep' i. rewrite length_app. cbn. intros [[_ ->]|[_ Hi%Hst]]%Hcase; lia.
    + intros e1 e2 i [[-> ->]|[Hn1 Hi1]]%Hcase [[-> Hi]|[Hn2 Hi2]]%Hcase; [done|apply Hst in Hi2; lia|subst i; apply Hst in Hi1; lia|by eapply Hd].
    + intros ep'. unfold mset_sub. cbn [rs_waiting_subqueries subquery_store_]. destruct (decide (ep = ep')) as [<-|Hne].
      * rewrite sm_find_emplace, share_snoc, decide_True, Hep by done. cbn. rewrite list_lookup_middle by done. cbn.
        split; [done|by apply sub_first].
      * rewrite sm_find_emplace_ne by done. apply given_other; [done|done|]. specialize (Hg ep'). unfold mset_sub in Hg.
        destruct (sm_find ep' (rs_waiting_subqueries s)) as [j|] eqn:Hf'; [|done]. cbn in *.
        rewrite lookup_app_l by (by eapply Hst). done.
Qed.

Definition flatten (pairs : list (bytes * bytes)) : list bytes := concat ((fun kv => [kv.1; kv.2]) <$> pairs).

(** The bulks at the even places *)
Fixpoint key_bulks (bulks : list Bulk) : list Bulk :=
  match bulks with key :: _ :: bulks' => key :: key_bulks bulks' | _ => [] end.

Lemma mset_push_all_spec pairs : forall p post owners xs s w s' w',
  0 <= p -> at_ptr m p = enc_items (flatten pairs) ++ post -> mset_inv owners xs s ->
  mset_push_all cl m (bulk_items p (flatten pairs)) s w = Ok (s', w') ->
  rs_unparsed_bulks s' = rs_unparsed_bulks s /\
  exists owners', Forall2 (routed w m) (key_bulks (bulk_items p (flatten pairs))) owners' /\
    mset_inv (owners ++ owners') (xs ++ ((fun kv => [kv.1; kv.2]) <$> pairs)) s'.
Proof using Hm31.
  induction pairs as [|[k v] pairs IH]; intros p post owners xs s w s' w' Hp Hm Hi H.
  - injection H as <- <-. split; [done|]. exists []. split; [constructor|]. cbn. by rewrite !app_nil_r.
  - change (flatten ((k, v) :: pairs)) with (k :: v :: flatten pairs) in *.
    cbn [bulk_items mset_push_all raw_data_ present_size_ key_bulks] in *.
    apply M_bind_Ok in H as (ep & w1 & [Hr Hs1]%locate_bulk_routed & H).
    apply M_bind_Ok in H as (s1 & w2 & H1 & H).
    assert (enc_items (k :: v :: flatten pairs) = enc_items [k; v] ++ enc_items (flatten pairs)) as Hkv
      by exact (enc_items_app [k; v] (flatten pairs)).
    assert (zlen (enc_items [k; v]) = zlen (enc_bulk k) + zlen (enc_bulk v)) as Hz
      by (rewrite !enc_items_cons, !zlen_app; change (zlen (enc_items [])) with 0; lia).
    rewrite Hkv, <- app_assoc in Hm.
    assert (pushed_at m p [k; v]) as Hpa by (by eapply pushed_here).
    pose proof (zlen_nonneg (enc_bulk k)). pose proof (zlen_nonneg (enc_bulk v)). pose proof (pa_fits _ _ _ Hpa) as Hfit.
    rewrite s32_small, u64_small, <- Hz in H1 by lia.
    destruct (mset_push_one ep p [k; v] owners xs s w1 s1 w2 Hi Hpa H1) as (Hi1 & Hs2 & Hu1).
    apply at_ptr_app_skip in Hm; [|done]. rewrite Hz, Z.add_assoc in Hm.
    destruct (IH (p + zlen (enc_bulk k) + zlen (enc_bulk v)) post (owners ++ [ep]) (xs ++ [[k; v]]) s1 w2 s' w')
      as (Hu & owners' & Hown & Hi'); [lia|done|done|done|].
    split; [congruence|]. exists (ep :: owners'). split.
    + constructor; [done|]. eapply Forall2_impl; [exact Hown|]. intros b e. apply routed_same. by etransitivity.
    + by rewrite <- !app_assoc in Hi'.
Qed.
End pushes.

(** ** Requests *)
Lemma bulk_items_length p args : length (bulk_items p args) = length args.
Proof. revert p. induction args as [|a args IH]; intros p; cbn; [done|]. by rewrite IH. Qed.

Lemma key_bulks_denote m bulks pairs :
  Forall2 (bulk_denotes m) bulks (flatten pairs) -> Forall2 (bulk_denotes m) (key_bulks bulks) pairs.*1.
Proof.
  revert bulks. induction pairs as [|[k v] pairs IH]; intros bulks H; [by inversion H|].
  change (flatten ((k, v) :: pairs)) with (k :: v :: flatten pairs) in H.
  inversion_clear H as [|b1 ? bulks1 ? H1 H2]. inversion_clear H2 as [|b2 ? bulks2 ? H3 H4].
  constructor; [done|]. by apply IH.
Qed.

(** A whole request of which the parser has made [ba] *)
Record whole_request (m : bytes) (name : bytes) (args : list bytes) (ba : BulkArray) : Prop := {
  wr_storage : zlen m < 2 ^ 31;
  wr_parsed : exists data n post, 0 <= data /\ at_ptr m data = enc_array (name :: args) ++ post /\ NUL ∈ post /\
    zlen (enc_array (name :: args)) <= n < 2 ^ 30 /\ BulkArray_ctor m data n = Ok ba
}.

(** What the constructors of the commands find in it *)
Lemma whole_request_items m name args ba :
  whole_request m name args ba ->
  Forall2 (bulk_denotes m) (items_ ba) (name :: args) /\ BulkArray_absent_bulks m ba = Ok 0 /\
  zlen args < 2 ^ 30 /\
  exists p post, 0 <= p /\ at_ptr m p = enc_items args ++ post /\ drop 1 (items_ ba) = bulk_items p args.
Proof.
  intros [Hm31 (data & n & post & Hd & Hm & Hnul & Hn & Hba)].
  destruct (resp_array_roundtrip m data (name :: args) post n) as (ba' & Hba' & Hden & Htot & _); [done..|].
  assert (ba' = ba) as -> by congruence. rewrite (BulkArray_ctor_complete m data (name :: args) post n) in Hba by done.
  injection Hba as <-. pose proof (zlen_enc_items_ge args) as Hge. pose proof (zlen_nonneg args).
  rewrite enc_array_split, enc_items_cons, <- !app_assoc in Hm. pose proof (zlen_nonneg (array_header (zlen (name :: args)))).
  pose proof (zlen_nonneg (enc_bulk name)).
  apply at_ptr_app_skip in Hm; [|done]. apply at_ptr_app_skip in Hm; [|lia].
  rewrite enc_array_split, enc_items_cons, !zlen_app in Hn.
  split; [done|]. split; [|split; [lia|]].
  - unfold BulkArray_absent_bulks, BulkArray_present_bulks. rewrite Htot, bind_Ok_l. cbn [items_].
    unfold zlen. cbn [length]. rewrite bulk_items_length. by rewrite Z.sub_diag.
  - eexists _, post. split; [|split; [exact Hm|reflexivity]]. lia.
Qed.

Lemma share_zlen {A} ep owners (xs : list A) : zlen (share ep owners xs) <= zlen xs.
Proof.
  unfold share, zlen. rewrite length_fmap. pose proof (length_filter (fun e : Endpoint * A => e.1 = ep) (zip owners xs)) as H.
  rewrite length_zip_with in H. lia.
Qed.
Lemma share_fmap {A B} (f : A -> B) ep owners xs : share ep owners (f <$> xs) = f <$> share ep owners xs.
Proof.
  unfold share. revert xs. induction owners as [|e owners IH]; intros [|x xs]; try done. cbn [zip zip_with fmap list_fmap].
  rewrite !filter_cons. cbn [fst]. destruct (decide (e = ep)); cbn; [f_equal|]; apply IH.
Qed.
Lemma zlen_flatten pairs : zlen (flatten pairs) = 2 * zlen pairs.
Proof.
  induction pairs as [|[k v] pairs IH]; [done|]. change (flatten ((k, v) :: pairs)) with (k :: v :: flatten pairs).
  rewrite !zlen_cons, IH. lia.
Qed.

Lemma new_command_state cl protocol replying s w cmd w' :
  new_command cl protocol replying s w = Ok (cmd, w') ->
  exists c, commands w' !! cmd = Some c /\ command_state c = s.
Proof.
  unfold new_command. intros H. apply M_bind_Ok in H as (x & w1 & _ & H). apply M_bind_Ok in H as (u & w2 & _ & H).
  apply M_bind_Ok in H as (u' & w3 & H3 & H). injection H3 as _ <-. injection H as <- <-.
  cbn. rewrite lookup_insert_eq. eauto.
Qed.

(** C24: an [MSET] is split into requests.  When the constructor of the command has run on
    a whole request of keys and values (of less than 2^30 bytes, with a NUL byte behind
    it, in a storage of less than 2^31), nothing of it is left to be parsed, every key has
    been routed by the current configuration, and for every endpoint: if no key was routed
    to it there is no sub-query; otherwise there is one, and the prefix that
    [RedisMsetPrefix] returns for its count of keys, from the table as any earlier calls
    have left it, followed by the bytes of its segments in the client's buffer, is a
    request [mset] with exactly the keys and values routed to the endpoint, in the order
    of the client's request. *)
Theorem mset_is_split_into_requests cl m name pairs ba w cmd w' calls :
  whole_request m name (flatten pairs) ba -> RedisMsetCommand_ctor cl m ba w = Ok (cmd, w') ->
  exists c s owners, commands w' !! cmd = Some c /\ command_state c = CRedisMset s /\ rs_unparsed_bulks s = 0 /\
    Forall2 (bulk_denotes m) (key_bulks (drop 1 (items_ ba))) pairs.*1 /\
    Forall2 (routed w m) (key_bulks (drop 1 (items_ ba))) owners /\
    forall ep,
      match mset_sub s ep with
      | None => share ep owners pairs = []
      | Some q => share ep owners pairs <> [] /\
          (RedisMsetPrefix (ts_keys_count q) (mset_cache_after calls)).1 ++ segments_bytes m (ts_segments q) =
          enc_array (str "mset" :: flatten (share ep owners pairs))
      end.
Proof.
  intros Hreq H. pose proof Hreq as (Hden & Habs & Hlen & p & post & Hp & Hm & Hitems)%whole_request_items.
  destruct Hreq as [Hm31 _]. unfold RedisMsetCommand_ctor in H. rewrite Habs, Hitems in H.
  apply M_bind_Ok in H as (absent & w1 & [-> [= <-]]%lift_Ok & H). apply M_bind_Ok in H as (s & w2 & Hpush & H).
  apply new_command_state in H as (c & Hc & Hs).
  assert (mset_inv cl m [] [] (mkRedisMset (u64 (0 + 0 mod 2)) [] [] [] None)) as Hnew by (split; done || constructor).
  destruct (mset_push_all_spec cl m Hm31 pairs p post [] [] _ w s w2 Hp Hm Hnew Hpush)
    as (Hu & owners & Hown & [_ _ _ _ Hgiven]). cbn [app] in Hgiven.
  assert (Forall2 (bulk_denotes m) (drop 1 (items_ ba)) (flatten pairs)) as Hden' by (by inversion_clear Hden).
  exists c, s, owners. split; [done|]. split; [done|]. split; [by rewrite Hu|]. rewrite Hitems.
  split; [apply key_bulks_denote; by rewrite <- Hitems|]. split; [done|].
  intros ep. specialize (Hgiven ep). rewrite share_fmap in Hgiven. destruct (mset_sub s ep) as [q|]; cbn in Hgiven.
  - destruct Hgiven as [Hne [Hk Hb _]]. split; [by intros He; rewrite He in Hne|].
    destruct (mset_prefix_ok (ts_keys_count q) _ (mset_cache_after_ok calls)) as [-> _].
    rewrite Hb. change (concat _) with (flatten (share ep owners pairs)). pose proof (share_zlen ep owners pairs).
    rewrite zlen_flatten in Hlen. apply request_head_args; rewrite zlen_flatten; [|lia].
    rewrite Hk. unfold zlen. by rewrite length_fmap.
  - by apply fmap_nil_inv in Hgiven.
Qed.

(** Three keys over two backends; earlier calls have entered two more counts. *)
Definition mset_pairs : list (bytes * bytes) :=
  [(str "k1", str "v1"); (str "k2", str "v2"); (str "k3", [])].
Definition mset_bytes : bytes := enc_array (str "MSET" :: flatten mset_pairs) ++ [NUL].
Definition parsed_array (m : bytes) : BulkArray :=
  match BulkArray_ctor m 0 (zlen m - 1) with Ok ba => ba | Fault _ => mkBulkArray 0 0 [] end.

Lemma mset_whole : whole_request mset_bytes (str "MSET") (flatten mset_pairs) (parsed_array mset_bytes).
Proof.
  split; [reflexivity|]. exists 0, (zlen mset_bytes - 1), [NUL].
  split; [lia|]. split; [vm_compute; reflexivity|]. split; [decide_goal|]. split; [by_compute|vm_compute; reflexivity].
Qed.

Lemma mset_is_split_into_requests_witness :
  exists cmd w', RedisMsetCommand_ctor 0 mset_bytes (parsed_array mset_bytes) (after accepted) = Ok (cmd, w') /\
  exists c s owners, commands w' !! cmd = Some c /\ command_state c = CRedisMset s /\ rs_unparsed_bulks s = 0 /\
    Forall2 (routed (after accepted) mset_bytes) (key_bulks (drop 1 (items_ (parsed_array mset_bytes)))) owners /\
    forall ep q, mset_sub s ep = Some q ->
      (RedisMsetPrefix (ts_keys_count q) (mset_cache_after [7; 5; 2])).1 ++ segments_bytes mset_bytes (ts_segments q) =
      enc_array (str "mset" :: flatten (share ep owners mset_pairs)).
Proof.
  assert (exists cmd w', RedisMsetCommand_ctor 0 mset_bytes (parsed_array mset_bytes) (after accepted) = Ok (cmd, w'))
    as (cmd & w' & H) by (eexists _, _; vm_compute; reflexivity).
  exists cmd, w'. split; [exact H|].
  destruct (mset_is_split_into_requests 0 mset_bytes (str "MSET") mset_pairs (parsed_array mset_bytes) (after accepted)
    cmd w' [7; 5; 2] mset_whole H) as (c & s & owners & Hc & Hs & Hu & _ & Hown & Hall).
  exists c, s, owners. split; [exact Hc|]. split; [exact Hs|]. split; [exact Hu|]. split; [exact Hown|].
  intros ep q Hq. specialize (Hall ep). rewrite Hq in Hall. apply Hall.
Defined.

Lemma complete_keys_whole m bulks args :
  Forall2 (bulk_denotes m) bulks args -> complete_keys m bulks = Ok (bulks, false).
Proof.
  intros H. unfold complete_keys. destruct (last bulks) as [b|] eqn:Hb.
  - apply last_Some in Hb as [l ->]. apply Forall2_app_inv_l in H as (a1 & a2 & _ & H & _).
    inversion_clear H as [|??? ? [Hc _] _]. by rewrite Hc.
  - by apply last_None in Hb as ->.
Qed.

Lemma concat_singletons {A} (l : list A) : concat ((fun x => [x]) <$> l) = l.
Proof. induction l as [|x l IH]; [done|]. cbn. f_equal. exact IH. Qed.

(** C25: a [DEL], [EXISTS] or [TOUCH], in any case of letters, is split into requests
    likewise: when the constructor of the command has run on a whole request (sizes as for
    [mset_is_split_into_requests]), an endpoint no key was routed to has no sub-query, and
    of any other one the prefix that [RedisDelPrefix] returns for the name and the count
    of keys, from the tables as any earlier calls have left them (each name has its own),
    followed by the bytes of the segments, is a request of that name with exactly the keys
    routed to the endpoint, in the order of the client's request. *)
Theorem del_is_split_into_requests cl m name keys ba w cmd w' calls :
  whole_request m name keys ba -> tolower <$> name ∈ del_names ->
  RedisDelCommand_ctor cl m ba w = Ok (cmd, w') ->
  exists c s owners, commands w' !! cmd = Some c /\ command_state c = CRedisDel s /\ rd_unparsed_bulks s = 0 /\
    Forall2 (bulk_denotes m) (drop 1 (items_ ba)) keys /\
    Forall2 (routed w m) (drop 1 (items_ ba)) owners /\
    forall ep,
      match sm_find ep (rd_waiting_subqueries s) with
      | None => share ep owners keys = []
      | Some q => share ep owners keys <> [] /\
          exists prefix caches,
            RedisDelPrefix (cmd_name_ s) (ds_keys_count q) (del_caches_after calls) = Ok (prefix, caches) /\
            prefix ++ segments_bytes m (ds_segments q) = enc_array ((tolower <$> name) :: share ep owners keys)
      end.
Proof.
  intros Hreq Hname H. pose proof Hreq as (Hden & Habs & Hlen & p & post & Hp & Hm & Hitems)%whole_request_items.
  destruct Hreq as [Hm31 _]. unfold RedisDelCommand_ctor in H. rewrite Habs in H. destruct ba as [raw size items].
  cbn [items_] in *. destruct items as [|b bulks]; [by inversion Hden|]. apply Forall2_cons in Hden as [[_ Hpay] Hks].
  change (drop 1 (b :: bulks)) with bulks in *. rewrite (complete_keys_whole m bulks keys) in H by done.
  apply M_bind_Ok in H as (absent & w1 & [-> [= <-]]%lift_Ok & H).
  apply M_bind_Ok in H as (b' & w1 & [-> [= <-]]%lift_Ok & H).
  apply M_bind_Ok in H as (np & w1 & [-> Hnp]%lift_Ok & H). apply M_bind_Ok in H as (nn & w1 & [-> Hnn]%lift_Ok & H).
  apply M_bind_Ok in H as (nm & w1 & [-> Hnm]%lift_Ok & H). apply M_bind_Ok in H as ([ks cut] & w1 & [-> [= <- <-]]%lift_Ok & H).
  unfold Bulk_payload in Hpay. rewrite Hnp, bind_Ok_l, Hnn, bind_Ok_l in Hpay. assert (nm = name) as -> by congruence.
  apply M_bind_Ok in H as (waiting & w2 & Hpush & H). apply new_command_state in H as (c & Hc & Hs).
  rewrite Hitems in Hpush |- *.
  assert (del_inv cl m [] [] []) as Hnew by (split; done || constructor).
  destruct (del_push_all_spec cl m Hm31 keys p post [] [] [] w waiting w2 Hp Hm Hnew Hpush) as (owners & Hown & [_ _ Hgiven]).
  cbn [app] in Hgiven. eexists c, _, owners. split; [done|]. split; [exact Hs|]. split; [done|].
  split; [by rewrite <- Hitems|]. split; [done|]. cbn [rd_waiting_subqueries cmd_name_].
  intros ep. specialize (Hgiven ep). rewrite share_fmap in Hgiven. destruct (sm_find ep waiting) as [q|]; cbn in Hgiven.
  - destruct Hgiven as [Hne [Hk Hb _]]. split; [by intros He; rewrite He in Hne|].
    destruct (del_prefix_ok (tolower <$> name) (ds_keys_count q) _ (del_caches_after_ok calls) Hname) as (caches & -> & _).
    eexists _, caches. split; [reflexivity|]. rewrite Hb. pose proof (share_zlen ep owners keys).
    rewrite concat_singletons.
    apply request_head_args; [|lia]. rewrite Hk. unfold zlen. rewrite length_fmap. lia.
  - by apply fmap_nil_inv in Hgiven.
Qed.

Definition touch_keys : list bytes := [str "k1"; str "k2"; str "k3"].
Definition touch_bytes : bytes := enc_array (str "Touch" :: touch_keys) ++ [NUL].

Lemma touch_whole : whole_request touch_bytes (str "Touch") touch_keys (parsed_array touch_bytes).
Proof.
  split; [reflexivity|]. exists 0, (zlen touch_bytes - 1), [NUL].
  split; [lia|]. split; [vm_compute; reflexivity|]. split; [decide_goal|]. split; [by_compute|vm_compute; reflexivity].
Qed.

Lemma del_is_split_into_requests_witness :
  exists cmd w', RedisDelCommand_ctor 0 touch_bytes (parsed_array touch_bytes) (after accepted) = Ok (cmd, w') /\
  exists c s owners, commands w' !! cmd = Some c /\ command_state c = CRedisDel s /\ rd_unparsed_bulks s = 0 /\
    forall ep q, sm_find ep (rd_waiting_subqueries s) = Some q ->
      exists prefix caches,
        RedisDelPrefix (cmd_name_ s) (ds_keys_count q) (del_caches_after [(str "touch", 2); (str "del", 9)]) = Ok (prefix, caches) /\
        prefix ++ segments_bytes touch_bytes (ds_segments q) = enc_array (str "touch" :: share ep owners touch_keys).
Proof.
  assert (exists cmd w', RedisDelCommand_ctor 0 touch_bytes (parsed_array touch_bytes) (after accepted) = Ok (cmd, w'))
    as (cmd & w' & H) by (eexists _, _; vm_compute; reflexivity).
  exists cmd, w'. split; [exact H|].
  assert (tolower <$> str "Touch" ∈ del_names) as Hn by decide_goal.
  destruct (del_is_split_into_requests 0 touch_bytes (str "Touch") touch_keys (parsed_array touch_bytes) (after accepted)
    cmd w' [(str "touch", 2); (str "del", 9)] touch_whole Hn H) as (c & s & owners & Hc & Hs & Hu & _ & _ & Hall).
  exists c, s, owners. split; [exact Hc|]. split; [exact Hs|]. split; [exact Hu|].
  intros ep q Hq. specialize (Hall ep). rewrite Hq in Hall. apply Hall.
Defined.
