(* ===== verification/Utils.v ===== *)
(** * Process-wide utilities

    [MaximizeFdLimit] of [proxy/utils.cc], the registry of signal handlers
    ([proxy/signal_watcher.h], [proxy/signal_watcher.cc]) and the names of the
    log levels ([proxy/logging.cc]). *)

From S2P Require Import Prelude CString StdMap.

(** ** Log levels *)
Definition Verbosity_INFO : Z := 0.
Definition Verbosity_WARNING : Z := -1.
Definition Verbosity_ERROR : Z := -2.
Definition Verbosity_FATAL : Z := -3.
Definition Verbosity_OFF : Z := -9.

Definition LevelVerbosity (level : bytes) : Z :=
  if bool_decide (level = str "TRACE") then 4
  else if bool_decide (level = str "DEBUG") then 2
  else if bool_decide (level = str "INFO") then Verbosity_INFO
  else if bool_decide (level = str "WARN") then Verbosity_WARNING
  else if bool_decide (level = str "ERROR") then Verbosity_ERROR
  else if bool_decide (level = str "FATAL") then Verbosity_FATAL
  else if bool_decide (level = str "OFF") then Verbosity_OFF
  else Verbosity_INFO.

(** ** The limit on open files

    [rlim_t] is an unsigned 64-bit integer. *)
Record rlimit := mkRlimit { rlim_cur : Z; rlim_max : Z }.

Definition RLIM_INFINITY : Z := 2 ^ 64 - 1.

Section fd_limit.
(** Whether [setrlimit(RLIMIT_NOFILE, ...)] accepts a limit; the limit is in
    force afterwards if it does. *)
Variable setrlimit_ok : rlimit -> bool.

(** The [do]-[while] loop; [lim] is the limit in force. *)
Fixpoint search_limit (fuel : nat) (min max : Z) (lim : rlimit) : result rlimit :=
  match fuel with
  | O => Fault OutOfFuel
  | S fuel' =>
      let tried := mkRlimit (u64 (min + u64 (max - min) / 2)) (rlim_max lim) in
      if setrlimit_ok tried then
        if u64 (rlim_cur tried + 1) <? max
        then search_limit fuel' (rlim_cur tried) max tried else Ok tried
      else if u64 (min + 1) <? rlim_cur tried
      then search_limit fuel' min (rlim_cur tried) lim else Ok lim
  end.

(** [lim]: what [getrlimit] gives, [None] if it fails *)
Definition MaximizeFdLimit (lim : option rlimit) : result (option rlimit) :=
  match lim with
  | None => Ok None
  | Some lim =>
      if rlim_cur lim =? rlim_max lim then Ok (Some lim)
      else
        let '(min, max) :=
          if rlim_max lim =? RLIM_INFINITY then (rlim_cur lim, 2 ^ 20)
          else (rlim_max lim, rlim_max lim) in
        lim ← search_limit 65 min max lim; Ok (Some lim)
  end.
End fd_limit.

(** ** Signal handlers

    A handler is a function on the state [S] of the program.  The kernel calls
    [HandlerEntry] for the signals [sigaction] was called for. *)
Record SignalWatcher (S : Type) := mkSignalWatcher {
  sigactions : list Z;
  signal_handlers_ : smap Z (list (Z -> S -> S))
}.
Arguments mkSignalWatcher {S} _ _.
Arguments sigactions {S} _.
Arguments signal_handlers_ {S} _.

Section signals.
Context {S : Type}.
Implicit Types (sw : SignalWatcher S) (s : S).

Definition SignalWatcher_ctor : SignalWatcher S := mkSignalWatcher [] [].

Definition OnSignal (sw : SignalWatcher S) (signal : Z) (s : S) : S :=
  match sm_find signal (signal_handlers_ sw) with
  | Some funcs => foldl (fun s func => func signal s) s funcs
  | None => s
  end.

Definition RegisterHandler (sw : SignalWatcher S) (signal : Z) (handler : Z -> S -> S)
    : SignalWatcher S :=
  match sm_find signal (signal_handlers_ sw) with
  | None =>
      mkSignalWatcher (sigactions sw ++ [signal])
        (sm_set signal [handler] (signal_handlers_ sw))
  | Some funcs =>
      mkSignalWatcher (sigactions sw) (sm_set signal (funcs ++ [handler]) (signal_handlers_ sw))
  end.

(** Delivery of a signal: [None] is the default action of the system. *)
Definition HandlerEntry (sw : SignalWatcher S) (signal : Z) (s : S) : option S :=
  if bool_decide (signal ∈ sigactions sw) then Some (OnSignal sw signal s) else None.

(** Registrations in turn *)
Definition register_all (hs : list (Z * (Z -> S -> S))) (sw : SignalWatcher S) : SignalWatcher S :=
  foldl (fun sw h => RegisterHandler sw h.1 h.2) sw hs.
Definition handlers_for (signal : Z) (hs : list (Z * (Z -> S -> S))) : list (Z -> S -> S) :=
  (filter (fun h => h.1 = signal) hs).*2.

(** ** Lemmas: signal handlers *)
Record watcher_ok (sw : SignalWatcher S) (hs : list (Z * (Z -> S -> S))) : Prop := {
  watcher_sorted : sm_sorted (signal_handlers_ sw);
  watcher_actions signal : signal ∈ sigactions sw <-> handlers_for signal hs <> [];
  watcher_handlers signal :
    sm_find signal (signal_handlers_ sw) =
    match handlers_for signal hs with [] => None | funcs => Some funcs end
}.

Lemma handlers_for_snoc signal hs h :
  handlers_for signal (hs ++ [h]) =
  handlers_for signal hs ++ (if decide (h.1 = signal) then [h.2] else []).
Proof.
  unfold handlers_for. rewrite filter_app, fmap_app. f_equal. rewrite filter_cons. by destruct (decide _).
Qed.

Lemma RegisterHandler_ok sw hs signal h :
  watcher_ok sw hs -> watcher_ok (RegisterHandler sw signal h) (hs ++ [(signal, h)]).
Proof.
  intros [Hs Ha Hh]. unfold RegisterHandler.
  pose proof (Ha signal) as Has. rewrite Hh.
  destruct (handlers_for signal hs) as [|f fs] eqn:Hfs; split; simpl;
    try (by apply sm_set_sorted); intros sig; rewrite handlers_for_snoc; simpl;
    destruct (decide (signal = sig)) as [<-|Hne]; simpl;
    rewrite ?Hfs, ?app_nil_r, ?sm_find_set, ?sm_find_set_ne by done; try done.
  - rewrite elem_of_app, list_elem_of_singleton. split; [done|by right].
  - rewrite elem_of_app, list_elem_of_singleton, Ha. split; [intros [H|H]; congruence|by left].
  - rewrite Has. done.
Qed.

Lemma register_all_ok hs : watcher_ok (register_all hs SignalWatcher_ctor) hs.
Proof.
  induction hs as [|h hs IH] using rev_ind.
  - split; [constructor| |done]. intros sig. split; [intros H; by apply not_elem_of_nil in H|done].
  - unfold register_all. rewrite foldl_app. simpl. destruct h as [sig h]. by apply RegisterHandler_ok.
Qed.
End signals.

(** ** Lemmas: the search *)
Section search.
(** The kernel accepts the soft limits up to [limit]. *)
Variable limit : Z.
Definition up_to (lim : rlimit) : bool := rlim_cur lim <=? limit.

(** One probe of a nonempty interval whose lower end is accepted *)
Lemma search_probe min max : 0 <= min < max -> max < 2 ^ 64 ->
  u64 (min + u64 (max - min) / 2) = min + (max - min) / 2 /\
  min <= min + (max - min) / 2 < max.
Proof.
  intros Hm Hx. rewrite (u64_small (max - min)) by lia.
  assert (0 <= (max - min) / 2 < max - min) as Hd
    by (split; [apply Z.div_pos; lia|apply Z.div_lt_upper_bound; lia]).
  rewrite u64_small; lia.
Qed.

Lemma search_limit_spec fuel : forall min max lim,
  0 <= min < max -> max < 2 ^ 64 -> max - min <= 2 ^ Z.of_nat fuel -> min <= limit ->
  rlim_cur lim = min ->
  search_limit up_to (S fuel) min max lim = Ok (mkRlimit (Z.min limit (max - 1)) (rlim_max lim)).
Proof.
  induction fuel as [|fuel IH]; intros min max lim Hm Hx Hf Hl Hc.
  - replace max with (min + 1) in * by lia. cbn [search_limit].
    destruct (search_probe min (min + 1)) as [-> _]; [lia..|].
    replace (min + 1 - min) with 1 by lia. change (1 / 2) with 0.
    unfold up_to. simpl. rewrite Z.add_0_r, (proj2 (Z.leb_le _ _)) by lia.
    rewrite u64_small, Z.ltb_irrefl by lia. do 2 f_equal; lia.
  - remember (S fuel) as n eqn:Hn. cbn [search_limit].
    destruct (search_probe min max) as [-> Hp]; [lia..|]. unfold up_to at 1. cbn [rlim_cur].
    set (mid := min + (max - min) / 2) in *.
    assert (max - mid <= 2 ^ Z.of_nat fuel /\ mid - min <= 2 ^ Z.of_nat fuel) as [Hd1 Hd2].
    { assert (2 ^ Z.of_nat n = 2 * 2 ^ Z.of_nat fuel) as Hp2
        by (rewrite Hn, Nat2Z.inj_succ, Z.pow_succ_r by lia; lia).
      pose proof (Z.div_mod (max - min) 2). pose proof (Z.mod_pos_bound (max - min) 2). lia. }
    subst n. destruct (Z.leb_spec mid limit).
    + rewrite u64_small by lia. destruct (Z.ltb_spec (mid + 1) max).
      * rewrite IH; [done|simpl; lia..].
      * do 2 f_equal; lia.
    + rewrite u64_small by lia. destruct (Z.ltb_spec (min + 1) mid).
      * rewrite IH; [|lia..]. do 2 f_equal; lia.
      * destruct lim as [cur mx]. simpl in *. subst cur. do 2 f_equal. lia.
Qed.
(** Above 2^20 the difference wraps around and the first probe is too large. *)
Lemma search_limit_wrap fuel min lim :
  2 ^ 20 < min <= limit -> limit < 2 ^ 63 -> (63 <= fuel)%nat -> rlim_cur lim = min ->
  search_limit up_to (S (S fuel)) min (2 ^ 20) lim = Ok (mkRlimit limit (rlim_max lim)).
Proof.
  intros Hm Hl Hf Hc. remember (S fuel) as n eqn:Hn. cbn [search_limit].
  unfold up_to at 1. cbn [rlim_cur].
  assert (u64 (2 ^ 20 - min) = 2 ^ 64 + 2 ^ 20 - min) as ->.
  { unfold u64. replace (2 ^ 20 - min) with (2 ^ 64 + 2 ^ 20 - min + (-1) * 2 ^ 64) by lia.
    rewrite Z.mod_add by lia. apply Z.mod_small. lia. }
  set (d := (2 ^ 64 + 2 ^ 20 - min) / 2).
  assert (2 ^ 64 + 2 ^ 20 - min = 2 * d + (2 ^ 64 + 2 ^ 20 - min) mod 2 /\
          0 <= (2 ^ 64 + 2 ^ 20 - min) mod 2 < 2) as [Hd Hr]
    by (split; [apply Z.div_mod; lia|apply Z.mod_pos_bound; lia]).
  rewrite (u64_small (min + d)), (u64_small (min + 1)) by lia.
  rewrite (proj2 (Z.leb_gt _ _)), (proj2 (Z.ltb_lt _ _)) by lia.
  assert (2 ^ 63 <= 2 ^ Z.of_nat fuel) as Hp by (apply Z.pow_le_mono_r; lia).
  subst n. rewrite search_limit_spec by lia. by rewrite Z.min_l by lia.
Qed.

(** From 2^20 the only probe is the limit in force. *)
Lemma search_limit_stays fuel hard :
  2 ^ 20 <= limit ->
  search_limit up_to (S fuel) (2 ^ 20) (2 ^ 20) (mkRlimit (2 ^ 20) hard) = Ok (mkRlimit (2 ^ 20) hard).
Proof.
  intros Hl. cbn [search_limit]. change (u64 (2 ^ 20 + u64 (2 ^ 20 - 2 ^ 20) / 2)) with (2 ^ 20).
  unfold up_to at 1. cbn [rlim_cur rlim_max]. rewrite (proj2 (Z.leb_le _ _)) by lia. reflexivity.
Qed.
End search.



(** A signal for which handlers were registered runs all of them and no
    others, in the order of registration; any other signal is left to the
    system. *)
Theorem signal_runs_registered_handlers {S} (hs : list (Z * (Z -> S -> S))) signal s :
  HandlerEntry (register_all hs SignalWatcher_ctor) signal s =
  match handlers_for signal hs with
  | [] => None
  | funcs => Some (foldl (fun s func => func signal s) s funcs)
  end.
Proof.
  destruct (register_all_ok hs) as [_ Ha Hh]. unfold HandlerEntry, OnSignal. rewrite Hh.
  specialize (Ha signal). destruct (handlers_for signal hs) as [|f fs].
  - rewrite bool_decide_eq_false_2; [done|]. by intros H%Ha.
  - rewrite bool_decide_eq_true_2; [done|]. by apply Ha.
Qed.
