(* ===== verification/Server.v ===== *)
(** * The server: acceptor, worker pool and signals

    [proxy/proxy_server.h], [proxy/proxy_server.cc], [proxy/worker_pool.h] and
    [proxy/worker_pool.cc].  The main thread accepts connections, hands each to
    the next worker, and runs the handlers that signals have posted; each worker
    runs its own event loop.  A step of the server is one handler of one thread:
    the handlers of different threads are interleaved but do not overlap.  An
    exception that leaves a handler is logged by the loop that called it; a handler
    that never returns (the fuel of its loops is used up) keeps its thread for ever.

    [Stop] runs on the main thread.  It stops the [io_context_] of every thread, which
    makes [run()] return when the handler in progress does, and then joins the workers
    one after the other; a [join] returns when the thread has left its loop.  So the
    end of a worker thread, the return of a [join] and the end of the main loop are
    steps of their own. *)

From S2P Require Import Prelude CString StdMap ErrorCode ReadBuffer Allocator Config.
From S2P Require Import RedisProtocol KeyDistributer KeyLocator QueryParser BackendConn.
From S2P Require Import ReplyParser World BackendPool Lifetime ConnIO Commands CommandQuery.
From S2P Require Import CommandReply Order Worker Logic QueryLogic ReplyLogic Invariants Utils.

(** ** State *)

(** What [WrapThreadSafeHandler] posts to the [io_context_] of the server *)
Inductive posted := PostReload | PostStop.

#[global] Instance posted_eq_dec : EqDecision posted.
Proof. solve_decision. Defined.

(** A worker: its context; the locators posted to its [io_context_] that it has not taken
    up; of its [thread_], whether it is joinable (started and not joined), whether it has
    left the loop of [StartDispatching], and whether it is in a handler that does not
    return; and whether [io_context_.stop()] was called. *)
Record WorkerThread := mkWorkerThread {
  context : World;
  inbox : list KeyLocator;
  joinable : bool;
  finished : bool;
  spinning : bool;
  io_stopped : bool
}.

(** Where the main thread is: in [io_context_.run()] (or before it), in
    [StopDispatching] waiting for the worker [i] to be joined, or behind the loop of
    [Run] *)
Inductive main_state := MainRunning | MainJoining (i : nat) | MainLeft.

#[global] Instance main_state_eq_dec : EqDecision main_state.
Proof. solve_decision. Defined.

(** [ProxyServer] with its [io_context_], its [WorkerPool], and the singletons of
    [Config] and [SignalWatcher] *)
Record Server := mkServer {
  listen_addr_ : bytes;
  stopped_ : bool;
  concurrency_ : Z;
  workers_ : list WorkerThread;
  pool_stopped_ : bool;
  next_worker_ : Z;
  main_queue : list posted;
  watcher : SignalWatcher (list posted);
  sv_config : Config;
  main_io_stopped : bool;
  main_thread : main_state
}.

Definition t_context (x : World) (t : WorkerThread) : WorkerThread :=
  mkWorkerThread x (inbox t) (joinable t) (finished t) (spinning t) (io_stopped t).
Definition t_inbox (x : list KeyLocator) (t : WorkerThread) : WorkerThread :=
  mkWorkerThread (context t) x (joinable t) (finished t) (spinning t) (io_stopped t).
Definition t_joinable (x : bool) (t : WorkerThread) : WorkerThread :=
  mkWorkerThread (context t) (inbox t) x (finished t) (spinning t) (io_stopped t).
Definition t_finished (x : bool) (t : WorkerThread) : WorkerThread :=
  mkWorkerThread (context t) (inbox t) (joinable t) x (spinning t) (io_stopped t).
Definition t_spinning (x : bool) (t : WorkerThread) : WorkerThread :=
  mkWorkerThread (context t) (inbox t) (joinable t) (finished t) x (io_stopped t).
Definition t_io_stopped (x : bool) (t : WorkerThread) : WorkerThread :=
  mkWorkerThread (context t) (inbox t) (joinable t) (finished t) (spinning t) x.
Definition s_stopped (x : bool) (s : Server) : Server :=
  mkServer (listen_addr_ s) x (concurrency_ s) (workers_ s) (pool_stopped_ s) (next_worker_ s)
    (main_queue s) (watcher s) (sv_config s) (main_io_stopped s) (main_thread s).
Definition s_workers (x : list WorkerThread) (s : Server) : Server :=
  mkServer (listen_addr_ s) (stopped_ s) (concurrency_ s) x (pool_stopped_ s) (next_worker_ s)
    (main_queue s) (watcher s) (sv_config s) (main_io_stopped s) (main_thread s).
Definition s_pool_stopped (x : bool) (s : Server) : Server :=
  mkServer (listen_addr_ s) (stopped_ s) (concurrency_ s) (workers_ s) x (next_worker_ s)
    (main_queue s) (watcher s) (sv_config s) (main_io_stopped s) (main_thread s).
Definition s_next_worker (x : Z) (s : Server) : Server :=
  mkServer (listen_addr_ s) (stopped_ s) (concurrency_ s) (workers_ s) (pool_stopped_ s) x
    (main_queue s) (watcher s) (sv_config s) (main_io_stopped s) (main_thread s).
Definition s_main_queue (x : list posted) (s : Server) : Server :=
  mkServer (listen_addr_ s) (stopped_ s) (concurrency_ s) (workers_ s) (pool_stopped_ s) (next_worker_ s)
    x (watcher s) (sv_config s) (main_io_stopped s) (main_thread s).
Definition s_watcher (x : SignalWatcher (list posted)) (s : Server) : Server :=
  mkServer (listen_addr_ s) (stopped_ s) (concurrency_ s) (workers_ s) (pool_stopped_ s) (next_worker_ s)
    (main_queue s) x (sv_config s) (main_io_stopped s) (main_thread s).
Definition s_config (x : Config) (s : Server) : Server :=
  mkServer (listen_addr_ s) (stopped_ s) (concurrency_ s) (workers_ s) (pool_stopped_ s) (next_worker_ s)
    (main_queue s) (watcher s) x (main_io_stopped s) (main_thread s).
Definition s_main_io_stopped (x : bool) (s : Server) : Server :=
  mkServer (listen_addr_ s) (stopped_ s) (concurrency_ s) (workers_ s) (pool_stopped_ s) (next_worker_ s)
    (main_queue s) (watcher s) (sv_config s) x (main_thread s).
Definition s_main_thread (x : main_state) (s : Server) : Server :=
  mkServer (listen_addr_ s) (stopped_ s) (concurrency_ s) (workers_ s) (pool_stopped_ s) (next_worker_ s)
    (main_queue s) (watcher s) (sv_config s) (main_io_stopped s) x.

(** ** [WorkerPool] *)
Module WorkerPool.
Definition NextWorker (s : Server) : result (nat * Server) :=
  if concurrency_ s =? 0 then Fault StdException
  else Ok (Z.to_nat (next_worker_ s mod concurrency_ s), s_next_worker (u64 (next_worker_ s + 1)) s).

Definition OnLocatorUpdated (locator : KeyLocator) (s : Server) : Server :=
  s_workers ((fun t => t_inbox (inbox t ++ [locator]) t) <$> workers_ s) s.

Definition StartDispatching (s : Server) : Server := s_workers (t_joinable true <$> workers_ s) s.

(** The loop of a worker thread ends: [run()] has returned, since the [io_context_] is
    stopped and no handler is in progress, and [stopped_] is set. *)
Definition may_finish (s : Server) (t : WorkerThread) : bool :=
  joinable t && negb (finished t) && negb (spinning t) && io_stopped t && pool_stopped_ s.

(** [StopDispatching] up to the first [join]: the main thread has to join all workers. *)
Definition StopDispatching (s : Server) : Server :=
  let s := s_pool_stopped true s in
  let s := s_workers (t_io_stopped true <$> workers_ s) s in
  s_main_thread (MainJoining 0) s.

(** [workers_[i].thread_.join()] returns when the thread has left its loop; for a thread
    that is not joinable it throws. *)
Definition join (i : nat) (s : Server) : result Server :=
  t ← of_option NullDeref (workers_ s !! i);
  if joinable t
  then Ok (s_main_thread (MainJoining (S i)) (s_workers (<[i := t_joinable false t]> (workers_ s)) s))
  else Fault StdException.

(** The loop over the [join]s, run to its end: each waits for a thread that will leave
    its loop, or has left it; for one that does neither it waits for ever. *)
Fixpoint join_all (n i : nat) (s : Server) : result Server :=
  match n with
  | O => Ok s
  | S n' =>
      t ← of_option NullDeref (workers_ s !! i);
      if joinable t && negb (finished t || may_finish s t) then Fault OutOfFuel
      else
        let s := s_workers (<[i := t_finished true t]> (workers_ s)) s in
        s ← join i s; join_all n' (S i) s
  end.

(** [new WorkerContext[concurrency]]: one context per element.  [heap] and
    [uninit] describe the memory a worker allocates from. *)
Fixpoint new_contexts (config : Config) (heap : nat -> Z) (uninit : nat -> Z -> Z -> ascii) (now : Z)
    (i n : nat) : result (list WorkerThread) :=
  match n with
  | O => Ok []
  | S n' =>
      w ← WorkerContext_ctor config (heap i) (uninit i) now;
      ts ← new_contexts config heap uninit now (S i) n';
      Ok (mkWorkerThread w [] false false false false :: ts)
  end.
End WorkerPool.

(** ** [ProxyServer] *)
Module ProxyServer.
Import WorkerPool.

Definition DefaultConcurrency (hardware_concurrency : Z) : Z :=
  if hardware_concurrency =? 0 then 4 else hardware_concurrency.

(** A thread count that was negative as an [int] exceeds every array size. *)
Definition ctor (addr : bytes) (worker_threads hardware_concurrency : Z) (config : Config)
    (heap : nat -> Z) (uninit : nat -> Z -> Z -> ascii) (now : Z) : result Server :=
  let threads := u64 worker_threads in
  let concurrency := if 0 <? threads then threads else DefaultConcurrency hardware_concurrency in
  if 2 ^ 32 <=? concurrency then Fault StdException
  else
    ts ← new_contexts config heap uninit now 0 (Z.to_nat concurrency);
    Ok (mkServer addr false concurrency ts false 0 [] SignalWatcher_ctor config false MainRunning).

(** [Stop], up to the first [join] *)
Definition Stop (s : Server) : Server := StopDispatching (s_main_io_stopped true (s_stopped true s)).

(** The destructor runs on the main thread behind [Run]: [Stop] with all of its [join]s. *)
Definition dtor (s : Server) : result Server :=
  if stopped_ s then Ok s else join_all (length (workers_ s)) 0 (Stop s).

Definition on_worker (i : nat) (f : World -> result World) (s : Server) : result Server :=
  t ← of_option NullDeref (workers_ s !! i);
  w ← f (context t);
  Ok (s_workers (<[i := t_context w t]> (workers_ s)) s).

(** A function of a worker, run on its context *)
Definition exec (m : M unit) (w : World) : result World := '(_, w) ← m w; Ok w.

Definition StartAccept (s : Server) : result Server :=
  '(i, s) ← NextWorker s;
  on_worker i (exec (handle EvStartAccept)) s.

(** The accept is the operation [j] of worker [i]; [handle] starts the first read. *)
Definition HandleAccept (i j : nat) (o : outcome) (s : Server) : result Server :=
  s ← on_worker i (exec (handle (EvComplete j o))) s;
  if failed o then Ok s else StartAccept s.

Definition WrapThreadSafeHandler (handler : posted) (signal : Z) (q : list posted) : list posted :=
  q ++ [handler].

Definition SIGHUP : Z := 1.
Definition SIGINT : Z := 2.
Definition SIGTERM : Z := 15.

Definition register_signals (s : Server) : Server :=
  s_watcher (register_all [(SIGHUP, WrapThreadSafeHandler PostReload);
                           (SIGINT, WrapThreadSafeHandler PostStop);
                           (SIGTERM, WrapThreadSafeHandler PostStop)] (watcher s)) s.

(** How preparing the acceptor ends: [open], [set_option] and [bind] throw,
    [listen] reports an error. *)
Inductive setup := SetupThrows | ListenFails | Listening.
Inductive run_status := Returned | Looping.

Section with_boost.
Variable make_address_v4 : bytes -> bool.
Variable from_string : bytes -> option Z.
(** [boost::asio::ip::address::from_string]; [None] throws *)
Context {address : Type}.
Variable address_from_string : bytes -> option address.

(** The port is converted to [unsigned short]. *)
Definition ParseEndpoint (ep : bytes) : result (address * Z) :=
  let '(host, rest) := default (ep, ep) (split_colon ep) in
  port ← of_option StdException (stoi rest);
  addr ← of_option StdException (address_from_string host);
  Ok (addr, port mod 2 ^ 16).

(** [Run], up to the loop that runs [io_context_] *)
Definition Run (st : setup) (s : Server) : result (Server * run_status) :=
  '(locator, good) ← KeyLocator_Initialize from_string (sv_config s) [];
  if negb good then Ok (s, Returned)
  else
    let s := OnLocatorUpdated locator s in
    _ ← ParseEndpoint (listen_addr_ s);
    match st with
    | SetupThrows => Fault StdException
    | ListenFails => Ok (s, Returned)
    | Listening => s ← StartAccept (StartDispatching (register_signals s)); Ok (s, Looping)
    end.

(** The handler of [SIGHUP]; an exception is caught by the loop in [Run]. *)
Definition reload (file : option (list bytes)) (s : Server) : result Server :=
  r ← ReloadCulsters make_address_v4 file (sv_config s);
  let '(config, good) := r in
  let s := s_config config s in
  if negb good then Ok s
  else match KeyLocator_Initialize from_string config [] with
       | Ok (locator, true) => Ok (OnLocatorUpdated locator s)
       | Ok (_, false) => Ok s
       | Fault StdException => Ok s
       | Fault f => Fault f
       end.

(** ** Steps *)
Inductive server_event :=
| SvWorker (i : nat) (e : event)      (** an event of worker [i] itself *)
| SvSpin (i : nat) (e : event)        (** the same, but its handler never returns *)
| SvDeliver (i : nat)                 (** worker [i] takes up a posted locator *)
| SvAccept (i j : nat) (o : outcome)  (** the accept for worker [i] ends *)
| SvSignal (signal : Z)
| SvPosted (file : option (list bytes))  (** the main thread runs a posted handler *)
| SvExit (i : nat)                    (** the thread of worker [i] leaves its loop *)
| SvJoin                              (** a [join] of [StopDispatching] returns *)
| SvLeave.                            (** [Run] returns *)

Definition own_event (e : event) : bool :=
  match e with EvStartAccept | EvLocator _ => false | _ => true end.

Definition hangs {A} (r : result A) : bool := match r with Fault OutOfFuel => true | _ => false end.

(** A worker thread that is in [run()] between two handlers *)
Definition between_handlers (t : WorkerThread) : bool :=
  joinable t && negb (finished t) && negb (spinning t) && negb (io_stopped t).

(** The main thread likewise *)
Definition main_free (s : Server) : bool :=
  bool_decide (main_thread s = MainRunning) && negb (main_io_stopped s).

Definition sv_enabled (s : Server) (e : server_event) : bool :=
  match e with
  | SvWorker i e =>
      match workers_ s !! i with
      | Some t => between_handlers t && own_event e && internal (context t) e && enabled (context t) e
      | None => false
      end
  | SvSpin i e =>
      match workers_ s !! i with
      | Some t => between_handlers t && own_event e && internal (context t) e && enabled (context t) e
                    && hangs (handle e (context t))
      | None => false
      end
  | SvDeliver i =>
      match workers_ s !! i with
      | Some t => between_handlers t && negb (bool_decide (inbox t = []))
      | None => false
      end
  | SvAccept i j o =>
      match workers_ s !! i with
      | Some t => main_free s && negb (internal (context t) (EvComplete j o))
                    && enabled (context t) (EvComplete j o)
      | None => false
      end
  | SvSignal signal => bool_decide (signal ∈ sigactions (watcher s))
  | SvPosted _ => main_free s && negb (bool_decide (main_queue s = []))
  | SvExit i => match workers_ s !! i with Some t => may_finish s t | None => false end
  | SvJoin =>
      match main_thread s with
      | MainJoining i =>
          match workers_ s !! i with Some t => finished t || negb (joinable t) | None => false end
      | _ => false
      end
  | SvLeave =>
      bool_decide (main_thread s = MainJoining (length (workers_ s))) && main_io_stopped s && stopped_ s
  end.

Definition sv_handle (e : server_event) (s : Server) : result Server :=
  match e with
  | SvWorker i e => on_worker i (exec (handle e)) s
  | SvSpin i e =>
      t ← of_option NullDeref (workers_ s !! i);
      Ok (s_workers (<[i := t_spinning true t]> (workers_ s)) s)
  | SvDeliver i =>
      t ← of_option NullDeref (workers_ s !! i);
      match inbox t with
      | [] => Fault NullDeref
      | kl :: rest =>
          w ← exec (handle (EvLocator kl)) (context t);
          Ok (s_workers (<[i := t_inbox rest (t_context w t)]> (workers_ s)) s)
      end
  | SvAccept i j o => HandleAccept i j o s
  | SvSignal signal =>
      q ← of_option StdException (HandlerEntry (watcher s) signal (main_queue s));
      Ok (s_main_queue q s)
  | SvPosted file =>
      match main_queue s with
      | [] => Fault NullDeref
      | PostReload :: q => reload file (s_main_queue q s)
      | PostStop :: q => Ok (Stop (s_main_queue q s))
      end
  | SvExit i =>
      t ← of_option NullDeref (workers_ s !! i);
      Ok (s_workers (<[i := t_finished true t]> (workers_ s)) s)
  | SvJoin =>
      match main_thread s with
      | MainJoining i => join i s
      | _ => Fault NullDeref
      end
  | SvLeave => Ok (s_main_thread MainLeft s)
  end.

Definition sv_step (s : Server) (e : server_event) (s' : Server) : Prop :=
  sv_enabled s e = true /\ sv_handle e s = Ok s'.

Fixpoint sv_run (es : list server_event) (s : Server) : result Server :=
  match es with
  | [] => Ok s
  | e :: es' => if sv_enabled s e then s ← sv_handle e s; sv_run es' s else Fault AssertFailed
  end.

Inductive sv_reachable (config : Config) : Server -> Prop :=
| sv_init addr threads hw heap uninit now s s' :
    ctor addr threads hw config heap uninit now = Ok s ->
    Run Listening s = Ok (s', Looping) -> sv_reachable config s'
| sv_next s e s' : sv_reachable config s -> sv_step s e s' -> sv_reachable config s'.
End with_boost.
End ProxyServer.
