(* ===== verification/ServerTheorems.v ===== *)
(** * Properties of the server

    The workers of a running server are workers in the sense of [Worker]; at most
    one accept is outstanding, for the worker whose turn it is; a reload reaches
    every worker; a server that is told to stop joins its threads, unless one of them
    is in a handler that does not return, and can then be destroyed; one whose [Run]
    returned early cannot. *)

From S2P Require Import Prelude CString StdMap ErrorCode ReadBuffer Allocator Config.
From S2P Require Import RedisProtocol KeyDistributer KeyLocator QueryParser BackendConn.
From S2P Require Import ReplyParser World BackendPool Lifetime ConnIO Commands CommandQuery.
From S2P Require Import CommandReply Order Worker Logic QueryLogic ReplyLogic Invariants Scenario Utils Server.
Import WorkerPool ProxyServer.

(** ** The accepts of a worker *)
Definition accept_ops (w : World) : list io_op := filter (fun op => is_accept op = true) (in_flight w).

Definition same_accepts (w w' : World) : Prop := accept_ops w' = accept_ops w.

#[global] Instance same_accepts_preorder : PreOrder same_accepts := proj_preorder accept_ops.

Lemma quiet_accepts w w' : quiet w w' -> same_accepts w w'.
Proof. intros (_ & _ & Hi & _). unfold same_accepts, accept_ops. by rewrite Hi. Qed.

Lemma filter_delete_false {A} (P : A -> Prop) `{!forall x, Decision (P x)} (l : list A) i x :
  l !! i = Some x -> ~ P x -> filter P (delete i l) = filter P l.
Proof.
  revert i. induction l as [|y l IH]; intros [|i] Hi Hx; simplify_eq/=; [|].
  - by rewrite filter_cons_False.
  - rewrite !filter_cons. by destruct (decide _); rewrite ?(IH i).
Qed.

#[global] Instance same_accepts_stable : Stable same_accepts.
Proof.
  split; try apply _; try (intros; reflexivity).
  - intros w op Hop. unfold same_accepts, accept_ops. cbn.
    rewrite filter_app, filter_cons_False by congruence. by rewrite app_nil_r.
  - intros w i op Hi Hop. unfold same_accepts, accept_ops. cbn.
    apply (filter_delete_false _ _ i op); [done|congruence].
  - intros ep w b w' H. by eapply quiet_accepts, quiet_Allocate.
  - intros b w u w' H. by eapply quiet_accepts, quiet_Release.
Qed.

Lemma push_command_accepts c cmd : respects same_accepts (push_command c cmd).
Proof. intros w u w' (x & w1 & [-> Hx]%client_Ok & [= <- <-])%M_bind_Ok. reflexivity. Qed.

#[global] Instance same_accepts_queue : StableQueue same_accepts.
Proof.
  split; [apply _|intros; reflexivity|]. intros c w a w'. apply process_unparsed_stable; [apply _|].
  intros cmd w1 w2. apply push_command_accepts.
Qed.

#[global] Instance same_accepts_io : StableIO same_accepts.
Proof. split; [apply _|intros; reflexivity]. Qed.

Lemma Client_ctor_accepts : respects same_accepts Client.ctor.
Proof.
  intros w c w' ([slab st] & w1 & H1%quiet_alloc_slab%quiet_accepts & H)%M_bind_Ok.
  etransitivity; [exact H1|]. by injection H as _ <-.
Qed.

Lemma handle_StartAccept w w' :
  handle EvStartAccept w = Ok (tt, w') -> exists c, accept_ops w' = accept_ops w ++ [ClientAccept c].
Proof.
  unfold handle. intros (v & w1 & [= <- <-] & (c & w2 & H%Client_ctor_accepts & [= <-])%M_bind_Ok)%M_bind_Ok.
  exists c. unfold accept_ops at 1. cbn. rewrite filter_app, filter_cons_True by done.
  change (accept_ops w2 ++ [ClientAccept c] = accept_ops w ++ [ClientAccept c]). by rewrite H.
Qed.

Lemma filter_delete_true {A} (P : A -> Prop) `{!forall x, Decision (P x)} (l : list A) i x :
  l !! i = Some x -> P x -> length (filter P l) = S (length (filter P (delete i l))).
Proof.
  revert i. induction l as [|y l IH]; intros [|i] Hi Hx; simplify_eq/=; [|].
  - by rewrite filter_cons_True.
  - rewrite !filter_cons. destruct (decide _); simpl; by rewrite (IH i).
Qed.

(** An event that is not internal to the worker and has an operation ends an accept. *)
Lemma handle_accept w j o w' :
  wf w -> internal w (EvComplete j o) = false -> handle (EvComplete j o) w = Ok (tt, w') ->
  length (accept_ops w) = S (length (accept_ops w')).
Proof.
  intros Hw Hi H. cbn in Hi. apply negb_false_iff in Hi.
  destruct (in_flight w !! j) as [op|] eqn:Hop; [|done]. simpl in Hi. rewrite orb_false_r in Hi.
  destruct op as [c|???|?????|???|???|???|?]; try done.
  destruct (shrinks_keeps [] _ _ (shrinks_finish w j) Hw) as (Hw1 & Hf1 & _); [constructor|].
  destruct (accept_handle same_accepts [] w j o c w' Hop H Hw1 Hf1) as [HT _]. rewrite HT.
  unfold accept_ops at 1. by apply (filter_delete_true _ _ j (ClientAccept c)).
Qed.

(** ** Steps on the server's state *)
Lemma exec_Ok m w w' : exec m w = Ok w' -> m w = Ok (tt, w').
Proof. unfold exec. destruct (m w) as [[[] w1]|f]; [|done]. intros H. by injection H as <-. Qed.

Lemma on_worker_Ok i f s s' : on_worker i f s = Ok s' ->
  exists t w, workers_ s !! i = Some t /\ f (context t) = Ok w /\
    s' = s_workers (<[i := t_context w t]> (workers_ s)) s.
Proof.
  unfold on_worker. intros (t & Ht%of_option_Ok & (w & Hw & [= <-])%bind_Ok)%bind_Ok. eauto.
Qed.

(** *** What each handler does to the contexts of the workers *)
Definition contexts (s : Server) : list World := context <$> workers_ s.

Lemma lookup_contexts s i w :
  contexts s !! i = Some w <-> exists t, workers_ s !! i = Some t /\ context t = w.
Proof. unfold contexts. rewrite list_lookup_fmap_Some. naive_solver. Qed.

Lemma contexts_update s i t t' :
  workers_ s !! i = Some t -> contexts (s_workers (<[i := t']> (workers_ s)) s) = <[i := context t']> (contexts s).
Proof. intros Ht. unfold contexts. cbn. by rewrite list_fmap_insert. Qed.

Lemma contexts_same_update (f : WorkerThread -> WorkerThread) ts s :
  (forall t, context (f t) = context t) -> contexts (s_workers (f <$> ts) s) = context <$> ts.
Proof. intros Hf. unfold contexts. cbn. rewrite <- list_fmap_compose. apply list_fmap_ext. intros; apply Hf. Qed.

Lemma contexts_Stop s : contexts (Stop s) = contexts s.
Proof. unfold Stop, StopDispatching. exact (contexts_same_update (t_io_stopped true) (workers_ s) s (fun _ => eq_refl)). Qed.

(** A thread that changes in something else *)
Lemma contexts_thread s i t t' :
  workers_ s !! i = Some t -> context t' = context t ->
  contexts (s_workers (<[i := t']> (workers_ s)) s) = contexts s.
Proof.
  intros Ht Hc. rewrite (contexts_update s i t t' Ht). apply list_insert_id. rewrite Hc. apply lookup_contexts. eauto.
Qed.

Lemma join_Ok i s s' : join i s = Ok s' ->
  exists t, workers_ s !! i = Some t /\ joinable t = true /\
    s' = s_main_thread (MainJoining (S i)) (s_workers (<[i := t_joinable false t]> (workers_ s)) s).
Proof.
  unfold join. intros (t & Ht%of_option_Ok & H)%bind_Ok. destruct (joinable t) eqn:Hj; [|done]. injection H as <-. eauto.
Qed.

Lemma reload_Ok mk fs file s s' : reload mk fs file s = Ok s' ->
  contexts s' = contexts s /\ concurrency_ s' = concurrency_ s /\ next_worker_ s' = next_worker_ s.
Proof.
  unfold reload. intros ([c' []] & _ & H)%bind_Ok; simpl in H; [|by injection H as <-]. revert H.
  destruct (KeyLocator_Initialize _ _ _) as [[kl []]|[]]; intros H; simplify_eq; try done.
  unfold OnLocatorUpdated. by rewrite contexts_same_update.
Qed.

(** [s'] has the workers of [s] but for one, and the same turn. *)
Definition one_context (i : nat) (w' : World) (s s' : Server) : Prop :=
  contexts s' = <[i := w']> (contexts s) /\ concurrency_ s' = concurrency_ s /\
  next_worker_ s' = next_worker_ s.

Lemma on_worker_step i e s s' :
  on_worker i (exec (handle e)) s = Ok s' ->
  exists w w', contexts s !! i = Some w /\ handle e w = Ok (tt, w') /\ one_context i w' s s'.
Proof.
  intros (t & w' & Ht & Hw%exec_Ok & ->)%on_worker_Ok. exists (context t), w'.
  split; [apply lookup_contexts; eauto|]. split; [done|]. split; [|done]. by eapply contexts_update.
Qed.

Lemma StartAccept_step s s' : StartAccept s = Ok s' ->
  let i := Z.to_nat (next_worker_ s mod concurrency_ s) in
  exists w w', contexts s !! i = Some w /\ handle EvStartAccept w = Ok (tt, w') /\
    contexts s' = <[i := w']> (contexts s) /\ concurrency_ s' = concurrency_ s /\
    next_worker_ s' = u64 (next_worker_ s + 1).
Proof.
  intros H. unfold StartAccept, NextWorker in H. destruct (concurrency_ s =? 0); [done|].
  apply bind_Ok in H as ([i s1] & H1 & H). injection H1 as <- <-.
  apply on_worker_step in H as (w & w' & Hw & Hs & Hc & Hn & Ht). eauto 10.
Qed.

(** A step of the server is a step of one worker, the end of an accept, or leaves
    the workers as they are. *)
Inductive moved (s s' : Server) : server_event -> Prop :=
| moved_none e :
    contexts s' = contexts s -> concurrency_ s' = concurrency_ s ->
    next_worker_ s' = next_worker_ s -> moved s s' e
| moved_worker i w e w' ev :
    contexts s !! i = Some w -> internal w e = true -> step w e w' ->
    one_context i w' s s' -> moved s s' ev
| moved_accept_failed i j o w w' :
    contexts s !! i = Some w -> internal w (EvComplete j o) = false ->
    step w (EvComplete j o) w' -> failed o = true -> one_context i w' s s' ->
    moved s s' (SvAccept i j o)
| moved_accepted i j o w w' s1 :
    contexts s !! i = Some w -> internal w (EvComplete j o) = false ->
    step w (EvComplete j o) w' -> failed o = false -> one_context i w' s s1 ->
    StartAccept s1 = Ok s' -> moved s s' (SvAccept i j o).

Lemma sv_step_moved mk fs s e s' : sv_step mk fs s e s' -> moved s s' e.
Proof.
  intros [He H]. destruct e as [i e|i e|i|i j o|sig|file|i| |]; cbn [sv_enabled sv_handle] in He, H.
  - apply on_worker_step in H as (w & w' & Hw & Hh & Hc).
    pose proof Hw as (t & Ht & <-)%lookup_contexts. rewrite Ht in He. rewrite !andb_true_iff in He.
    destruct He as [[_ Hi] He]. eapply moved_worker; try done.
  - apply bind_Ok in H as (t & Ht%of_option_Ok & [= <-]). apply moved_none; [|done..]. by eapply contexts_thread.
  - apply bind_Ok in H as (t & Ht%of_option_Ok & H). destruct (inbox t) as [|kl rest]; [done|].
    apply bind_Ok in H as (w' & Hw%exec_Ok & [= <-]).
    eapply (moved_worker _ _ i (context t) (EvLocator kl) w'); [apply lookup_contexts; eauto|done..|].
    split; [|done]. by rewrite (contexts_update _ _ t).
  - unfold HandleAccept in H. apply bind_Ok in H as (s1 & H1 & H).
    apply on_worker_step in H1 as (w & w' & Hw & Hh & Hc).
    pose proof Hw as (t & Ht & <-)%lookup_contexts. rewrite Ht in He.
    rewrite !andb_true_iff in He. destruct He as [[_ Hi%negb_true_iff] He].
    destruct (failed o) eqn:Ho; [injection H as <-|]; by econstructor.
  - apply bind_Ok in H as (q & _ & [= <-]). by constructor.
  - destruct (main_queue s) as [|[] q]; [done|..].
    + apply reload_Ok in H as (? & ? & ?). by constructor.
    + injection H as <-. apply moved_none; [exact (contexts_Stop (s_main_queue q s))|done..].
  - apply bind_Ok in H as (t & Ht%of_option_Ok & [= <-]). apply moved_none; [|done..]. by eapply contexts_thread.
  - destruct (main_thread s) as [|i|]; [done| |done]. apply join_Ok in H as (t & Ht & _ & ->).
    apply moved_none; [|done..]. by apply (contexts_thread s i t).
  - injection H as <-. by constructor.
Qed.

(** ** The threads of a running server *)
Record running (s : Server) : Prop := {
  rn_flags : stopped_ s = false /\ pool_stopped_ s = false /\ main_io_stopped s = false;
  rn_main : main_thread s = MainRunning;
  rn_workers : Forall (fun t => joinable t = true /\ finished t = false /\ io_stopped t = false) (workers_ s)
}.

(** One thread changes, but not in these respects. *)
Lemma running_update i t t' s :
  running s -> workers_ s !! i = Some t ->
  joinable t' = joinable t -> finished t' = finished t -> io_stopped t' = io_stopped t ->
  running (s_workers (<[i := t']> (workers_ s)) s).
Proof.
  intros [Hf Hm Hw] Ht Hj Hfi Hio. split; [done..|]. cbn. apply Forall_insert; [done|].
  rewrite Hj, Hfi, Hio. exact (Forall_lookup_1 _ _ _ _ Hw Ht).
Qed.

Lemma on_worker_running i f s s' : running s -> on_worker i f s = Ok s' -> running s'.
Proof. intros Hr (t & w & Ht & _ & ->)%on_worker_Ok. by apply (running_update i t). Qed.

Lemma StartAccept_running s s' : running s -> StartAccept s = Ok s' -> running s'.
Proof.
  unfold StartAccept, NextWorker. intros Hr H. destruct (concurrency_ s =? 0); [done|].
  apply bind_Ok in H as ([i s1] & [= <- <-] & H). apply on_worker_running in H; [done|]. by destruct Hr.
Qed.

Lemma reload_running mk fs file s s' : running s -> reload mk fs file s = Ok s' -> running s'.
Proof.
  intros [Hf Hm Hw]. unfold reload. intros ([c' []] & _ & H)%bind_Ok; simpl in H; [|by injection H as <-].
  destruct (KeyLocator_Initialize _ _ _) as [[kl []]|[]]; simplify_eq; try done.
  split; [done..|]. apply Forall_fmap. by eapply Forall_impl.
Qed.

(** ** Stopping *)

(** Events that only end threads, and signals *)
Definition shutdown_event (e : server_event) : bool :=
  match e with SvSignal _ | SvExit _ | SvJoin | SvLeave => true | _ => false end.
Definition is_signal (e : server_event) : bool := match e with SvSignal _ => true | _ => false end.

(** How many threads the main thread has joined *)
Definition joined (s : Server) : nat :=
  match main_thread s with MainRunning => 0 | MainJoining i => i | MainLeft => length (workers_ s) end.

Record stopping (s : Server) : Prop := {
  sg_flags : stopped_ s = true /\ pool_stopped_ s = true /\ main_io_stopped s = true;
  sg_main : main_thread s <> MainRunning;
  sg_joined : (joined s <= length (workers_ s))%nat;
  sg_workers k t : workers_ s !! k = Some t ->
    io_stopped t = true /\ joinable t = bool_decide (joined s <= k)%nat /\ (joinable t = false -> finished t = true)
}.

Lemma Stop_stopping s : running s -> stopping (Stop s).
Proof.
  intros [_ _ Hw]. split; [done..|cbn; lia|]. intros k t. cbn. rewrite list_lookup_fmap_Some.
  intros (t0 & -> & Ht). destruct (Forall_lookup_1 _ _ _ _ Hw Ht) as (Hj & _). cbn.
  rewrite Hj, bool_decide_eq_true_2 by lia. done.
Qed.

(** Steps that are left: a thread ends, a thread is joined, [Run] returns. *)
Definition unfinished (ts : list WorkerThread) : nat := sum_list ((fun t => Nat.b2n (negb (finished t))) <$> ts).
#[local] Arguments unfinished : simpl never.
Definition to_go (s : Server) : nat :=
  unfinished (workers_ s) + (length (workers_ s) - joined s) + Nat.b2n (negb (bool_decide (main_thread s = MainLeft))).

Lemma unfinished_insert ts i t t' : ts !! i = Some t ->
  (unfinished (<[i := t']> ts) + Nat.b2n (negb (finished t)) = unfinished ts + Nat.b2n (negb (finished t')))%nat.
Proof.
  revert i. induction ts as [|u ts IH]; intros [|i] Hi; simplify_eq/=; unfold unfinished in *; cbn; [lia|].
  specialize (IH i Hi). lia.
Qed.

Lemma unfinished_all ts : Forall (fun t => finished t = false) ts -> unfinished ts = length ts.
Proof. induction 1 as [|t ts Ht _ IH]; [done|]. unfold unfinished in *. cbn. rewrite Ht, IH. done. Qed.

Lemma stopping_no_handler s e : stopping s -> sv_enabled s e = true -> shutdown_event e = true.
Proof.
  intros [(Hs & Hp & Hio) Hm _ Hw]. destruct e as [i e|i e|i|i j o|sig|file|i| |]; try done; cbn.
  1-3: destruct (workers_ s !! i) as [t|] eqn:Ht; [|done]; destruct (Hw i t Ht) as (Hst & _);
    unfold between_handlers; rewrite Hst; cbn; by rewrite !andb_false_r.
  - destruct (workers_ s !! i); [|done]. unfold main_free. by rewrite Hio, andb_false_r.
  - unfold main_free. by rewrite Hio, andb_false_r.
Qed.

Lemma sv_step_stopping mk fs s e s' : stopping s -> sv_step mk fs s e s' ->
  stopping s' /\ (Nat.b2n (negb (is_signal e)) + to_go s' = to_go s)%nat /\
  spinning <$> workers_ s' = spinning <$> workers_ s.
Proof.
  intros Hg [He H]. pose proof (stopping_no_handler s e Hg He) as Hsh. pose proof Hg as [Hf Hm Hj Hw].
  destruct e as [| | | |sig| |i| |]; try done; cbn [sv_enabled sv_handle is_signal negb Nat.b2n] in *.
  - apply bind_Ok in H as (q & _ & [= <-]). done.
  - destruct (workers_ s !! i) as [t|] eqn:Ht; [|done]. injection H as <-.
    unfold may_finish in He. rewrite !andb_true_iff in He. destruct He as [[[[Hjo Hfi%negb_true_iff] _] _] _].
    destruct (Hw i t Ht) as (Hio & Hjb & _).
    assert (joined (s_workers (<[i:=t_finished true t]> (workers_ s)) s) = joined s) as Hjn
      by (unfold joined; cbn; by rewrite length_insert).
    split; [split; [done..|rewrite Hjn; cbn; by rewrite length_insert|]|split].
    + intros k u. rewrite Hjn. cbn. rewrite list_lookup_insert_Some. intros [(<- & <- & _)|[_ Hu]]; [done|by apply Hw].
    + unfold to_go. rewrite Hjn. cbn. rewrite length_insert.
      pose proof (unfinished_insert (workers_ s) i t (t_finished true t) Ht) as Hn. rewrite Hfi in Hn. cbn in Hn. lia.
    + cbn. rewrite list_fmap_insert. apply list_insert_id. cbn. by rewrite list_lookup_fmap, Ht.
  - destruct (main_thread s) as [|i|] eqn:Hms; [done| |done]. apply join_Ok in H as (t & Ht & Hjt & ->).
    rewrite Ht, Hjt, orb_false_r in He. destruct (Hw i t Ht) as (Hio & _).
    assert (joined s = i) as Hji by (unfold joined; by rewrite Hms). pose proof (lookup_lt_Some _ _ _ Ht).
    split; [split; [done..|cbn; rewrite length_insert; lia|]|split].
    + intros k u. cbn. rewrite list_lookup_insert_Some. intros [(<- & <- & _)|[Hik Hu]].
      * cbn. rewrite bool_decide_eq_false_2 by lia. done.
      * destruct (Hw k u Hu) as (? & Hju & ?). split; [done|]. split; [|done]. rewrite Hju, Hji.
        apply bool_decide_ext. lia.
    + unfold to_go, joined. rewrite Hms. cbn -[bool_decide]. rewrite !bool_decide_eq_false_2, length_insert by done.
      pose proof (unfinished_insert (workers_ s) i t (t_joinable false t) Ht) as Hn. cbn in Hn. lia.
    + cbn. rewrite list_fmap_insert. apply list_insert_id. cbn. by rewrite list_lookup_fmap, Ht.
  - injection H as <-. rewrite !andb_true_iff in He. destruct He as [[Hms%bool_decide_eq_true _] _].
    assert (joined s = length (workers_ s)) as Hji by (unfold joined; by rewrite Hms).
    split; [split; [done..|cbn; lia|]|split; [|done]].
    + intros k u Hu. destruct (Hw k u Hu) as (? & Hju & ?). by rewrite Hji in Hju.
    + unfold to_go, joined. rewrite Hms. cbn -[bool_decide].
      rewrite (bool_decide_eq_true_2 (MainLeft = _)), bool_decide_eq_false_2 by done. cbn. lia.
Qed.

Lemma sv_run_stopping mk fs es s s' : stopping s -> sv_run mk fs es s = Ok s' ->
  stopping s' /\ Forall (fun e => shutdown_event e = true) es /\
  (length (filter (fun e => is_signal e = false) es) + to_go s' = to_go s)%nat /\
  spinning <$> workers_ s' = spinning <$> workers_ s.
Proof.
  revert s. induction es as [|e es IH]; cbn [sv_run]; intros s Hs H; [by injection H as <-|].
  destruct (sv_enabled s e) eqn:He; [|done]. apply bind_Ok in H as (s1 & H1 & H).
  destruct (sv_step_stopping mk fs s e s1 Hs) as (Hs1 & Hn1 & Hsp1); [by split|].
  destruct (IH s1 Hs1 H) as (Hs' & Hes & Hn & Hsp). split; [done|]. split.
  - constructor; [exact (stopping_no_handler s e Hs He)|done].
  - split; [|congruence]. rewrite filter_cons. destruct (is_signal e); [rewrite decide_False by done|rewrite decide_True by done]; cbn in *; lia.
Qed.

(** Until the main thread has left, some thread can go on. *)
Lemma stopping_progress mk fs s : stopping s -> Forall (fun b => b = false) (spinning <$> workers_ s) ->
  main_thread s = MainLeft \/ exists e s', is_signal e = false /\ sv_step mk fs s e s'.
Proof.
  intros [(Hs & Hp & Hio) Hm Hj Hw] Hsp. destruct (main_thread s) as [|i|] eqn:Hms; [done| |by left]. right.
  assert (joined s = i) as Hji by (unfold joined; by rewrite Hms). rewrite Hji in *.
  destruct (workers_ s !! i) as [t|] eqn:Ht.
  - destruct (Hw i t Ht) as (Hit & Hjt & _). rewrite bool_decide_eq_true_2 in Hjt by lia.
    assert (spinning t = false) as Hst.
    { eapply (Forall_lookup_1 _ _ i) in Hsp; [exact Hsp|]. by rewrite list_lookup_fmap, Ht. }
    destruct (finished t) eqn:Hft.
    + exists SvJoin. eexists. split; [done|]. split; cbn; rewrite Hms.
      * by rewrite Ht, Hft.
      * unfold join. rewrite Ht. cbn. by rewrite Hjt.
    + exists (SvExit i). eexists. split; [done|]. split; cbn; rewrite Ht; [|done].
      unfold may_finish. by rewrite Hjt, Hft, Hst, Hit, Hp.
  - apply lookup_ge_None in Ht. exists SvLeave. eexists. split; [done|]. split; [|done].
    cbn. rewrite Hms, Hio, Hs, bool_decide_eq_true_2; [done|]. f_equal. lia.
Qed.

(** A thread that does not return from a handler is not joined. *)
Definition stuck (ts : list WorkerThread) : Prop :=
  exists k t, ts !! k = Some t /\ spinning t = true /\ finished t = false.

Lemma sv_step_stuck mk fs s e s' : stopping s -> sv_step mk fs s e s' -> stuck (workers_ s) -> stuck (workers_ s').
Proof.
  intros Hg [He H] (k & t & Ht & Hst & Hft). pose proof (stopping_no_handler s e Hg He) as Hsh.
  destruct e as [| | | |sig| |i| |]; try done; cbn [sv_enabled sv_handle] in *.
  - apply bind_Ok in H as (q & _ & [= <-]). by exists k, t.
  - destruct (workers_ s !! i) as [u|] eqn:Hu; [|done]. injection H as <-. exists k, t. cbn.
    rewrite list_lookup_insert_ne; [done|]. intros ->. assert (u = t) as -> by congruence.
    unfold may_finish in He. rewrite Hst in He. cbn in He. by rewrite !andb_false_r in He.
  - destruct (main_thread s) as [|i|]; [done| |done]. apply join_Ok in H as (u & Hu & _ & ->).
    destruct (decide (i = k)) as [->|Hne].
    + exists k, (t_joinable false t). cbn. assert (u = t) as -> by congruence.
      rewrite list_lookup_insert_eq by (by eapply lookup_lt_Some). done.
    + exists k, t. cbn. by rewrite list_lookup_insert_ne by done.
  - injection H as <-. by exists k, t.
Qed.

Lemma sv_run_stuck mk fs es s s' :
  stopping s -> sv_run mk fs es s = Ok s' -> stuck (workers_ s) -> stuck (workers_ s').
Proof.
  revert s. induction es as [|e es IH]; cbn [sv_run]; intros s Hs H Hk; [by injection H as <-|].
  destruct (sv_enabled s e) eqn:He; [|done]. apply bind_Ok in H as (s1 & H1 & H).
  assert (sv_step mk fs s e s1) as Hst by (by split).
  eapply IH; [by eapply sv_step_stopping|done|by eapply sv_step_stuck].
Qed.

Lemma stuck_not_left s : stopping s -> stuck (workers_ s) -> main_thread s <> MainLeft.
Proof.
  intros [_ _ _ Hw] (k & t & Ht & _ & Hf) Hm. destruct (Hw k t Ht) as (_ & Hj & Hjf).
  unfold joined in Hj. rewrite Hm, bool_decide_eq_false_2 in Hj.
  - rewrite Hjf in Hf by done. done.
  - apply lookup_lt_Some in Ht. lia.
Qed.

Definition life_ok (s : Server) : Prop := running s \/ stopping s.

Lemma sv_step_life mk fs s e s' : life_ok s -> sv_step mk fs s e s' -> life_ok s'.
Proof.
  intros [Hr|Hg] Hst; [|right; by eapply sv_step_stopping]. destruct Hst as [He H]. pose proof Hr as [Hf Hm Hw].
  destruct e as [i e|i e|i|i j o|sig|file|i| |]; cbn [sv_enabled sv_handle] in He, H.
  - left. by eapply on_worker_running.
  - apply bind_Ok in H as (t & Ht%of_option_Ok & [= <-]). left. by eapply running_update.
  - apply bind_Ok in H as (t & Ht%of_option_Ok & H). destruct (inbox t) as [|kl rest]; [done|].
    apply bind_Ok in H as (w' & _ & [= <-]). left. by eapply running_update.
  - unfold HandleAccept in H. apply bind_Ok in H as (s1 & H1%on_worker_running & H); [|done].
    left. destruct (failed o); [by injection H as <-|]. by eapply StartAccept_running.
  - apply bind_Ok in H as (q & _ & [= <-]). left. by split.
  - destruct (main_queue s) as [|[] q]; [done|..].
    + left. eapply reload_running; [|exact H]. by split.
    + injection H as <-. right. apply Stop_stopping. by split.
  - apply bind_Ok in H as (t & Ht%of_option_Ok & _). rewrite Ht in He. unfold may_finish in He.
    destruct (Forall_lookup_1 _ _ _ _ Hw Ht) as (_ & _ & Hio). rewrite Hio in He. by rewrite !andb_false_r in He.
  - by rewrite Hm in H.
  - by rewrite Hm in He.
Qed.

(** ** The turn *)

(** The worker the last accept was started for *)
Definition turn (s : Server) : nat := Z.to_nat (u64 (next_worker_ s - 1) mod concurrency_ s).

(** Only the worker whose turn it is may have an accept outstanding, and has [n]. *)
Record accepting (n : nat) (s : Server) : Prop := {
  accepting_next : 0 <= next_worker_ s < 2 ^ 64;
  accepting_ops i w : contexts s !! i = Some w ->
    length (accept_ops w) = if decide (i = turn s) then n else O
}.

Lemma turn_same s s' : concurrency_ s' = concurrency_ s -> next_worker_ s' = next_worker_ s -> turn s' = turn s.
Proof. unfold turn. by intros -> ->. Qed.

(** One worker changes: the others are as [accepting] says. *)
Lemma accepting_one n m i w w' s s' :
  accepting n s -> contexts s !! i = Some w -> one_context i w' s s' ->
  length (accept_ops w') = (if decide (i = turn s) then m else O) ->
  (i <> turn s -> m = n) -> accepting m s'.
Proof.
  intros [Hn Ha] Hw (Hc & Hcc & Hnn) Hi Hm. split; [by rewrite Hnn|].
  rewrite (turn_same s s') by done. intros k v. rewrite Hc, list_lookup_insert_Some.
  intros [(<- & <- & _)|[Hik Hv]]; [done|]. rewrite (Ha k v Hv).
  destruct (decide (k = turn s)) as [->|]; [|done]. symmetry. by apply Hm.
Qed.

(** The end of an accept: it was the outstanding one. *)
Lemma accept_ends n i j o w w' s s' :
  wf w -> accepting n s -> (n <= 1)%nat -> contexts s !! i = Some w ->
  internal w (EvComplete j o) = false -> handle (EvComplete j o) w = Ok (tt, w') ->
  one_context i w' s s' -> accepting 0 s' /\ n = 1%nat.
Proof.
  intros Hwf Ha Hn Hw Hi Hh%handle_accept Hc; [|done..]. pose proof (accepting_ops n s Ha i w Hw) as Hl.
  destruct (decide (i = turn s)) as [Ht|Hne]; [|lia]. split; [|lia].
  eapply accepting_one; [done..| |done]. rewrite decide_True by done. lia.
Qed.

Lemma StartAccept_accepting s s' : accepting 0 s -> StartAccept s = Ok s' -> accepting 1 s'.
Proof.
  intros [Hn Ha] (w & w' & Hw & (c & Hh)%handle_StartAccept & Hc & Hcc & Hnn)%StartAccept_step.
  assert (turn s' = Z.to_nat (next_worker_ s mod concurrency_ s)) as Ht.
  { unfold turn. rewrite Hcc, Hnn. unfold u64. rewrite Zminus_mod_idemp_l.
    replace (next_worker_ s + 1 - 1) with (next_worker_ s) by lia. by rewrite (Z.mod_small _ _ Hn). }
  split; [rewrite Hnn; apply u64_range|]. rewrite Ht. intros i v. rewrite Hc, list_lookup_insert_Some.
  intros [(<- & <- & _)|[Hik Hv]].
  - rewrite Hh, length_app, (Ha _ w Hw), (decide_True (P := Z.to_nat _ = Z.to_nat _)) by done.
    by destruct (decide _).
  - rewrite (Ha i v Hv). rewrite (decide_False (P := i = Z.to_nat _)) by done. by destruct (decide _).
Qed.

Lemma moved_accepting n s s' e :
  Forall wf (contexts s) -> accepting n s -> (n <= 1)%nat -> moved s s' e ->
  match e with
  | SvAccept _ _ o => accepting n s' \/ n = 1%nat /\ accepting (if failed o then 0 else 1) s'
  | _ => accepting n s'
  end.
Proof.
  intros Hwf Ha Hn Hm. rewrite Forall_lookup in Hwf. destruct Hm as [e Hc Hcc Hnn|i w e w' ev Hw Hi [_ Hh] Hc
    |i j o w w' Hw Hi [_ Hh] Ho Hc|i j o w w' s1 Hw Hi [_ Hh] Ho Hc Hs].
  - assert (accepting n s') as Ha'; [|destruct e; auto].
    destruct Ha as [Hb Ha]. split; [by rewrite Hnn|]. intros i w. rewrite Hc, (turn_same s s') by done. apply Ha.
  - assert (accepting n s') as Ha'; [|destruct ev; auto].
    eapply (accepting_one n n); [done..| |done].
    destruct (internal_handle same_accepts [] w e w' Hi Hh) as [HT _]; [by eapply Hwf|constructor|].
    rewrite HT. by apply accepting_ops.
  - right. rewrite Ho. apply and_comm. eapply accept_ends; by eauto.
  - right. rewrite Ho. destruct (accept_ends n i j o w w' s s1) as [Ha1 ->]; [by eapply Hwf|done..|].
    split; [done|]. by eapply StartAccept_accepting.
Qed.

(** ** Start *)
Lemma new_contexts_Ok config heap uninit now i n ts :
  new_contexts config heap uninit now i n = Ok ts ->
  length ts = n /\ Forall (fun t => reachable config (context t) /\ accept_ops (context t) = []) ts.
Proof.
  revert i ts. induction n as [|n IH]; simpl; intros i ts H; [by injection H as <-|].
  apply bind_Ok in H as (w & Hw & H). apply bind_Ok in H as (ts' & Hts & [= <-]).
  destruct (IH (S i) ts' Hts) as [Hl Hf]. split; [by f_equal/=|]. constructor; [|done].
  split; [by eapply reachable_init|]. unfold WorkerContext_ctor in Hw. inv_bind Hw. by ok_inv.
Qed.

Lemma ctor_Ok addr threads hw config heap uninit now s :
  ctor addr threads hw config heap uninit now = Ok s ->
  s = mkServer addr false (concurrency_ s) (workers_ s) false 0 [] SignalWatcher_ctor config false MainRunning /\
  accepting 0 s /\ Forall (reachable config) (contexts s).
Proof.
  unfold ctor. intros H. cbv zeta in H. destruct (2 ^ 32 <=? _); [done|]. apply bind_Ok in H as (ts & [_ Hf]%new_contexts_Ok & [= <-]).
  split; [done|]. rewrite Forall_forall in Hf. split.
  - split; [done|]. intros i w (t & Ht & <-)%lookup_contexts.
    destruct (Hf t) as [_ ->]; [by eapply list_elem_of_lookup_2|]. by destruct (decide _).
  - apply Forall_fmap, Forall_forall. intros t Ht. by apply Hf.
Qed.

Lemma ctor_threads addr threads hw config heap uninit now s :
  ctor addr threads hw config heap uninit now = Ok s ->
  Forall (fun t => finished t = false /\ io_stopped t = false) (workers_ s).
Proof.
  unfold ctor. intros H. cbv zeta in H. destruct (2 ^ 32 <=? _); [done|]. apply bind_Ok in H as (ts & H & [= <-]).
  cbn. revert H. generalize 0%nat. generalize (Z.to_nat (if 0 <? u64 threads then u64 threads else DefaultConcurrency hw)).
  intros n. revert ts. induction n as [|n IH]; cbn; intros ts i H; [by injection H as <-|].
  apply bind_Ok in H as (w & _ & H). apply bind_Ok in H as (ts' & Hts & [= <-]). constructor; [done|]. by eapply IH.
Qed.

Lemma StartAccept_reachable config s s' :
  Forall (reachable config) (contexts s) -> StartAccept s = Ok s' ->
  Forall (reachable config) (contexts s').
Proof.
  intros Hf (w & w' & Hw & Hh & -> & _)%StartAccept_step. apply Forall_insert; [done|].
  apply (reachable_step config w EvStartAccept); [by eapply Forall_lookup_1|by split].
Qed.

Section runs.
Context (make_address_v4 : bytes -> bool) (from_string : bytes -> option Z).
Context {address : Type} (address_from_string : bytes -> option address).

(** What [Run] has done when its loop starts *)
Lemma Run_started st s s' :
  Run from_string address_from_string st s = Ok (s', Looping) ->
  st = Listening /\ exists kl, KeyLocator_Initialize from_string (sv_config s) [] = Ok (kl, true) /\
    StartAccept (StartDispatching (register_signals (OnLocatorUpdated kl s))) = Ok s'.
Proof.
  unfold Run. intros ([kl []] & Hkl & H)%bind_Ok; [|discriminate H].
  apply bind_Ok in H as (ep & Hep & H). destruct st; [done..|].
  apply bind_Ok in H as (s1 & Hs & H). injection H as ->. eauto.
Qed.

Lemma contexts_started kl s :
  contexts (StartDispatching (register_signals (OnLocatorUpdated kl s))) = contexts s.
Proof.
  unfold StartDispatching. rewrite contexts_same_update by done. unfold OnLocatorUpdated. cbn.
  rewrite <- list_fmap_compose. apply list_fmap_ext. by intros.
Qed.

Lemma sv_reachable_inv config s :
  sv_reachable make_address_v4 from_string address_from_string config s ->
  (exists n, (n <= 1)%nat /\ accepting n s) /\ Forall (reachable config) (contexts s).
Proof.
  induction 1 as [addr threads hw heap uninit now s s' (Hs & Ha & Hf)%ctor_Ok
    [_ (kl & _ & H)]%Run_started|s e s' _ [(n & Hn & Ha) Hf] Hm%sv_step_moved].
  - rewrite <- (contexts_started kl) in Hf. split; [|by eapply StartAccept_reachable].
    exists 1%nat. split; [done|]. eapply StartAccept_accepting; [|done].
    destruct Ha as [Hb Ha]. split; [done|]. rewrite contexts_started. exact Ha.
  - split.
    + apply (moved_accepting n) in Hm; [|by eapply Forall_impl; [exact Hf|apply reachable_wf]|done..]. destruct e as [| | |i j o| | | | |]; eauto.
      destruct Hm as [Hm|[-> Hm]]; [eauto|]. destruct (failed o); eauto.
    + destruct Hm as [e -> _ _|i w e w' ev Hw Hi Hst [-> _]|i j o w w' Hw Hi Hst Ho [-> _]
        |i j o w w' s1 Hw Hi Hst Ho [Hc _] Hs]; [done| | |eapply StartAccept_reachable; [rewrite Hc|done]];
        (apply Forall_insert; [done|]; eapply reachable_step; [by eapply Forall_lookup_1|done]).
Qed.

Lemma sv_reachable_life config s :
  sv_reachable make_address_v4 from_string address_from_string config s -> life_ok s.
Proof.
  induction 1 as [addr threads hw heap uninit now s s' Hc [_ (kl & _ & H)]%Run_started|s e s' _ IH Hm];
    [|by eapply sv_step_life].
  pose proof Hc as (Hs & _ & _)%ctor_Ok. pose proof (ctor_threads _ _ _ _ _ _ _ _ Hc) as Hf.
  left. eapply StartAccept_running; [|exact H]. rewrite Hs. split; [done..|]. cbn.
  rewrite !Forall_fmap. eapply Forall_impl; [exact Hf|]. by intros t [? ?].
Qed.

(** C29: a running server never has two accepts outstanding: only the worker whose
    turn it is has one, and it has at most one. *)
Theorem server_accepts_one_at_a_time config s :
  sv_reachable make_address_v4 from_string address_from_string config s ->
  exists n, (n <= 1)%nat /\ forall i t, workers_ s !! i = Some t ->
    length (accept_ops (context t)) = if decide (i = turn s) then n else O.
Proof.
  intros [(n & Hn & Ha) _]%sv_reachable_inv. exists n. split; [done|]. intros i t Ht.
  apply (accepting_ops n s Ha). apply lookup_contexts. eauto.
Qed.

Lemma contexts_wf config s :
  sv_reachable make_address_v4 from_string address_from_string config s -> Forall wf (contexts s).
Proof. intros [_ Hf]%sv_reachable_inv. by eapply Forall_impl; [exact Hf|apply reachable_wf]. Qed.

Lemma sv_run_accepting config es s s' :
  sv_reachable make_address_v4 from_string address_from_string config s ->
  accepting 0 s -> sv_run make_address_v4 from_string es s = Ok s' -> accepting 0 s'.
Proof.
  revert s. induction es as [|e es IH]; simpl; intros s Hs Ha H; [by injection H as <-|].
  destruct (sv_enabled s e) eqn:He; [|done]. apply bind_Ok in H as (s1 & H1 & H).
  eapply IH, H; [by eapply sv_next|].
  apply (moved_accepting 0 s s1 e) in Ha; [|by eapply contexts_wf|lia|by eapply sv_step_moved].
  destruct e; naive_solver.
Qed.

(** C35: once an accept has failed, whatever the error was (the process being out
    of file descriptors for a moment is enough), no accept is ever started again:
    the server goes on running and takes no further connection. *)
Theorem failed_accept_ends_service config s i j o es s1 s2 k t :
  sv_reachable make_address_v4 from_string address_from_string config s ->
  sv_step make_address_v4 from_string s (SvAccept i j o) s1 -> failed o = true ->
  sv_run make_address_v4 from_string es s1 = Ok s2 ->
  workers_ s2 !! k = Some t -> accept_ops (context t) = [].
Proof.
  intros Hs Hst Ho Hr Ht. pose proof Hs as [(n & Hn & Ha) _]%sv_reachable_inv.
  assert (accepting 0 s2) as [_ Ha2].
  { eapply sv_run_accepting; [by eapply sv_next| |exact Hr]. destruct Hst as [He H]. cbn in He, H.
    unfold HandleAccept in H. rewrite Ho in H. apply bind_Ok in H as (s1' & H1 & [= ->]).
    apply on_worker_step in H1 as (w & w' & Hw & Hh & Hc).
    pose proof Hw as (t' & Ht' & <-)%lookup_contexts. rewrite Ht' in He.
    rewrite !andb_true_iff in He. destruct He as [[_ Hi%negb_true_iff] He].
    destruct (accept_ends n i j o (context t') w' s s1) as [? _]; [|done..].
    by eapply Forall_lookup_1; [by eapply contexts_wf|]. }
  apply length_zero_iff_nil. rewrite (Ha2 k (context t)); [by destruct (decide _)|].
  apply lookup_contexts. eauto.
Qed.

(** C31: stopping ends the server.  Take a running server whose next posted handler is that
    of [SIGINT] or [SIGTERM], and let the main thread run it.  Whatever happens then, no
    handler of any thread runs any more: only signals arrive, worker threads leave their
    loops, the main thread's [join]s return one after the other, and [Run] returns; of these
    there are at most [2 n + 1] steps for [n] workers.  If no worker is in a handler that
    does not return, then until [Run] has returned one of these steps can be taken, so the
    [join]s do not wait for ever; when it has returned every thread is joined and the
    destructor has nothing left to do.  If some worker is in such a handler (for instance
    in the loop of [negative_value_size_spins]), [Run] never returns. *)
Theorem stop_is_final config s q file :
  sv_reachable make_address_v4 from_string address_from_string config s ->
  main_free s = true -> main_queue s = PostStop :: q ->
  exists s1, sv_step make_address_v4 from_string s (SvPosted file) s1 /\
    forall es s2, sv_run make_address_v4 from_string es s1 = Ok s2 ->
      Forall (fun e => shutdown_event e = true) es /\
      (length (filter (fun e => is_signal e = false) es) <= 2 * length (workers_ s) + 1)%nat /\
      (Forall (fun t => spinning t = false) (workers_ s) ->
         main_thread s2 = MainLeft \/
         exists e s3, is_signal e = false /\ sv_step make_address_v4 from_string s2 e s3) /\
      (main_thread s2 = MainLeft ->
         Forall (fun t => finished t = true /\ joinable t = false) (workers_ s2) /\ dtor s2 = Ok s2) /\
      (Exists (fun t => spinning t = true) (workers_ s) -> main_thread s2 <> MainLeft).
Proof.
  intros Hl%sv_reachable_life Hfree Hq.
  assert (running s) as Hr.
  { destruct Hl as [|[(_ & _ & Hio) _ _ _]]; [done|]. unfold main_free in Hfree. by rewrite Hio, andb_false_r in Hfree. }
  set (s1 := Stop (s_main_queue q s)).
  assert (stopping s1) as Hg by (apply Stop_stopping; by destruct Hr).
  assert (length (workers_ s1) = length (workers_ s)) as Hlen by (cbn; by rewrite length_fmap).
  assert (spinning <$> workers_ s1 = spinning <$> workers_ s) as Hspin
    by (cbn; rewrite <- list_fmap_compose; by apply list_fmap_ext).
  assert (to_go s1 = 2 * length (workers_ s) + 1)%nat as Hgo.
  { unfold to_go. rewrite unfinished_all, Hlen; [change (joined s1) with O; rewrite bool_decide_eq_false_2 by done; cbn; lia|].
    cbn. apply Forall_fmap.
    eapply Forall_impl; [apply Hr|]. by intros t (_ & ? & _). }
  exists s1. split; [split; [cbn; by rewrite Hfree, Hq|cbn [sv_handle]; by rewrite Hq]|]. intros es s2 Hrun.
  destruct (sv_run_stopping _ _ es s1 s2 Hg Hrun) as (Hg2 & Hes & Hn & Hsp). split; [done|].
  split; [lia|]. split; [|split].
  - intros Hno. apply stopping_progress; [done|]. rewrite Hsp, Hspin. by apply Forall_fmap.
  - intros Hm. pose proof Hg2 as [(Hst & _) _ _ Hw]. split; [|unfold dtor; by rewrite Hst].
    apply Forall_lookup. intros k t Ht. destruct (Hw k t Ht) as (_ & Hj & Hf).
    assert (joinable t = false) as Hjf; [|by rewrite Hf].
    rewrite Hj. apply bool_decide_eq_false_2. unfold joined. rewrite Hm. apply lookup_lt_Some in Ht. lia.
  - intros (t & Ht & Hst)%Exists_exists. apply stuck_not_left; [done|]. eapply sv_run_stuck; [exact Hg|exact Hrun|].
    apply list_elem_of_lookup_1 in Ht as [k Ht].
    destruct (Forall_lookup_1 _ _ _ _ (rn_workers _ Hr) Ht) as (_ & Hf & _).
    exists k, (t_io_stopped true t). cbn. rewrite list_lookup_fmap, Ht. done.
Qed.
End runs.

(** ** Starting and stopping without a loop *)

(** A server whose [Run] returned early (no cluster is configured, or
    [listen] failed) has threads that were never started; its destructor joins
    them all the same, which throws out of a destructor and aborts the process
    instead of ending it with status 0. *)
Theorem early_return_aborts {address} from_string (address_from_string : bytes -> option address)
    addr threads hw config heap uninit now st s s' :
  0 <= hw -> ctor addr threads hw config heap uninit now = Ok s ->
  Run from_string address_from_string st s = Ok (s', Returned) -> dtor s' = Fault StdException.
Proof.
  intros Hhw Hc Hr.
  assert (stopped_ s = false /\ exists t ts, workers_ s = t :: ts /\ joinable t = false) as (Hs & t & ts & Ht & Hj).
  { unfold ctor in Hc. cbv zeta in Hc. destruct (2 ^ 32 <=? _); [done|].
    destruct (Z.to_nat _) as [|n] eqn:Hn in Hc.
    - pose proof (u64_range threads). unfold DefaultConcurrency in Hn. repeat case_match; lia.
    - apply bind_Ok in Hc as (ts & Hts & [= <-]). simpl in Hts.
      apply bind_Ok in Hts as (w & _ & (ts' & _ & [= <-])%bind_Ok). eauto 10. }
  assert (forall kl, dtor (OnLocatorUpdated kl s) = Fault StdException /\ dtor s = Fault StdException)
    as Hd.
  { intros kl. unfold dtor, Stop, StopDispatching, OnLocatorUpdated. cbn. rewrite Hs, Ht. cbn.
    by rewrite Hj. }
  unfold Run in Hr. apply bind_Ok in Hr as ([kl []] & _ & Hr); simpl in Hr.
  - apply bind_Ok in Hr as (ep & _ & Hr). destruct st; [done|injection Hr as <-; apply Hd|].
    by apply bind_Ok in Hr as (s1 & _ & [=]).
  - injection Hr as <-. by apply (Hd []).
Qed.

(** ** Round robin *)

(** The workers the next [k] connections go to *)
Fixpoint picks (k : nat) (s : Server) : result (list nat) :=
  match k with
  | O => Ok []
  | S k' => '(i, s) ← NextWorker s; l ← picks k' s; Ok (i :: l)
  end.

Lemma picks_spec k : forall s, 0 < concurrency_ s -> 0 <= next_worker_ s ->
  next_worker_ s + Z.of_nat k < 2 ^ 64 ->
  picks k s = Ok ((fun j => Z.to_nat ((next_worker_ s + Z.of_nat j) mod concurrency_ s)) <$> seq 0 k).
Proof.
  induction k as [|k IH]; intros s Hc Hn Hk; [done|]. cbn [picks]. unfold NextWorker.
  rewrite (proj2 (Z.eqb_neq _ _)) by lia. rewrite bind_Ok_l, u64_small by lia.
  rewrite IH; [|cbn; lia..]. rewrite bind_Ok_l. cbn [seq fmap list_fmap]. do 2 f_equal; [f_equal; f_equal; lia|].
  rewrite <- fmap_S_seq, <- list_fmap_compose. apply list_fmap_ext. intros i j _. cbn. f_equal. f_equal. lia.
Qed.

(** Connections are handed out in turn: of as many consecutive connections as
    there are workers, each worker gets exactly one. *)
Theorem round_robin_is_fair s :
  0 < concurrency_ s -> 0 <= next_worker_ s -> next_worker_ s + concurrency_ s < 2 ^ 64 ->
  exists l, picks (Z.to_nat (concurrency_ s)) s = Ok l /\ l ≡ₚ seq 0 (Z.to_nat (concurrency_ s)).
Proof.
  intros Hc Hn Hk. rewrite picks_spec by lia. eexists. split; [done|].
  set (f := fun j => _). set (n := Z.to_nat (concurrency_ s)).
  assert (NoDup (f <$> seq 0 n)) as Hnd.
  { apply NoDup_fmap_2_strong; [|apply NoDup_seq]. intros i j [_ Hi]%elem_of_seq [_ Hj]%elem_of_seq.
    unfold f. intros Hij%Z2Nat.inj; [|apply Z.mod_pos_bound; lia..].
    assert ((Z.of_nat i - Z.of_nat j) mod concurrency_ s = 0) as Hm.
    { replace (Z.of_nat i - Z.of_nat j) with
        (next_worker_ s + Z.of_nat i - (next_worker_ s + Z.of_nat j)) by lia.
      by rewrite Zminus_mod, Hij, Z.sub_diag, Zmod_0_l. }
    apply Z.mod_divide in Hm as [q Hq]; [|lia].
    assert (Z.of_nat i < concurrency_ s /\ Z.of_nat j < concurrency_ s) as [Hi' Hj'] by (unfold n in *; lia).
    assert (q = 0) as -> by nia. lia. }
  apply submseteq_length_Permutation; [|by rewrite length_fmap].
  apply NoDup_submseteq; [done|]. intros x (j & -> & [_ Hj]%elem_of_seq)%list_elem_of_fmap.
  apply elem_of_seq. unfold f. pose proof (Z.mod_pos_bound (next_worker_ s + Z.of_nat j) (concurrency_ s)). lia.
Qed.

(** ** Reloading *)
Lemma deliver_all mk fs i : forall box s t,
  workers_ s !! i = Some t -> inbox t = box -> between_handlers t = true ->
  exists s' t', sv_run mk fs (replicate (length box) (SvDeliver i)) s = Ok s' /\
    workers_ s' !! i = Some t' /\ inbox t' = [] /\
    key_locator_ (context t') = match last box with Some kl => Some kl | None => key_locator_ (context t) end.
Proof.
  induction box as [|kl box IH]; intros s t Ht Hb Hj; [exists s, t; done|].
  assert (sv_enabled s (SvDeliver i) = true /\
    sv_handle mk fs (SvDeliver i) s =
      Ok (s_workers (<[i := t_inbox box (t_context (w_key_locator (Some kl) (context t)) t)]> (workers_ s)) s))
    as [He Hh].
  { cbn [sv_enabled sv_handle]. rewrite Ht. cbn. rewrite Hj, Hb. split; reflexivity. }
  cbn [length replicate sv_run]. rewrite He, Hh, bind_Ok_l.
  set (t1 := t_inbox _ _). set (s1 := s_workers _ s).
  destruct (IH s1 t1) as (s' & t' & Hr & Ht' & Hb' & Hk); [|done..|].
  { cbn. rewrite list_lookup_insert_eq; [done|]. by eapply lookup_lt_Some. }
  exists s', t'. split_and!; [done..|]. rewrite Hk, last_cons. by destruct (last box).
Qed.

(** C30: a reload reaches every worker.  Take a running server whose next posted handler is
    that of [SIGHUP], whose configuration parser is at the top level (no earlier reload
    failed inside a block, see [config_reload_stuck_after_error]), and a file that describes
    a list of valid clusters (as in [config_reload_roundtrip]) for which a key locator can
    be made (there is at least one, its backends' addresses parse).  The handler succeeds,
    and every worker, unless it is in a handler that does not return, routes by exactly these
    clusters when it has run the handlers posted to it, whatever updates it had not taken up
    before. *)
Theorem reload_reaches_every_worker {address} make_address_v4 from_string
    (address_from_string : bytes -> option address) config s q cls kl :
  sv_reachable make_address_v4 from_string address_from_string config s ->
  main_free s = true -> main_queue s = PostReload :: q -> context_ (sv_config s) = [] ->
  Forall (valid_cluster make_address_v4 (max_namespace_length_ (global (sv_config s)))) cls ->
  KeyLocator_Initialize from_string
    (mkConfig (global (sv_config s)) (worker (sv_config s)) cls [] (error_msg_ (sv_config s))) []
    = Ok (kl, true) ->
  exists s', sv_step make_address_v4 from_string s (SvPosted (Some (render_file cls))) s' /\
    forall i t, workers_ s' !! i = Some t -> spinning t = false ->
      exists s'' t', sv_run make_address_v4 from_string
          (replicate (length (inbox t)) (SvDeliver i)) s' = Ok s'' /\
        workers_ s'' !! i = Some t' /\ inbox t' = [] /\ key_locator_ (context t') = Some kl.
Proof.
  intros Hl%sv_reachable_life Hfree Hq Hctx Hv Hkl.
  assert (running s) as [_ _ Hw].
  { destruct Hl as [|[(_ & _ & Hio) _ _ _]]; [done|]. unfold main_free in Hfree. by rewrite Hio, andb_false_r in Hfree. }
  eexists. split.
  { split; [cbn; by rewrite Hfree, Hq|]. cbn [sv_handle]. rewrite Hq. unfold reload, ReloadCulsters, TraverseConfFile, with_clusters.
    cbn [sv_config s_main_queue]. rewrite Hctx, (render_file_loads make_address_v4 _ (reload_passes make_address_v4)) by done.
    rewrite bind_Ok_l. cbn [negb app]. rewrite Hkl. reflexivity. }
  intros i t Ht Hsp. pose proof Ht as Ht'. cbn in Ht'. apply list_lookup_fmap_Some in Ht' as (t0 & -> & Ht0).
  destruct (Forall_lookup_1 _ _ _ _ Hw Ht0) as (Hj & Hf & Hio).
  destruct (deliver_all make_address_v4 from_string i (inbox t0 ++ [kl]) _ (t_inbox (inbox t0 ++ [kl]) t0) Ht)
    as (s' & t' & Hr & Ht' & Hb & Hk); [done|unfold between_handlers; cbn in *; by rewrite Hj, Hf, Hsp, Hio|].
  exists s', t'. rewrite last_snoc in Hk. done.
Qed.

(** ** A server with two workers *)
Definition any_address (host : bytes) : option unit := Some tt.

Definition new_server (config : Config) (threads : Z) : result Server :=
  ctor (str "127.0.0.1:11311") threads 4 config (fun i => 1000 + 1000000 * Z.of_nat i)
    (fun _ _ _ => NUL) 0.

Definition blank_server : Server :=
  mkServer [] true 0 [] true 0 [] SignalWatcher_ctor default_config true MainLeft.

Definition started : Server :=
  match new_server small_config 2 ≫= Run loopback any_address Listening with
  | Ok (s, _) => s
  | Fault _ => blank_server
  end.

Definition served (es : list server_event) : Server :=
  match sv_run (fun _ => true) loopback es started with Ok s => s | Fault _ => started end.

Definition demo_reachable : Server -> Prop :=
  sv_reachable (fun _ => true) loopback any_address small_config.

Lemma started_reachable : demo_reachable started.
Proof.
  assert (exists s, new_server small_config 2 = Ok s /\ exists s', Run loopback any_address Listening s = Ok (s', Looping))
    as (s & Hs & s' & Hr).
  { eexists. split; [vm_compute; reflexivity|]. eexists. vm_compute. reflexivity. }
  assert (started = s') as ->; [|by eapply sv_init].
  unfold started. rewrite Hs. cbn. by rewrite Hr.
Qed.

Lemma served_reachable es : demo_reachable (served es).
Proof.
  unfold served. destruct (sv_run _ _ es started) as [s|f] eqn:Hr; [|apply started_reachable].
  revert Hr. generalize started, started_reachable.
  induction es as [|e es IH]; simpl; intros s0 Hs0 H; [by injection H as <-|].
  destruct (sv_enabled s0 e) eqn:He; [|done]. apply bind_Ok in H as (s1 & H1 & H).
  eapply IH, H. eapply sv_next; [exact Hs0|]. by split.
Qed.

(** A client is accepted by the first worker and sends a request; the accept for
    the second one is outstanding. *)
Definition one_request : list server_event :=
  [SvDeliver 0; SvAccept 0 0 Connected; SvDeliver 1;
   SvWorker 0 (EvComplete 0 (Received (enc_array [str "get"; str "k1"])))].

Lemma server_accepts_one_at_a_time_witness :
  (fun t => length (accept_ops (context t))) <$> workers_ (served one_request) = [0; 1]%nat /\
  turn (served one_request) = 1%nat /\
  exists n, (n <= 1)%nat /\ forall i t, workers_ (served one_request) !! i = Some t ->
    length (accept_ops (context t)) = if decide (i = turn (served one_request)) then n else O.
Proof.
  split; [vm_compute; reflexivity|]. split; [vm_compute; reflexivity|].
  exact (server_accepts_one_at_a_time (fun _ => true) loopback any_address small_config _
           (served_reachable one_request)).
Defined.

Lemma failed_accept_ends_service_witness :
  exists s1 s2 t, sv_step (fun _ => true) loopback (served one_request) (SvAccept 1 0 Failed) s1 /\
    sv_run (fun _ => true) loopback [SvSignal SIGHUP; SvPosted None] s1 = Ok s2 /\
    workers_ s2 !! 1%nat = Some t /\ accept_ops (context t) = [].
Proof.
  assert (sv_step (fun _ => true) loopback (served one_request) (SvAccept 1 0 Failed)
    (served (one_request ++ [SvAccept 1 0 Failed]))) as Hs by (split; vm_compute; reflexivity).
  assert (exists s2, sv_run (fun _ => true) loopback [SvSignal SIGHUP; SvPosted None]
      (served (one_request ++ [SvAccept 1 0 Failed])) = Ok s2 /\ is_Some (workers_ s2 !! 1%nat))
    as (s2 & Hr & t & Ht) by (eexists; split; [vm_compute; reflexivity|eexists; vm_compute; reflexivity]).
  exists (served (one_request ++ [SvAccept 1 0 Failed])), s2, t. split; [exact Hs|].
  split; [exact Hr|]. split; [exact Ht|].
  exact (failed_accept_ends_service (fun _ => true) loopback any_address small_config
           (served one_request) 1 0 Failed _ _ s2 1 t (served_reachable one_request) Hs eq_refl Hr Ht).
Defined.

(** [SIGINT] arrives: the threads leave their loops, are joined, and [Run] returns. *)
Definition to_stop : Server := served (one_request ++ [SvSignal SIGINT]).
Definition shutdown : list server_event := [SvExit 1; SvExit 0; SvJoin; SvSignal SIGTERM; SvJoin; SvLeave].

(** The same where a reply with a negative value size keeps the first worker in its
    parser *)
Definition spin_request : list server_event :=
  [SvDeliver 0; SvAccept 0 0 Connected; SvDeliver 1;
   SvWorker 0 (EvComplete 0 (Received (str "get a" ++ crlf))); SvWorker 0 (EvComplete 0 Connected);
   SvWorker 0 (EvComplete 0 (Sent 3)); SvWorker 0 (EvComplete 0 (Sent 2)); SvWorker 0 (EvComplete 0 (Sent 2));
   SvSpin 0 (EvComplete 0 (Received (str "VALUE a 0 -17" ++ crlf)))].
Definition spun : Server := served (spin_request ++ [SvSignal SIGINT]).

Lemma stop_is_final_witness :
  (exists s1, sv_step (fun _ => true) loopback to_stop (SvPosted None) s1 /\
    exists s2, sv_run (fun _ => true) loopback shutdown s1 = Ok s2 /\ main_thread s2 = MainLeft /\
      Forall (fun t => finished t = true /\ joinable t = false) (workers_ s2) /\ dtor s2 = Ok s2) /\
  (exists s1, sv_step (fun _ => true) loopback spun (SvPosted None) s1 /\
    forall es s2, sv_run (fun _ => true) loopback es s1 = Ok s2 -> main_thread s2 <> MainLeft).
Proof.
  split.
  - destruct (stop_is_final (fun _ => true) loopback any_address small_config to_stop [] None
      (served_reachable _) eq_refl eq_refl) as (s1 & Hst & Hall).
    exists s1. split; [exact Hst|].
    assert (s1 = Stop (s_main_queue [] to_stop)) as ->.
    { destruct Hst as [_ H]. vm_compute in H. injection H as <-. vm_compute. reflexivity. }
    assert (exists s2, sv_run (fun _ => true) loopback shutdown (Stop (s_main_queue [] to_stop)) = Ok s2 /\ main_thread s2 = MainLeft)
      as (s2 & Hr & Hm) by (eexists; split; vm_compute; reflexivity).
    exists s2. split; [exact Hr|]. split; [exact Hm|]. by destruct (Hall shutdown s2 Hr) as (_ & _ & _ & Hl & _); apply Hl.
  - destruct (stop_is_final (fun _ => true) loopback any_address small_config spun [] None
      (served_reachable _) eq_refl eq_refl) as (s1 & Hst & Hall).
    exists s1. split; [exact Hst|]. intros es s2 Hr. destruct (Hall es s2 Hr) as (_ & _ & _ & _ & Hsp). apply Hsp.
    assert (exists t, workers_ spun !! 0%nat = Some t /\ spinning t = true) as (t & Ht & Hs)
      by (eexists; split; vm_compute; reflexivity).
    apply Exists_exists. exists t. split; [exact (list_elem_of_lookup_2 _ _ _ Ht)|exact Hs].
Defined.

(** No cluster is configured. *)
Definition no_clusters : Config := mkConfig (global small_config) (worker small_config) [] [] [].
Definition unconfigured : Server :=
  match new_server no_clusters 1 with Ok s => s | Fault _ => blank_server end.

Lemma early_return_aborts_witness :
  new_server no_clusters 1 = Ok unconfigured /\
  Run loopback any_address Listening unconfigured = Ok (unconfigured, Returned) /\
  dtor unconfigured = Fault StdException.
Proof.
  assert (new_server no_clusters 1 = Ok unconfigured) as Hs by (vm_compute; reflexivity).
  assert (Run loopback any_address Listening unconfigured = Ok (unconfigured, Returned)) as Hr
    by (vm_compute; reflexivity).
  split; [exact Hs|]. split; [exact Hr|].
  exact (early_return_aborts loopback any_address _ 1 4 no_clusters _ _ 0 Listening
           unconfigured unconfigured ltac:(lia) Hs Hr).
Defined.

Lemma round_robin_is_fair_witness :
  exists l, picks (Z.to_nat (concurrency_ started)) started = Ok l /\
    l ≡ₚ seq 0 (Z.to_nat (concurrency_ started)).
Proof. apply (round_robin_is_fair started); vm_compute; (reflexivity || discriminate). Defined.

Lemma reload_reaches_every_worker_witness :
  exists kl s', sv_step (fun _ => true) loopback (served (one_request ++ [SvSignal SIGHUP]))
      (SvPosted (Some (render_file demo_clusters))) s' /\
    forall i t, workers_ s' !! i = Some t -> spinning t = false ->
      exists s'' t', sv_run (fun _ => true) loopback (replicate (length (inbox t)) (SvDeliver i)) s' = Ok s'' /\
        workers_ s'' !! i = Some t' /\ inbox t' = [] /\ key_locator_ (context t') = Some kl.
Proof.
  eexists. apply (reload_reaches_every_worker (fun _ => true) loopback any_address small_config
    (served (one_request ++ [SvSignal SIGHUP])) [] demo_clusters);
    [apply served_reachable|vm_compute; reflexivity|vm_compute; reflexivity|vm_compute; reflexivity| |vm_compute; reflexivity].
  replace (global (sv_config (served (one_request ++ [SvSignal SIGHUP])))) with (global default_config)
    by (vm_compute; reflexivity). exact demo_clusters_valid.
Defined.
