(* ===== verification/Startup.v ===== *)
(** * The start and the end of the process

    [main] ([proxy/main.cc]) and the functions of [proxy/utils.cc] and
    [proxy/logging.cc] it calls: the configuration, the log, the daemon, the pid
    file, the server.  The program is a tree of calls to the operating system; a
    call may succeed or fail as its documentation says, and the branch taken
    depends on the answer.  The theorems hold for all answers. *)

From S2P Require Import Prelude CString StdMap ErrorCode Config World KeyDistributer KeyLocator Scenario Utils Server ServerTheorems.
Import ProxyServer.

(** ** The operating system *)

(** The verbosity and the preamble [loguru] is told to use *)
Record LogConf := mkLogConf {
  g_stderr_verbosity : Z;
  g_preamble_uptime : bool;
  g_preamble_thread : bool;
  g_preamble_file : bool
}.

(** What the process sees.  A descriptor is known by the file it is open on. *)
Record OS := mkOS {
  os_pid : Z;
  os_leader : bool;                 (** of a session of its own *)
  os_fds : gmap Z bytes;
  os_files : gmap bytes bytes;
  os_writable : bytes -> bool;      (** [fopen], [fprintf] and [remove] of it succeed: permissions, descriptors, space *)
  os_logs : gset bytes;             (** the files [loguru] writes to *)
  os_log_conf : LogConf;
  os_rlimit : option rlimit;
  os_affinity : gmap Z (gset Z)     (** of threads *)
}.

Definition o_pid (x : Z) (o : OS) : OS := mkOS x (os_leader o) (os_fds o) (os_files o) (os_writable o) (os_logs o) (os_log_conf o) (os_rlimit o) (os_affinity o).
Definition o_leader (x : bool) (o : OS) : OS := mkOS (os_pid o) x (os_fds o) (os_files o) (os_writable o) (os_logs o) (os_log_conf o) (os_rlimit o) (os_affinity o).
Definition o_fds (x : gmap Z bytes) (o : OS) : OS := mkOS (os_pid o) (os_leader o) x (os_files o) (os_writable o) (os_logs o) (os_log_conf o) (os_rlimit o) (os_affinity o).
Definition o_files (x : gmap bytes bytes) (o : OS) : OS := mkOS (os_pid o) (os_leader o) (os_fds o) x (os_writable o) (os_logs o) (os_log_conf o) (os_rlimit o) (os_affinity o).
Definition o_logs (x : gset bytes) (o : OS) : OS := mkOS (os_pid o) (os_leader o) (os_fds o) (os_files o) (os_writable o) x (os_log_conf o) (os_rlimit o) (os_affinity o).
Definition o_log_conf (x : LogConf) (o : OS) : OS := mkOS (os_pid o) (os_leader o) (os_fds o) (os_files o) (os_writable o) (os_logs o) x (os_rlimit o) (os_affinity o).
Definition o_rlimit (x : option rlimit) (o : OS) : OS := mkOS (os_pid o) (os_leader o) (os_fds o) (os_files o) (os_writable o) (os_logs o) (os_log_conf o) x (os_affinity o).
Definition o_affinity (x : gmap Z (gset Z)) (o : OS) : OS := mkOS (os_pid o) (os_leader o) (os_fds o) (os_files o) (os_writable o) (os_logs o) (os_log_conf o) (os_rlimit o) x.

(** The calls, with the type of their answers *)
Inductive sysE : Type -> Type :=
| Print (s : bytes) : sysE unit
| ReadFile (name : bytes) : sysE (option (list bytes))     (** an [ifstream] read by [getline] *)
| GetLogConf : sysE LogConf
| SetLogConf (x : LogConf) : sysE unit
| LoguruInit : sysE unit
| AddLogFile (path : bytes) (verbosity : Z) : sysE bool
| Log (verbosity : Z) (msg : bytes) : sysE unit
| Fork : sysE Z
| Setsid : sysE Z
| Open (name : bytes) : sysE Z
| Dup2 (oldfd newfd : Z) : sysE Z
| Close (fd : Z) : sysE Z
| Getpid : sysE Z
| Gettid : sysE Z
| SchedSetaffinity (tid : Z) (mask : gset Z) : sysE Z
| Fopen (name : bytes) : sysE (option Z)                   (** with mode "w" *)
| Fprintf (file : Z) (data : bytes) : sysE unit            (** with the [fflush] that follows *)
| Fclose (file : Z) : sysE unit
| Remove (name : bytes) : sysE Z
| Getrlimit : sysE (option rlimit)
| Setrlimit (x : option rlimit) : sysE unit                (** the limit in force after the search *)
| SetupAcceptor : sysE setup
| EventLoop (s : Server) : sysE Server.                    (** the threads of the server, until [Run] returns *)

(** [getline] until the end of the file: a line that ends with the file counts if
    it has characters. *)
Fixpoint getlines (line content : bytes) : list bytes :=
  match content with
  | [] => if bool_decide (line = []) then [] else [line]
  | ch :: content' =>
      if bool_decide (ch = LF) then line :: getlines [] content' else getlines (line ++ [ch]) content'
  end.

(** The descriptor a new file gets *)
Definition lowest_free (fds : gmap Z bytes) (fd : Z) : Prop :=
  0 <= fd /\ fds !! fd = None /\ forall i, 0 <= i < fd -> is_Some (fds !! i).

(** Writing to the log changes log files only. *)
Definition logged (o o' : OS) : Prop :=
  exists files, (forall name, name ∉ os_logs o -> files !! name = os_files o !! name) /\ o' = o_files files o.

(** ** Programs *)
Inductive prog (A : Type) : Type :=
| Ret (a : A)
| Exit (code : Z)               (** [exit], or the return of [main] *)
| Crash (f : Prelude.fault)
| Do {R : Type} (e : sysE R) (k : R -> prog A).
#[global] Arguments Ret {A} _.
#[global] Arguments Exit {A} _.
#[global] Arguments Crash {A} _.
#[global] Arguments Do {A R} _ _.

#[global] Instance prog_ret : MRet prog := fun A a => Ret a.
#[global] Instance prog_bind : MBind prog := fun A B f =>
  fix go (p : prog A) : prog B :=
    match p with
    | Ret a => f a
    | Exit code => Exit code
    | Crash f => Crash f
    | Do e k => Do e (fun r => go (k r))
    end.
Definition sys {R} (e : sysE R) : prog R := Do e Ret.
Definition of_result {A} (r : result A) : prog A :=
  match r with Ok a => Ret a | Fault f => Crash f end.

(** ** [proxy/logging.cc] and [proxy/utils.cc] *)
Definition InitLogging (path loglevel : bytes) : prog unit :=
  let verbosity := LevelVerbosity loglevel in
  (if verbosity <=? 0 then sys (SetLogConf (mkLogConf Verbosity_WARNING false false false))
   else Ret tt);;
  conf ← sys GetLogConf;
  sys (SetLogConf (mkLogConf verbosity (g_preamble_uptime conf) (g_preamble_thread conf)
                     (g_preamble_file conf)));;
  sys LoguruInit;;
  _ ← sys (AddLogFile path verbosity); Ret tt.

Definition banner : list string :=
  [" __   __ _    ____  __  __ ____  ____   _____  ___   __ ";
   " \ \ / // \  |  _ \|  \/  |  _ \|  _ \ / _ \ \/ \ \ / / ";
   "  \ V // _ \ | |_) | |\/| | |_) | |_) | | | \  / \ V /  ";
   "   | |/ ___ \|  _ <| |  | |  __/|  _ <| |_| /  \  | |   ";
   "   |_/_/   \_\_| \_\_|  |_|_|   |_| \_\\___/_/\_\ |_|   "]%string.
Definition Welcome : prog unit :=
  sys (Print (concat ((fun line => str line ++ crlf) <$> banner) ++ [LF])).

Definition CreatePidFile (conf : Config) : prog Z :=
  let fname := pid_file_ (global conf) in
  file ← sys (Fopen fname);
  match file with
  | None => sys (Log Verbosity_WARNING (str "CreatePidFile err, file_name=" ++ fname));; Ret (-1)
  | Some file =>
      pid ← sys Getpid;
      sys (Fprintf file (dec pid));;
      sys (Fclose file);;
      Ret 0
  end.

Definition CleanupPidFile (conf : Config) : prog Z :=
  let fname := pid_file_ (global conf) in
  r ← sys (Remove fname);
  (if r =? 0 then Ret tt
   else sys (Log Verbosity_WARNING (str "CleanupPidFile err, file_name=" ++ fname)));;
  Ret 0.

(** [CPU_SET] ignores a processor outside of the mask of 1024 bits. *)
Definition SetThreadCpuAffinity (cpu : Z) : prog Z :=
  let mask : gset Z := if (0 <=? cpu) && (cpu <? 1024) then {[cpu]} else ∅ in
  tid ← sys Gettid;
  sys (SchedSetaffinity tid mask).

Definition STDIN_FILENO : Z := 0.
Definition STDOUT_FILENO : Z := 1.
Definition STDERR_FILENO : Z := 2.
Definition dev_null : bytes := str "/dev/null".

(** The descriptors are redirected in turn; the first failure ends the function. *)
Fixpoint redirect (fd : Z) (targets : list Z) (k : prog Z) : prog Z :=
  match targets with
  | [] => k
  | t :: targets' =>
      r ← sys (Dup2 fd t);
      if r <? 0 then Ret (-1) else redirect fd targets' k
  end.

Definition Daemonize : prog Z :=
  r ← sys Fork;
  if r =? -1 then Ret (-1)
  else if negb (r =? 0) then Exit 0
  else
    r ← sys Setsid;
    if r =? -1 then Ret (-1)
    else
      fd ← sys (Open dev_null);
      if fd =? -1 then Ret 0
      else redirect fd [STDIN_FILENO; STDOUT_FILENO; STDERR_FILENO]
             (if STDERR_FILENO <? fd
              then r ← sys (Close fd); (if r <? 0 then Ret (-1) else Ret 0)
              else Ret 0).

Section with_boost.
Variable make_address_v4 : bytes -> bool.
Variable from_string : bytes -> option Z.
Context {address : Type}.
Variable address_from_string : bytes -> option address.
(** Which limits the kernel accepts, the processors, the memory of the workers and
    the time of the start *)
Variable setrlimit_ok : rlimit -> bool.
Variable hardware_concurrency : Z.
Variable heap : nat -> Z.
Variable uninit : nat -> Z -> Z -> ascii.
Variable now : Z.

(** Answer and effect of a call *)
Definition sys_step (o : OS) {R : Type} (e : sysE R) : R -> OS -> Prop :=
  match e in sysE R return R -> OS -> Prop with
  | Print _ | LoguruInit => fun _ o' => o' = o
  | ReadFile name => fun r o' => o' = o /\
      (r = None \/ exists content, os_files o !! name = Some content /\ r = Some (getlines [] content))
  | GetLogConf => fun r o' => r = os_log_conf o /\ o' = o
  | SetLogConf x => fun _ o' => o' = o_log_conf x o
  | AddLogFile path _ => fun r o' =>
      (r = false /\ o' = o) \/
      (r = true /\ exists name fd content, lowest_free (os_fds o) fd /\
         o' = o_fds (<[fd := name]> (os_fds o)) (o_files (<[name := content]> (os_files o))
                (o_logs ({[name]} ∪ os_logs o) o)))
  | Log _ _ => fun _ o' => logged o o'
  | Fork => fun r o' =>
      (r = -1 /\ o' = o) \/ (0 < r /\ o' = o) \/
      (r = 0 /\ exists pid, 0 < pid /\ pid <> os_pid o /\ o' = o_leader false (o_pid pid o))
  | Setsid => fun r o' => (r = -1 /\ o' = o) \/ (r = os_pid o /\ o' = o_leader true o)
  | Open name => fun r o' =>
      (r = -1 /\ o' = o) \/ (lowest_free (os_fds o) r /\ o' = o_fds (<[r := name]> (os_fds o)) o)
  | Dup2 oldfd newfd => fun r o' =>
      (r = -1 /\ o' = o) \/
      (r = newfd /\ exists f, os_fds o !! oldfd = Some f /\ o' = o_fds (<[newfd := f]> (os_fds o)) o)
  | Close fd => fun r o' =>
      (r = -1 /\ (o' = o \/ o' = o_fds (delete fd (os_fds o)) o)) \/
      (r = 0 /\ o' = o_fds (delete fd (os_fds o)) o)
  | Getpid => fun r o' => r = os_pid o /\ o' = o
  | Gettid => fun r o' => o' = o
  | SchedSetaffinity tid mask => fun r o' =>
      (r = -1 /\ o' = o) \/ (r = 0 /\ o' = o_affinity (<[tid := mask]> (os_affinity o)) o)
  | Fopen name => fun r o' =>
      (r = None /\ os_writable o name = false /\ o' = o) \/
      (exists fd, r = Some fd /\ lowest_free (os_fds o) fd /\
         o' = o_fds (<[fd := name]> (os_fds o)) (o_files (<[name := []]> (os_files o)) o))
  | Fprintf file data => fun _ o' =>
      exists name written, os_fds o !! file = Some name /\ written `prefix_of` data /\
        (os_writable o name = true -> written = data) /\
        o' = o_files (<[name := default [] (os_files o !! name) ++ written]> (os_files o)) o
  | Fclose file => fun _ o' => o' = o_fds (delete file (os_fds o)) o
  | Remove name => fun r o' =>
      (r <> 0 /\ (os_files o !! name = None \/ os_writable o name = false) /\ o' = o) \/
      (r = 0 /\ is_Some (os_files o !! name) /\ o' = o_files (delete name (os_files o)) o)
  | Getrlimit => fun r o' => (r = None \/ r = os_rlimit o) /\ o' = o
  | Setrlimit x => fun _ o' => o' = o_rlimit x o
  | SetupAcceptor => fun _ o' => o' = o
  | EventLoop s => fun s' o' =>
      rtc (fun s1 s2 => exists e, sv_step make_address_v4 from_string s1 e s2) s s' /\
      main_thread s' = MainLeft /\ logged o o'
  end.


(** [MaximizeFdLimit] of [Utils], between the call that reads the limit and the
    last one that sets it *)
Definition maximize_fd_limit : prog unit :=
  lim ← sys Getrlimit;
  lim ← of_result (MaximizeFdLimit setrlimit_ok lim);
  sys (Setrlimit lim).

(** ** [proxy/main.cc] *)

(** [server.Run()] with its loop *)
Definition server_run (s : Server) : prog Server :=
  st ← sys SetupAcceptor;
  '(s, status) ← of_result (Run from_string address_from_string st s);
  match status with Returned => Ret s | Looping => sys (EventLoop s) end.

Definition conf_name (argv : list bytes) : bytes :=
  match argv with _ :: name :: _ => name | _ => str "./yarmproxy.conf" end.

(** The end of [main], from [server.Run()] on; the server is destroyed last. *)
Definition main_serve (conf : Config) (server : Server) : prog Z :=
  server ← server_run server;
  _ ← CleanupPidFile conf;
  sys (Log Verbosity_ERROR (str "YarmProxy stopped."));;
  _ ← of_result (dtor server);
  Ret 0.

(** [main] with the configuration loaded *)
Definition main_configured (conf : Config) : prog Z :=
  InitLogging (log_file_ (global conf)) (log_level_ (global conf));;
  (if daemonize_ (global conf) then _ ← Daemonize; Ret tt else Ret tt);;
  maximize_fd_limit;;
  _ ← CreatePidFile conf;
  sys (Log Verbosity_ERROR (str "YarmProxy listening on " ++ listen_ (global conf)));;
  server ← of_result (ctor (listen_ (global conf)) (worker_threads_ (global conf))
                        hardware_concurrency conf heap uninit now);
  main_serve conf server.

Definition main (argv : list bytes) : prog Z :=
  Welcome;;
  file ← sys (ReadFile (conf_name argv));
  '(conf, good) ← of_result (Initialize make_address_v4 file default_config);
  if negb good then Ret 1 else main_configured conf.

(** ** Runs *)
Definition pstep {A} (c c' : prog A * OS) : Prop :=
  match c.1 with
  | Do e k => exists r, sys_step c.2 e r c'.2 /\ c'.1 = k r
  | _ => False
  end.

(** How a program has ended *)
Inductive ending (A : Type) := Done (a : A) | Exited (code : Z) | Crashed (f : Prelude.fault).
#[global] Arguments Done {A} _.
#[global] Arguments Exited {A} _.
#[global] Arguments Crashed {A} _.
Definition ended {A} (p : prog A) : option (ending A) :=
  match p with
  | Ret a => Some (Done a)
  | Exit code => Some (Exited code)
  | Crash f => Some (Crashed f)
  | Do _ _ => None
  end.
(** The server whose threads run *)
Definition serving {A} (p : prog A) : option Server :=
  match p with
  | Do e _ => match e with EventLoop s => Some s | _ => None end
  | _ => None
  end.

(** Two points of a run: the acceptor is about to be opened, and the threads run. *)
Inductive point := AtAcceptor | AtLoop (s : Server).
Definition call_point {R} (e : sysE R) : option point :=
  match e with EventLoop s => Some (AtLoop s) | SetupAcceptor => Some AtAcceptor | _ => None end.
Definition at_point {A} (p : prog A) : option point :=
  match p with Do e _ => call_point e | _ => None end.

(** ** What holds of all runs

    [wp L p Q o]: from [o], whenever [p] is at one of the points [L] holds, and when
    it has ended [Q] holds. *)
Section wp.
Context (L : point -> OS -> Prop).

Definition loop_ok {R} (e : sysE R) (o : OS) : Prop :=
  match call_point e with Some pt => L pt o | None => True end.

Fixpoint wp {A} (p : prog A) (Q : ending A -> OS -> Prop) (o : OS) : Prop :=
  match p with
  | Ret a => Q (Done a) o
  | Exit code => Q (Exited code) o
  | Crash f => Q (Crashed f) o
  | Do e k => loop_ok e o /\ forall r o', sys_step o e r o' -> wp (k r) Q o'
  end.

Lemma wp_mono {A} (p : prog A) Q Q' o : (forall x o, Q x o -> Q' x o) -> wp p Q o -> wp p Q' o.
Proof.
  intros HQ. revert o. induction p as [| | |R e k IH]; cbn; [auto..|]. intros o [Hl Hk].
  split; [done|]. intros r o' Hs. apply IH. by apply Hk.
Qed.

(** The continuation runs after a value only. *)
Definition then_ {A B} (f : A -> OS -> Prop) (Q : ending B -> OS -> Prop) (x : ending A) (o : OS) : Prop :=
  match x with Done a => f a o | Exited code => Q (Exited code) o | Crashed ft => Q (Crashed ft) o end.
Lemma wp_bind {A B} (p : prog A) (f : A -> prog B) Q o :
  wp p (then_ (fun a => wp (f a) Q) Q) o -> wp (p ≫= f) Q o.
Proof.
  revert o. induction p as [| | |R e k IH]; cbn; [auto..|]. intros o [Hl Hk].
  split; [done|]. intros r o' Hs. apply IH. by apply Hk.
Qed.
(** A call that is not the event loop *)
Lemma wp_sys {R} (e : sysE R) Q o :
  loop_ok e o -> (forall r o', sys_step o e r o' -> Q (Done r) o') -> wp (sys e) Q o.
Proof. intros Hl H. split; [done|]. intros r o' Hs. by apply H. Qed.
Lemma wp_of_result {A} (r : result A) Q o :
  (forall a, r = Ok a -> Q (Done a) o) -> (forall f, r = Fault f -> Q (Crashed f) o) -> wp (of_result r) Q o.
Proof. destruct r; cbn; auto. Qed.

Lemma wp_step {A} (p p' : prog A) Q o o' : wp p Q o -> pstep (p, o) (p', o') -> wp p' Q o'.
Proof. destruct p as [| | |R e k]; cbn; [done..|]. intros [_ Hk] (r & Hs & ->). by apply Hk. Qed.

Lemma wp_sound {A} (p p' : prog A) Q o o' :
  wp p Q o -> rtc pstep (p, o) (p', o') ->
  (forall pt, at_point p' = Some pt -> L pt o') /\ (forall x, ended p' = Some x -> Q x o').
Proof.
  intros Hw Hs. assert (wp p' Q o') as Hw'.
  { remember (p, o) as c eqn:Hc. remember (p', o') as c' eqn:Hc'. revert p o Hc Hw.
    induction Hs as [c|c [p1 o1] c' H1 _ IH]; intros p o -> Hw; [by simplify_eq|].
    eapply IH; [done|done|]. by eapply wp_step. }
  clear Hs Hw. destruct p' as [| | |R e k]; cbn in *; (split; [|try by intros x [= <-]]); try done.
  destruct Hw' as [Hl _]. intros pt Hpt. unfold loop_ok in Hl. by rewrite Hpt in Hl.
Qed.
End wp.

(** ** The daemon *)

(** The standard streams are on /dev/null and nothing else has changed. *)
Definition detached (fds fds' : gmap Z bytes) : Prop :=
  (forall i, 0 <= i <= 2 -> fds' !! i = Some dev_null) /\ (forall i, 2 < i -> fds' !! i = fds !! i).

(** The next call of a program *)
Ltac wp_call := apply wp_bind, wp_sys; [exact I|].
Ltac wp_simpl := cbn [then_ negb Z.eqb Z.ltb Z.compare Pos.eqb Pos.compare Pos.compare_cont].
Ltac fork_inv Hs := destruct Hs as [[-> ->]|[[? ->]|(-> & ? & ? & ? & ->)]].

Lemma redirect_wp L fd ts k Q o :
  os_fds o !! fd = Some dev_null ->
  (forall o', Q (Done (-1)) o') ->
  (forall fds, fds !! fd = Some dev_null -> (forall i, i ∈ ts -> fds !! i = Some dev_null) ->
     (forall i, i ∉ ts -> fds !! i = os_fds o !! i) -> wp L k Q (o_fds fds o)) ->
  Forall (fun t => 0 <= t) ts ->
  wp L (redirect fd ts k) Q o.
Proof.
  intros Hfd HQ Hk Ht. revert o Hfd Hk. induction Ht as [|t ts Ht _ IH]; intros o Hfd Hk; cbn [redirect].
  { specialize (Hk (os_fds o) Hfd). destruct o. apply Hk; [set_solver|done]. }
  apply wp_bind, wp_sys; [done|]. intros r o' [[-> ->]|(-> & f & Hf & ->)]; cbn; [by apply HQ|].
  rewrite (proj2 (Z.ltb_ge _ _)) by lia. simplify_eq.
  apply IH; cbn.
  - destruct (decide (t = fd)) as [->|]; [by rewrite lookup_insert_eq|by rewrite lookup_insert_ne].
  - intros fds H1 H2 H3. apply (Hk fds H1).
    + intros i [->|Hi]%elem_of_cons; [|by apply H2]. destruct (decide (t ∈ ts)); [by apply H2|].
      rewrite H3 by done. by rewrite lookup_insert_eq.
    + intros i [Hi1 Hi2]%not_elem_of_cons. rewrite H3 by done. by rewrite lookup_insert_ne.
Qed.

(** A daemon has a process of its own that leads a session. *)
Definition daemon_ok (o : OS) (x : ending Z) (o' : OS) : Prop :=
  match x with
  | Done r =>
      r = 0 -> os_pid o' <> os_pid o /\ os_leader o' = true /\ os_files o' = os_files o /\
        (os_fds o' = os_fds o \/ detached (os_fds o) (os_fds o'))
  | Exited code => code = 0 /\ o' = o
  | Crashed _ => False
  end.

Lemma Daemonize_ok L o : wp L Daemonize (daemon_ok o) o.
Proof.
  wp_call. intros r o1 Hs. fork_inv Hs; wp_simpl; [done|..].
  { rewrite !(proj2 (Z.eqb_neq _ _)) by lia. done. }
  wp_call. intros r o' [[-> ->]|[-> ->]]; wp_simpl; [done|]. case_match; [done|].
  wp_call. intros fd o' [[-> ->]|[(Hge & Hn & Hlow) ->]]; wp_simpl.
  { intros _. split_and!; [done..|by left]. }
  rewrite (proj2 (Z.eqb_neq _ _)) by lia.
  apply redirect_wp; cbn; [by rewrite lookup_insert_eq|done| |by repeat constructor].
  intros fds Hfd Hin Hout.
  assert (forall i, 2 < i -> i <> fd -> fds !! i = os_fds o !! i) as Hsame.
  { intros i Hi Hne. rewrite Hout by (unfold STDIN_FILENO, STDOUT_FILENO, STDERR_FILENO; set_solver by lia).
    by rewrite lookup_insert_ne. }
  assert (forall i, 0 <= i <= 2 -> fds !! i = Some dev_null) as Hstd.
  { intros i Hi. apply Hin. unfold STDIN_FILENO, STDOUT_FILENO, STDERR_FILENO.
    assert (i = 0 \/ i = 1 \/ i = 2) as [-> |[-> | ->]] by lia; set_solver. }
  unfold STDERR_FILENO. destruct (Z.ltb_spec 2 fd).
  - split; [done|]. intros r o' [[-> _]|[-> ->]]; cbn; [done|]. intros _. split_and!; [done..|right].
    split; intros i Hi.
    + rewrite lookup_delete_ne by lia. by apply Hstd.
    + destruct (decide (fd = i)) as [<-|]; [by rewrite lookup_delete_eq|].
      rewrite lookup_delete_ne by done. by apply Hsame.
  - cbn. intros _. split_and!; [done..|right]. split; [done|]. intros i Hi. apply Hsame; lia.
Qed.

(** ** The pid file *)

(** Nothing but log files has changed. *)
Definition only_logs (o o' : OS) : Prop :=
  os_writable o' = os_writable o /\ os_logs o ⊆ os_logs o' /\
  forall name, name ∉ os_logs o' -> os_files o' !! name = os_files o !! name.
#[global] Instance only_logs_preorder : PreOrder only_logs.
Proof.
  split; [done|]. intros o1 o2 o3 (H1 & H2 & H3) (H4 & H5 & H6). split; [congruence|]. split; [set_solver|].
  intros name Hn. rewrite H6, H3 by set_solver. done.
Qed.

Definition touches {R} (e : sysE R) : bool :=
  match e with Fopen _ | Fprintf _ _ | Remove _ | SetupAcceptor | EventLoop _ => true | _ => false end.
Lemma sys_only_logs o R (e : sysE R) r o' : touches e = false -> sys_step o e r o' -> only_logs o o'.
Proof.
  destruct e; intros Ht Hs; try discriminate Ht; cbn in Hs;
    repeat match goal with
    | H : _ /\ _ |- _ => destruct H
    | H : _ \/ _ |- _ => destruct H
    | H : exists _, _ |- _ => destruct H
    | H : logged _ _ |- _ => destruct H as (? & ? & ->)
    end; subst; try done; (split; [done|]); cbn; (split; [set_solver|]); intros n Hn; cbn; auto.
  rewrite lookup_insert_ne; [done|]. set_solver.
Qed.

Fixpoint tame {A} (p : prog A) : Prop :=
  match p with
  | Do e k => touches e = false /\ forall r, tame (k r)
  | Exit code => code = 0
  | _ => True
  end.
Lemma tame_wp L {A} (p : prog A) o :
  tame p -> wp L p (fun x o' => only_logs o o' /\ forall code, x = Exited code -> code = 0) o.
Proof.
  assert (forall o1, tame p -> only_logs o o1 ->
    wp L p (fun x o' => only_logs o o' /\ forall code, x = Exited code -> code = 0) o1) as H;
    [|intros Ht; by apply H].
  induction p as [| | |R e k IH]; cbn; [by auto..| | |].
  1,2: intros o1 Ht Ho; (split; [done|]); intros ? [=]; congruence.
  intros o1 [Ht Hk] Ho.
  split; [by destruct e|]. intros r o2 Hs. apply IH; [done|]. etransitivity; [done|by eapply sys_only_logs].
Qed.
Lemma tame_bind {A B} (p : prog A) (f : A -> prog B) : tame p -> (forall a, tame (f a)) -> tame (p ≫= f).
Proof. intros Hp Hf. induction p as [| | |R e k IH]; cbn; [done..|]. destruct Hp as [? ?]. split; auto. Qed.
Ltac tame_tac :=
  repeat match goal with
  | |- tame (mbind _ _) => apply tame_bind; [|intros ?]
  | |- tame (if ?b then _ else _) => destruct b
  | |- tame (sys _) => by split
  | |- tame (Ret _) => exact I
  | |- tame (Exit _) => reflexivity
  | |- tame (of_result ?r) => by destruct r
  end.
Lemma InitLogging_tame path level : tame (InitLogging path level).
Proof. unfold InitLogging. tame_tac. Qed.
Lemma redirect_tame fd ts k : tame k -> tame (redirect fd ts k).
Proof. intros Hk. induction ts; cbn [redirect]; [done|]. tame_tac. done. Qed.
Lemma Daemonize_tame : tame Daemonize.
Proof. unfold Daemonize. tame_tac. apply redirect_tame. tame_tac. Qed.
Lemma maximize_tame : tame maximize_fd_limit.
Proof. unfold maximize_fd_limit. tame_tac. Qed.

(** The file names the process. *)
Definition named (pidf : bytes) (o : OS) : Prop :=
  os_writable o pidf = true -> pidf ∉ os_logs o -> os_files o !! pidf = Some (dec (os_pid o)).

Lemma logged_named pidf o o' : logged o o' -> named pidf o -> named pidf o'.
Proof. intros (files & Hf & ->) Hn Hw Hl. cbn in *. rewrite Hf by done. by apply Hn. Qed.

Lemma CreatePidFile_named L conf o :
  wp L (CreatePidFile conf) (fun x o' => (exists r, x = Done r) /\ named (pid_file_ (global conf)) o') o.
Proof.
  unfold CreatePidFile. set (f := pid_file_ (global conf)).
  wp_call. intros r o1 [(-> & Hw & ->)|(fd & -> & Hl & ->)]; cbn [then_].
  - wp_call. intros r o1 (files & Hf & ->). cbn. split; [by eexists|]. intros Hw'. cbn in Hw'. congruence.
  - wp_call. intros pid o1 [-> ->]. cbn [then_].
    wp_call. intros u o1 (name & written & Hn & _ & Hall & ->). cbn [then_].
    wp_call. intros u' o1 ->. cbn. split; [by eexists|]. cbn in Hn. rewrite lookup_insert_eq in Hn.
    simplify_eq. intros Hw _. cbn in *. rewrite !lookup_insert_eq, (Hall Hw). done.
Qed.

Lemma CleanupPidFile_removed L conf o :
  let f := pid_file_ (global conf) in
  wp L (CleanupPidFile conf)
    (fun x o' => (exists r, x = Done r) /\
       (os_writable o' f = true -> f ∉ os_logs o' -> os_files o' !! f = None)) o.
Proof.
  intros f. unfold CleanupPidFile. fold f.
  wp_call. intros r o1 [(Hr & Hw & ->)|(-> & Hw & ->)]; cbn [then_].
  - rewrite (proj2 (Z.eqb_neq _ _)) by done. apply wp_bind, wp_sys; [done|].
    intros u o1 (files & Hf & ->). cbn. split; [by eexists|]. intros Hwr Hlog. rewrite Hf by done.
    destruct Hw; congruence.
  - cbn. split; [by eexists|]. intros _ _. cbn. by rewrite lookup_delete_eq.
Qed.

(** ** [main] *)
Section main.
Context (conf : Config).
Let pidf := pid_file_ (global conf).
Let L (pt : point) (o : OS) : Prop :=
  match pt with
  | AtAcceptor => named pidf o
  | AtLoop s => sv_reachable make_address_v4 from_string address_from_string conf s /\ named pidf o
  end.

Lemma server_run_wp addr threads s o :
  ctor addr threads hardware_concurrency conf heap uninit now = Ok s -> named pidf o ->
  wp L (server_run s) (fun x _ => forall code, x <> Exited code) o.
Proof.
  intros Hc Hn. apply wp_bind, wp_sys; [exact Hn|]. intros st o1 ->. cbn [then_]. apply wp_bind, wp_of_result; [|done].
  intros [s' status] Hr. cbn [then_]. destruct status; [done|].
  apply wp_sys; [|done]. split; [|done]. destruct (Run_started _ _ _ _ _ Hr) as [-> _].
  by eapply sv_init.
Qed.

(** What [main] leaves behind *)
Definition main_ends (o : OS) (x : ending Z) (o' : OS) : Prop :=
  match x with
  | Done r => r = 0 /\ (os_writable o' pidf = true -> pidf ∉ os_logs o' -> os_files o' !! pidf = None)
  | Exited code => code = 0 /\ only_logs o o'
  | Crashed _ => True
  end.

Lemma main_served_wp server o o1 :
  ctor (listen_ (global conf)) (worker_threads_ (global conf)) hardware_concurrency conf heap uninit now = Ok server ->
  named pidf o1 -> wp L (main_serve conf server) (main_ends o) o1.
Proof.
  intros Hc Hn. apply wp_bind. eapply wp_mono; [|by eapply server_run_wp].
  intros [s'|code|f] o2 He; [|by destruct (He code)|done]. cbn [then_]. clear Hn.
  apply wp_bind. eapply wp_mono; [|apply CleanupPidFile_removed].
  intros x o3 [[r ->] Hr]. cbn [then_]. wp_call. intros u o4 (files & Hf & ->). cbn [then_].
  apply wp_bind, wp_of_result; [|done]. intros s2 _. cbn. split; [done|]. intros Hw Hl.
  rewrite Hf by done. by apply Hr.
Qed.

(** A part of [main] that leaves all files but the logs alone *)
Lemma main_part {A} (p : prog A) (f : A -> prog Z) o o1 :
  tame p -> only_logs o o1 -> (forall a o2, only_logs o o2 -> wp L (f a) (main_ends o) o2) ->
  wp L (p ≫= f) (main_ends o) o1.
Proof.
  intros Hp Ho Hf. apply wp_bind. eapply wp_mono; [|by apply tame_wp].
  intros [a|code|ft] o2 [Hl He]; cbn; [|split; [by apply He|by etransitivity]|done].
  apply Hf. by etransitivity.
Qed.

Lemma main_configured_wp o : wp L (main_configured conf) (main_ends o) o.
Proof.
  apply main_part; [apply InitLogging_tame|done|]. intros _ o1 H1.
  apply main_part; [destruct (daemonize_ _); tame_tac; apply Daemonize_tame|done|]. intros _ o2 H2.
  apply main_part; [apply maximize_tame|done|]. intros _ o3 H3.
  apply wp_bind. eapply wp_mono; [|apply CreatePidFile_named]. intros x o4 [[r ->] Hn]. cbn [then_].
  wp_call. intros u o5 Hl. cbn [then_]. apply (logged_named pidf _ _ Hl) in Hn.
  apply wp_bind, wp_of_result; [|done]. intros server Hc. cbn [then_]. by apply main_served_wp.
Qed.
End main.

(** The configuration [main] works with *)
Definition configured (argv : list bytes) (o : OS) (conf : Config) : Prop :=
  exists content, os_files o !! conf_name argv = Some content /\
    Initialize make_address_v4 (Some (getlines [] content)) default_config = Ok (conf, true).

Lemma wp_weaken L L' {A} (p : prog A) Q o : (forall s o, L s o -> L' s o) -> wp L p Q o -> wp L' p Q o.
Proof.
  intros HL. revert o. induction p as [| | |R e k IH]; cbn; [done..|]. intros o [Hl Hk].
  split; [unfold loop_ok in *; destruct (call_point e); auto|]. intros r o' Hs. by apply IH, Hk.
Qed.

Lemma main_wp argv o :
  wp (fun pt o' => exists conf, configured argv o conf /\
        (forall s, pt = AtLoop s -> sv_reachable make_address_v4 from_string address_from_string conf s) /\
        named (pid_file_ (global conf)) o')
    (main argv)
    (fun x o' => x = Done 1 /\ o' = o \/ (exists conf, configured argv o conf /\ main_ends conf o x o') \/
                 exists f, x = Crashed f) o.
Proof.
  wp_call. intros u o1 ->. cbn [then_]. wp_call. intros file o1 [-> Hf]. cbn [then_].
  apply wp_bind, wp_of_result; [|intros f _; right; right; by exists f]. intros [conf good] Hi. cbn [then_].
  destruct good; cbn [negb]; [|by left].
  destruct Hf as [->|(content & Hc & ->)]; [discriminate Hi|].
  assert (configured argv o conf) as Hconf by (by exists content).
  eapply wp_mono; [|eapply wp_weaken; [|apply (main_configured_wp conf)]].
  - intros x o' He. right. left. by exists conf.
  - intros [|s] o' Hpt; exists conf; (split; [done|]).
    + by split; [intros s [=]|].
    + destruct Hpt as [Hs Hn]. split; [|done]. by intros ? [= <-].
Qed.

Lemma steps_writable {A} (c c' : prog A * OS) : rtc pstep c c' -> os_writable c'.2 = os_writable c.2.
Proof.
  induction 1 as [|[p o] [p1 o1] c' Hs _ IH]; [done|]. rewrite IH. clear IH. cbn.
  destruct p as [| | |R e k]; [done..|]. destruct Hs as (r & Hs & _). cbn in Hs.
  destruct (touches e) eqn:Ht; [|by apply (sys_only_logs _ _ _ _ _ Ht) in Hs as [? _]].
  destruct e; try discriminate Ht; cbn in Hs;
    repeat match goal with
    | H : _ /\ _ |- _ => destruct H
    | H : _ \/ _ |- _ => destruct H
    | H : exists _, _ |- _ => destruct H
    | H : logged _ _ |- _ => destruct H as (? & ? & ->)
    end; by subst.
Qed.

(** ** Properties *)

(** C32: whenever the process is in its event loop, in whatever way the calls before
    were answered: the configuration file was loaded, the server the loop is entered
    with is in a state that a server with this configuration reaches, and the pid file, if it can be
    written and is not also a log file, holds the pid of this very process (after
    [Daemonize] that is the child). *)
Theorem serving_process_owns_pid_file argv o p o' s :
  rtc pstep (main argv, o) (p, o') -> serving p = Some s ->
  exists conf, configured argv o conf /\
    sv_reachable make_address_v4 from_string address_from_string conf s /\
    (os_writable o (pid_file_ (global conf)) = true -> pid_file_ (global conf) ∉ os_logs o' ->
     os_files o' !! pid_file_ (global conf) = Some (dec (os_pid o'))).
Proof.
  intros Hr Hs. destruct (wp_sound _ _ _ _ _ _ (main_wp argv o) Hr) as [Hl _].
  assert (at_point p = Some (AtLoop s)) as Hpt
    by (destruct p as [| | |R e k]; try done; destruct e; try discriminate Hs; by injection Hs as ->).
  destruct (Hl _ Hpt) as (conf & Hc & Hsv & Hn). exists conf. split; [done|]. split; [by apply Hsv|].
  apply steps_writable in Hr. cbn in Hr. unfold named in Hn. by rewrite Hr in Hn.
Qed.

(** C28: whatever the system calls answer and whatever happens while the server runs, a
    process that has come to its end without a fault has done so in one of three ways.  It
    returned 1 from [main] and left the system as it found it.  It returned 0 from [main],
    with a configuration it had read, and the pid file that this configuration names does not
    exist, provided that the system lets the process write and remove that file and that it is
    not one of the log files.  Or it called [exit] with 0, in [Daemonize], and every file but
    the log files is as it was. *)
Theorem main_cleans_up argv o p o' x :
  rtc pstep (main argv, o) (p, o') -> ended p = Some x ->
  match x with
  | Done r =>
      r = 1 /\ o' = o \/
      r = 0 /\ exists conf, configured argv o conf /\
        (os_writable o (pid_file_ (global conf)) = true -> pid_file_ (global conf) ∉ os_logs o' ->
         os_files o' !! pid_file_ (global conf) = None)
  | Exited code => code = 0 /\ forall name, name ∉ os_logs o' -> os_files o' !! name = os_files o !! name
  | Crashed _ => True
  end.
Proof.
  intros Hr He. destruct (wp_sound _ _ _ _ _ _ (main_wp argv o) Hr) as [_ Hq].
  apply steps_writable in Hr. cbn in Hr.
  destruct (Hq x He) as [[-> ->]|[(conf & Hc & Hx)|[f ->]]]; [by left| |done]. destruct x as [r|code|f]; cbn in Hx; [|by destruct Hx as [? (_ & _ & ?)]|done].
  right. destruct Hx as [-> Hx]. split; [done|]. exists conf. rewrite Hr in Hx. done.
Qed.

(** [Daemonize]: the parent exits with 0 and has changed nothing; a process in
    which it returns 0 is a new one that leads a session, with the three standard
    streams on /dev/null and every other descriptor as it was (all of them as they
    were if /dev/null cannot be opened). *)
Theorem daemonize_detaches o p o' x :
  rtc pstep (Daemonize, o) (p, o') -> ended p = Some x ->
  match x with
  | Done r =>
      r = 0 -> os_pid o' <> os_pid o /\ os_leader o' = true /\ os_files o' = os_files o /\
        (os_fds o' = os_fds o \/
         (forall i, 0 <= i <= 2 -> os_fds o' !! i = Some dev_null) /\
         (forall i, 2 < i -> os_fds o' !! i = os_fds o !! i))
  | Exited code => code = 0 /\ o' = o
  | Crashed _ => False
  end.
Proof.
  intros Hr He. destruct (wp_sound _ _ _ _ _ _ (Daemonize_ok (fun _ _ => True) o) Hr) as [_ Hq].
  by apply Hq.
Qed.

(** *** Runs of programs made of parts *)
Lemma rtc_do {A R} (e : sysE R) (k : R -> prog A) r o o1 c :
  sys_step o e r o1 -> rtc pstep (k r, o1) c -> rtc pstep (Do e k, o) c.
Proof. intros Hs Hr. eapply rtc_l; [|exact Hr]. by exists r. Qed.
Lemma pstep_bind {A B} (p p' : prog A) (f : A -> prog B) o o' :
  pstep (p, o) (p', o') -> pstep (p ≫= f, o) (p' ≫= f, o').
Proof. destruct p as [| | |R e k]; cbn; [done..|]. intros (r & Hs & ->). by exists r. Qed.
Lemma rtc_bind {A B} (p p' : prog A) (f : A -> prog B) o o' :
  rtc pstep (p, o) (p', o') -> rtc pstep (p ≫= f, o) (p' ≫= f, o').
Proof.
  intros H. remember (p, o) as c eqn:Hc. remember (p', o') as c' eqn:Hc'. revert p o Hc.
  induction H as [c|c [p1 o1] c' H1 _ IH]; intros p o ->; [by simplify_eq|].
  eapply rtc_l; [by apply pstep_bind|by apply IH].
Qed.
Lemma rtc_seq {A B} (p : prog A) (f : A -> prog B) a o o1 c :
  rtc pstep (p, o) (Ret a, o1) -> rtc pstep (f a, o1) c -> rtc pstep (p ≫= f, o) c.
Proof. intros Hp Hf. etransitivity; [apply (rtc_bind _ _ f _ _ Hp)|exact Hf]. Qed.
Lemma rtc_sys {R} (e : sysE R) r o o1 : sys_step o e r o1 -> rtc pstep (sys e, o) (Ret r, o1).
Proof. intros Hs. by eapply rtc_do. Qed.

Lemma log_nothing o : logged o o.
Proof. exists (os_files o). by destruct o. Qed.

Lemma InitLogging_runs path level o :
  exists x, rtc pstep (InitLogging path level, o) (Ret tt, o_log_conf x o).
Proof.
  unfold InitLogging. destruct (LevelVerbosity level <=? 0); eexists;
    (eapply (rtc_seq _ _ tt); [by apply rtc_sys || apply rtc_refl|]);
    (eapply rtc_seq; [by apply rtc_sys|]); (eapply rtc_seq; [by apply (rtc_sys _ tt)|]);
    (eapply rtc_seq; [by apply (rtc_sys _ tt)|]); (eapply rtc_seq; [apply (rtc_sys _ false); by left|]); apply rtc_refl.
Qed.

(** [main] gets to the server, with the pid file written. *)
Lemma main_reaches_server argv o conf s fd :
  configured argv o conf -> daemonize_ (global conf) = false ->
  ctor (listen_ (global conf)) (worker_threads_ (global conf)) hardware_concurrency conf heap uninit now = Ok s ->
  os_writable o (pid_file_ (global conf)) = true -> lowest_free (os_fds o) fd ->
  exists o', rtc pstep (main argv, o) (main_serve conf s, o') /\ os_pid o' = os_pid o /\ os_logs o' = os_logs o /\
    os_writable o' = os_writable o /\ os_files o' !! pid_file_ (global conf) = Some (dec (os_pid o)).
Proof.
  intros (content & Hf & Hi) Hd Hc Hw Hfd. set (f := pid_file_ (global conf)) in *.
  destruct (InitLogging_runs (log_file_ (global conf)) (log_level_ (global conf)) o) as [x Hlog].
  eexists. split.
  - eapply rtc_seq; [by apply (rtc_sys _ tt)|].
    eapply rtc_seq; [apply (rtc_sys _ (Some (getlines [] content))); by split; [|right; exists content]|].
    rewrite Hi. eapply rtc_seq; [apply rtc_refl|]. cbn [negb]. unfold main_configured. rewrite Hd.
    eapply rtc_seq; [exact Hlog|]. eapply rtc_seq; [apply rtc_refl|].
    eapply rtc_seq; [eapply rtc_seq; [apply (rtc_sys _ None); by split; [left|]|];
      eapply rtc_seq; [apply rtc_refl|by apply (rtc_sys _ tt)]|].
    eapply rtc_seq; [eapply rtc_seq; [apply (rtc_sys _ (Some fd)); right; by exists fd|]|].
    { eapply rtc_seq; [by apply rtc_sys|].
      eapply rtc_seq; [apply (rtc_sys _ tt); exists f, (dec (os_pid o)); split; [cbn; by rewrite lookup_insert_eq|done]|].
      eapply rtc_seq; [by apply (rtc_sys _ tt)|apply rtc_refl]. }
    eapply rtc_seq; [apply (rtc_sys _ tt), log_nothing|]. rewrite Hc.
    eapply rtc_seq; [apply rtc_refl|]. apply rtc_refl.
  - split_and!; [done..|]. cbn. by rewrite !lookup_insert_eq.
Qed.

(** C36: the pid file is written before the acceptor is opened, and a start that fails there
    does not remove it.  In every run of [main], in whatever way the calls before were
    answered and whether or not the process has become a daemon: when [main] is about to
    open the acceptor, the configuration file was loaded and the pid file, if it can be
    written and is not also a log file, holds the pid of this process, whatever it held
    before (the pid of a server that is still running, say); and if with the answer [st]
    (the port is in use, or the listening address is not one) an exception leaves [main],
    the process has ended with the file in that state. *)
Theorem failed_start_leaves_pid_file argv o k o' st f :
  rtc pstep (main argv, o) (Do SetupAcceptor k, o') -> k st = Crash f ->
  exists conf, configured argv o conf /\ rtc pstep (main argv, o) (Crash f, o') /\
    (os_writable o (pid_file_ (global conf)) = true -> pid_file_ (global conf) ∉ os_logs o' ->
     os_files o' !! pid_file_ (global conf) = Some (dec (os_pid o'))).
Proof.
  intros Hr Hk. destruct (wp_sound _ _ _ _ _ _ (main_wp argv o) Hr) as [Hl _].
  destruct (Hl AtAcceptor eq_refl) as (conf & Hc & _ & Hn). exists conf. split; [done|]. split.
  - eapply rtc_r; [exact Hr|]. exists st. by split.
  - apply steps_writable in Hr. cbn in Hr. unfold named in Hn. by rewrite Hr in Hn.
Qed.
End with_boost.

(** ** A start on a small system *)
Definition demo_file : bytes := concat ((fun line => line ++ [LF]) <$> render_file (clusters_ small_config)).
Definition demo_conf : Config :=
  mkConfig (global default_config) (worker default_config) (clusters_ small_config) [] [].
Definition demo_os : OS :=
  mkOS 100 false {[0 := str "/dev/tty"; 1 := str "/dev/tty"; 2 := str "/dev/tty"]}
    {[str "./yarmproxy.conf" := demo_file; str "/tmp/yarmproxy.pid" := str "42"]} (fun _ => true) ∅
    (mkLogConf 0 true true true) (Some (mkRlimit 1024 1024)) ∅.

Lemma demo_configured : configured (fun _ => true) [str "yarmproxy"] demo_os demo_conf.
Proof. exists demo_file. split; vm_compute; reflexivity. Qed.
Lemma demo_free : lowest_free (os_fds demo_os) 3.
Proof.
  split; [lia|]. split; [reflexivity|]. intros i Hi.
  assert (i = 0 \/ i = 1 \/ i = 2) as [-> |[-> | ->]] by lia; eexists; reflexivity.
Qed.

Definition demo_heap (i : nat) : Z := 1000 + 1000000 * Z.of_nat i.
Definition demo_server : Server :=
  match ctor (listen_ (global demo_conf)) (worker_threads_ (global demo_conf)) 2 demo_conf demo_heap
          (fun _ _ _ => NUL) 0 with
  | Ok s => s
  | Fault _ => blank_server
  end.
Lemma demo_server_ctor :
  ctor (listen_ (global demo_conf)) (worker_threads_ (global demo_conf)) 2 demo_conf demo_heap
    (fun _ _ _ => NUL) 0 = Ok demo_server.
Proof. vm_compute. reflexivity. Qed.
Definition demo_started : Server :=
  match Run loopback any_address Listening demo_server with Ok (s, _) => s | Fault _ => blank_server end.
Lemma demo_server_runs : Run loopback any_address Listening demo_server = Ok (demo_started, Looping).
Proof. vm_compute. reflexivity. Qed.

Abbreviation demo_main := (main (fun _ => true) loopback any_address (fun _ => true) 2 demo_heap (fun _ _ _ => NUL) 0).
Abbreviation demo_pstep := (pstep (fun _ => true) loopback).

Lemma demo_main_serves :
  exists o', os_logs o' = ∅ /\ os_files o' !! str "/tmp/yarmproxy.pid" = Some (str "100") /\
    rtc demo_pstep (demo_main [str "yarmproxy"], demo_os)
      (Do (EventLoop demo_started) (fun s => Ret s) ≫= (fun server =>
         _ ← CleanupPidFile demo_conf;
         sys (Log Verbosity_ERROR (str "YarmProxy stopped."));; _ ← of_result (dtor server); Ret 0), o').
Proof.
  destruct (main_reaches_server (fun _ => true) loopback any_address (fun _ => true) 2 demo_heap (fun _ _ _ => NUL) 0
    [str "yarmproxy"] demo_os demo_conf demo_server 3) as (o1 & H1 & _ & Hl & _ & Hf);
    [exact demo_configured|reflexivity|exact demo_server_ctor|reflexivity|exact demo_free|].
  exists o1. rewrite Hl. split; [done|]. split; [exact Hf|]. etransitivity; [exact H1|].
  apply rtc_bind. eapply rtc_do; [reflexivity|]. cbn [prog_bind mbind]. rewrite demo_server_runs. apply rtc_refl.
Qed.

Lemma serving_process_owns_pid_file_witness :
  exists p o', rtc demo_pstep (demo_main [str "yarmproxy"], demo_os) (p, o') /\ serving p = Some demo_started /\
    exists conf, configured (fun _ => true) [str "yarmproxy"] demo_os conf /\
      sv_reachable (fun _ => true) loopback any_address conf demo_started /\
      (os_writable demo_os (pid_file_ (global conf)) = true -> pid_file_ (global conf) ∉ os_logs o' ->
       os_files o' !! pid_file_ (global conf) = Some (dec (os_pid o'))).
Proof.
  destruct demo_main_serves as (o' & _ & _ & H). eexists _, o'. split; [exact H|]. split; [reflexivity|].
  exact (serving_process_owns_pid_file _ _ _ _ _ _ _ _ _ _ _ _ _ H eq_refl).
Defined.

(** The port is in use; the file held the pid of the server that uses it. *)
Lemma failed_start_leaves_pid_file_witness :
  os_files demo_os !! str "/tmp/yarmproxy.pid" = Some (str "42") /\
  exists o', rtc demo_pstep (demo_main [str "yarmproxy"], demo_os) (Crash StdException, o') /\
    os_files o' !! str "/tmp/yarmproxy.pid" = Some (str "100").
Proof.
  split; [vm_compute; reflexivity|].
  destruct (main_reaches_server (fun _ => true) loopback any_address (fun _ => true) 2 demo_heap (fun _ _ _ => NUL) 0
    [str "yarmproxy"] demo_os demo_conf demo_server 3) as (o1 & H1 & Hp & Hl & _ & Hf);
    [exact demo_configured|reflexivity|exact demo_server_ctor|reflexivity|exact demo_free|].
  destruct (failed_start_leaves_pid_file _ _ _ _ _ _ _ _ _ _ _ _ SetupThrows StdException H1)
    as (conf & Hc & Hr & _); [vm_compute; reflexivity|].
  exists o1. split; [exact Hr|exact Hf].
Defined.

(** The server is stopped by a signal. *)
Definition demo_stopped : Server :=
  match sv_run (fun _ => true) loopback ([SvSignal SIGINT; SvPosted None] ++ shutdown) demo_started with
  | Ok s => s
  | Fault _ => blank_server
  end.
Lemma sv_run_steps mk fs es s s' :
  sv_run mk fs es s = Ok s' -> rtc (fun s1 s2 => exists e, sv_step mk fs s1 e s2) s s'.
Proof.
  revert s. induction es as [|e es IH]; cbn [sv_run]; intros s H; [by injection H as <-|].
  destruct (sv_enabled s e) eqn:He; [|done]. apply bind_Ok in H as (s1 & H1 & H).
  eapply rtc_l; [by exists e|by apply IH].
Qed.
Lemma demo_stops :
  rtc (fun s1 s2 => exists e, sv_step (fun _ => true) loopback s1 e s2) demo_started demo_stopped.
Proof. apply (sv_run_steps _ _ ([SvSignal SIGINT; SvPosted None] ++ shutdown)). vm_compute. reflexivity. Qed.

Lemma main_cleans_up_witness :
  exists o', rtc demo_pstep (demo_main [str "yarmproxy"], demo_os) (Ret 0, o') /\
    (0 = 1 /\ o' = demo_os \/
     0 = 0 /\ exists conf, configured (fun _ => true) [str "yarmproxy"] demo_os conf /\
       (os_writable demo_os (pid_file_ (global conf)) = true -> pid_file_ (global conf) ∉ os_logs o' ->
        os_files o' !! pid_file_ (global conf) = None)).
Proof.
  destruct demo_main_serves as (o1 & Hl & Hf & H).
  assert (exists o', rtc demo_pstep (demo_main [str "yarmproxy"], demo_os) (Ret 0, o')) as (o' & Hr).
  { eexists. etransitivity; [exact H|].
    eapply rtc_do; [split; [exact demo_stops|split; [vm_compute; reflexivity|apply log_nothing]]|].
    eapply rtc_seq; [eapply rtc_seq; [apply (rtc_sys _ _ _ 0); right; split; [done|split; [by eexists|done]]|]|].
    { eapply rtc_seq; apply rtc_refl. }
    eapply rtc_seq; [apply (rtc_sys _ _ _ tt), log_nothing|].
    assert (dtor demo_stopped = Ok demo_stopped) as -> by (vm_compute; reflexivity). apply rtc_refl. }
  exists o'. split; [exact Hr|].
  exact (main_cleans_up _ _ _ _ _ _ _ _ _ _ _ _ (Done 0) Hr eq_refl).
Defined.

Lemma daemonize_detaches_witness :
  exists o', rtc demo_pstep (Daemonize, demo_os) (Ret 0, o') /\ os_pid o' <> 100 /\
    (os_fds o' = os_fds demo_os \/
     (forall i, 0 <= i <= 2 -> os_fds o' !! i = Some dev_null) /\
     (forall i, 2 < i -> os_fds o' !! i = os_fds demo_os !! i)).
Proof.
  assert (exists o', rtc demo_pstep (Daemonize, demo_os) (Ret 0, o')) as (o' & Hr).
  { eexists. unfold Daemonize.
    eapply rtc_seq; [apply (rtc_sys _ _ _ 0); right; right; split; [done|by exists 101]|].
    eapply rtc_seq; [apply (rtc_sys _ _ _ 101); by right|].
    eapply rtc_seq; [apply (rtc_sys _ _ _ 3); right; split; [exact demo_free|done]|].
    do 3 (eapply rtc_seq; [apply rtc_sys; right; split; [done|eexists; by split]|]).
    eapply rtc_seq; [apply (rtc_sys _ _ _ 0); by right|]. apply rtc_refl. }
  exists o'. split; [exact Hr|].
  destruct (daemonize_detaches (fun _ => true) loopback demo_os _ o' (Done 0) Hr eq_refl eq_refl) as (Hp & _ & _ & Hfds).
  split; [exact Hp|exact Hfds].
Defined.
