(* ===== verification/Stress.v ===== *)
(** * The stress client

    [src/stress]: a program that keeps some thousand connections to a proxy and
    sends the same query over each of them again and again.  [RedisConnection]
    ([redis_conn.*]) is a state machine whose handlers are run by one event loop;
    [ConnectionKeeper] ([conn_keeper.*]) holds the connections and replaces closed
    ones.  A handler that throws ends the process ([LOG_FATAL] aborts). *)

From S2P Require Import Prelude CString RedisProtocol Utils.

(** [std::default_random_engine], which the library implementation chooses: a
    default-constructed engine always starts in the same state. *)
Class RandomEngine := {
  engine : Type;
  default_engine : engine;
  draw : engine -> Z * engine
}.

(** That of libstdc++ is [std::minstd_rand0]. *)
Definition minstd_rand0 : RandomEngine :=
  {| engine := Z; default_engine := 1;
     draw x := (16807 * x mod 2147483647, 16807 * x mod 2147483647) |}.

(** ** A connection *)
Module RedisConnection.
Section connection.
Context `{RandomEngine}.

(** The asynchronous operations a connection has started *)
Inductive op :=
| Connect
| Read
| Write (off len : Z)   (** of the bytes of [query_data_] *)
| RepeatTimer.

Record RedisConnection := mkRedisConnection {
  upstream_endpoint_ : Z * Z;
  query_data_ : bytes;
  query_written_bytes_ : Z;
  is_writing_ : bool;
  closed_ : bool;
  repeat_ : Z;
  rand_eng_ : engine;
  is_open : bool;         (** [socket_.is_open()] *)
  send_open : bool;       (** not shut down for sending *)
  pending : list op;
  wire : bytes            (** what has been sent *)
}.

Definition l_query_written_bytes x c := mkRedisConnection (upstream_endpoint_ c) (query_data_ c) x (is_writing_ c) (closed_ c) (repeat_ c) (rand_eng_ c) (is_open c) (send_open c) (pending c) (wire c).
Definition l_is_writing x c := mkRedisConnection (upstream_endpoint_ c) (query_data_ c) (query_written_bytes_ c) x (closed_ c) (repeat_ c) (rand_eng_ c) (is_open c) (send_open c) (pending c) (wire c).
Definition l_closed x c := mkRedisConnection (upstream_endpoint_ c) (query_data_ c) (query_written_bytes_ c) (is_writing_ c) x (repeat_ c) (rand_eng_ c) (is_open c) (send_open c) (pending c) (wire c).
Definition l_repeat x c := mkRedisConnection (upstream_endpoint_ c) (query_data_ c) (query_written_bytes_ c) (is_writing_ c) (closed_ c) x (rand_eng_ c) (is_open c) (send_open c) (pending c) (wire c).
Definition l_rand_eng x c := mkRedisConnection (upstream_endpoint_ c) (query_data_ c) (query_written_bytes_ c) (is_writing_ c) (closed_ c) (repeat_ c) x (is_open c) (send_open c) (pending c) (wire c).
Definition l_is_open x c := mkRedisConnection (upstream_endpoint_ c) (query_data_ c) (query_written_bytes_ c) (is_writing_ c) (closed_ c) (repeat_ c) (rand_eng_ c) x (send_open c) (pending c) (wire c).
Definition l_send_open x c := mkRedisConnection (upstream_endpoint_ c) (query_data_ c) (query_written_bytes_ c) (is_writing_ c) (closed_ c) (repeat_ c) (rand_eng_ c) (is_open c) x (pending c) (wire c).
Definition l_pending x c := mkRedisConnection (upstream_endpoint_ c) (query_data_ c) (query_written_bytes_ c) (is_writing_ c) (closed_ c) (repeat_ c) (rand_eng_ c) (is_open c) (send_open c) x (wire c).
Definition l_wire x c := mkRedisConnection (upstream_endpoint_ c) (query_data_ c) (query_written_bytes_ c) (is_writing_ c) (closed_ c) (repeat_ c) (rand_eng_ c) (is_open c) (send_open c) (pending c) x.

Definition start (o : op) (c : RedisConnection) : RedisConnection := l_pending (pending c ++ [o]) c.

Definition mget_query : bytes := enc_array [str "mget"; str "key1"; str "key2"].
Definition get_query : bytes := str "get key1 key2" ++ crlf.

(** The address and the port, [short] and then an unsigned 16-bit integer *)
Definition endpoint (from_string : bytes -> option Z) (host : bytes) (port : Z) : result (Z * Z) :=
  address ← of_option StdException (from_string host);
  Ok (address, port mod 2 ^ 16).

Definition ctor (upstream : Z * Z) : RedisConnection :=
  let '(r, e) := draw default_engine in
  mkRedisConnection upstream (if r mod 2 =? 0 then mget_query else get_query)
    0 false false 32768 e false true [] [].

(** [async_connect] opens the socket. *)
Definition Initialize (c : RedisConnection) : RedisConnection := start Connect (l_is_open true c).

Definition Create (from_string : bytes -> option Z) (host : bytes) (port : Z) : result RedisConnection :=
  upstream ← endpoint from_string host port;
  Ok (Initialize (ctor upstream)).

Definition Close (c : RedisConnection) : RedisConnection :=
  if closed_ c then c else l_is_open false (l_closed true c).

Definition AsyncRead (c : RedisConnection) : RedisConnection := start Read c.

Definition AsyncWrite (c : RedisConnection) : RedisConnection :=
  if is_writing_ c then c
  else
    let c := l_is_writing true c in
    if is_open c
    then start (Write (query_written_bytes_ c) (u64 (zlen (query_data_ c) - query_written_bytes_ c))) c
    else c.

(** [set_option] throws where the system refuses the option. *)
Definition SetSocketOptions (options_ok : bool) : result unit :=
  if options_ok then Ok tt else Fault StdException.

Definition OnConnected (error options_ok : bool) (c : RedisConnection) : result RedisConnection :=
  if error then Ok (l_closed true (l_is_open false c))
  else
    SetSocketOptions options_ok;;
    Ok (AsyncRead (AsyncWrite c)).

Definition OnRepeatTimer (error : bool) (c : RedisConnection) : RedisConnection :=
  if error then Close c
  else if closed_ c then c
  else AsyncWrite (l_query_written_bytes 0 c).

Definition HandleWrite (error : bool) (bytes_transferred : Z) (c : RedisConnection) : RedisConnection :=
  if error then Close c
  else
    let c := l_is_writing false c in
    let c := l_query_written_bytes (u64 (query_written_bytes_ c + bytes_transferred)) c in
    if query_written_bytes_ c <? zlen (query_data_ c) then AsyncWrite c
    else
      let c := l_repeat (s32 (repeat_ c - 1)) c in
      if 0 <? repeat_ c
      then start RepeatTimer (l_rand_eng (draw (rand_eng_ c)).2 c)
      else l_send_open false c.

(** Gives what is written to [std::cout] as well. *)
Definition HandleRead (error : bool) (received : bytes) (c : RedisConnection) : RedisConnection * bytes :=
  if error then (Close c, [])
  else (AsyncRead c, take 16 received).

(** *** Completions *)
Inductive outcome :=
| Failed (transferred : Z)
| Succeeded (received : bytes).

Definition kReadBufLength : Z := 64 * 1024.

(** A cancelled timer fails, other operations may fail at any time; what was
    already under way when the socket was closed may still succeed. *)
Definition may (c : RedisConnection) (o : op) (r : outcome) : bool :=
  match o, r with
  | Read, Succeeded received => (0 <? zlen received) && (zlen received <=? kReadBufLength)
  | Write _ len, Failed n => (0 <=? n) && (n <? len)
  | RepeatTimer, Failed _ => closed_ c
  | _, _ => true
  end.

Definition put (off n : Z) (c : RedisConnection) : RedisConnection :=
  l_wire (wire c ++ slice (query_data_ c) off (off + n)) c.

Definition complete (o : op) (r : outcome) (options_ok : bool) (c : RedisConnection) :
    result (RedisConnection * bytes) :=
  match o, r with
  | Connect, Failed _ => c ← OnConnected true options_ok c; Ok (c, [])
  | Connect, Succeeded _ => c ← OnConnected false options_ok c; Ok (c, [])
  | Read, Failed _ => Ok (HandleRead true [] c)
  | Read, Succeeded received => Ok (HandleRead false received c)
  | Write off _, Failed n => Ok (HandleWrite true n (put off n c), [])
  | Write off len, Succeeded _ => Ok (HandleWrite false len (put off len c), [])
  | RepeatTimer, Failed _ => Ok (OnRepeatTimer true c, [])
  | RepeatTimer, Succeeded _ => Ok (OnRepeatTimer false c, [])
  end.
End connection.
End RedisConnection.
Import RedisConnection.

(** ** The connections *)
Section keeper.
Context `{RandomEngine} (from_string : bytes -> option Z).

(** The keeper, the connection objects in the order of their creation, and
    whether the check timer runs *)
Record ConnectionKeeper := mkConnectionKeeper {
  host_ : bytes;
  port_ : Z;
  concurrency_ : Z;
  next_check_ : nat;
  topic_conn_ : list nat;
  objects : list RedisConnection;
  check_timer_ : bool;
  cout : bytes
}.

Definition Keeper_ctor (host : bytes) (port concurrency : Z) : ConnectionKeeper :=
  mkConnectionKeeper host port concurrency 0 [] [] false [].

Definition l_objects x k := mkConnectionKeeper (host_ k) (port_ k) (concurrency_ k) (next_check_ k) (topic_conn_ k) x (check_timer_ k) (cout k).
Definition l_topic_conn x k := mkConnectionKeeper (host_ k) (port_ k) (concurrency_ k) (next_check_ k) x (objects k) (check_timer_ k) (cout k).
Definition l_next_check x k := mkConnectionKeeper (host_ k) (port_ k) (concurrency_ k) x (topic_conn_ k) (objects k) (check_timer_ k) (cout k).
Definition l_check_timer x k := mkConnectionKeeper (host_ k) (port_ k) (concurrency_ k) (next_check_ k) (topic_conn_ k) (objects k) x (cout k).
Definition l_cout x k := mkConnectionKeeper (host_ k) (port_ k) (concurrency_ k) (next_check_ k) (topic_conn_ k) (objects k) (check_timer_ k) x.

(** The new connection's place among the objects *)
Definition new_connection (k : ConnectionKeeper) : result (nat * ConnectionKeeper) :=
  c ← Create from_string (host_ k) (port_ k);
  Ok (length (objects k), l_objects (objects k ++ [c]) k).

Fixpoint start_connections (n : nat) (k : ConnectionKeeper) : result ConnectionKeeper :=
  match n with
  | O => Ok k
  | S n =>
      '(i, k) ← new_connection k;
      start_connections n (l_topic_conn (topic_conn_ k ++ [i]) k)
  end.

Definition Start (k : ConnectionKeeper) : result ConnectionKeeper :=
  k ← start_connections (Z.to_nat (concurrency_ k)) k;
  Ok (l_check_timer true k).

Definition CheckNextConnection (k : ConnectionKeeper) : result ConnectionKeeper :=
  i ← of_option OutOfBounds (topic_conn_ k !! next_check_ k);
  conn ← of_option NullDeref (objects k !! i);
  k ← (if closed_ conn then
         '(j, k) ← new_connection k;
         Ok (l_topic_conn (<[next_check_ k := j]> (topic_conn_ k)) k)
       else Ok k);
  Ok (l_next_check ((next_check_ k + 1) mod length (topic_conn_ k))%nat k).

Fixpoint check_connections (n : nat) (k : ConnectionKeeper) : result ConnectionKeeper :=
  match n with
  | O => Ok k
  | S n => k ← CheckNextConnection k; check_connections n k
  end.

Definition OnCheckTimer (k : ConnectionKeeper) : result ConnectionKeeper :=
  let round := Z.min 100 (concurrency_ k / 20) in
  let round := if round <=? 0 then 1 else round in
  k ← check_connections (Z.to_nat round) k;
  Ok (l_check_timer true k).

(** *** The event loop *)
Inductive event :=
| EvOp (i n : nat) (r : outcome) (options_ok : bool)   (** the [n]-th operation of object [i] *)
| EvCheck.

Definition enabled (k : ConnectionKeeper) (e : event) : bool :=
  match e with
  | EvOp i n r _ =>
      match objects k !! i with
      | Some c => match pending c !! n with Some o => may c o r | None => false end
      | None => false
      end
  | EvCheck => check_timer_ k
  end.

Definition handle (e : event) (k : ConnectionKeeper) : result ConnectionKeeper :=
  match e with
  | EvOp i n r options_ok =>
      c ← of_option NullDeref (objects k !! i);
      o ← of_option NullDeref (pending c !! n);
      '(c, printed) ← complete o r options_ok (l_pending (delete n (pending c)) c);
      Ok (l_cout (cout k ++ printed) (l_objects (<[i := c]> (objects k)) k))
  | EvCheck => OnCheckTimer (l_check_timer false k)
  end.

(** The function of [proxy/utils.cc], repeated word for word in [stress/main.cc] *)
Definition MaximizeFdLimit : (rlimit -> bool) -> option rlimit -> result (option rlimit) :=
  Utils.MaximizeFdLimit.

(** [main], up to the event loop *)
Definition main_init (setrlimit_ok : rlimit -> bool) (lim : option rlimit) :
    result (option rlimit * ConnectionKeeper) :=
  lim ← MaximizeFdLimit setrlimit_ok lim;
  k ← Start (Keeper_ctor (str "127.0.0.1") 11311 5000);
  Ok (lim, k).

Inductive reachable (host : bytes) (port concurrency : Z) : ConnectionKeeper -> Prop :=
| reachable_start k :
    Start (Keeper_ctor host port concurrency) = Ok k -> reachable host port concurrency k
| reachable_event k e k' :
    reachable host port concurrency k -> enabled k e = true -> handle e k = Ok k' ->
    reachable host port concurrency k'.
End keeper.

(** ** What a connection sends *)

(** What the sending side of a connection waits for *)
Definition sends (o : op) : bool := match o with Read => false | _ => true end.
Section connections.
Context {RE : RandomEngine}.
Implicit Types c : RedisConnection.

Definition senders (c : RedisConnection) : list op := filter (fun o => sends o = true) (pending c).
Definition readers (c : RedisConnection) : list op := filter (fun o => sends o = false) (pending c).

Definition whole_queries (n : Z) c : bytes := concat (replicate (Z.to_nat n) (query_data_ c)).

Arguments senders : simpl never.
Arguments readers : simpl never.

(** [part] is what a failed write has sent of one more query. *)
Record conn_inv c : Prop := {
  ci_repeat : 0 <= repeat_ c <= 32768;
  ci_small : 0 < zlen (query_data_ c) < 2 ^ 31;
  ci_wire : exists part, wire c = whole_queries (32768 - repeat_ c) c ++ part /\
    part `prefix_of` query_data_ c /\ (closed_ c = false -> part = []) /\ (senders c <> [] -> part = []);
  ci_open : is_open c = negb (closed_ c);
  ci_shut : send_open c = bool_decide (0 < repeat_ c);
  ci_reads : (length (readers c) <= 1)%nat;
  ci_reading : closed_ c = false -> senders c <> [Connect] -> length (readers c) = 1%nat;
  ci_senders :
    match senders c with
    | [Connect] => pending c = [Connect] /\ closed_ c = false /\ repeat_ c = 32768 /\
                   is_writing_ c = false /\ query_written_bytes_ c = 0
    | [Write off len] => is_writing_ c = true /\ query_written_bytes_ c = 0 /\ off = 0 /\
                         len = zlen (query_data_ c) /\ 0 < repeat_ c
    | [RepeatTimer] => is_writing_ c = false /\ 0 < repeat_ c
    | [] => closed_ c = true \/ repeat_ c = 0
    | _ => False
    end
}.

(** An operation that completes leaves the list. *)
Lemma filter_delete {A} (P : A -> Prop) `{!forall x, Decision (P x)} (l : list A) n x :
  l !! n = Some x ->
  exists l1 l2, filter P l = l1 ++ filter P [x] ++ l2 /\ filter P (delete n l) = l1 ++ l2.
Proof.
  intros Hx. exists (filter P (take n l)), (filter P (drop (S n) l)).
  rewrite <- (take_drop_middle l n x Hx) at 1. rewrite delete_take_drop, !filter_app. split; [|done].
  f_equal. by rewrite <- filter_app.
Qed.

Lemma delete_reader c n :
  conn_inv c -> pending c !! n = Some Read ->
  let c0 := l_pending (delete n (pending c)) c in senders c0 = senders c /\ readers c0 = [].
Proof.
  intros Hi Hn. cbn. unfold senders, readers. cbn. split.
  - destruct (filter_delete (fun o => sends o = true) _ _ _ Hn) as (l1 & l2 & -> & ->).
    by rewrite filter_cons_False.
  - pose proof (ci_reads c Hi) as Hl. unfold readers in Hl.
    destruct (filter_delete (fun o => sends o = false) _ _ _ Hn) as (l1 & l2 & He & ->).
    rewrite He, filter_cons_True, filter_nil in Hl by done. rewrite length_app in Hl. cbn in Hl.
    by destruct l1, l2; cbn in Hl; try lia.
Qed.

Lemma delete_sender c n o :
  conn_inv c -> pending c !! n = Some o -> sends o = true ->
  let c0 := l_pending (delete n (pending c)) c in
  senders c = [o] /\ senders c0 = [] /\ readers c0 = readers c.
Proof.
  intros Hi Hn Ho. cbn. unfold senders, readers. cbn.
  destruct (filter_delete (fun o => sends o = true) _ _ _ Hn) as (l1 & l2 & He & ->).
  destruct (filter_delete (fun o => sends o = false) _ _ _ Hn) as (r1 & r2 & -> & ->).
  rewrite filter_cons_True, filter_nil in He by done. rewrite filter_cons_False, filter_nil by (by rewrite Ho).
  pose proof (ci_senders c Hi) as Hs. unfold senders in Hs. rewrite He in *.
  assert (l1 = [] /\ l2 = []) as [-> ->]; [|done].
  destruct l1 as [|[] [|]], l2, o; done.
Qed.

Lemma senders_of c c' : pending c = pending c' -> senders c = senders c'.
Proof. unfold senders. by intros ->. Qed.
Lemma senders_start o c : senders (start o c) = senders c ++ (if sends o then [o] else []).
Proof. unfold senders, start. cbn. rewrite filter_app. by destruct o. Qed.
Lemma readers_start o c : readers (start o c) = readers c ++ (if sends o then [] else [o]).
Proof. unfold readers, start. cbn. rewrite filter_app. by destruct o. Qed.

(** Closing, after the last of the sending operations has completed *)
Lemma inv_close c part :
  0 <= repeat_ c <= 32768 -> 0 < zlen (query_data_ c) < 2 ^ 31 ->
  wire c = whole_queries (32768 - repeat_ c) c ++ part -> part `prefix_of` query_data_ c ->
  is_open c = negb (closed_ c) -> send_open c = bool_decide (0 < repeat_ c) ->
  (length (readers c) <= 1)%nat -> senders c = [] -> conn_inv (Close c).
Proof.
  intros Hr Hq Hw Hp Ho Hs Hl Hse. unfold Close. destruct (closed_ c) eqn:Hc.
  - split; try done; try (by rewrite Ho, Hc); try (by rewrite Hc); [by exists part; rewrite Hc, Hse|].
    rewrite Hse. by left.
  - unfold senders in *. split; unfold senders; cbn; try done; [by exists part; rewrite Hse|].
    rewrite Hse. by left.
Qed.

Lemma whole_wire c :
  wire c = whole_queries (32768 - repeat_ c) c ->
  exists part, wire c = whole_queries (32768 - repeat_ c) c ++ part /\ part `prefix_of` query_data_ c /\
    (closed_ c = false -> part = []) /\ (senders c <> [] -> part = []).
Proof. intros Hw. exists []. rewrite app_nil_r. split_and!; [done|apply prefix_nil|done..]. Qed.

Lemma inv_connected error options_ok c n c' :
  conn_inv c -> pending c !! n = Some Connect ->
  OnConnected error options_ok (l_pending (delete n (pending c)) c) = Ok c' -> conn_inv c'.
Proof.
  intros Hi Hn H. destruct (delete_sender c n _ Hi Hn eq_refl) as (Hs & _ & _).
  pose proof Hi as [I1 I2 (part & I3 & I4 & I5 & I6) I7 I8 I9 _ I11]. rewrite Hs in I11.
  destruct I11 as (Hp & Hc & H5 & Hw & Hz). rewrite (I5 Hc), app_nil_r in I3. clear I4 I5 I6.
  assert (n = O) as -> by (rewrite Hp in Hn; by destruct n as [|[]]). rewrite Hp in H.
  unfold OnConnected, AsyncWrite in H. cbn in H. rewrite Hw, I7, Hc in H. cbn in H.
  destruct error; [|destruct options_ok]; cbn in H; ok_inv;
    (split; try done; try (by apply whole_wire); cbn; try lia; try (by left)).
  - unfold readers. cbn. lia.
  - rewrite Hz, Z.sub_0_r, u64_small by lia. unfold AsyncRead. rewrite !senders_start. cbn.
    split_and!; try done. lia.
Qed.

Lemma inv_read error received c n :
  conn_inv c -> pending c !! n = Some Read ->
  conn_inv (HandleRead error received (l_pending (delete n (pending c)) c)).1.
Proof.
  intros Hi Hn. destruct (delete_reader c n Hi Hn) as [Hs Hr].
  assert (senders c <> [Connect]) as Hnc.
  { intros He. pose proof (ci_senders c Hi) as Hse. rewrite He in Hse. destruct Hse as [Hp _].
    rewrite Hp in Hn. by destruct n as [|[]]. }
  destruct Hi as [I1 I2 I3 I4 I5 I6 I7 I8].
  set (c0 := l_pending (delete n (pending c)) c) in *. unfold HandleRead.
  destruct error; cbn; [unfold Close; destruct (closed_ c0) eqn:Hc|].
  - split; try done; [by rewrite Hs|by rewrite Hr; cbn; lia|by rewrite Hc|].
    rewrite Hs. by destruct (senders c) as [|[] [|]].
  - destruct I3 as (part & I3 & Ip & Io & Iz).
    split; change (senders (l_is_open false (l_closed true c0))) with (senders c0);
      change (readers (l_is_open false (l_closed true c0))) with (readers c0); rewrite ?Hs, ?Hr; try done.
    + by exists part.
    + cbn. lia.
    + destruct (senders c) as [|[] [|]]; try done. by left.
  - unfold AsyncRead. split; try done; rewrite ?senders_start, ?readers_start, ?Hs, ?Hr, ?app_nil_r; cbn; try done; try lia.
    destruct (senders c) as [|[] [|]]; done.
Qed.

Lemma whole_queries_snoc n c : 0 <= n -> whole_queries n c ++ query_data_ c = whole_queries (n + 1) c.
Proof.
  intros Hn. unfold whole_queries. replace (Z.to_nat (n + 1)) with (Z.to_nat n + 1)%nat by lia.
  rewrite replicate_add, concat_app. cbn. by rewrite app_nil_r.
Qed.

Lemma inv_written error k c n off len :
  conn_inv c -> pending c !! n = Some (Write off len) ->
  (if error : bool then 0 <= k < len else k = len) ->
  conn_inv (HandleWrite error k (put off k (l_pending (delete n (pending c)) c))).
Proof.
  intros Hi Hn Hk. destruct (delete_sender c n _ Hi Hn eq_refl) as (Hs & Hs0 & Hr0).
  pose proof (ci_reading c Hi) as Hrd. destruct Hi as [I1 I2 (part & I3 & _ & _ & I6) I7 I8 I9 _ I11].
  rewrite Hs in *. destruct I11 as (Hw & Hz & -> & -> & Hpos). rewrite I6, app_nil_r in I3 by done.
  set (c0 := l_pending (delete n (pending c)) c) in *. rewrite <- Hr0 in I9, Hrd.
  unfold HandleWrite. destruct error.
  { apply (inv_close _ (slice (query_data_ c) 0 (0 + k))); try done; [cbn; by rewrite I3|].
    unfold slice. apply prefix_take. }
  subst k. cbn. rewrite Hz, u64_small, Z.ltb_irrefl, s32_small by lia.
  assert (slice (query_data_ c) 0 (zlen (query_data_ c)) = query_data_ c) as Hsl
    by (unfold slice, zlen; rewrite Z.sub_0_r, Nat2Z.id; apply firstn_all).
  assert (wire c ++ query_data_ c = whole_queries (32768 - (repeat_ c - 1)) c) as Hwire.
  { rewrite I3, whole_queries_snoc by lia. f_equal. lia. }
  destruct (Z.ltb_spec 0 (repeat_ c - 1)).
  - split; try done; try (apply whole_wire; cbn; rewrite Z.add_0_l, Hsl; exact Hwire); cbn; try lia.
    + rewrite I8. rewrite !bool_decide_true by lia. done.
    + rewrite readers_start. cbn. rewrite app_nil_r. exact I9.
    + intros Hc _. rewrite readers_start. cbn. rewrite app_nil_r. by apply Hrd.
    + rewrite senders_start, (senders_of _ c0), Hs0 by done. split; [done|cbn; lia].
  - split; try done; try (apply whole_wire; cbn; rewrite Z.add_0_l, Hsl; exact Hwire); cbn; try lia.
    + by rewrite bool_decide_false by lia.
    + intros Hc _. by apply Hrd.
    + change (senders _) with (senders c0). rewrite Hs0. right. lia.
Qed.

Lemma inv_timer error c n :
  conn_inv c -> pending c !! n = Some RepeatTimer -> (error = true -> closed_ c = true) ->
  conn_inv (OnRepeatTimer error (l_pending (delete n (pending c)) c)).
Proof.
  intros Hi Hn He. destruct (delete_sender c n _ Hi Hn eq_refl) as (Hs & Hs0 & Hr0).
  pose proof (ci_reading c Hi) as Hrd. destruct Hi as [I1 I2 (part & I3 & _ & _ & I6) I7 I8 I9 _ I11].
  rewrite Hs in *. destruct I11 as (Hw & Hpos). rewrite I6, app_nil_r in I3 by done.
  set (c0 := l_pending (delete n (pending c)) c) in *. rewrite <- Hr0 in I9, Hrd. unfold OnRepeatTimer.
  assert (closed_ c = true -> conn_inv c0) as Hcl.
  { intros Hc. split; try done.
    - by apply whole_wire.
    - cbn. by rewrite Hc.
    - rewrite Hs0. by left. }
  assert (closed_ c0 = closed_ c) as Hcc by done. rewrite Hcc.
  destruct error; [unfold Close; rewrite Hcc, He by done; by apply Hcl, He|].
  destruct (closed_ c) eqn:Hc; [by apply Hcl|]. unfold AsyncWrite.
  cbn. rewrite Hw, I7. cbn.
  rewrite Z.sub_0_r, u64_small by lia.
  split; try done; try (by apply whole_wire); cbn; try (by rewrite I7, Hc).
  - rewrite readers_start. cbn. rewrite app_nil_r. exact I9.
  - intros _ _. rewrite readers_start. cbn. rewrite app_nil_r. by apply Hrd.
  - rewrite senders_start, (senders_of _ c0), Hs0 by done. done.
Qed.

Lemma inv_complete c n o r options_ok c' printed :
  conn_inv c -> pending c !! n = Some o -> may c o r = true ->
  complete o r options_ok (l_pending (delete n (pending c)) c) = Ok (c', printed) -> conn_inv c'.
Proof.
  intros Hi Hn Hm Hc. destruct o, r; cbn [complete] in Hc.
  - apply bind_Ok in Hc as (c1 & Hc & [= <- _]). by eapply inv_connected.
  - apply bind_Ok in Hc as (c1 & Hc & [= <- _]). by eapply inv_connected.
  - injection Hc as <- _. exact (inv_read true [] c n Hi Hn).
  - injection Hc as <- _. exact (inv_read false received c n Hi Hn).
  - injection Hc as <- _. apply (inv_written true _ c n off len Hi Hn). cbn in Hm. lia.
  - injection Hc as <- _. by apply (inv_written false _ c n off len Hi Hn).
  - injection Hc as <- _. by apply (inv_timer true).
  - injection Hc as <- _. by apply (inv_timer false).
Qed.

(** Every connection is given the same query: its engine is default-constructed,
    and the query is chosen by its first number. *)
Definition first_query : bytes := query_data_ (ctor (0, 0)).

Lemma Close_query c : query_data_ (Close c) = query_data_ c.
Proof. unfold Close. by destruct (closed_ c). Qed.
Lemma AsyncWrite_query c : query_data_ (AsyncWrite c) = query_data_ c.
Proof. unfold AsyncWrite. destruct (is_writing_ c); [done|]. cbn. by destruct (is_open c). Qed.

Lemma complete_query o r options_ok c c' printed :
  complete o r options_ok c = Ok (c', printed) -> query_data_ c' = query_data_ c.
Proof.
  intros Hc. destruct o, r; cbn [complete] in Hc;
    try (apply bind_Ok in Hc as (c1 & Hc & [= <- _]); unfold OnConnected, SetSocketOptions in Hc;
         try destruct options_ok; cbn in Hc; ok_inv; cbn; by rewrite ?AsyncWrite_query);
    injection Hc as <- _; unfold HandleWrite, HandleRead, OnRepeatTimer; cbn;
    repeat case_match; cbn; by rewrite ?Close_query, ?AsyncWrite_query.
Qed.

Lemma ctor_query upstream : query_data_ (ctor upstream) = first_query.
Proof. unfold first_query, ctor. by destruct (draw default_engine). Qed.

Lemma first_query_small : 0 < zlen first_query < 2 ^ 31.
Proof. unfold first_query, ctor. destruct (draw default_engine) as [r e]. cbn. by destruct (r mod 2 =? 0). Qed.

Lemma Create_inv from_string host port c :
  Create from_string host port = Ok c -> conn_inv c /\ query_data_ c = first_query.
Proof.
  intros (upstream & _ & [= <-])%bind_Ok. pose proof (ctor_query upstream) as Hq. pose proof first_query_small.
  split; [|by rewrite <- Hq]. unfold ctor in *. destruct (draw default_engine) as [r e].
  revert Hq. generalize (if r mod 2 =? 0 then mget_query else get_query) as q. intros q Hq.
  cbn in Hq. subst q. split; try done; try (by apply whole_wire); cbn; try lia.
  apply Nat.le_0_l.
Qed.
End connections.

(** ** The keeper *)
Section keepers.
Context {RE : RandomEngine} (from_string : bytes -> option Z) (host : bytes) (port concurrency : Z).
Implicit Types (k : ConnectionKeeper) (c : RedisConnection).

Definition conn_ok c : Prop := conn_inv c /\ query_data_ c = first_query.

Record keeper_inv k : Prop := {
  kp_slots : length (topic_conn_ k) = Z.to_nat (concurrency_ k);
  kp_valid : Forall (fun i => (i < length (objects k))%nat) (topic_conn_ k);
  kp_next : next_check_ k = O \/ (next_check_ k < length (topic_conn_ k))%nat;
  kp_conns : Forall conn_ok (objects k)
}.

Lemma new_connection_inv k i k' :
  new_connection from_string k = Ok (i, k') -> Forall conn_ok (objects k) ->
  i = length (objects k) /\
  exists c, k' = l_objects (objects k ++ [c]) k /\ conn_ok c /\ closed_ c = false.
Proof.
  unfold new_connection. intros (c & Hc & [= <- <-])%bind_Ok Hk. split; [done|]. exists c. split; [done|].
  split; [by eapply Create_inv|]. apply bind_Ok in Hc as (u & _ & [= <-]). unfold ctor. by destruct (draw _).
Qed.

Lemma valid_snoc {A} (l : list A) x ids :
  Forall (fun i => (i < length l)%nat) ids -> Forall (fun i => (i < length (l ++ [x]))%nat) ids.
Proof. intros Hi. eapply Forall_impl; [exact Hi|]. cbn. intros i. rewrite length_app. cbn. lia. Qed.

Lemma start_connections_inv n : forall k k',
  start_connections from_string n k = Ok k' -> next_check_ k = O ->
  Forall (fun i => (i < length (objects k))%nat) (topic_conn_ k) -> Forall conn_ok (objects k) ->
  length (topic_conn_ k') = (length (topic_conn_ k) + n)%nat /\ next_check_ k' = O /\
  concurrency_ k' = concurrency_ k /\
  Forall (fun i => (i < length (objects k'))%nat) (topic_conn_ k') /\ Forall conn_ok (objects k').
Proof.
  induction n as [|n IH]; intros k k' Hs Hn Hv Hc; cbn in Hs; [ok_inv; rewrite Nat.add_0_r; done|].
  apply bind_Ok in Hs as ([i k1] & H1 & Hs). destruct (new_connection_inv k i k1 H1 Hc) as (-> & c & -> & Hok & _).
  apply IH in Hs as (-> & H2 & -> & H4 & H5); [|done|..]; cbn.
  - rewrite length_app. cbn. split; [lia|]. done.
  - apply Forall_app. split; [by apply valid_snoc|]. constructor; [|done]. rewrite length_app. cbn. lia.
  - apply Forall_app. by split; [|constructor].
Qed.

Lemma Start_inv k : Start from_string (Keeper_ctor host port concurrency) = Ok k -> keeper_inv k.
Proof.
  intros (k1 & H1 & [= <-])%bind_Ok.
  apply start_connections_inv in H1 as (Hl & Hn & Hc & Hv & Hok); [|done|constructor..].
  split; cbn; try done; [by rewrite Hl, Hc|by left].
Qed.

(** What the check of one slot does *)
Lemma CheckNextConnection_inv k k' :
  CheckNextConnection from_string k = Ok k' -> keeper_inv k ->
  keeper_inv k' /\ concurrency_ k' = concurrency_ k /\
  next_check_ k' = ((next_check_ k + 1) mod length (topic_conn_ k))%nat /\
  objects k `prefix_of` objects k' /\
  (exists i c, topic_conn_ k' !! next_check_ k = Some i /\ objects k' !! i = Some c /\ closed_ c = false) /\
  (forall j, j <> next_check_ k -> topic_conn_ k' !! j = topic_conn_ k !! j).
Proof.
  intros Hch [K1 K2 K3 K4]. unfold CheckNextConnection in Hch.
  apply bind_Ok in Hch as (i & Hi%of_option_Ok & Hch). apply bind_Ok in Hch as (c & Hc%of_option_Ok & Hch).
  apply bind_Ok in Hch as (k1 & H1 & [= <-]). pose proof (lookup_lt_Some _ _ _ Hi) as Hlt.
  destruct (closed_ c) eqn:Hcl; [|injection H1 as <-].
  - apply bind_Ok in H1 as ([j k2] & H2 & [= <-]).
    destruct (new_connection_inv k j k2 H2 K4) as (-> & c' & -> & Hok & Hop). cbn. rewrite length_insert.
    split_and!; try done; [|by apply prefix_app_r| |intros j Hj; by rewrite list_lookup_insert_ne].
    + split; cbn; rewrite ?length_insert; [done| | |apply Forall_app; by split; [|constructor]].
      * apply Forall_insert; [by apply valid_snoc|]. rewrite length_app. cbn. lia.
      * right. apply Nat.mod_upper_bound. lia.
    + exists (length (objects k)), c'. rewrite list_lookup_insert_eq by done. rewrite lookup_app_r by lia.
      by rewrite Nat.sub_diag.
  - cbn. split_and!; try done; [|by exists i, c]. split; cbn; try done. right. apply Nat.mod_upper_bound. lia.
Qed.

Lemma check_connections_inv n : forall k k',
  check_connections from_string n k = Ok k' -> keeper_inv k -> keeper_inv k'.
Proof.
  induction n as [|n IH]; intros k k' H Hk; cbn in H; [by ok_inv|]. apply bind_Ok in H as (k1 & H1 & H).
  eapply IH; [exact H|]. by eapply CheckNextConnection_inv.
Qed.

Lemma handle_inv e k k' : handle from_string e k = Ok k' -> enabled k e = true -> keeper_inv k -> keeper_inv k'.
Proof.
  intros Hh He Hk. destruct e as [i n r options_ok|]; cbn in Hh, He.
  - destruct (objects k !! i) as [c|] eqn:Hc; [|done]. cbn in Hh. destruct (pending c !! n) as [o|] eqn:Ho; [|done].
    apply bind_Ok in Hh as (o' & [= <-] & Hh). apply bind_Ok in Hh as ([c' printed] & Hco & [= <-]). destruct Hk as [K1 K2 K3 K4].
    pose proof (Forall_lookup_1 _ _ _ _ K4 Hc) as [Hci Hcq]. split; cbn; rewrite ?length_insert; try done.
    apply Forall_insert; [done|]. split; [by eapply inv_complete|]. by rewrite (complete_query _ _ _ _ _ _ Hco).
  - apply bind_Ok in Hh as (k1 & H1 & [= <-]). apply check_connections_inv in H1; [by destruct H1|by destruct Hk].
Qed.

Lemma reachable_inv k : reachable from_string host port concurrency k -> keeper_inv k.
Proof. induction 1; [by eapply Start_inv|by eapply handle_inv]. Qed.

(** *** Every slot has its turn *)
Definition slot_open k (j : nat) : Prop :=
  exists i c, topic_conn_ k !! j = Some i /\ objects k !! i = Some c /\ closed_ c = false.

Lemma CheckNextConnection_open k k' j :
  CheckNextConnection from_string k = Ok k' -> keeper_inv k -> slot_open k j \/ j = next_check_ k ->
  slot_open k' j.
Proof.
  intros Hch Hk Hj. destruct (CheckNextConnection_inv k k' Hch Hk) as (_ & _ & _ & Hpre & Hnew & Hold).
  destruct (decide (j = next_check_ k)) as [->|Hne]; [exact Hnew|]. destruct Hj as [(i & c & Hi & Hc & Hcl)|]; [|done].
  exists i, c. rewrite Hold by done. split; [done|]. split; [|done]. by eapply prefix_lookup_Some.
Qed.

Lemma CheckNextConnection_total k :
  keeper_inv k -> 0 < concurrency_ k -> is_Some (from_string (host_ k)) ->
  exists k', CheckNextConnection from_string k = Ok k' /\ host_ k' = host_ k.
Proof.
  intros [K1 K2 K3 K4] Hpos [a Ha]. unfold CheckNextConnection.
  destruct (lookup_lt_is_Some_2 (topic_conn_ k) (next_check_ k)) as [i Hi]; [lia|].
  pose proof (Forall_lookup_1 _ _ _ _ K2 Hi) as Hlt. cbn in Hlt.
  destruct (lookup_lt_is_Some_2 (objects k) i Hlt) as [c Hc]. rewrite Hi. cbn. rewrite Hc. cbn.
  destruct (closed_ c); [|by eexists]. unfold new_connection, Create, endpoint. rewrite Ha. cbn. by eexists.
Qed.

Lemma check_connections_open n : forall k,
  keeper_inv k -> 0 < concurrency_ k -> is_Some (from_string (host_ k)) ->
  exists k', check_connections from_string n k = Ok k' /\ keeper_inv k' /\
    concurrency_ k' = concurrency_ k /\
    forall j, slot_open k j \/ (exists d, (d < n)%nat /\ j = (next_check_ k + d) mod Z.to_nat (concurrency_ k))%nat ->
      slot_open k' j.
Proof.
  induction n as [|n IH]; intros k Hk Hpos Hs.
  { exists k. split; [done|]. split; [done|]. split; [done|]. intros j [?|(d & ? & _)]; [done|lia]. }
  destruct (CheckNextConnection_total k Hk Hpos Hs) as (k1 & H1 & Hh).
  destruct (CheckNextConnection_inv k k1 H1 Hk) as (Hk1 & Hc1 & Hn1 & _).
  destruct (IH k1) as (k' & H2 & Hk' & Hc' & Hop); [done|by rewrite Hc1|by rewrite Hh|].
  exists k'. cbn. rewrite H1. split; [done|]. split; [done|]. split; [by rewrite Hc'|]. intros j Hj. apply Hop.
  destruct Hj as [Hj|(d & Hd & ->)]; [left; eapply CheckNextConnection_open; eauto|].
  pose proof (kp_slots k Hk) as Hl. pose proof (kp_next k Hk) as Hnx. destruct d as [|d].
  - left. eapply CheckNextConnection_open; [done..|]. right. rewrite Nat.add_0_r, Nat.mod_small; lia.
  - right. exists d. split; [lia|]. rewrite Hn1, Hc1, Hl, Nat.Div0.add_mod_idemp_l. f_equal. lia.
Qed.
End keepers.

(** C33: a connection of the stress client sends whole queries, one at a time, and at
    most 32768 of them.  In every state the process can reach, what a connection
    has sent is its query some number of times, followed by a part of it only if a
    write has failed and the connection is closed; an open connection that has not
    sent all of them waits for exactly one thing: to be connected, for a write of
    the whole query, or for the timer, and once connected it is always reading.
    The query is the same for all connections. *)
Theorem stress_sends_whole_queries {RE : RandomEngine} from_string host port concurrency k i c :
  reachable from_string host port concurrency k -> objects k !! i = Some c ->
  query_data_ c = first_query /\ 0 <= repeat_ c <= 32768 /\
  (exists part, wire c = whole_queries (32768 - repeat_ c) c ++ part /\ part `prefix_of` query_data_ c /\
     (closed_ c = false -> part = [])) /\
  (length (senders c) <= 1)%nat /\ (length (readers c) <= 1)%nat /\
  (closed_ c = false -> 0 < repeat_ c ->
     senders c = [Connect] /\ readers c = [] \/
     (senders c = [Write 0 (zlen (query_data_ c))] \/ senders c = [RepeatTimer]) /\ readers c = [Read]).
Proof.
  intros Hr Hc. pose proof (reachable_inv _ _ _ _ _ Hr) as [_ _ _ Hok].
  destruct (Forall_lookup_1 _ _ _ _ Hok Hc) as [[I1 I2 (part & I3 & I4 & I5 & I6) I7 I8 I9 I10 I11] Hq].
  split; [done|]. split; [done|]. split; [by exists part|].
  assert (forall o, o ∈ readers c -> o = Read) as Hrd by (intros o [Ho _]%list_elem_of_filter; by destruct o).
  split; [destruct (senders c) as [|[] [|]]; cbn; first [lia|done]|]. split; [done|]. intros Ho Hpos.
  assert (senders c <> [Connect] -> readers c = [Read]) as Hone.
  { intros Hn. specialize (I10 Ho Hn). destruct (readers c) as [|o [|]]; try done. f_equal. apply Hrd. set_solver. }
  destruct (senders c) as [|[] [|]] eqn:Hs; try done.
  - exfalso. destruct I11; [congruence|lia].
  - left. split; [done|]. unfold readers. destruct I11 as [-> _]. done.
  - right. destruct I11 as (_ & _ & -> & -> & _). split; [by left|by apply Hone].
  - right. split; [by right|by apply Hone].
Qed.

(** The keeper looks at every slot in turn: whatever state the process is in, one
    check per slot leaves no slot with a closed connection. *)
Theorem keeper_replaces_closed {RE : RandomEngine} from_string host port concurrency k :
  reachable from_string host port concurrency k -> 0 < concurrency_ k -> is_Some (from_string (host_ k)) ->
  exists k', check_connections from_string (Z.to_nat (concurrency_ k)) k = Ok k' /\
    forall j, (j < length (topic_conn_ k'))%nat -> slot_open k' j.
Proof.
  intros Hr Hpos Hs. pose proof (reachable_inv _ _ _ _ _ Hr) as Hk. set (n := Z.to_nat (concurrency_ k)).
  destruct (check_connections_open from_string n k Hk Hpos Hs) as (k' & H & Hk' & Hc & Hop).
  exists k'. split; [done|]. intros j Hj. rewrite (kp_slots k' Hk'), Hc in Hj. fold n in Hj. apply Hop. right.
  pose proof (kp_next k Hk) as Hnx. rewrite (kp_slots k Hk) in Hnx. fold n in Hnx. set (a := next_check_ k) in *.
  fold n. destruct (decide (a <= j)%nat).
  - exists (j - a)%nat. split; [lia|]. rewrite Nat.mod_small; lia.
  - exists (n - a + j)%nat. split; [lia|]. replace (a + (n - a + j))%nat with (j + 1 * n)%nat by lia.
    rewrite Nat.Div0.mod_add, Nat.mod_small; lia.
Qed.

(** ** A run with the engine of libstdc++ *)
Definition local_host (host : bytes) : option Z :=
  if bool_decide (host = str "127.0.0.1") then Some 2130706433 else None.

#[local] Existing Instance minstd_rand0.

Fixpoint run (es : list event) (k : ConnectionKeeper) : result ConnectionKeeper :=
  match es with
  | [] => Ok k
  | e :: es => if enabled k e then k ← handle local_host e k; run es k else Fault AssertFailed
  end.

(** Both connections are established and send; the timer of the first one expires
    and it sends again, the second one is closed by the peer and replaced. *)
Definition demo_events : list event :=
  [EvOp 0 0 (Succeeded []) true; EvOp 1 0 (Succeeded []) true;
   EvOp 0 0 (Succeeded []) true; EvOp 0 1 (Succeeded []) true; EvOp 0 1 (Succeeded []) true;
   EvOp 0 0 (Succeeded (str "END" ++ crlf)) true; EvOp 1 1 (Failed 0) true; EvOp 1 0 (Failed 3) true;
   EvCheck; EvCheck].
Definition demo : ConnectionKeeper :=
  match Start local_host (Keeper_ctor (str "127.0.0.1") 11311 2) ≫= run demo_events with
  | Ok k => k
  | Fault _ => Keeper_ctor [] 0 0
  end.

Lemma demo_run_reachable es : forall k k',
  reachable local_host (str "127.0.0.1") 11311 2 k -> run es k = Ok k' ->
  reachable local_host (str "127.0.0.1") 11311 2 k'.
Proof.
  induction es as [|e es IH]; intros k k' Hr H; cbn in H; [by ok_inv|]. destruct (enabled k e) eqn:He; [|done].
  apply bind_Ok in H as (k1 & H1 & H). eapply IH; [|exact H]. by eapply reachable_event.
Qed.
Lemma demo_reachable : reachable local_host (str "127.0.0.1") 11311 2 demo.
Proof.
  unfold demo.
  assert (match Start local_host (Keeper_ctor (str "127.0.0.1") 11311 2) ≫= run demo_events with
          | Ok _ => true | Fault _ => false end = true) as Hk by (vm_compute; reflexivity).
  destruct (_ ≫= _) as [k|f] eqn:Hr; [|discriminate]. apply bind_Ok in Hr as (k0 & H0 & H).
  eapply demo_run_reachable; [|exact H]. by apply reachable_start.
Qed.

Lemma stress_sends_whole_queries_witness :
  exists c, objects demo !! 0%nat = Some c /\ query_data_ c = get_query /\
    exists part, wire c = whole_queries (32768 - repeat_ c) c ++ part /\ part `prefix_of` query_data_ c.
Proof.
  assert (bool_decide (is_Some (objects demo !! 0%nat)) = true) as Hs by (vm_compute; reflexivity).
  apply bool_decide_eq_true in Hs as [c Hc].
  pose proof (stress_sends_whole_queries local_host (str "127.0.0.1") 11311 2 demo 0%nat c demo_reachable Hc)
    as (Hq & _ & (part & Hw & Hp & _) & _).
  exists c. split; [exact Hc|]. split; [rewrite Hq; vm_compute; reflexivity|]. exists part. split; [exact Hw|exact Hp].
Defined.

Example demo_state :
  objects demo !! 1%nat ≫= (fun c => Some (closed_ c, wire c)) = Some (true, str "get") /\
  topic_conn_ demo = [0; 2]%nat /\ cout demo = str "END" ++ crlf.
Proof. vm_compute. done. Qed.
